(* ===== verification/_CoqProject ===== *)
-Q . S2P
Prelude.v
RustStr.v
Identifiers.v
RoomVersion.v
BTree.v
Json.v
Canonical.v
Redaction.v
Signatures.v
Events.v
Membership.v
EventAuth.v
TopoSort.v
StateRes.v
Convergence.v
Effects.v
Calls.v
StateFrames.v
FrameStore.v
AuthChain.v
Sending.v
SendingChannels.v
SendingLive.v
Decimal.v
PushMatch.v
FlatJson.v
Push.v
Ruleset.v
PushDefaults.v
RulesetSpec.v
IndexSetModel.v
PushJson.v
AccountData.v
AccountSpec.v
PushRules.v
PushRulesSpec.v
PushRulesExamples.v
RoomPowerLevels.v
EventStore.v
AppendPdu.v
Incoming.v
StoreHistory.v
Admission.v
Authenticity.v
AppendSpec.v
IncomingSpec.v
LocalPdu.v
LocalSpec.v
IncomingExamples.v
LocalExamples.v
Visibility.v
Disclosure.v
VisibilitySpec.v
DisclosureSpec.v
DisclosureExamples.v
Timeline.v
Backfill.v
TimelineSpec.v
StreamSpec.v
BackfillSpec.v
TimelineExamples.v
BackfillExamples.v
