(* ===== verification/Prelude.v ===== *)
(** * Palpo: room events, room state, delivery and push rules

    Palpo is a Matrix homeserver.  This library models what every server of a
    room must compute alike (the syntax of identifiers, the rules of each room
    version, canonical JSON, redaction, signatures, authorization and state
    resolution) and the services built on it: the storage of room states, auth
    chains, the handling of events from other servers and from local users, who
    may see an event, what other servers may read and how clients page through
    a room, the delivery of events to
    other servers, and push rules from the matching of an event down to the
    table that stores them.  The sources are
    under [src/crates/]; below, [core/] stands for [src/crates/core/src/],
    [validation/] for [src/crates/identifiers-validation/src/], [server/] for
    [src/crates/server/src/] and [data/] for [src/crates/data/src/].

    ** Parts and how they interact

    An event received from another server is parsed, its signatures and content
    hash are checked on its redacted form, it is authorized against the auth
    events it cites and against the room state, and where the room has forked
    the states of the forks are resolved by running the authorization rules
    over the conflicted events in a fixed order.  An accepted event is appended
    to the timeline and to the state frames of its room, queued for the other
    servers of the room, and evaluated against the push rules of every local
    member.  An event of a local user is completed from the room, authorized,
    hashed and signed, and then takes the same path.  Who may see a stored event
    is decided on the room state before it.  The files follow that path; each
    requires the ones it calls.

    Common ground:
    - [Prelude]: results ([result] for [Result]; [comp] for code that may also
      panic or loop), their monads, the orders used for sorting, [sort_by_key],
      and [HashOrder], the unspecified iteration order of [HashMap]/[HashSet].
    - [RustStr]: the [str] functions the sources use, on UTF-8 byte strings:
      [find], slicing at character boundaries, [trim], integer parsing at its
      width, [Ipv6Addr::from_str].
    - [BTree]: [BTreeMap] with string keys as a sorted association list.
    - [Effects]: the errors of the server, the monad [St] of operations that
      change a store and may fail half way, [LruCache], big-endian integers.
    - [Calls]: handlers as trees whose nodes are the calls of one operation, so
      that theorems can speak of the calls a run makes and of the store in which
      each is made.
    - [Decimal]: printing and parsing of [u64].

    Events:
    - [Identifiers]: [validation/*.rs] and the accessors of
      [core/identifiers/*.rs].  [Unicode] is the table behind
      [char::is_alphanumeric].
    - [RoomVersion]: [core/room_version_rules.rs] (one Module per rule set) and
      [core/identifiers/room_version_id.rs].
    - [Json]: JSON values, the serde behaviour of the derived structs, and the
      power-level readers of [core/serde/strings.rs].
    - [Canonical]: [core/serde/canonical_json.rs] and [canonical_json/value.rs].
    - [Redaction]: [core/serde/canonical_json/redaction.rs].
    - [Signatures]: [core/signatures/functions.rs] and [verification.rs].
      [Crypto] stands for SHA-256, Base64, Ed25519 and the printing of
      canonical JSON by serde_json.
    - [Events]: [core/state/events/*.rs], the lazily read contents of the events
      the rules look at (Modules [RoomCreate], [RoomMember],
      [ThirdPartyInvite], [PowerLevels]); an event is a [Pdu], the values of
      the methods of the [Event] trait.
    - [Membership]: [core/state/event_auth/room_member.rs].
    - [EventAuth]: [core/state/event_auth.rs].
    - [TopoSort]: [reverse_topological_power_sort] of [core/state.rs].
    - [StateRes]: the rest of [core/state.rs], with the facts about its loops.
    - [Convergence]: what state resolution as a whole guarantees.

    Room state and auth chains:
    - [StateFrames]: [server/room/state.rs], [state/diff.rs], [state/frame.rs],
      [state/field.rs] and the tables of [data/room.rs] they use.
    - [FrameStore]: that frames implement maps from event type and state key to
      events.
    - [AuthChain]: [server/room/auth_chain.rs], its traversal and its caches.

    Delivery:
    - [Sending]: [server/sending.rs], [server/sending/guard.rs] and
      [data/sending.rs]; [Guard] is the state of the worker, [turn] one turn of
      its loop.  Any connection to the database may fail, also in the middle of a
      turn ([db_calls]), and another process can change the rows ([Elsewhere]),
      which the theorems exclude.
    - [SendingChannels]: the abstract channel of one destination and the
      simulation.
    - [SendingLive]: what the worker as a whole guarantees.

    Handling of events:
    - [RoomPowerLevels]: [core/events/room/power_levels.rs] and
      [core/power_levels.rs], and how its answers relate to the authorization
      rules.
    - [EventStore]: the tables of events ([data/room.rs]), reading, saving,
      replacing and redacting events ([server/event.rs], [server/event/pdu.rs],
      [server/room/timeline.rs], [server/room/state.rs], [server/room.rs]) and
      the room's ACL.  [Call] lists what the handlers ask of other servers and
      of the parts that are not modelled (membership tables, push actions,
      appservices, search), [Services] answers: any state, any answer, any
      error.
    - [AppendPdu]: [append_pdu] of [server/room/timeline.rs].
    - [Incoming]: [server/event/handler.rs], [outlier.rs], [fetching.rs],
      [resolver.rs]; the handlers that call [process_to_timeline_pdu] are trees of
      these calls ([incoming_pdu] for [process_incoming_pdu], [pulled_pdu],
      [missing_events_of]).
    - [StoreHistory]: relations between the store before and after that every
      handler keeps, and the tactics for them.
    - [Admission], [Authenticity], [AppendSpec], [IncomingSpec]: what enters the
      timeline, what is stored, and what appending leaves behind.
    - [LocalPdu], [LocalSpec]: [PduBuilder], [build_and_append_pdu] and
      [convert_to_outgoing_federation_event].
    - [Visibility], [VisibilitySpec]: [user_can_see] and
      [server_can_see_event].
    - [Disclosure], [DisclosureSpec]: the endpoints of
      [server/routing/federation/event.rs] and [backfill.rs].
    - [Timeline]: tokens ([server/event/batch_token.rs]) and pages
      ([server/room/timeline/topolo.rs], [stream.rs]).
    - [Backfill]: [server/room/timeline/backfill.rs] and [get_messages] of
      [server/routing/client/room/message.rs], trees of calls as well.
    - [TimelineSpec], [StreamSpec], [BackfillSpec]: what pages hold, where their
      tokens lead, and what [get_messages] discloses and lets in.
    - [IncomingExamples], [LocalExamples], [DisclosureExamples],
      [TimelineExamples], [BackfillExamples]: a room to evaluate them on.

    Push rules:
    - [PushMatch]: word and glob matching of [core/push/condition.rs];
      [MatchLib] stands for the wildmatch and regex libraries.
    - [FlatJson]: [core/push/condition/flattened_json.rs].
    - [Push]: actions, conditions and the rules of one kind.
    - [Ruleset]: [core/push.rs], [core/push/ruleset.rs]; [IndexSetLib] stands
      for the indexmap library, by the documented laws of its operations.
    - [PushDefaults]: [core/push/predefined.rs].
    - [RulesetSpec]: insertion, refresh and lookup.
    - [IndexSetModel]: index sets and matching made of lists, to evaluate with.
    - [PushJson]: the JSON form of rules and rulesets.
    - [AccountData]: the account data table, [data/user/data.rs]; a database
      that fails is part of its state.
    - [AccountSpec]: that the table implements a map, and its change log.
    - [PushRules]: [server/user.rs] and the endpoints of
      [server/routing/client/push_rule.rs], with concurrent writers.
    - [PushRulesSpec], [PushRulesExamples]: what the endpoints guarantee.

    ** State and effects

    The code of the first group is free of shared mutable state: [&mut]
    parameters are returned, [async] closures that fetch an event or a state
    entry are pure functions given to the definitions ([FetchEvent],
    [FetchState]).  The services keep their tables and caches in a record and
    are computations [St] over it: a statement of the database is one step, a
    transaction happens as a whole or not at all, and effects before an error
    stay.  What runs between two statements of a handler is an argument (the
    operations of other requests, the turns of the worker), and theorems hold
    for every interleaving.  Maps that are only looked up are [gmap]s; where a
    [HashMap], a [HashSet] or unordered rows are iterated, the order comes from
    [HashOrder], and theorems hold for every order.  Integers are [Z] with the
    ranges and truncating casts of the source written out.  Errors keep the
    constructor and lose the message; log output is left out.  Event types are
    their canonical wire strings, which is what the event type enums compare
    ([timeline_event_type] maps the aliases).  JSON nested deeper than
    serde_json's recursion limit, which it refuses to parse, is outside the
    model.

    ** What is proved

    - Identifiers and versions: which user IDs are valid, that host and port of
      a valid server name never panic, when parsing a key ID or a content URI
      panics, which room versions are read back from their text, that later
      room versions keep the rules of earlier ones, and the range of power
      levels read from JSON.
    - Canonical JSON and redaction: conversion round-trips; which integers
      validation looks at, and that it accepts exactly the objects in which these
      are in range; what redaction keeps, when it fails,
      and that redacting twice is redacting once.
    - Signatures: signed objects verify, hashed and signed events verify
      completely, a verified event has the required signatures, and reference
      hashes ignore redaction and unsigned data.
    - Authorization: which joins are allowed, what kicks, bans, invites and
      ordinary events need, that power-level changes stay within the reach of
      the sender and nobody escalates, which events pass the state-independent
      rules, and that the selected auth events determine the verdict.
    - State resolution: the sort is the smallest topological order, the walk of
      auth chains and the mainline sort meet their specifications, resolution
      ends, keeps agreed state, admits only authorized conflicted events, and
      gives the same result on every server where the conflicted events cite the
      create event; where one does not, the result depends on the iteration order
      of a hash table.
    - Room state: appending an event and saving a state implement the
      operations on maps, older frames stay loadable whatever the cache evicts,
      and a state event appended is the one read back.
    - Auth chains: the traversal ends, also on cycles, and gives exactly the
      events reachable through auth events, with coherent caches.
    - Delivery: whichever connections fail, while no other process works on the
      table, the worker simulates one channel per
      destination, loses no request, delivers each after a bounded number of
      successful transactions, and ends exactly when a success cannot be recorded
      or the requests after it cannot be claimed; with the database reachable it
      strands no destination.  The retry state it means to store is never written.
      A second worker on the same database can make it lose requests.
    - Incoming events: whatever other servers answer, an event enters the
      timeline only in a call of [process_to_timeline_pdu] that the run makes, and
      in the store of that call it is stored and authorized (or an invite for a
      room the server is not in) and its sender is joined; what is stored is what was signed, and
      resolving the state at an event is bounded; a reply to an unknown event is
      lost.
    - Local events: a built event is authorized, recorded with its edges, and
      accepted by the servers it is sent to, from room version 3 on and where no
      other server's signature is required.
    - Power levels: what [RoomPowerLevels] permits is what the authorization
      rules accept.
    - Visibility: the queries for later joins compute the causal order of a
      room, users and servers see exactly what the rules of history visibility
      admit, and the federation endpoints give away nothing else.
    - Reading a room: a page holds the first events of its query that may be
      shown, each judged in the store the one before it left; going backwards its token leads to what follows, provided the times
      of events of equal depth agree with the stream, while going forwards it
      leads back to the same page; the messages endpoint shows only what its
      user may see, and the history it fetches is checked like any event; tokens
      round-trip.
    - Push rules: word matching finds exactly the occurrences at word
      boundaries, flattening keeps every leaf, a new rule lands where asked, a
      refresh keeps the rules of the user but turns them around, documents
      round-trip, the table is a map of values and marks of deleted ones with a
      complete change log, an
      acknowledged edit is never lost, and what is set is what is read.

    ** Fuel

    Loops that are not structural take fuel.  [add_chain_loop] gets one turn
    for its event and one per citation in the full conflicted set
    ([chain_fuel]), proved enough for any events by a weight that decreases
    each turn.  [kahn_loop] gets one turn per event of the graph,
    [auth_chain_loop] one per stored event, [matches_word_fuel] one per byte of
    the text and [load_frame_info] one per frame, all proved enough.  The walks
    along power-levels events ([mainline_loop], [mainline_position]) end only
    because auth chains are acyclic: their fuel is an argument, and theorems
    about them assume a rank bounded by it ([acyclic]).  [resolve_inner] has one
    turn for each event it may visit and [backfill_loop] one for each path in
    the graph, [topo_loop] and [stream_loop] one for each stored event; all take
    what they do without fuel as an argument, and do not depend on it.  [missing_loop] gets [walk_bound] turns, proved enough on any
    graph.  [promote_loop] has no bound, since the loop of the source can go on
    for ever; theorems about it hold for any fuel.

    ** Not modelled

    The HTTP layer, sync, media, the admin interface and configuration are
    input and output around services that are not part of the sources; so is
    what a transaction sends over the network.  Client and federation request
    types are derived (de)serialization.  The membership tables, receipts,
    notification counts, search and the directory are statements of SQL that
    the handlers call; they are operations of [Call].  Joins, invites and leaves
    over federation ([server/membership/]) drive the modelled handlers through
    requests to other servers.  Locks of rooms and events are left out: handlers
    run one after the other, but for the interleavings that are arguments.  The
    canonical serializer ([core/serde/canonical_json/serializer.rs]) makes the
    values the conversion from JSON makes, and Matrix URIs are parsed by an
    external URL library. *)

From stdpp Require Export base gmap strings list sorting.
From Stdlib Require Export ZArith Lia.

(** ** Results and computations *)

(** [Result<A, E>]. *)
Inductive result (E A : Type) : Type :=
| Ok (a : A)
| Err (e : E).
Arguments Ok {E A} a.
Arguments Err {E A} e.

(** A fallible computation that may also panic ([unwrap]/[expect]/slicing out
    of a character boundary) or run out of the fuel given to a loop. *)
Inductive comp (E A : Type) : Type :=
| Done (a : A)
| Fail (e : E)
| Panic
| OutOfFuel.
Arguments Done {E A} a.
Arguments Fail {E A} e.
Arguments Panic {E A}.
Arguments OutOfFuel {E A}.

#[global] Instance result_ret E : MRet (result E) := fun A a => Ok a.
#[global] Instance result_bind E : MBind (result E) := fun A B f m =>
  match m with Ok a => f a | Err e => Err e end.
#[global] Instance result_fmap E : FMap (result E) := fun A B f m =>
  match m with Ok a => Ok (f a) | Err e => Err e end.

#[global] Instance comp_ret E : MRet (comp E) := fun A a => Done a.
#[global] Instance comp_bind E : MBind (comp E) := fun A B f m =>
  match m with
  | Done a => f a
  | Fail e => Fail e
  | Panic => Panic
  | OutOfFuel => OutOfFuel
  end.

Definition of_result {E A} (r : result E A) : comp E A :=
  match r with Ok a => Done a | Err e => Fail e end.
Coercion of_result : result >-> comp.

(** [Result::ok], [Option::ok_or] and [Result::map_err]. *)
Definition ok {E A} (r : result E A) : option A :=
  match r with Ok a => Some a | Err _ => None end.
Definition ok_or {E A} (o : option A) (e : E) : result E A :=
  match o with Some a => Ok a | None => Err e end.
Definition map_err {E E' A} (f : E -> E') (r : result E A) : result E' A :=
  match r with Ok a => Ok a | Err e => Err (f e) end.
Definition comp_map_err {E E' A} (f : E -> E') (c : comp E A) : comp E' A :=
  match c with
  | Done a => Done a
  | Fail e => Fail (f e)
  | Panic => Panic
  | OutOfFuel => OutOfFuel
  end.
Definition is_ok {E A} (r : result E A) : bool :=
  match r with Ok _ => true | Err _ => false end.
Definition isDone {E A} (c : comp E A) : bool :=
  match c with Done _ => true | _ => false end.

#[global] Instance result_eq_dec {E A} `{EqDecision E, EqDecision A} :
  EqDecision (result E A).
Proof. solve_decision. Defined.

(** [?] on the elements of a vector: the results in order, or the first error. *)
Fixpoint mapR {E A B} (f : A -> result E B) (l : list A) : result E (list B) :=
  match l with
  | [] => Ok []
  | x :: l => y ← f x; ys ← mapR f l; Ok (y :: ys)
  end.

Lemma bind_Ok {E A B} (m : result E A) (f : A -> result E B) b :
  m ≫= f = Ok b <-> exists a, m = Ok a /\ f a = Ok b.
Proof.
  destruct m as [a|e]; cbn; split.
  - intros Hf. by exists a.
  - by intros (? & [= ->] & Hf).
  - done.
  - by intros (? & ? & ?).
Qed.

Lemma bind_Done {E A B} (m : comp E A) (f : A -> comp E B) b :
  m ≫= f = Done b <-> exists a, m = Done a /\ f a = Done b.
Proof.
  destruct m as [a| | |]; cbn; split; try done; try (by intros (? & ? & ?)).
  - intros Hf. by exists a.
  - by intros (? & [= ->] & Hf).
Qed.

Lemma of_result_Done {E A} (r : result E A) a : of_result r = Done a <-> r = Ok a.
Proof. destruct r; simpl; split; congruence. Qed.

Lemma ok_Some {E A} (r : result E A) a : ok r = Some a <-> r = Ok a.
Proof. destruct r; simpl; split; congruence. Qed.

Lemma ok_or_Ok {E A} (o : option A) (e : E) a : ok_or o e = Ok a <-> o = Some a.
Proof. destruct o; simpl; split; congruence. Qed.

Lemma map_err_Ok {E E' A} (f : E' -> E) (r : result E' A) a :
  map_err f r = Ok a <-> r = Ok a.
Proof. destruct r; simpl; split; congruence. Qed.

Lemma mapR_Ok {E A B} (f : A -> result E B) l ys :
  mapR f l = Ok ys <-> Forall2 (fun x y => f x = Ok y) l ys.
Proof.
  revert ys; induction l as [|x l IH]; intros ys; cbn [mapR].
  - split; [intros [=<-]; constructor | by inversion 1].
  - rewrite bind_Ok. split.
    + intros (y & Hy & (ys' & Hl & [=<-])%bind_Ok). constructor; [done|]. by apply IH.
    + inversion 1; subst. eexists; split; [done|]. rewrite bind_Ok.
      eexists; split; [by apply IH|done].
Qed.

(** [let Ok(x) = c else { .. }]: an error takes the [else] branch [d]. *)
Definition ok_else {E E' A B} (c : comp E A) (d : comp E' B) (k : A -> comp E' B) : comp E' B :=
  match c with
  | Done a => k a
  | Fail _ => d
  | Panic => Panic
  | OutOfFuel => OutOfFuel
  end.

Lemma comp_map_err_Done {E E' A} (f : E -> E') (c : comp E A) a :
  comp_map_err f c = Done a <-> c = Done a.
Proof. destruct c; simpl; split; congruence. Qed.

(** Closes an equation by evaluating both sides. *)
Ltac by_eval := match goal with |- _ = ?y => vm_cast_no_check (eq_refl y) end.

(** A computation whose loops end within the turns they are given. *)
Definition ends {E A} (c : comp E A) : Prop := c <> OutOfFuel.

Lemma ends_bind {E A B} (m : comp E A) (f : A -> comp E B) :
  ends m -> (forall a, m = Done a -> ends (f a)) -> ends (m ≫= f).
Proof. unfold ends. destruct m; cbn; auto. Qed.

Lemma ends_of_result {E A} (r : result E A) : ends (of_result r).
Proof. by destruct r. Qed.

Lemma ends_map_err {E E' A} (f : E -> E') (c : comp E A) : ends c -> ends (comp_map_err f c).
Proof. unfold ends. by destruct c. Qed.

Lemma ends_ok_else {E E' A B} (c : comp E A) (d : comp E' B) (k : A -> comp E' B) :
  ends c -> ends d -> (forall a, c = Done a -> ends (k a)) -> ends (ok_else c d k).
Proof. unfold ends. destruct c; cbn; auto. Qed.

Create HintDb ends.
#[export] Hint Resolve ends_of_result ends_map_err : ends.

(** Closes [ends c] by the structure of [c]. *)
Ltac solve_ends :=
  repeat first
    [ done
    | solve [auto with ends]
    | apply ends_bind; [|intros ? ?]
    | apply ends_ok_else; [| |intros ? ?]
    | case_match ].

(** Case analysis of a successful monadic computation found in the context. *)
Ltac inv_ok :=
  repeat match goal with
  | H : Ok _ = Ok _ |- _ => injection H as H; subst
  | H : Done _ = Done _ |- _ => injection H as H; subst
  | H : Some _ = Some _ |- _ => injection H as H; subst
  | H : Err _ = Ok _ |- _ => discriminate H
  | H : Fail _ = Done _ |- _ => discriminate H
  | H : Panic = Done _ |- _ => discriminate H
  | H : OutOfFuel = Done _ |- _ => discriminate H
  | H : (_ ≫= _) = Ok _ |- _ =>
      let a := fresh "a" in let Ha := fresh "Ha" in
      apply bind_Ok in H as (a & Ha & H)
  | H : (_ ≫= _) = Done _ |- _ =>
      let a := fresh "a" in let Ha := fresh "Ha" in
      apply bind_Done in H as (a & Ha & H)
  | H : of_result _ = Done _ |- _ => apply of_result_Done in H
  | H : comp_map_err _ _ = Done _ |- _ => apply comp_map_err_Done in H
  end.

(** ** Orders given by a comparison function *)

(** What [Ord] promises of [cmp] for a type whose [Eq] is structural. *)
Class TotalCmp {A : Type} (cmp : A -> A -> comparison) : Prop := {
  cmp_eq : forall x y, cmp x y = Eq <-> x = y;
  cmp_opp : forall x y, cmp y x = CompOpp (cmp x y);
  cmp_lt_trans : forall x y z, cmp x y = Lt -> cmp y z = Lt -> cmp x z = Lt
}.
Arguments cmp_eq {A} cmp {_} x y.
Arguments cmp_opp {A} cmp {_} x y.
Arguments cmp_lt_trans {A} cmp {_} x y z _ _.

(** [Ordering::then]. *)
Definition then_cmp (c d : comparison) : comparison :=
  match c with Eq => d | _ => c end.

Definition cmp_le {A} (cmp : A -> A -> comparison) (x y : A) : Prop := cmp x y <> Gt.

Section total_cmp.
Context {A : Type} (cmp : A -> A -> comparison) `{!TotalCmp cmp}.

Lemma cmp_refl x : cmp x x = Eq.
Proof. by apply (cmp_eq cmp). Qed.

Lemma cmp_gt_lt x y : cmp x y = Gt <-> cmp y x = Lt.
Proof. rewrite (cmp_opp cmp x y). destruct (cmp x y); simpl; naive_solver. Qed.

#[global] Instance cmp_le_dec x y : Decision (cmp_le cmp x y).
Proof. unfold cmp_le. destruct (cmp x y); (left; discriminate) || (right; congruence). Defined.

#[global] Instance cmp_le_total : Total (cmp_le cmp).
Proof. intros x y. unfold cmp_le. rewrite (cmp_opp cmp x y). destruct (cmp x y); naive_solver. Qed.

#[global] Instance cmp_le_antisymm : AntiSymm (=) (cmp_le cmp).
Proof.
  intros x y. unfold cmp_le. rewrite (cmp_opp cmp x y).
  destruct (cmp x y) eqn:Hc; simpl; [|congruence..]. intros _ _. by apply (cmp_eq cmp).
Qed.

#[global] Instance cmp_le_trans : Transitive (cmp_le cmp).
Proof.
  intros x y z. unfold cmp_le.
  destruct (cmp x y) eqn:Hxy; [apply (cmp_eq cmp) in Hxy as ->; done| |done].
  destruct (cmp y z) eqn:Hyz; [apply (cmp_eq cmp) in Hyz as <-; by rewrite Hxy| |done].
  by rewrite (cmp_lt_trans cmp x y z).
Qed.

#[global] Instance cmp_le_refl : Reflexive (cmp_le cmp).
Proof. intros x. unfold cmp_le. by rewrite cmp_refl. Qed.

Lemma cmp_not_le x y : ~ cmp_le cmp x y <-> cmp y x = Lt.
Proof. unfold cmp_le. rewrite <- cmp_gt_lt. destruct (cmp x y); naive_solver. Qed.
End total_cmp.

#[global] Instance Z_total_cmp : TotalCmp Z.compare.
Proof.
  split.
  - apply Z.compare_eq_iff.
  - intros. apply Z.compare_antisym.
  - intros x y z. rewrite !Z.compare_lt_iff. lia.
Qed.

#[global] Instance N_total_cmp : TotalCmp N.compare.
Proof.
  split.
  - apply N.compare_eq_iff.
  - intros. apply N.compare_antisym.
  - intros x y z. rewrite !N.compare_lt_iff. lia.
Qed.

#[global] Instance positive_total_cmp : TotalCmp Pos.compare.
Proof.
  split.
  - apply Pos.compare_eq_iff.
  - intros. apply Pos.compare_antisym.
  - intros x y z. rewrite !Pos.compare_lt_iff. lia.
Qed.

Lemma ascii_compare_N (a b : Ascii.ascii) :
  Ascii.compare a b = N.compare (Ascii.N_of_ascii a) (Ascii.N_of_ascii b).
Proof. reflexivity. Qed.

Lemma string_compare_refl s : String.compare s s = Eq.
Proof.
  induction s as [|c s IH]; simpl; [done|].
  by rewrite ascii_compare_N, N.compare_refl.
Qed.

(** [str::cmp]: bytewise lexicographic. *)
#[global] Instance string_total_cmp : TotalCmp String.compare.
Proof.
  split.
  - intros x y. split; [apply String.compare_eq_iff | intros ->; apply string_compare_refl].
  - intros x y. apply String.compare_antisym.
  - intros x; induction x as [|c x IH]; intros [|d y] [|e z]; simpl; try done.
    rewrite !ascii_compare_N.
    destruct (N.compare_spec (Ascii.N_of_ascii c) (Ascii.N_of_ascii d)) as [H1|H1|H1]; [| |done];
    destruct (N.compare_spec (Ascii.N_of_ascii d) (Ascii.N_of_ascii e)) as [H2|H2|H2]; try done;
    destruct (N.compare_spec (Ascii.N_of_ascii c) (Ascii.N_of_ascii e)) as [H3|H3|H3];
    try done; try lia. apply IH.
Qed.

(** [Option]'s derived order: [None] below every [Some]. *)
Definition option_cmp {A} (cmp : A -> A -> comparison) (x y : option A) : comparison :=
  match x, y with
  | None, None => Eq
  | None, Some _ => Lt
  | Some _, None => Gt
  | Some a, Some b => cmp a b
  end.

#[global] Instance option_total_cmp {A} (cmp : A -> A -> comparison) `{!TotalCmp cmp} :
  TotalCmp (option_cmp cmp).
Proof.
  split.
  - intros [x|] [y|]; simpl; try done. rewrite (cmp_eq cmp). naive_solver.
  - intros [x|] [y|]; simpl; try done. apply (cmp_opp cmp).
  - intros [x|] [y|] [z|]; simpl; try done. apply (cmp_lt_trans cmp).
Qed.

(** Lexicographic order on pairs, as derived for tuples. *)
Definition pair_cmp {A B} (cA : A -> A -> comparison) (cB : B -> B -> comparison)
    (x y : A * B) : comparison :=
  then_cmp (cA x.1 y.1) (cB x.2 y.2).

#[global] Instance pair_total_cmp {A B} cA cB `{!@TotalCmp A cA, !@TotalCmp B cB} :
  TotalCmp (pair_cmp cA cB).
Proof.
  split.
  - intros [x1 x2] [y1 y2]; unfold pair_cmp; simpl. unfold then_cmp.
    destruct (cA x1 y1) eqn:H1.
    + apply (cmp_eq cA) in H1 as ->. rewrite (cmp_eq cB). naive_solver.
    + split; [done|]. intros [= -> ->]. by rewrite (cmp_refl cA) in H1.
    + split; [done|]. intros [= -> ->]. by rewrite (cmp_refl cA) in H1.
  - intros [x1 x2] [y1 y2]; unfold pair_cmp; simpl.
    rewrite (cmp_opp cA x1 y1), (cmp_opp cB x2 y2). by destruct (cA x1 y1).
  - intros [x1 x2] [y1 y2] [z1 z2]; unfold pair_cmp, then_cmp; simpl.
    destruct (cA x1 y1) eqn:H1; [apply (cmp_eq cA) in H1 as ->| |done].
    + destruct (cA y1 z1) eqn:H2; [|done..]. apply (cmp_lt_trans cB).
    + intros _. destruct (cA y1 z1) eqn:H2; [apply (cmp_eq cA) in H2 as ->; by rewrite H1| |done].
      by rewrite (cmp_lt_trans cA _ _ _ H1 H2).
Qed.

(** [std::cmp::Reverse]. *)
Definition rev_cmp {A} (cmp : A -> A -> comparison) (x y : A) : comparison := cmp y x.

#[global] Instance rev_total_cmp {A} (cmp : A -> A -> comparison) `{!TotalCmp cmp} :
  TotalCmp (rev_cmp cmp).
Proof.
  unfold rev_cmp. split.
  - intros x y. rewrite (cmp_eq cmp). naive_solver.
  - intros x y. apply (cmp_opp cmp).
  - intros x y z H1 H2. by apply (cmp_lt_trans cmp z y x).
Qed.

#[global] Typeclasses Opaque option_cmp pair_cmp rev_cmp.

(** An order pulled back along an injection. *)
Lemma inj_total_cmp {A B} (f : A -> B) (cmp : B -> B -> comparison)
    `{!TotalCmp cmp, !Inj (=) (=) f} : TotalCmp (fun x y => cmp (f x) (f y)).
Proof.
  split.
  - intros x y. rewrite (cmp_eq cmp). split; [apply (inj f)|congruence].
  - intros x y. apply (cmp_opp cmp).
  - intros x y z. apply (cmp_lt_trans cmp).
Qed.

(** [Vec::sort_by_key] (a stable merge sort). *)
Definition sort_by_key {A K} (cmp : K -> K -> comparison) (key : A -> K) (l : list A) : list A :=
  merge_sort (fun x y => cmp_le cmp (key x) (key y)) l.

Section sort_by_key.
Context {A K : Type} (cmp : K -> K -> comparison) `{!TotalCmp cmp} (key : A -> K).

Lemma sort_by_key_Permutation l : sort_by_key cmp key l ≡ₚ l.
Proof. apply merge_sort_Permutation. Qed.

Lemma sort_by_key_sorted l :
  StronglySorted (fun x y => cmp_le cmp (key x) (key y)) (sort_by_key cmp key l).
Proof.
  apply StronglySorted_merge_sort.
  - intros x y z. apply cmp_le_trans; apply _.
  - intros x y. apply (cmp_le_total cmp).
Qed.

(** Sorting by an injective key does not depend on the initial order. *)
Lemma sort_by_key_unique l1 l2 :
  (forall x y, x ∈ l1 -> y ∈ l1 -> key x = key y -> x = y) ->
  l1 ≡ₚ l2 -> sort_by_key cmp key l1 = sort_by_key cmp key l2.
Proof.
  intros Hinj Hp.
  apply (StronglySorted_unique_strong (fun x y => cmp_le cmp (key x) (key y))).
  - intros x1 x2. rewrite !sort_by_key_Permutation, <- Hp. intros Hx Hy H1 H2.
    apply Hinj; [done..|]. by apply (cmp_le_antisymm cmp).
  - apply sort_by_key_sorted.
  - apply sort_by_key_sorted.
  - by rewrite !sort_by_key_Permutation.
Qed.
End sort_by_key.

(** Iteration of a [BTreeSet<String>]: in increasing order. *)
Definition bset_iter (s : gset string) : list string :=
  sort_by_key String.compare id (elements s).

Lemma elem_of_bset_iter s x : x ∈ bset_iter s <-> x ∈ s.
Proof. unfold bset_iter. by rewrite sort_by_key_Permutation, elem_of_elements. Qed.

Lemma NoDup_bset_iter s : NoDup (bset_iter s).
Proof. unfold bset_iter. rewrite sort_by_key_Permutation. apply NoDup_elements. Qed.

Lemma list_to_set_bset_iter s : list_to_set (bset_iter s) = s.
Proof. apply set_eq. intros x. by rewrite elem_of_list_to_set, elem_of_bset_iter. Qed.

(** ** Iteration order of hash tables *)

(** [std::collections::HashMap] and [HashSet] iterate in an unspecified order:
    a function [hash_perm] about which only [hash_perm_ok] is known. *)
Class HashOrder := {
  hash_perm : forall {A : Type}, list A -> list A;
  hash_perm_ok : forall {A : Type} (l : list A), hash_perm l ≡ₚ l
}.

Definition iter_map {HO : HashOrder} {K V} `{Countable K} (m : gmap K V) : list (K * V) :=
  hash_perm (map_to_list m).
Definition iter_set {HO : HashOrder} {K} `{Countable K} (s : gset K) : list K :=
  hash_perm (elements s).
Definition iter_keys {HO : HashOrder} {K V} `{Countable K} (m : gmap K V) : list K :=
  (iter_map m).*1.

(** Two concrete orders, used to evaluate the definitions. *)
Definition forward_order : HashOrder :=
  {| hash_perm := fun A l => l; hash_perm_ok := fun A l => Permutation_refl l |}.
Definition backward_order : HashOrder :=
  {| hash_perm := fun A l => rev l;
     hash_perm_ok := fun A l => symmetry (Permutation_rev l) |}.

Section hash_order.
Context {HO : HashOrder} {K : Type} `{Countable K}.

Lemma elem_of_iter_set (s : gset K) x : x ∈ iter_set s <-> x ∈ s.
Proof. unfold iter_set. by rewrite hash_perm_ok, elem_of_elements. Qed.

Lemma NoDup_iter_set (s : gset K) : NoDup (iter_set s).
Proof. unfold iter_set. rewrite hash_perm_ok. apply NoDup_elements. Qed.

Lemma elem_of_iter_map {V} (m : gmap K V) k v : (k, v) ∈ iter_map m <-> m !! k = Some v.
Proof. unfold iter_map. by rewrite hash_perm_ok, elem_of_map_to_list. Qed.

Lemma iter_keys_Permutation {V} (m : gmap K V) : iter_keys m ≡ₚ elements (dom m).
Proof.
  unfold iter_keys, iter_map. rewrite hash_perm_ok.
  apply NoDup_Permutation.
  - apply NoDup_fst_map_to_list.
  - apply NoDup_elements.
  - intros k. rewrite elem_of_elements, elem_of_dom, list_elem_of_fmap. split.
    + intros ([k' v] & -> & Hm%elem_of_map_to_list). by exists v.
    + intros [v Hv]. exists (k, v). by rewrite elem_of_map_to_list.
Qed.

Lemma NoDup_iter_keys {V} (m : gmap K V) : NoDup (iter_keys m).
Proof. rewrite iter_keys_Permutation. apply NoDup_elements. Qed.

Lemma elem_of_iter_keys {V} (m : gmap K V) k : k ∈ iter_keys m <-> k ∈ dom m.
Proof. by rewrite iter_keys_Permutation, elem_of_elements. Qed.
End hash_order.

Create HintDb palpo.
#[export] Hint Resolve cmp_refl NoDup_iter_set NoDup_iter_keys : palpo.
