(* ===== verification/RustStr.v ===== *)
(** Rust string and number-parsing primitives the sources rely on.

    A [str] is its sequence of UTF-8 bytes, kept as a [string] of 8-bit
    characters; indices are byte indices, as in Rust.  Only what the modelled
    sources use of the standard library is here: searching, slicing (with its
    panic outside a character boundary), splitting into [char]s, [trim],
    [str::parse] for integers and for [Ipv6Addr]. *)

From S2P Require Import Prelude.
From Stdlib Require Import Ascii.

Open Scope string_scope.
#[global] Arguments ascii_dec : simpl never.

Definition byte_of (c : ascii) : N := N_of_ascii c.

Fixpoint str_len (s : string) : nat :=
  match s with EmptyString => 0 | String _ s => S (str_len s) end.

(** [&s[n..]] and [&s[..n]] at a character boundary. *)
Fixpoint str_drop (n : nat) (s : string) : string :=
  match n, s with
  | O, _ => s
  | S _, EmptyString => EmptyString
  | S n, String _ s => str_drop n s
  end.
Fixpoint str_take (n : nat) (s : string) : string :=
  match n, s with
  | O, _ => EmptyString
  | S _, EmptyString => EmptyString
  | S n, String c s => String c (str_take n s)
  end.

(** [str::find] of a single-byte character. *)
Fixpoint str_find (c : ascii) (s : string) : option nat :=
  match s with
  | EmptyString => None
  | String d s => if ascii_dec c d then Some 0 else S <$> str_find c s
  end.

Definition str_contains (c : ascii) (s : string) : bool :=
  match str_find c s with Some _ => true | None => false end.

Definition str_first (s : string) : option ascii :=
  match s with EmptyString => None | String c _ => Some c end.

Definition str_is_empty (s : string) : bool :=
  match s with EmptyString => true | _ => false end.

(** [str::strip_prefix] for a string pattern. *)
Fixpoint str_strip_prefix (p s : string) : option string :=
  match p, s with
  | EmptyString, _ => Some s
  | String c p, String d s => if ascii_dec c d then str_strip_prefix p s else None
  | String _ _, EmptyString => None
  end.
Definition str_starts_with (p s : string) : bool :=
  match str_strip_prefix p s with Some _ => true | None => false end.

(** [s.bytes().all(f)] *)
Fixpoint str_all (f : ascii -> bool) (s : string) : bool :=
  match s with EmptyString => true | String c s => f c && str_all f s end.

Fixpoint str_rev_app (s acc : string) : string :=
  match s with EmptyString => acc | String c s => str_rev_app s (String c acc) end.
Definition str_rev (s : string) : string := str_rev_app s EmptyString.

(** *** Character boundaries *)

(** A UTF-8 continuation byte, [0b10xxxxxx]. *)
Definition is_continuation (c : ascii) : bool :=
  (128 <=? byte_of c)%N && (byte_of c <? 192)%N.

Definition is_char_boundary (s : string) (i : nat) : bool :=
  match i with
  | O => true
  | _ => match String.get i s with
         | Some c => negb (is_continuation c)
         | None => Nat.eqb i (str_len s)
         end
  end.

(** [&s[i..]]: [None] is the panic of slicing outside a character boundary. *)
Definition str_slice_from (s : string) (i : nat) : option string :=
  if is_char_boundary s i then Some (str_drop i s) else None.

(** [s.chars()], each character given by its UTF-8 encoding. *)
Fixpoint str_chars (s : string) : list string :=
  match s with
  | EmptyString => []
  | String c s =>
      match str_first s, str_chars s with
      | Some d, x :: xs =>
          if is_continuation d then String c x :: xs else String c EmptyString :: x :: xs
      | _, xs => String c EmptyString :: xs
      end
  end.

(** *** Byte classes *)
Definition byte_in (lo hi : N) (c : ascii) : bool := (lo <=? byte_of c)%N && (byte_of c <=? hi)%N.
Definition is_ascii_digit (c : ascii) : bool := byte_in 48 57 c.
Definition is_ascii_lowercase (c : ascii) : bool := byte_in 97 122 c.
Definition is_ascii_uppercase (c : ascii) : bool := byte_in 65 90 c.
Definition is_ascii_alphanumeric (c : ascii) : bool :=
  is_ascii_digit c || is_ascii_lowercase c || is_ascii_uppercase c.
Definition ascii_in (l : list ascii) (c : ascii) : bool := existsb (Ascii.eqb c) l.

(** *** [str::trim] *)

(** The UTF-8 encodings of the characters with the [White_Space] property. *)
Definition b (n : N) : ascii := ascii_of_N n.
Definition bytes (l : list N) : string := String.string_of_list_ascii (b <$> l).
Definition white_space : list string :=
  (((fun n => bytes [n]) <$> [9; 10; 11; 12; 13; 32]%N)
  ++ [bytes [194; 133]%N; bytes [194; 160]%N; bytes [225; 154; 128]%N]
  ++ ((fun n => bytes [226; 128; n]%N) <$> [128; 129; 130; 131; 132; 133; 134; 135; 136; 137; 138; 168; 169; 175]%N)
  ++ [bytes [226; 129; 159]%N; bytes [227; 128; 128]%N])%list.

Definition strip_any (ps : list string) (s : string) : option string :=
  foldr (fun p acc => match str_strip_prefix p s with Some r => Some r | None => acc end) None ps.

Fixpoint trim_start_fuel (n : nat) (ps : list string) (s : string) : string :=
  match n with
  | O => s
  | S n => match strip_any ps s with Some r => trim_start_fuel n ps r | None => s end
  end.

(** Every stripped encoding is non-empty, so the length of [s] bounds the
    number of steps. *)
Definition trim_start (s : string) : string := trim_start_fuel (str_len s) white_space s.
Definition trim_end (s : string) : string :=
  str_rev (trim_start_fuel (str_len s) (str_rev <$> white_space) (str_rev s)).
Definition trim (s : string) : string := trim_end (trim_start s).

(** *** Integer parsing ([from_str_radix] with radix 10) *)

Definition digit_val (c : ascii) : option Z :=
  if is_ascii_digit c then Some (Z.of_N (byte_of c) - 48)%Z else None.

Fixpoint parse_digits_acc (acc : Z) (s : string) : option Z :=
  match s with
  | EmptyString => Some acc
  | String c s => d ← digit_val c; parse_digits_acc (acc * 10 + d) s
  end.
Definition parse_digits (s : string) : option Z :=
  if str_is_empty s then None else parse_digits_acc 0 s.

Definition in_range (lo hi : Z) (o : option Z) : option Z :=
  z ← o; if (lo <=? z)%Z && (z <=? hi)%Z then Some z else None.

Definition U64_MAX : Z := 2 ^ 64 - 1.
Definition I64_MAX : Z := 2 ^ 63 - 1.
Definition I64_MIN : Z := - 2 ^ 63.

(** An unsigned [parse] accepts one leading [+]. *)
Definition parse_unsigned (max : Z) (s : string) : option Z :=
  in_range 0 max
    (match s with
     | String "+" r => parse_digits r
     | _ => parse_digits s
     end).
Definition parse_u64 := parse_unsigned U64_MAX.
Definition parse_u16 := parse_unsigned (2 ^ 16 - 1).

(** A signed [parse] accepts one leading [+] or [-]. *)
Definition parse_i64 (s : string) : option Z :=
  in_range I64_MIN I64_MAX
    (match s with
     | String "+" r => parse_digits r
     | String "-" r => Z.opp <$> parse_digits r
     | _ => parse_digits s
     end).

(** [u as i64]: reinterpretation modulo [2^64]. *)
Definition as_i64 (u : Z) : Z := if (u <=? I64_MAX)%Z then u else (u - 2 ^ 64)%Z.

(** [n as u8] *)
Definition as_u8 (n : nat) : nat := n mod 256.

(** *** [Ipv6Addr::from_str] (acceptance only) *)
Module Ipv6.

Definition hex_val (c : ascii) : option N :=
  if is_ascii_digit c then Some (byte_of c - 48)%N
  else if byte_in 97 102 c then Some (byte_of c - 87)%N
  else if byte_in 65 70 c then Some (byte_of c - 55)%N
  else None.

Definition dec_val (c : ascii) : option N :=
  if is_ascii_digit c then Some (byte_of c - 48)%N else None.

(** Read at most [n] digits: the value, the number of digits and the rest. *)
Fixpoint read_digits (val : ascii -> option N) (radix : N) (n : nat) (acc : N) (cnt : nat)
    (s : string) : N * nat * string :=
  match n, s with
  | S n, String c r =>
      match val c with
      | Some d => read_digits val radix n (acc * radix + d) (S cnt) r
      | None => (acc, cnt, s)
      end
  | _, _ => (acc, cnt, s)
  end.

(** [read_number]: at most [maxd] digits, no further digit may follow, at least
    one digit, and no leading zero unless allowed. *)
Definition read_number (val : ascii -> option N) (radix : N) (maxd : nat) (zero_prefix : bool)
    (max : N) (s : string) : option (N * string) :=
  let '(v, cnt, r) := read_digits val radix maxd 0 0 s in
  let more := match r with String c _ => match val c with Some _ => true | None => false end
                         | EmptyString => false end in
  let has_zero_prefix := match s with String "0" _ => true | _ => false end in
  if more then None
  else if Nat.eqb cnt 0 then None
  else if negb zero_prefix && has_zero_prefix && Nat.ltb 1 cnt then None
  else if (v <=? max)%N then Some (v, r) else None.

(** [read_separator]: a separator is required before every part but the first. *)
Definition read_separator {A} (sep : ascii) (i : nat) (p : string -> option (A * string))
    (s : string) : option (A * string) :=
  match i with
  | O => p s
  | S _ => match s with
           | String c r => if ascii_dec c sep then p r else None
           | EmptyString => None
           end
  end.

Definition read_ipv4_group := read_number dec_val 10 3 false 255.

Definition read_ipv4 (s : string) : option (unit * string) :=
  '(_, s) ← read_separator "." 0 read_ipv4_group s;
  '(_, s) ← read_separator "." 1 read_ipv4_group s;
  '(_, s) ← read_separator "." 2 read_ipv4_group s;
  '(_, s) ← read_separator "." 3 read_ipv4_group s;
  Some (tt, s).

Definition read_group := read_number hex_val 16 4 true 65535.

(** [read_groups]: the number of groups read, whether an embedded IPv4 address
    ended them, and the rest of the input. *)
Fixpoint read_groups (n : nat) (i limit : nat) (s : string) : nat * bool * string :=
  match n with
  | O => (limit, false, s)
  | S n =>
      match (if Nat.ltb i (limit - 1) then read_separator ":" i read_ipv4 s else None) with
      | Some (_, r) => (i + 2, true, r)
      | None =>
          match read_separator ":" i read_group s with
          | Some (_, r) => read_groups n (S i) limit r
          | None => (i, false, s)
          end
      end
  end.

Definition is_ipv6 (s : string) : bool :=
  let '(head, v4, r) := read_groups 8 0 8 s in
  if Nat.eqb head 8 then str_is_empty r
  else if v4 then false
  else match r with
       | String ":" (String ":" r) =>
           let limit := 8 - (head + 1) in
           let '(_, _, r) := read_groups limit 0 limit r in
           str_is_empty r
       | _ => false
       end.

End Ipv6.

(** ** Lemmas *)

Lemma str_len_length s : str_len s = String.length s.
Proof. by induction s; simpl; f_equal. Qed.

Lemma append_cons c s t : String c s ++ t = String c (s ++ t).
Proof. reflexivity. Qed.

Lemma append_empty t : "" ++ t = t.
Proof. reflexivity. Qed.

Lemma str_take_drop n s : str_take n s ++ str_drop n s = s.
Proof. revert s; induction n; intros [|c s]; simpl; [done..|].
  rewrite append_cons. f_equal. apply IHn. Qed.

Lemma str_find_split c s i :
  str_find c s = Some i -> s = str_take i s ++ String c (str_drop (S i) s).
Proof.
  revert i; induction s as [|d s IH]; intros i; simpl; [done|].
  destruct (ascii_dec c d) as [<-|Hne]; [by intros [= <-]|].
  intros (j & Hj & ->)%fmap_Some. simpl. rewrite append_cons. f_equal. by apply IH.
Qed.

Lemma str_find_fresh c s i :
  str_find c s = Some i -> str_contains c (str_take i s) = false.
Proof.
  unfold str_contains. revert i; induction s as [|d s IH]; intros i; simpl; [done|].
  destruct (ascii_dec c d) as [<-|Hne]; [by intros [= <-]|].
  intros (j & Hj & ->)%fmap_Some. simpl. destruct (ascii_dec c d); [done|].
  specialize (IH _ Hj). by destruct (str_find c (str_take j s)).
Qed.

Lemma str_find_lt c s i : str_find c s = Some i -> i < str_len s.
Proof.
  revert i; induction s as [|d s IH]; intros i; simpl; [done|].
  destruct (ascii_dec c d); [intros [= <-]; lia|].
  intros (j & Hj & ->)%fmap_Some. apply IH in Hj. lia.
Qed.

Lemma str_find_app_fresh c p s :
  str_contains c p = false -> str_find c (p ++ String c s) = Some (str_len p).
Proof.
  unfold str_contains. induction p as [|d p IH]; rewrite ?append_cons, ?append_empty; simpl.
  - by destruct (ascii_dec c c).
  - destruct (ascii_dec c d); [done|]. intros Hp.
    destruct (str_find c p); [done|]. by rewrite (IH eq_refl).
Qed.

Lemma str_drop_app p s : str_drop (str_len p) (p ++ s) = s.
Proof. by induction p. Qed.

Lemma str_take_app p s : str_take (str_len p) (p ++ s) = p.
Proof. induction p as [|d p IH]; rewrite ?append_cons; simpl; [done|].
  f_equal. apply IH. Qed.

Lemma parse_digits_acc_ge s acc z :
  (0 <= acc)%Z -> parse_digits_acc acc s = Some z -> (acc <= z)%Z.
Proof.
  revert acc; induction s as [|c s IH]; intros acc Ha; simpl.
  - intros [= ->]. lia.
  - unfold digit_val. destruct (is_ascii_digit c) eqn:Hc; simpl; [|done].
    intros Hz. apply IH in Hz;
      unfold is_ascii_digit, byte_in in Hc; apply andb_prop in Hc as [H1%N.leb_le H2]; lia.
Qed.

Lemma in_range_Some lo hi o z : in_range lo hi o = Some z <-> o = Some z /\ (lo <= z <= hi)%Z.
Proof.
  unfold in_range. destruct o as [x|]; simpl; [|naive_solver].
  destruct (lo <=? x)%Z eqn:H1, (x <=? hi)%Z eqn:H2; simpl;
    (split; [intros [= ->]; split; [done|lia] | intros [[= ->] ?]; try done; lia]) ||
    (split; [done | intros [[= ->] ?]; lia]).
Qed.

Lemma str_all_not_contains f c s :
  f c = false -> str_all f s = true -> str_contains c s = false.
Proof.
  unfold str_contains. intros Hf. induction s as [|d s IH]; simpl; [done|].
  intros [Hd Hs]%andb_prop. destruct (ascii_dec c d) as [<-|]; [congruence|].
  specialize (IH Hs). by destruct (str_find c s).
Qed.

Lemma str_strip_prefix_Some p s r : str_strip_prefix p s = Some r <-> s = p ++ r.
Proof.
  revert s. induction p as [|c p IH]; intros s; cbn [str_strip_prefix].
  { rewrite append_empty. naive_solver. }
  destruct s as [|d s]; [by rewrite append_cons|]. rewrite append_cons.
  destruct (ascii_dec c d) as [->|Hne]; [rewrite IH|]; naive_solver.
Qed.

Lemma str_strip_prefix_app p s : str_strip_prefix p (p ++ s) = Some s.
Proof. by apply str_strip_prefix_Some. Qed.

Lemma str_contains_app c s t :
  str_contains c (s ++ t) = str_contains c s || str_contains c t.
Proof.
  unfold str_contains. induction s as [|d s IH]; [done|]. rewrite append_cons. simpl.
  destruct (ascii_dec c d); [done|].
  destruct (str_find c (s ++ t)), (str_find c s); done.
Qed.

Lemma str_contains_cons c d s :
  str_contains c (String d s) = (if ascii_dec c d then true else str_contains c s).
Proof. unfold str_contains. simpl. destruct (ascii_dec c d); [done|]. by destruct (str_find c s). Qed.

Lemma str_not_contains_find c s : str_contains c s = false <-> str_find c s = None.
Proof. unfold str_contains. by destruct (str_find c s). Qed.

Lemma parse_digits_acc_all acc s z : parse_digits_acc acc s = Some z -> str_all is_ascii_digit s = true.
Proof.
  revert acc; induction s as [|c s IH]; intros acc; simpl; [done|].
  unfold digit_val. destruct (is_ascii_digit c); simpl; [|done]. apply IH.
Qed.

Lemma parse_unsigned_all max s z :
  parse_unsigned max s = Some z -> str_all (fun c => is_ascii_digit c || Ascii.eqb c "+") s = true.
Proof.
  assert (Hd : forall r y, parse_digits r = Some y ->
    str_all (fun c => is_ascii_digit c || Ascii.eqb c "+") r = true).
  { intros r y. unfold parse_digits. destruct (str_is_empty r); [done|].
    intros H%parse_digits_acc_all. induction r as [|c r IH]; simpl in *; [done|].
    apply andb_prop in H as [-> ?]. by apply IH. }
  intros [H _]%in_range_Some. destruct s as [|c s]; [done|].
  destruct (ascii_dec c "+") as [->|Hne]; [by apply Hd in H|].
  apply (Hd _ z). destruct c as [[] [] [] [] [] [] [] []]; done.
Qed.

Lemma str_get_take_drop i s c :
  String.get i s = Some c -> s = str_take i s ++ String c (str_drop (i + 1) s).
Proof.
  revert s; induction i as [|i IH]; intros [|d s]; simpl; try done.
  - by intros [= ->].
  - intros H. rewrite append_cons. f_equal. by apply IH.
Qed.

Lemma str_get_find c s i : str_find c s = Some i -> String.get i s = Some c.
Proof.
  revert i; induction s as [|d s IH]; intros i; simpl; [done|].
  destruct (ascii_dec c d) as [<-|]; [by intros [= <-]|].
  intros (j & Hj & ->)%fmap_Some. by apply IH.
Qed.

Lemma str_take_all s : str_take (str_len s) s = s.
Proof. induction s; simpl; congruence. Qed.

Lemma str_take_ge n s : str_len s <= n -> str_take n s = s.
Proof.
  revert s; induction n; intros [|c s]; simpl; intros; try done; try lia.
  f_equal. apply IHn. lia.
Qed.

Lemma str_len_app s t : str_len (s ++ t) = str_len s + str_len t.
Proof. induction s; [done|]. rewrite append_cons. simpl. by f_equal. Qed.
