(* ===== verification/Identifiers.v ===== *)
(** Matrix identifiers: the validation crate
    ([crates/identifiers-validation/src]) and the accessors of
    [crates/core/src/identifiers] the other components use.

    An identifier is the [string] it wraps, as in the source
    ([#[repr(transparent)] struct UserId(str)]); constructors from untrusted
    text go through the [..._validate] functions.  Slicing after a found [:]
    or [/] is always on a character boundary, so those slices are total;
    [key_id_validate] slices at a truncated index and can panic. *)

From S2P Require Import Prelude RustStr.
From Stdlib Require Import Ascii.

Open Scope string_scope.

(** [char::is_alphanumeric] reads the Unicode tables. *)
Class Unicode := char_is_alphanumeric : string -> bool.

(** The ASCII part of those tables. *)
Definition ascii_unicode : Unicode := fun c =>
  match c with String a EmptyString => is_ascii_alphanumeric a | _ => false end.

Inductive IdParseError :=
| Empty
| InvalidCharacters
| InvalidServerName
| MaximumLengthExceeded
| MissingColon
| MissingLeadingSigil
| WrongUintValue.

Inductive MxcUriError :=
| WrongSchema
| MissingSlash
| MediaIdMalformed
| ServerNameMalformed.

Definition MAX_BYTES : nat := 255.

(** ** Server names *)

Definition server_name_char (c : ascii) : bool :=
  is_ascii_alphanumeric c || ascii_in ["-"; "."]%char c.

Definition server_name_validate (server_name : string) : result IdParseError unit :=
  if str_is_empty server_name then Err InvalidServerName
  else
    end_of_host ←
      (if str_starts_with "[" server_name then
         match str_find "]" server_name with
         | None => Err InvalidServerName
         | Some end_of_ipv6 =>
             if Ipv6.is_ipv6 (str_drop 1 (str_take end_of_ipv6 server_name))
             then Ok (end_of_ipv6 + 1)
             else Err InvalidServerName
         end
       else
         let end_of_host := default (str_len server_name) (str_find ":" server_name) in
         if negb (str_all server_name_char (str_take end_of_host server_name))
         then Err InvalidServerName
         else Ok end_of_host);
    if Nat.eqb end_of_host 0 then Err InvalidServerName
    else if negb (Nat.eqb (str_len server_name) end_of_host)
            && (negb (match String.get end_of_host server_name with
                      | Some c => Ascii.eqb c ":" | None => false end)
                || match parse_u16 (str_drop (end_of_host + 1) server_name) with
                   | Some _ => false | None => true end)
    then Err InvalidServerName
    else Ok tt.

Definition server_name_host (s : string) : string :=
  match str_find "]" s with
  | Some end_of_ipv6 => str_take (end_of_ipv6 + 1) s
  | None => str_take (default (str_len s) (str_find ":" s)) s
  end.

(** [Panic] is a failed [assert!] or [unwrap]. *)
Definition server_name_port (s : string) : comp IdParseError (option Z) :=
  let end_of_host :=
    match str_find "]" s with
    | Some i => i + 1
    | None => default (str_len s) (str_find ":" s)
    end in
  if Nat.eqb (str_len s) end_of_host then Done None
  else match String.get end_of_host s with
       | Some c =>
           if Ascii.eqb c ":" then
             match parse_u16 (str_drop (end_of_host + 1) s) with
             | Some p => Done (Some p)
             | None => Panic
             end
           else Panic
       | None => Panic
       end.

(** ** Sigil identifiers *)

Definition validate_id (id : string) (first_byte : ascii) : result IdParseError unit :=
  if Nat.ltb MAX_BYTES (str_len id) then Err MaximumLengthExceeded
  else if negb (match str_first id with Some c => Ascii.eqb c first_byte | None => false end)
  then Err MissingLeadingSigil
  else Ok tt.

Definition parse_id (id : string) (first_byte : ascii) : result IdParseError nat :=
  _ ← validate_id id first_byte;
  colon_idx ← ok_or (str_find ":" id) MissingColon;
  _ ← server_name_validate (str_drop (colon_idx + 1) id);
  Ok colon_idx.

Definition validate_delimited_id (id : string) (first_byte : ascii) : result IdParseError unit :=
  _ ← parse_id id first_byte; Ok tt.

Definition localpart_is_backwards_compatible (localpart : string) : result IdParseError unit :=
  if str_contains ":" localpart || str_contains "000" localpart
  then Err InvalidCharacters else Ok tt.

Definition user_localpart_char (c : ascii) : bool :=
  is_ascii_digit c || is_ascii_lowercase c
  || ascii_in ["-"; "."; "="; "_"; "/"; "+"]%char c.

Definition localpart_is_fully_conforming (localpart : string) : result IdParseError bool :=
  let is_fully_conforming :=
    negb (str_is_empty localpart) && str_all user_localpart_char localpart in
  if negb is_fully_conforming && str_contains ":" localpart
  then Err InvalidCharacters
  else Ok is_fully_conforming.

Definition user_id_validate (s : string) : result IdParseError unit :=
  colon_idx ← parse_id s "@";
  _ ← localpart_is_fully_conforming (str_drop 1 (str_take colon_idx s));
  Ok tt.

Definition event_id_validate (s : string) : result IdParseError unit :=
  if str_contains ":" s then validate_delimited_id s "$"
  else if negb (str_starts_with "$" s) then Err MissingLeadingSigil
  else Ok tt.

Definition room_alias_id_validate (s : string) : result IdParseError unit :=
  validate_delimited_id s "#".

Definition room_id_validate (s : string) : result IdParseError unit := validate_id s "!".

Definition room_id_or_alias_id_validate (s : string) : result IdParseError unit :=
  match str_first s with
  | Some "#"%char => room_alias_id_validate s
  | Some "!"%char => room_id_validate s
  | _ => Err MissingLeadingSigil
  end.

Definition space_child_order_validate (s : string) : result IdParseError unit :=
  if Nat.ltb 50 (str_len s) then Err MaximumLengthExceeded
  else if negb (str_all (byte_in 32 126) s) then Err InvalidCharacters
  else Ok tt.

Definition voip_version_id_validate (u : Z) : result IdParseError unit :=
  if negb (u =? 0)%Z then Err WrongUintValue else Ok tt.

(** ** Keys and secrets *)

Definition device_key_id_validate (s : string) : result IdParseError unit :=
  colon_idx ← ok_or (str_find ":" s) MissingColon;
  if Nat.eqb colon_idx 0 then Err Empty else Ok tt.

(** [NonZeroU8::new(s.find(':')? as u8)]: the index is truncated to a byte.
    [K] is [KeyName::validate]. *)
Definition key_id_validate (K : string -> result IdParseError unit) (s : string) :
    comp IdParseError nat :=
  colon ← of_result (ok_or (str_find ":" s) MissingColon);
  let colon_idx := as_u8 colon in
  if Nat.eqb colon_idx 0 then Fail MissingColon
  else match str_slice_from s (colon_idx + 1) with
       | None => Panic
       | Some name => _ ← of_result (K name); Done colon_idx
       end.

Definition any_key_name_validate (_ : string) : result IdParseError unit := Ok tt.

(** [KeyId::algorithm]. *)
Definition key_id_algorithm (s : string) : comp IdParseError string :=
  match str_find ":" s with Some i => Done (str_take i s) | None => Panic end.

Section unicode.
Context {U : Unicode}.

Definition base64_public_key_validate (s : string) : result IdParseError unit :=
  if str_is_empty s then Err Empty
  else if negb (forallb (fun c => char_is_alphanumeric c || bool_decide (c ∈ ["+"; "/"; "="]))
                        (str_chars s))
  then Err InvalidCharacters
  else Ok tt.

Definition client_secret_validate (s : string) : result IdParseError unit :=
  if Nat.ltb 255 (str_len s) then Err MaximumLengthExceeded
  else if negb (forallb (fun c => char_is_alphanumeric c || bool_decide (c ∈ ["."; "="; "_"; "-"]))
                        (str_chars s))
  then Err InvalidCharacters
  else if str_is_empty s then Err Empty
  else Ok tt.

Definition server_signing_key_version_validate (s : string) : result IdParseError unit :=
  if str_is_empty s then Err Empty
  else if negb (forallb (fun c => char_is_alphanumeric c || bool_decide (c = "_")) (str_chars s))
  then Err InvalidCharacters
  else Ok tt.

Definition MAX_CODE_POINTS : nat := 32.

Definition room_version_id_validate (s : string) : result IdParseError unit :=
  if str_is_empty s then Err Empty
  else if Nat.ltb MAX_CODE_POINTS (length (str_chars s)) then Err MaximumLengthExceeded
  else if negb (forallb (fun c => char_is_alphanumeric c || bool_decide (c ∈ ["."; "-"]))
                        (str_chars s))
  then Err InvalidCharacters
  else Ok tt.
End unicode.

(** ** Content URIs *)

Definition media_id_char (c : ascii) : bool :=
  is_ascii_alphanumeric c || Ascii.eqb c "-".

(** [Panic]: [NonZeroU8::new((index + 6) as u8).unwrap()]. *)
Definition mxc_uri_validate (uri : string) : comp MxcUriError nat :=
  match str_strip_prefix "mxc://" uri with
  | None => Fail WrongSchema
  | Some uri =>
      match str_find "/" uri with
      | None => Fail MissingSlash
      | Some index =>
          let server_name := str_take index uri in
          let media_id := str_drop (index + 1) uri in
          if negb (str_all media_id_char media_id) then Fail MediaIdMalformed
          else if negb (is_ok (server_name_validate server_name)) then Fail ServerNameMalformed
          else if Nat.eqb (as_u8 (index + 6)) 0 then Panic
          else Done (as_u8 (index + 6))
      end
  end.

(** [MxcUri::parts]: the server name and the media ID.  The truncated index may
    leave [6..idx] with its end before its start, which panics. *)
Definition mxc_uri_parts (uri : string) : comp MxcUriError (string * string) :=
  idx ← mxc_uri_validate uri;
  if Nat.ltb idx 6 then Panic
  else Done (str_drop 6 (str_take idx uri), str_drop (idx + 1) uri).

(** [Display for Mxc] *)
Definition mxc_display (server_name media_id : string) : string :=
  "mxc://" ++ server_name ++ "/" ++ media_id.

(** ** Accessors *)

Definition user_id_server_name (u : string) : comp IdParseError string :=
  match str_find ":" u with Some i => Done (str_drop (i + 1) u) | None => Panic end.

Definition user_id_localpart (u : string) : comp IdParseError string :=
  match str_find ":" u with Some i => Done (str_drop 1 (str_take i u)) | None => Panic end.

Definition event_id_server_name (e : string) : option string :=
  (fun i => str_drop (i + 1) e) <$> str_find ":" e.

Definition event_id_localpart (e : string) : string :=
  str_drop 1 (str_take (default (str_len e) (str_find ":" e)) e).

(** [RoomId::strip_sigil]; [Panic] is its [expect]. *)
Definition room_id_strip_sigil (r : string) : comp IdParseError string :=
  match str_strip_prefix "!" r with Some s => Done s | None => Panic end.

(** [RoomOrAliasId::server_name], which [RoomId::server_name] calls. *)
Definition room_id_server_name (r : string) : option string :=
  i ← str_find ":" r;
  let s := str_drop (i + 1) r in
  if is_ok (server_name_validate s) then Some s else None.

(** [RoomIdExt::room_create_event_id]. *)
Definition room_create_event_id (r : string) : comp IdParseError string :=
  s ← room_id_strip_sigil r;
  _ ← of_result (event_id_validate ("$" ++ s));
  Done ("$" ++ s).

(** ** Lemmas *)

(** The index after the host, as [ServerName::port] computes it. *)
Definition end_of_host (s : string) : nat :=
  match str_find "]" s with
  | Some i => i + 1
  | None => default (str_len s) (str_find ":" s)
  end.

Lemma host_no_bracket s p :
  str_starts_with "[" s = false ->
  str_all server_name_char (str_take (default (str_len s) (str_find ":" s)) s) = true ->
  (str_find ":" s = None \/
   parse_u16 (str_drop (default (str_len s) (str_find ":" s) + 1) s) = Some p) ->
  str_find "]" s = None.
Proof.
  intros _ Hall Hport. apply str_not_contains_find.
  destruct (str_find ":" s) as [i|] eqn:Hi; simpl in *.
  - destruct Hport as [|Hp]; [done|].
    rewrite (str_find_split _ _ _ Hi), str_contains_app, str_contains_cons.
    rewrite (str_all_not_contains _ "]" _ eq_refl Hall), orb_false_l.
    destruct (ascii_dec "]" ":"); [done|]. rewrite Nat.add_1_r in Hp. apply parse_unsigned_all in Hp.
    by rewrite (str_all_not_contains _ "]" _ eq_refl Hp).
  - rewrite str_take_all in Hall. by apply (str_all_not_contains _ "]" _ eq_refl Hall).
Qed.

(** What a validated server name looks like around [end_of_host]. *)
Lemma server_name_valid_shape s :
  server_name_validate s = Ok tt ->
  end_of_host s <> 0 /\
  (str_len s = end_of_host s \/
   String.get (end_of_host s) s = Some ":"%char /\
   exists p, parse_u16 (str_drop (end_of_host s + 1) s) = Some p).
Proof.
  unfold server_name_validate. destruct (str_is_empty s) eqn:He; [done|].
  intros (e & He' & H)%bind_Ok.
  destruct (Nat.eqb e 0) eqn:He0; [done|]. apply Nat.eqb_neq in He0.
  assert (Hport : str_len s = e \/ String.get e s = Some ":"%char /\
            exists p, parse_u16 (str_drop (e + 1) s) = Some p).
  { destruct (Nat.eqb (str_len s) e) eqn:El; [left; by apply Nat.eqb_eq|]. right.
    destruct (String.get e s) as [c|]; simpl in H; [|done].
    destruct (Ascii.eqb c ":") eqn:Ec; simpl in H; [|done].
    apply Ascii.eqb_eq in Ec as ->. split; [done|].
    destruct (parse_u16 _); [by eexists|done]. }
  enough (e = end_of_host s) as <- by done.
  unfold end_of_host. destruct (str_starts_with "[" s) eqn:Hb.
  - destruct (str_find "]" s) as [i|]; [|done]. destruct (Ipv6.is_ipv6 _); [|done].
    by injection He' as <-.
  - destruct (str_all _ _) eqn:Hall; simpl in He'; [|done]. injection He' as <-.
    destruct Hport as [Hl|[Hc [p Hp]]].
    + rewrite (host_no_bracket s 0 Hb Hall); [done|]. left.
      destruct (str_find ":" s) as [i|] eqn:Hi; [|done]. apply str_find_lt in Hi. simpl in Hl. lia.
    + rewrite (host_no_bracket s p Hb Hall); [done|by right].
Qed.

Lemma server_name_host_eq s : server_name_host s = str_take (end_of_host s) s.
Proof. unfold server_name_host, end_of_host. by destruct (str_find "]" s). Qed.

Lemma validate_id_Ok id c :
  validate_id id c = Ok tt <-> str_len id <= MAX_BYTES /\ str_first id = Some c.
Proof.
  unfold validate_id. destruct (Nat.ltb_spec MAX_BYTES (str_len id)).
  - split; [done|lia].
  - destruct (str_first id) as [d|]; simpl; [|naive_solver].
    destruct (Ascii.eqb_spec d c) as [->|Hne]; simpl; [done|].
    split; [done|]. intros [_ [= ?]]; done.
Qed.

Lemma parse_id_Ok id c i :
  c <> ":"%char ->
  parse_id id c = Ok i <->
  exists l srv, id = String c l ++ ":" ++ srv /\ str_contains ":" l = false /\ i = S (str_len l) /\
    server_name_validate srv = Ok tt /\ str_len id <= MAX_BYTES.
Proof.
  intros Hc. unfold parse_id. split.
  - intros H. inv_ok. destruct a, a1. apply validate_id_Ok in Ha as [Hlen Hf].
    apply ok_or_Ok in Ha0. destruct id as [|d id]; [done|]. injection Hf as ->.
    simpl in Ha0. destruct (ascii_dec ":" c); [done|].
    apply fmap_Some in Ha0 as (j & Hj & ->). simpl in Ha1. rewrite Nat.add_1_r in Ha1.
    exists (str_take j id), (str_drop (S j) id). split.
    { rewrite append_cons. f_equal. by apply str_find_split. }
    split; [by apply str_find_fresh|]. split; [|done].
    f_equal. pose proof (str_find_lt _ _ _ Hj). clear -H.
    revert id H; induction j; intros [|x id]; simpl; try lia. intros. f_equal. apply IHj. lia.
  - intros (l & srv & -> & Hl & -> & Hs & Hlen).
    assert (Hv : validate_id (String c l ++ ":" ++ srv) c = Ok tt).
    { apply validate_id_Ok. split; [done|]. by rewrite append_cons. }
    rewrite Hv. cbn [mbind result_bind].
    replace (String c l ++ ":" ++ srv) with (String c l ++ String ":" srv) by done.
    rewrite (str_find_app_fresh ":" (String c l)).
    2:{ rewrite str_contains_cons. by destruct (ascii_dec ":" c). }
    cbn [ok_or mbind result_bind]. rewrite Nat.add_1_r.
    replace (String c l ++ String ":" srv) with ((String c l ++ ":") ++ srv) by
      (clear; rewrite !append_cons; f_equal; induction l; [done|]; rewrite !append_cons; by f_equal).
    replace (S (str_len (String c l))) with (str_len (String c l ++ ":")).
    2:{ rewrite str_len_app. simpl. lia. }
    rewrite str_drop_app, Hs. done.
Qed.

(** ** Properties *)

(** A validated server name never makes [ServerName::port]
    panic (its [assert!] and [unwrap] hold), and the name is its host followed
    by nothing or by [:] and the port text. *)
Theorem server_name_port_total s :
  server_name_validate s = Ok tt ->
  (server_name_port s = Done None /\ s = server_name_host s) \/
  (exists p t, server_name_port s = Done (Some p) /\ parse_u16 t = Some p /\
     s = server_name_host s ++ ":" ++ t).
Proof.
  intros [Hne [Hl|[Hg [p Hp]]]]%server_name_valid_shape;
    rewrite server_name_host_eq; unfold server_name_port; fold (end_of_host s).
  - left. rewrite Hl, Nat.eqb_refl, <- Hl, str_take_all. done.
  - right. exists p, (str_drop (end_of_host s + 1) s).
    assert (str_len s <> end_of_host s) as Hn%Nat.eqb_neq.
    { intros Hl. revert Hg. rewrite <- Hl. clear. induction s; simpl; done. }
    rewrite Hn, Hg, Hp. split; [done|]. split; [done|]. by apply str_get_take_drop.
Qed.

(** [user_id::validate] accepts exactly the strings [@l:s] of at most
    255 bytes whose localpart has no colon and whose server name is valid; on
    them the accessors give back [l] and [s] without panicking. *)
Theorem user_id_validate_iff u :
  user_id_validate u = Ok tt <->
  exists l srv, u = "@" ++ l ++ ":" ++ srv /\ str_contains ":" l = false /\
    server_name_validate srv = Ok tt /\ str_len u <= MAX_BYTES /\
    user_id_localpart u = Done l /\ user_id_server_name u = Done srv.
Proof.
  assert (Hacc : forall l srv, str_contains ":" l = false ->
    str_find ":" (String "@" l ++ ":" ++ srv) = Some (S (str_len l)) /\
    str_take (S (str_len l)) (String "@" l ++ ":" ++ srv) = String "@" l /\
    str_drop (S (str_len l) + 1) (String "@" l ++ ":" ++ srv) = srv).
  { intros l srv Hl. split; [|split].
    - apply (str_find_app_fresh ":" (String "@" l)). by rewrite str_contains_cons.
    - apply (str_take_app (String "@" l)).
    - rewrite Nat.add_1_r. simpl. rewrite append_cons. simpl. clear.
      induction l as [|c l IH]; [done|]. rewrite append_cons. apply IH. }
  unfold user_id_validate, user_id_localpart, user_id_server_name. split.
  - intros (i & Hi & H)%bind_Ok.
    apply parse_id_Ok in Hi as (l & srv & -> & Hl & -> & Hs & Hlen); [|done].
    exists l, srv. destruct (Hacc l srv Hl) as (-> & -> & ->). by rewrite append_cons.
  - intros (l & srv & -> & Hl & Hs & Hlen & _).
    replace ("@" ++ l ++ ":" ++ srv) with (String "@" l ++ ":" ++ srv) in * by done.
    assert (Hp : parse_id (String "@" l ++ ":" ++ srv) "@" = Ok (S (str_len l))).
    { apply parse_id_Ok; [done|]. by exists l, srv. }
    rewrite Hp. cbn [mbind result_bind].
    destruct (Hacc l srv Hl) as (_ & -> & _). cbn [str_drop].
    unfold localpart_is_fully_conforming. rewrite Hl, andb_false_r. done.
Qed.

Lemma append_assoc_str (s t u : string) : (s ++ t) ++ u = s ++ (t ++ u).
Proof. induction s; [done|]. rewrite !append_cons. by f_equal. Qed.

(** On [mxc://server/media] with a valid server name and media ID, the position
    of the slash is reduced modulo 256. *)
Lemma mxc_uri_validate_index srv media :
  server_name_validate srv = Ok tt -> str_contains "/" srv = false ->
  str_all media_id_char media = true ->
  mxc_uri_validate (mxc_display srv media) =
    if Nat.eqb (as_u8 (str_len srv + 6)) 0 then Panic else Done (as_u8 (str_len srv + 6)).
Proof.
  intros Hs Hc Hm. unfold mxc_uri_validate, mxc_display.
  rewrite str_strip_prefix_app.
  replace (srv ++ "/" ++ media) with (srv ++ String "/" media) by done.
  rewrite (str_find_app_fresh "/" srv media Hc), str_take_app.
  replace (str_drop (str_len srv + 1) (srv ++ String "/" media)) with media; last first.
  { replace (srv ++ String "/" media) with ((srv ++ "/") ++ media)
      by (by rewrite append_assoc_str).
    replace (str_len srv + 1) with (str_len (srv ++ "/")) by (by rewrite str_len_app).
    by rewrite str_drop_app. }
  rewrite Hm, Hs. done.
Qed.

(** A content URI printed from a server name of at most 249
    bytes is split back into the same server name and media ID; with one of 250
    to 255 bytes splitting panics. *)
Theorem mxc_uri_parts_roundtrip srv media :
  server_name_validate srv = Ok tt -> str_contains "/" srv = false ->
  str_all media_id_char media = true ->
  (str_len srv <= 249 -> mxc_uri_parts (mxc_display srv media) = Done (srv, media)) /\
  (250 <= str_len srv <= 255 -> mxc_uri_parts (mxc_display srv media) = Panic).
Proof.
  intros Hs Hc Hm. unfold mxc_uri_parts.
  pose proof (mxc_uri_validate_index srv media Hs Hc Hm) as ->. split; intros Hlen.
  - assert (Hidx : as_u8 (str_len srv + 6) = str_len srv + 6) by (apply Nat.mod_small; lia).
    rewrite Hidx, (proj2 (Nat.eqb_neq _ _)) by lia. cbn [mbind comp_bind].
    rewrite (proj2 (Nat.ltb_ge _ _)) by lia. unfold mxc_display. do 2 f_equal.
    + replace (str_len srv + 6) with (str_len ("mxc://" ++ srv)) by (rewrite str_len_app; simpl; lia).
      rewrite <- append_assoc_str, str_take_app. done.
    + replace (str_len srv + 6 + 1) with (str_len (("mxc://" ++ srv) ++ "/"))
        by (rewrite !str_len_app; simpl; lia).
      rewrite <- !append_assoc_str, str_drop_app. done.
  - assert (as_u8 (str_len srv + 6) = str_len srv - 250) as ->.
    { unfold as_u8. replace (str_len srv + 6) with (str_len srv - 250 + 1 * 256) by lia.
      rewrite Nat.Div0.mod_add. apply Nat.mod_small. lia. }
    destruct (Nat.eqb _ 0); [done|]. cbn [mbind comp_bind]. by rewrite (proj2 (Nat.ltb_lt _ _)) by lia.
Qed.

(** With the colon at or after byte 256 the truncated index is used, and a
    multi-byte character across it panics. *)
Lemma key_id_validate_index K s i :
  str_find ":" s = Some i ->
  key_id_validate K s =
    if Nat.eqb (as_u8 i) 0 then Fail MissingColon
    else if is_char_boundary s (as_u8 i + 1) then
      _ ← of_result (K (str_drop (as_u8 i + 1) s)); Done (as_u8 i)
    else Panic.
Proof.
  intros Hi. unfold key_id_validate, str_slice_from. rewrite Hi. simpl.
  destruct (Nat.eqb (as_u8 i) 0); [done|]. by destruct (is_char_boundary s (as_u8 i + 1)).
Qed.

Definition str_repeat (n : nat) (c : ascii) : string := Nat.iter n (String c) "".

(** A key ID of 302 bytes whose byte 45 is inside a three-byte character. *)
Definition long_key_id : string :=
  str_repeat 44 "a" ++ bytes [226; 130; 172]%N ++ str_repeat 253 "a" ++ ":k".

(** [key_id::validate] panics exactly when the index of the
    colon, reduced modulo 256, is not zero and the byte after it is out of
    range or inside a character; such key IDs exist. *)
Theorem key_id_validate_panics K :
  (forall s, key_id_validate K s = Panic <->
     exists i, str_find ":" s = Some i /\ as_u8 i <> 0 /\ is_char_boundary s (as_u8 i + 1) = false) /\
  key_id_validate K long_key_id = Panic.
Proof.
  split.
  - intros s. destruct (str_find ":" s) as [i|] eqn:Hi.
    + rewrite (key_id_validate_index K s i Hi). destruct (Nat.eqb_spec (as_u8 i) 0) as [H0|H0].
      { split; [done|]. intros (j & [= <-] & Hne & _). done. }
      destruct (is_char_boundary s (as_u8 i + 1)) eqn:Hb.
      * split; [by destruct (K _)|]. intros (j & [= <-] & _ & Hj). congruence.
      * split; [intros _; by exists i|done].
    + unfold key_id_validate. rewrite Hi. split; [done|]. by intros (? & ? & _).
  - rewrite (key_id_validate_index K long_key_id 300) by reflexivity. reflexivity.
Qed.

(** For a room ID without a colon, as in room version 12, the create event's ID
    is the room ID with its sigil replaced. *)
Lemma room_create_event_id_hash h :
  str_contains ":" h = false -> room_create_event_id ("!" ++ h) = Done ("$" ++ h).
Proof.
  intros Hh. unfold room_create_event_id, room_id_strip_sigil. rewrite str_strip_prefix_app.
  cbn [mbind comp_bind]. unfold event_id_validate, str_starts_with.
  by rewrite str_contains_app, Hh, str_strip_prefix_app.
Qed.

(** ** Witnesses *)

Lemma server_name_port_total_witness :
  (server_name_port "matrix.org:8448" = Done None /\ "matrix.org:8448" = server_name_host "matrix.org:8448") \/
  (exists p t, server_name_port "matrix.org:8448" = Done (Some p) /\ parse_u16 t = Some p /\
     "matrix.org:8448" = server_name_host "matrix.org:8448" ++ ":" ++ t).
Proof. apply (server_name_port_total "matrix.org:8448"). vm_compute. reflexivity. Defined.

Lemma mxc_uri_parts_roundtrip_witness :
  (str_len "matrix.org" <= 249 ->
   mxc_uri_parts (mxc_display "matrix.org" "abc-1") = Done ("matrix.org", "abc-1")) /\
  (250 <= str_len "matrix.org" <= 255 -> mxc_uri_parts (mxc_display "matrix.org" "abc-1") = Panic).
Proof. apply (mxc_uri_parts_roundtrip "matrix.org" "abc-1"); vm_compute; reflexivity. Defined.
