(* ===== verification/RoomVersion.v ===== *)
(** Room versions: [crates/core/src/room_version_rules.rs] and the
    [RoomVersionId] of [crates/core/src/identifiers/room_version_id.rs].

    Each rules struct is a [Module] with its record [t] and the associated
    constants; [..Self::V1] in the source is the projection of the base
    constant here.  The server is built with the [unstable-msc2870] feature,
    so the fields and constants under that [cfg] are present. *)

From S2P Require Import Prelude RustStr Identifiers.

Open Scope string_scope.

Module AuthorizationRules.

Record t := {
  special_case_room_redaction : bool;
  special_case_room_aliases : bool;
  strict_canonical_json : bool;
  limit_notifications_power_levels : bool;
  knocking : bool;
  restricted_join_rule : bool;
  knock_restricted_join_rule : bool;
  integer_power_levels : bool;
  use_room_create_sender : bool;
  explicitly_privilege_room_creators : bool;
  additional_room_creators : bool;
  room_create_event_id_as_room_id : bool
}.

Definition V1 : t := {|
  special_case_room_redaction := true;
  special_case_room_aliases := true;
  strict_canonical_json := false;
  limit_notifications_power_levels := false;
  knocking := false;
  restricted_join_rule := false;
  knock_restricted_join_rule := false;
  integer_power_levels := false;
  use_room_create_sender := false;
  explicitly_privilege_room_creators := false;
  additional_room_creators := false;
  room_create_event_id_as_room_id := false
|}.

Definition V3 : t := {|
  special_case_room_redaction := false;
  special_case_room_aliases := V1.(special_case_room_aliases);
  strict_canonical_json := V1.(strict_canonical_json);
  limit_notifications_power_levels := V1.(limit_notifications_power_levels);
  knocking := V1.(knocking);
  restricted_join_rule := V1.(restricted_join_rule);
  knock_restricted_join_rule := V1.(knock_restricted_join_rule);
  integer_power_levels := V1.(integer_power_levels);
  use_room_create_sender := V1.(use_room_create_sender);
  explicitly_privilege_room_creators := V1.(explicitly_privilege_room_creators);
  additional_room_creators := V1.(additional_room_creators);
  room_create_event_id_as_room_id := V1.(room_create_event_id_as_room_id)
|}.

Definition V6 : t := {|
  special_case_room_redaction := V3.(special_case_room_redaction);
  special_case_room_aliases := false;
  strict_canonical_json := true;
  limit_notifications_power_levels := true;
  knocking := V3.(knocking);
  restricted_join_rule := V3.(restricted_join_rule);
  knock_restricted_join_rule := V3.(knock_restricted_join_rule);
  integer_power_levels := V3.(integer_power_levels);
  use_room_create_sender := V3.(use_room_create_sender);
  explicitly_privilege_room_creators := V3.(explicitly_privilege_room_creators);
  additional_room_creators := V3.(additional_room_creators);
  room_create_event_id_as_room_id := V3.(room_create_event_id_as_room_id)
|}.

Definition V7 : t := {|
  special_case_room_redaction := V6.(special_case_room_redaction);
  special_case_room_aliases := V6.(special_case_room_aliases);
  strict_canonical_json := V6.(strict_canonical_json);
  limit_notifications_power_levels := V6.(limit_notifications_power_levels);
  knocking := true;
  restricted_join_rule := V6.(restricted_join_rule);
  knock_restricted_join_rule := V6.(knock_restricted_join_rule);
  integer_power_levels := V6.(integer_power_levels);
  use_room_create_sender := V6.(use_room_create_sender);
  explicitly_privilege_room_creators := V6.(explicitly_privilege_room_creators);
  additional_room_creators := V6.(additional_room_creators);
  room_create_event_id_as_room_id := V6.(room_create_event_id_as_room_id)
|}.

Definition V8 : t := {|
  special_case_room_redaction := V7.(special_case_room_redaction);
  special_case_room_aliases := V7.(special_case_room_aliases);
  strict_canonical_json := V7.(strict_canonical_json);
  limit_notifications_power_levels := V7.(limit_notifications_power_levels);
  knocking := V7.(knocking);
  restricted_join_rule := true;
  knock_restricted_join_rule := V7.(knock_restricted_join_rule);
  integer_power_levels := V7.(integer_power_levels);
  use_room_create_sender := V7.(use_room_create_sender);
  explicitly_privilege_room_creators := V7.(explicitly_privilege_room_creators);
  additional_room_creators := V7.(additional_room_creators);
  room_create_event_id_as_room_id := V7.(room_create_event_id_as_room_id)
|}.

Definition V10 : t := {|
  special_case_room_redaction := V8.(special_case_room_redaction);
  special_case_room_aliases := V8.(special_case_room_aliases);
  strict_canonical_json := V8.(strict_canonical_json);
  limit_notifications_power_levels := V8.(limit_notifications_power_levels);
  knocking := V8.(knocking);
  restricted_join_rule := V8.(restricted_join_rule);
  knock_restricted_join_rule := true;
  integer_power_levels := true;
  use_room_create_sender := V8.(use_room_create_sender);
  explicitly_privilege_room_creators := V8.(explicitly_privilege_room_creators);
  additional_room_creators := V8.(additional_room_creators);
  room_create_event_id_as_room_id := V8.(room_create_event_id_as_room_id)
|}.

Definition V11 : t := {|
  special_case_room_redaction := V10.(special_case_room_redaction);
  special_case_room_aliases := V10.(special_case_room_aliases);
  strict_canonical_json := V10.(strict_canonical_json);
  limit_notifications_power_levels := V10.(limit_notifications_power_levels);
  knocking := V10.(knocking);
  restricted_join_rule := V10.(restricted_join_rule);
  knock_restricted_join_rule := V10.(knock_restricted_join_rule);
  integer_power_levels := V10.(integer_power_levels);
  use_room_create_sender := true;
  explicitly_privilege_room_creators := V10.(explicitly_privilege_room_creators);
  additional_room_creators := V10.(additional_room_creators);
  room_create_event_id_as_room_id := V10.(room_create_event_id_as_room_id)
|}.

Definition V12 : t := {|
  special_case_room_redaction := V11.(special_case_room_redaction);
  special_case_room_aliases := V11.(special_case_room_aliases);
  strict_canonical_json := V11.(strict_canonical_json);
  limit_notifications_power_levels := V11.(limit_notifications_power_levels);
  knocking := V11.(knocking);
  restricted_join_rule := V11.(restricted_join_rule);
  knock_restricted_join_rule := V11.(knock_restricted_join_rule);
  integer_power_levels := V11.(integer_power_levels);
  use_room_create_sender := V11.(use_room_create_sender);
  explicitly_privilege_room_creators := true;
  additional_room_creators := true;
  room_create_event_id_as_room_id := true
|}.

End AuthorizationRules.

Module RedactionRules.

Record t := {
  keep_room_aliases_aliases : bool;
  keep_room_join_rules_allow : bool;
  keep_room_member_join_authorised_via_users_server : bool;
  keep_origin_membership_prev_state : bool;
  keep_room_create_content : bool;
  keep_room_redaction_redacts : bool;
  keep_room_power_levels_invite : bool;
  keep_room_member_third_party_invite_signed : bool;
  content_field_redacts : bool;
  keep_room_server_acl_allow_deny_allow_ip_literals : bool
}.

Definition V1 : t := {|
  keep_room_aliases_aliases := true;
  keep_room_join_rules_allow := false;
  keep_room_member_join_authorised_via_users_server := false;
  keep_origin_membership_prev_state := true;
  keep_room_create_content := false;
  keep_room_redaction_redacts := false;
  keep_room_power_levels_invite := false;
  keep_room_member_third_party_invite_signed := false;
  content_field_redacts := false;
  keep_room_server_acl_allow_deny_allow_ip_literals := false
|}.

Definition V6 : t := {|
  keep_room_aliases_aliases := false;
  keep_room_join_rules_allow := V1.(keep_room_join_rules_allow);
  keep_room_member_join_authorised_via_users_server := V1.(keep_room_member_join_authorised_via_users_server);
  keep_origin_membership_prev_state := V1.(keep_origin_membership_prev_state);
  keep_room_create_content := V1.(keep_room_create_content);
  keep_room_redaction_redacts := V1.(keep_room_redaction_redacts);
  keep_room_power_levels_invite := V1.(keep_room_power_levels_invite);
  keep_room_member_third_party_invite_signed := V1.(keep_room_member_third_party_invite_signed);
  content_field_redacts := V1.(content_field_redacts);
  keep_room_server_acl_allow_deny_allow_ip_literals := V1.(keep_room_server_acl_allow_deny_allow_ip_literals)
|}.

Definition V8 : t := {|
  keep_room_aliases_aliases := V6.(keep_room_aliases_aliases);
  keep_room_join_rules_allow := true;
  keep_room_member_join_authorised_via_users_server := V6.(keep_room_member_join_authorised_via_users_server);
  keep_origin_membership_prev_state := V6.(keep_origin_membership_prev_state);
  keep_room_create_content := V6.(keep_room_create_content);
  keep_room_redaction_redacts := V6.(keep_room_redaction_redacts);
  keep_room_power_levels_invite := V6.(keep_room_power_levels_invite);
  keep_room_member_third_party_invite_signed := V6.(keep_room_member_third_party_invite_signed);
  content_field_redacts := V6.(content_field_redacts);
  keep_room_server_acl_allow_deny_allow_ip_literals := V6.(keep_room_server_acl_allow_deny_allow_ip_literals)
|}.

Definition V9 : t := {|
  keep_room_aliases_aliases := V8.(keep_room_aliases_aliases);
  keep_room_join_rules_allow := V8.(keep_room_join_rules_allow);
  keep_room_member_join_authorised_via_users_server := true;
  keep_origin_membership_prev_state := V8.(keep_origin_membership_prev_state);
  keep_room_create_content := V8.(keep_room_create_content);
  keep_room_redaction_redacts := V8.(keep_room_redaction_redacts);
  keep_room_power_levels_invite := V8.(keep_room_power_levels_invite);
  keep_room_member_third_party_invite_signed := V8.(keep_room_member_third_party_invite_signed);
  content_field_redacts := V8.(content_field_redacts);
  keep_room_server_acl_allow_deny_allow_ip_literals := V8.(keep_room_server_acl_allow_deny_allow_ip_literals)
|}.

Definition V11 : t := {|
  keep_room_aliases_aliases := V9.(keep_room_aliases_aliases);
  keep_room_join_rules_allow := V9.(keep_room_join_rules_allow);
  keep_room_member_join_authorised_via_users_server := V9.(keep_room_member_join_authorised_via_users_server);
  keep_origin_membership_prev_state := false;
  keep_room_create_content := true;
  keep_room_redaction_redacts := true;
  keep_room_power_levels_invite := true;
  keep_room_member_third_party_invite_signed := true;
  content_field_redacts := true;
  keep_room_server_acl_allow_deny_allow_ip_literals := V9.(keep_room_server_acl_allow_deny_allow_ip_literals)
|}.

Definition MSC2870 : t := {|
  keep_room_aliases_aliases := V11.(keep_room_aliases_aliases);
  keep_room_join_rules_allow := V11.(keep_room_join_rules_allow);
  keep_room_member_join_authorised_via_users_server := V11.(keep_room_member_join_authorised_via_users_server);
  keep_origin_membership_prev_state := V11.(keep_origin_membership_prev_state);
  keep_room_create_content := V11.(keep_room_create_content);
  keep_room_redaction_redacts := V11.(keep_room_redaction_redacts);
  keep_room_power_levels_invite := V11.(keep_room_power_levels_invite);
  keep_room_member_third_party_invite_signed := V11.(keep_room_member_third_party_invite_signed);
  content_field_redacts := V11.(content_field_redacts);
  keep_room_server_acl_allow_deny_allow_ip_literals := true
|}.

End RedactionRules.

Module SignaturesRules.

Record t := {
  check_event_id_server : bool;
  check_join_authorised_via_users_server : bool
}.

Definition V1 : t := {|
  check_event_id_server := true;
  check_join_authorised_via_users_server := false
|}.

Definition V3 : t := {|
  check_event_id_server := false;
  check_join_authorised_via_users_server := V1.(check_join_authorised_via_users_server)
|}.

Definition V8 : t := {|
  check_event_id_server := V3.(check_event_id_server);
  check_join_authorised_via_users_server := true
|}.

End SignaturesRules.

Module EventFormatRules.

Record t := {
  require_event_id : bool;
  require_room_create_room_id : bool;
  allow_room_create_in_auth_events : bool
}.

Definition V1 : t := {|
  require_event_id := true;
  require_room_create_room_id := true;
  allow_room_create_in_auth_events := true
|}.

Definition V3 : t := {|
  require_event_id := false;
  require_room_create_room_id := V1.(require_room_create_room_id);
  allow_room_create_in_auth_events := V1.(allow_room_create_in_auth_events)
|}.

Definition V12 : t := {|
  require_event_id := V3.(require_event_id);
  require_room_create_room_id := false;
  allow_room_create_in_auth_events := false
|}.

End EventFormatRules.

Module StateResolutionV2Rules.

Record t := {
  begin_iterative_auth_check_with_empty_state_map : bool;
  consider_conflicted_state_subgraph : bool
}.

Definition V2_0 : t := {|
  begin_iterative_auth_check_with_empty_state_map := false;
  consider_conflicted_state_subgraph := false
|}.

Definition V2_1 : t := {|
  begin_iterative_auth_check_with_empty_state_map := true;
  consider_conflicted_state_subgraph := true
|}.

End StateResolutionV2Rules.

Inductive RoomVersionDisposition := Stable | Unstable.
Inductive EventIdFormatVersion := EventIdFormat_V1 | EventIdFormat_V2 | EventIdFormat_V3.
Inductive RoomIdFormatVersion := RoomIdFormat_V1 | RoomIdFormat_V2.
Inductive StateResolutionVersion :=
| StateResolution_V1
| StateResolution_V2 (rules : StateResolutionV2Rules.t).

Definition v2_rules (v : StateResolutionVersion) : option StateResolutionV2Rules.t :=
  match v with StateResolution_V2 rules => Some rules | StateResolution_V1 => None end.

Module RoomVersionRules.

Record t := {
  disposition : RoomVersionDisposition;
  event_id_format : EventIdFormatVersion;
  room_id_format : RoomIdFormatVersion;
  state_resolution : StateResolutionVersion;
  enforce_key_validity : bool;
  authorization : AuthorizationRules.t;
  redaction : RedactionRules.t;
  signatures : SignaturesRules.t;
  event_format : EventFormatRules.t
}.

Definition V1 : t := {|
  disposition := Stable;
  event_id_format := EventIdFormat_V1;
  room_id_format := RoomIdFormat_V1;
  state_resolution := StateResolution_V1;
  enforce_key_validity := false;
  authorization := AuthorizationRules.V1;
  redaction := RedactionRules.V1;
  signatures := SignaturesRules.V1;
  event_format := EventFormatRules.V1
|}.

Definition V2 : t := {|
  disposition := V1.(disposition);
  event_id_format := V1.(event_id_format);
  room_id_format := V1.(room_id_format);
  state_resolution := StateResolution_V2 StateResolutionV2Rules.V2_0;
  enforce_key_validity := V1.(enforce_key_validity);
  authorization := V1.(authorization);
  redaction := V1.(redaction);
  signatures := V1.(signatures);
  event_format := V1.(event_format)
|}.

Definition V3 : t := {|
  disposition := V2.(disposition);
  event_id_format := EventIdFormat_V2;
  room_id_format := V2.(room_id_format);
  state_resolution := V2.(state_resolution);
  enforce_key_validity := V2.(enforce_key_validity);
  authorization := AuthorizationRules.V3;
  redaction := V2.(redaction);
  signatures := SignaturesRules.V3;
  event_format := EventFormatRules.V3
|}.

Definition V4 : t := {|
  disposition := V3.(disposition);
  event_id_format := EventIdFormat_V3;
  room_id_format := V3.(room_id_format);
  state_resolution := V3.(state_resolution);
  enforce_key_validity := V3.(enforce_key_validity);
  authorization := V3.(authorization);
  redaction := V3.(redaction);
  signatures := V3.(signatures);
  event_format := V3.(event_format)
|}.

Definition V5 : t := {|
  disposition := V4.(disposition);
  event_id_format := V4.(event_id_format);
  room_id_format := V4.(room_id_format);
  state_resolution := V4.(state_resolution);
  enforce_key_validity := true;
  authorization := V4.(authorization);
  redaction := V4.(redaction);
  signatures := V4.(signatures);
  event_format := V4.(event_format)
|}.

Definition V6 : t := {|
  disposition := V5.(disposition);
  event_id_format := V5.(event_id_format);
  room_id_format := V5.(room_id_format);
  state_resolution := V5.(state_resolution);
  enforce_key_validity := V5.(enforce_key_validity);
  authorization := AuthorizationRules.V6;
  redaction := RedactionRules.V6;
  signatures := V5.(signatures);
  event_format := V5.(event_format)
|}.

Definition V7 : t := {|
  disposition := V6.(disposition);
  event_id_format := V6.(event_id_format);
  room_id_format := V6.(room_id_format);
  state_resolution := V6.(state_resolution);
  enforce_key_validity := V6.(enforce_key_validity);
  authorization := AuthorizationRules.V7;
  redaction := V6.(redaction);
  signatures := V6.(signatures);
  event_format := V6.(event_format)
|}.

Definition V8 : t := {|
  disposition := V7.(disposition);
  event_id_format := V7.(event_id_format);
  room_id_format := V7.(room_id_format);
  state_resolution := V7.(state_resolution);
  enforce_key_validity := V7.(enforce_key_validity);
  authorization := AuthorizationRules.V8;
  redaction := RedactionRules.V8;
  signatures := SignaturesRules.V8;
  event_format := V7.(event_format)
|}.

Definition V9 : t := {|
  disposition := V8.(disposition);
  event_id_format := V8.(event_id_format);
  room_id_format := V8.(room_id_format);
  state_resolution := V8.(state_resolution);
  enforce_key_validity := V8.(enforce_key_validity);
  authorization := V8.(authorization);
  redaction := RedactionRules.V9;
  signatures := V8.(signatures);
  event_format := V8.(event_format)
|}.

Definition V10 : t := {|
  disposition := V9.(disposition);
  event_id_format := V9.(event_id_format);
  room_id_format := V9.(room_id_format);
  state_resolution := V9.(state_resolution);
  enforce_key_validity := V9.(enforce_key_validity);
  authorization := AuthorizationRules.V10;
  redaction := V9.(redaction);
  signatures := V9.(signatures);
  event_format := V9.(event_format)
|}.

Definition V11 : t := {|
  disposition := V10.(disposition);
  event_id_format := V10.(event_id_format);
  room_id_format := V10.(room_id_format);
  state_resolution := V10.(state_resolution);
  enforce_key_validity := V10.(enforce_key_validity);
  authorization := AuthorizationRules.V11;
  redaction := RedactionRules.V11;
  signatures := V10.(signatures);
  event_format := V10.(event_format)
|}.

Definition V12 : t := {|
  disposition := V11.(disposition);
  event_id_format := V11.(event_id_format);
  room_id_format := RoomIdFormat_V2;
  state_resolution := StateResolution_V2 StateResolutionV2Rules.V2_1;
  enforce_key_validity := V11.(enforce_key_validity);
  authorization := AuthorizationRules.V12;
  redaction := V11.(redaction);
  signatures := V11.(signatures);
  event_format := EventFormatRules.V12
|}.

Definition MSC2870 : t := {|
  disposition := Unstable;
  event_id_format := V11.(event_id_format);
  room_id_format := V11.(room_id_format);
  state_resolution := V11.(state_resolution);
  enforce_key_validity := V11.(enforce_key_validity);
  authorization := V11.(authorization);
  redaction := RedactionRules.MSC2870;
  signatures := V11.(signatures);
  event_format := V11.(event_format)
|}.

End RoomVersionRules.

(** ** Room version identifiers *)

Inductive RoomVersionId :=
| RV_V1
| RV_V2
| RV_V3
| RV_V4
| RV_V5
| RV_V6
| RV_V7
| RV_V8
| RV_V9
| RV_V10
| RV_V11
| RV_V12
| RV_MSC2870
| RV_Custom (version : string).

Definition room_version_as_str (v : RoomVersionId) : string :=
  match v with
  | RV_V1 => "1"
  | RV_V2 => "2"
  | RV_V3 => "3"
  | RV_V4 => "4"
  | RV_V5 => "5"
  | RV_V6 => "6"
  | RV_V7 => "7"
  | RV_V8 => "8"
  | RV_V9 => "9"
  | RV_V10 => "10"
  | RV_V11 => "11"
  | RV_V12 => "12"
  | RV_MSC2870 => "org.matrix.msc2870"
  | RV_Custom version => version
  end.

Definition room_version_rules (v : RoomVersionId) : option RoomVersionRules.t :=
  match v with
  | RV_V1 => Some RoomVersionRules.V1
  | RV_V2 => Some RoomVersionRules.V2
  | RV_V3 => Some RoomVersionRules.V3
  | RV_V4 => Some RoomVersionRules.V4
  | RV_V5 => Some RoomVersionRules.V5
  | RV_V6 => Some RoomVersionRules.V6
  | RV_V7 => Some RoomVersionRules.V7
  | RV_V8 => Some RoomVersionRules.V8
  | RV_V9 => Some RoomVersionRules.V9
  | RV_V10 => Some RoomVersionRules.V10
  | RV_V11 => Some RoomVersionRules.V11
  | RV_V12 => Some RoomVersionRules.V12
  | RV_MSC2870 => Some RoomVersionRules.MSC2870
  | RV_Custom _ => None
  end.

Definition room_version_try_from {U : Unicode} (s : string) : result IdParseError RoomVersionId :=
  match s with
  | "1" => Ok RV_V1
  | "2" => Ok RV_V2
  | "3" => Ok RV_V3
  | "4" => Ok RV_V4
  | "5" => Ok RV_V5
  | "6" => Ok RV_V6
  | "7" => Ok RV_V7
  | "8" => Ok RV_V8
  | "9" => Ok RV_V9
  | "10" => Ok RV_V10
  | "11" => Ok RV_V11
  | "12" => Ok RV_V12
  | custom => _ ← room_version_id_validate custom; Ok (RV_Custom custom)
  end.

#[global] Instance RoomVersionId_eq_dec : EqDecision RoomVersionId.
Proof. solve_decision. Defined.

(** The versions of the specification in order. *)
Definition spec_versions : list RoomVersionId :=
  [RV_V1; RV_V2; RV_V3; RV_V4; RV_V5; RV_V6; RV_V7; RV_V8; RV_V9; RV_V10; RV_V11; RV_V12].

Definition auth_rules_of (v : RoomVersionId) : option AuthorizationRules.t :=
  RoomVersionRules.authorization <$> room_version_rules v.

(** ** Properties *)

(** The authorization features that a room version introduces. *)
Definition introduced (r : AuthorizationRules.t) : list bool :=
  [negb r.(AuthorizationRules.special_case_room_redaction);
   negb r.(AuthorizationRules.special_case_room_aliases);
   r.(AuthorizationRules.strict_canonical_json);
   r.(AuthorizationRules.limit_notifications_power_levels);
   r.(AuthorizationRules.knocking);
   r.(AuthorizationRules.restricted_join_rule);
   r.(AuthorizationRules.knock_restricted_join_rule);
   r.(AuthorizationRules.integer_power_levels);
   r.(AuthorizationRules.use_room_create_sender);
   r.(AuthorizationRules.explicitly_privilege_room_creators);
   r.(AuthorizationRules.additional_room_creators);
   r.(AuthorizationRules.room_create_event_id_as_room_id)].

(** Along the specified room versions, an authorization rule once
    introduced is never dropped: if version [v] comes before version [w], every
    feature on in [v] is on in [w]. *)
Theorem auth_rules_monotone i j v w rv rw :
  spec_versions !! i = Some v -> spec_versions !! j = Some w -> i <= j ->
  auth_rules_of v = Some rv -> auth_rules_of w = Some rw ->
  Forall2 (fun x y => implb x y = true) (introduced rv) (introduced rw).
Proof.
  intros Hi Hj Hij Hv Hw.
  pose proof (lookup_lt_Some _ _ _ Hi). pose proof (lookup_lt_Some _ _ _ Hj).
  simpl in *.
  do 12 (destruct i as [|i]; [do 12 (destruct j as [|j];
    [try (exfalso; lia); simpl in Hi, Hj; injection Hi as <-; injection Hj as <-;
     injection Hv as <-; injection Hw as <-; by repeat constructor|]); simpl in *; lia|]).
  lia.
Qed.

(** Every rule set has [restricted_join_rule] when it has
    [knock_restricted_join_rule]. *)
Lemma knock_restricted_implies_restricted v r :
  auth_rules_of v = Some r ->
  r.(AuthorizationRules.knock_restricted_join_rule) = true ->
  r.(AuthorizationRules.restricted_join_rule) = true.
Proof. by destruct v; intros [= <-]. Qed.

(** A version is read back from its text exactly when it
    is a version of the specification, or a custom one whose text is valid and
    is not that of a specified version; the MSC2870 version, which [as_str] and
    [rules] know, never is. *)
Theorem room_version_roundtrip {U : Unicode} v :
  room_version_try_from (room_version_as_str v) = Ok v <->
  match v with
  | RV_MSC2870 => False
  | RV_Custom s => room_version_id_validate s = Ok tt /\ Forall (fun w => room_version_as_str w <> s) spec_versions
  | _ => True
  end.
Proof.
  destruct v as [| | | | | | | | | | | | |s]; try done.
  { simpl. split; [|done]. by destruct (room_version_id_validate "org.matrix.msc2870"). }
  simpl. split.
  - intros H. assert (Forall (fun w => room_version_as_str w <> s) spec_versions) as Hs.
    { unfold spec_versions. repeat constructor; simpl; intros <-; done. }
    split; [|done]. unfold spec_versions in Hs. repeat (apply Forall_cons in Hs as [? Hs]). simpl in *.
    unfold room_version_try_from in H.
    repeat match type of H with
    | context [match ?x with _ => _ end] => is_var x; destruct x; try congruence
    end; by apply bind_Ok in H as ([] & ? & _).
  - intros [Hv Hs]. unfold spec_versions in Hs. repeat (apply Forall_cons in Hs as [? Hs]). simpl in *.
    unfold room_version_try_from.
    repeat match goal with
    | |- context [match ?x with _ => _ end] => is_var x; destruct x; try congruence
    end; by rewrite Hv.
Qed.

Lemma auth_rules_monotone_witness :
  Forall2 (fun x y => implb x y = true)
    (introduced AuthorizationRules.V1) (introduced AuthorizationRules.V12).
Proof. apply (auth_rules_monotone 0 11 RV_V1 RV_V12); [reflexivity|reflexivity|lia|reflexivity|reflexivity]. Defined.
