(* ===== verification/BTree.v ===== *)
(** [BTreeMap<String, V>] as an association list with strictly increasing keys
    (bytewise order): iteration is in list order and equality is structural,
    as for the Rust type. *)

From S2P Require Import Prelude.

Section btree.
Context {V : Type}.
Implicit Types (m : list (string * V)) (k : string) (v : V).

Fixpoint bt_get k m : option V :=
  match m with
  | [] => None
  | (k', v) :: m => if String.eqb k k' then Some v else bt_get k m
  end.

Fixpoint bt_insert k v m : list (string * V) :=
  match m with
  | [] => [(k, v)]
  | (k', v') :: m' =>
      match String.compare k k' with
      | Lt => (k, v) :: m
      | Eq => (k, v) :: m'
      | Gt => (k', v') :: bt_insert k v m'
      end
  end.

Fixpoint bt_remove k m : list (string * V) :=
  match m with
  | [] => []
  | (k', v) :: m => if String.eqb k k' then m else (k', v) :: bt_remove k m
  end.

(** [collect::<BTreeMap<_, _>>()]: later entries win. *)
Definition bt_from_list (l : list (string * V)) : list (string * V) :=
  foldl (fun m kv => bt_insert kv.1 kv.2 m) [] l.

Definition key_lt (x y : string * V) : Prop := String.compare x.1 y.1 = Lt.
Definition bt_wf m : Prop := StronglySorted key_lt m.

Lemma bt_get_Some_elem k v m : bt_get k m = Some v -> (k, v) ∈ m.
Proof.
  induction m as [|[k' v'] m IH]; simpl; [done|].
  destruct (String.eqb_spec k k') as [->|]; [intros [= ->]; left|]. intros. right. auto.
Qed.

Lemma bt_get_head k v m : bt_get k ((k, v) :: m) = Some v.
Proof. simpl. by rewrite String.eqb_refl. Qed.

Lemma bt_get_not_lt k m x :
  bt_wf (x :: m) -> String.compare k x.1 = Lt -> bt_get k (x :: m) = None.
Proof.
  intros Hwf Hlt. destruct (bt_get k (x :: m)) as [v|] eqn:Hg; [|done].
  apply bt_get_Some_elem in Hg. apply StronglySorted_inv in Hwf as [_ Hall].
  apply elem_of_cons in Hg as [<-|Hin].
  - by rewrite (cmp_refl String.compare) in Hlt.
  - rewrite Forall_forall in Hall. apply Hall in Hin.
    pose proof (cmp_lt_trans String.compare _ _ _ Hlt Hin) as H. simpl in H.
    by rewrite (cmp_refl String.compare) in H.
Qed.

Lemma bt_elem_get k v m : bt_wf m -> (k, v) ∈ m -> bt_get k m = Some v.
Proof.
  induction m as [|[k' v'] m IH]; intros Hwf; [by intros ?%not_elem_of_nil|].
  apply StronglySorted_inv in Hwf as [Hm Hall].
  intros [[= -> ->]|Hin]%elem_of_cons; [apply bt_get_head|]. simpl.
  destruct (String.eqb_spec k k') as [->|]; [|by apply IH].
  rewrite Forall_forall in Hall. apply Hall in Hin. unfold key_lt in Hin. simpl in Hin.
  by rewrite (cmp_refl String.compare) in Hin.
Qed.

Lemma bt_insert_elem k v m x : x ∈ bt_insert k v m -> x = (k, v) \/ x ∈ m.
Proof.
  induction m as [|[k' v'] m IH]; simpl; [intros ?%list_elem_of_singleton; auto|].
  destruct (String.compare k k'); rewrite !elem_of_cons; naive_solver.
Qed.

Lemma bt_insert_mem k v m : (k, v) ∈ bt_insert k v m.
Proof.
  induction m as [|[k' v'] m IH]; simpl; [by left|].
  destruct (String.compare k k'); rewrite !elem_of_cons; naive_solver.
Qed.

Lemma bt_get_insert_eq k v m : bt_get k (bt_insert k v m) = Some v.
Proof.
  induction m as [|[k' v'] m IH]; simpl; [by rewrite String.eqb_refl|].
  destruct (String.compare k k') eqn:Hc; simpl; rewrite ?String.eqb_refl; try done.
  destruct (String.eqb_spec k k') as [->|]; [|done]. by rewrite (cmp_refl String.compare) in Hc.
Qed.

Lemma bt_insert_wf k v m : bt_wf m -> bt_wf (bt_insert k v m).
Proof.
  unfold bt_wf. induction m as [|[k' v'] m IH]; intros Hwf; simpl; [repeat constructor|].
  pose proof (StronglySorted_inv Hwf) as [Hm Hall].
  destruct (String.compare k k') eqn:Hc.
  - apply (cmp_eq String.compare) in Hc as ->. constructor; [done|].
    eapply Forall_impl; [exact Hall|]. intros [k2 v2]. done.
  - constructor; [done|]. constructor; [done|].
    eapply Forall_impl; [exact Hall|]. intros [k2 v2]. unfold key_lt. simpl.
    by apply (cmp_lt_trans String.compare).
  - constructor; [by apply IH|]. apply Forall_forall. intros x Hx.
    apply bt_insert_elem in Hx as [->|Hx].
    + unfold key_lt. simpl. by apply (cmp_gt_lt String.compare).
    + rewrite Forall_forall in Hall. by apply Hall.
Qed.

Lemma bt_get_insert k v m k2 :
  bt_wf m -> bt_get k2 (bt_insert k v m) = if String.eqb k2 k then Some v else bt_get k2 m.
Proof.
  induction m as [|[k' v'] m IH]; intros Hwf; simpl; [done|].
  pose proof (StronglySorted_inv Hwf) as [Hm Hall].
  destruct (String.compare k k') eqn:Hc; simpl.
  - apply (cmp_eq String.compare) in Hc as ->. by destruct (String.eqb_spec k2 k').
  - done.
  - rewrite IH by done. destruct (String.eqb_spec k2 k'), (String.eqb_spec k2 k); subst; try done.
    by rewrite (cmp_refl String.compare) in Hc.
Qed.

Lemma bt_filter_wf (P : string * V -> Prop) `{!forall x, Decision (P x)} m :
  bt_wf m -> bt_wf (filter P m).
Proof.
  unfold bt_wf. induction m as [|x m IH]; intros Hwf; [constructor|].
  apply StronglySorted_inv in Hwf as [Hm Hall]. rewrite filter_cons.
  destruct (decide (P x)); [|by apply IH]. constructor; [by apply IH|].
  rewrite Forall_forall in Hall |- *. intros y [_ Hy]%list_elem_of_filter. by apply Hall.
Qed.

Lemma bt_from_list_wf l : bt_wf (bt_from_list l).
Proof.
  unfold bt_from_list. assert (H : bt_wf []) by constructor. revert H.
  generalize (@nil (string * V)). induction l as [|x l IH]; intros m Hm; simpl; [done|].
  by apply IH, bt_insert_wf.
Qed.

(** Inserting a key above every present key appends it. *)
Lemma bt_insert_last k v m :
  Forall (fun x => String.compare x.1 k = Lt) m -> bt_insert k v m = m ++ [(k, v)].
Proof.
  induction m as [|[k' v'] m IH]; intros Hm; simpl; [done|].
  apply Forall_cons in Hm as [Hk Hm]. simpl in Hk.
  rewrite (cmp_opp String.compare k' k), Hk. simpl. by rewrite IH.
Qed.

(** Collecting an already sorted list gives it back. *)
Lemma bt_from_list_sorted m : bt_wf m -> bt_from_list m = m.
Proof.
  intros Hwf. unfold bt_from_list.
  assert (forall acc, bt_wf (acc ++ m) -> foldl (fun m kv => bt_insert kv.1 kv.2 m) acc m = acc ++ m)
    as Hgen; [|by apply (Hgen [])].
  clear Hwf. induction m as [|[k v] m IH]; intros acc Hacc; simpl; [by rewrite app_nil_r|].
  rewrite bt_insert_last.
  - rewrite IH; rewrite <- (assoc_L (++)); done.
  - apply Forall_forall. intros x Hx. unfold bt_wf in Hacc.
    clear IH. induction acc as [|y acc IH]; [by apply not_elem_of_nil in Hx|].
    simpl in Hacc. apply StronglySorted_inv in Hacc as [H1 H2].
    apply elem_of_cons in Hx as [->|Hx]; [|by apply IH].
    rewrite Forall_forall in H2. apply (H2 (k, v)). apply elem_of_app. right. left.
Qed.

Lemma bt_get_tail m x : bt_wf (x :: m) -> bt_get x.1 m = None.
Proof.
  intros [_ Hall]%StronglySorted_inv. destruct (bt_get x.1 m) as [v|] eqn:Hg; [|done].
  apply bt_get_Some_elem in Hg. rewrite Forall_forall in Hall. apply Hall in Hg.
  unfold key_lt in Hg. simpl in Hg. by rewrite (cmp_refl String.compare) in Hg.
Qed.

Lemma bt_remove_elem k m x : x ∈ bt_remove k m -> x ∈ m.
Proof.
  induction m as [|[k' v'] m IH]; simpl; [done|].
  destruct (String.eqb_spec k k'); rewrite ?elem_of_cons; naive_solver.
Qed.

Lemma bt_remove_wf k m : bt_wf m -> bt_wf (bt_remove k m).
Proof.
  unfold bt_wf. induction m as [|[k' v'] m IH]; simpl; intros Hwf; [constructor|].
  apply StronglySorted_inv in Hwf as [Hm Hall].
  destruct (String.eqb_spec k k'); [done|]. constructor; [by apply IH|].
  rewrite Forall_forall in Hall |- *. intros x Hx%bt_remove_elem. by apply Hall.
Qed.

Lemma bt_get_remove k m k2 :
  bt_wf m -> bt_get k2 (bt_remove k m) = if String.eqb k2 k then None else bt_get k2 m.
Proof.
  induction m as [|[k' v'] m IH]; intros Hwf; simpl; [by destruct (String.eqb k2 k)|].
  pose proof (bt_get_tail _ _ Hwf) as Ht. simpl in Ht.
  apply StronglySorted_inv in Hwf as [Hm _]. destruct (String.eqb_spec k k') as [->|Hk]; simpl.
  - by destruct (String.eqb_spec k2 k'); subst.
  - rewrite IH by done. destruct (String.eqb_spec k2 k'), (String.eqb_spec k2 k); congruence.
Qed.

(** Removing several keys. *)
Lemma bt_remove_all_wf ks m : bt_wf m -> bt_wf (foldl (fun o k => bt_remove k o) m ks).
Proof. revert m; induction ks as [|k ks IH]; intros m Hm; simpl; [done|]. by apply IH, bt_remove_wf. Qed.

Lemma bt_get_remove_all ks m k :
  bt_wf m ->
  bt_get k (foldl (fun o k => bt_remove k o) m ks)
  = if bool_decide (k ∈ ks) then None else bt_get k m.
Proof.
  revert m; induction ks as [|k0 ks IH]; intros m Hm; simpl; [done|].
  rewrite IH by (by apply bt_remove_wf). rewrite bt_get_remove by done.
  destruct (String.eqb_spec k k0); repeat case_bool_decide; set_solver.
Qed.

(** Two maps with the same lookups are equal. *)
Lemma bt_ext m1 m2 :
  bt_wf m1 -> bt_wf m2 -> (forall k, bt_get k m1 = bt_get k m2) -> m1 = m2.
Proof.
  intros H1 H2 Hget.
  apply (StronglySorted_unique_strong key_lt); [|done|done|].
  - intros [k1 v1] [k2 v2] _ _ Ha Hb. unfold key_lt in Ha, Hb. simpl in Ha, Hb.
    by rewrite (cmp_opp String.compare k1 k2), Ha in Hb.
  - assert (forall m, bt_wf m -> NoDup m) as Hnd.
    { clear. intros m Hm. induction m as [|x m IH]; constructor.
      - intros Hx. apply StronglySorted_inv in Hm as [_ Hall]. rewrite Forall_forall in Hall.
        apply Hall in Hx. unfold key_lt in Hx. by rewrite (cmp_refl String.compare) in Hx.
      - apply IH. by apply StronglySorted_inv in Hm as [? _]. }
    apply NoDup_Permutation; [by apply Hnd..|]. intros [k v]. split; intros Hin.
    + apply bt_get_Some_elem. rewrite <- Hget. by apply bt_elem_get.
    + apply bt_get_Some_elem. rewrite Hget. by apply bt_elem_get.
Qed.
End btree.

(** The last entry of a key wins. *)
Lemma bt_get_from_list {V} (l : list (string * V)) k :
  bt_get k (bt_from_list l) = bt_get k (reverse l).
Proof.
  induction l as [|[k' v] l IH] using rev_ind; [done|].
  unfold bt_from_list in *. rewrite foldl_app. cbn [foldl fst snd].
  rewrite bt_get_insert by apply (bt_from_list_wf l). rewrite reverse_app. cbn. by rewrite IH.
Qed.
