(* ===== verification/Json.v ===== *)
(** JSON documents, and the deserialization helpers of
    [crates/core/src/serde/strings.rs].

    Event content is raw JSON text ([RawJsonValue]) that the sources
    deserialize on demand.  A document is its syntax tree: an object keeps its
    members in text order, duplicates included, because serde's derived
    structs reject a repeated field while [serde_json::Map] keeps the last
    one.  A number is an integer literal between [i64::MIN] and [u64::MAX], or
    anything else [serde_json] reads as a float (kept as its text).

    [struct_fields] and the [field_*] functions are what
    [#[derive(Deserialize)]] does for the attributes the sources use: a plain
    field is required, an [Option] field may be absent or [null], a
    [#[serde(default)]] field may be absent; unknown fields are ignored; a
    sequence is accepted with the fields in order.  Deserialization errors
    carry no information here: the sources only wrap them in a message. *)

From S2P Require Import Prelude RustStr BTree Identifiers.

Open Scope string_scope.

Inductive number :=
| NumInt (z : Z)
| NumFloat (text : string).

Inductive json :=
| JNull
| JBool (b : bool)
| JNum (n : number)
| JStr (s : string)
| JArr (l : list json)
| JObj (members : list (string * json)).

(** ** Maps *)

(** [serde_json::Map], a [BTreeMap] in this build ([preserve_order] is off):
    sorted by key, the last value of a repeated key wins. *)
Definition json_map (members : list (string * json)) : list (string * json) :=
  bt_from_list members.

(** ** Derived structs *)

Definition occurrences (name : string) (members : list (string * json)) : list json :=
  (filter (fun kv => kv.1 = name) members).*2.

(** One slot per field, [None] when the field is absent; fields are given by
    their name and whether they have [#[serde(default)]]. *)
Fixpoint struct_from_map (fields : list (string * bool)) (members : list (string * json)) :
    option (list (option json)) :=
  match fields with
  | [] => Some []
  | (name, _) :: fields =>
      rest ← struct_from_map fields members;
      match occurrences name members with
      | [] => Some (None :: rest)
      | [v] => Some (Some v :: rest)
      | _ => None
      end
  end.

Fixpoint struct_from_seq (fields : list (string * bool)) (l : list json) :
    option (list (option json)) :=
  match fields, l with
  | [], [] => Some []
  | [], _ :: _ => None
  | (_, dflt) :: fields, [] => if dflt : bool then cons None <$> struct_from_seq fields [] else None
  | _ :: fields, v :: l => cons (Some v) <$> struct_from_seq fields l
  end.

Definition struct_fields (fields : list (string * bool)) (j : json) : option (list (option json)) :=
  match j with
  | JObj members => struct_from_map fields members
  | JArr l => struct_from_seq fields l
  | _ => None
  end.

Definition field_required {A} (de : json -> option A) (slot : option json) : option A :=
  slot ≫= de.

Definition field_option {A} (de : json -> option A) (slot : option json) : option (option A) :=
  match slot with
  | None | Some JNull => Some None
  | Some v => Some <$> de v
  end.

Definition field_default {A} (d : A) (de : json -> option A) (slot : option json) : option A :=
  match slot with None => Some d | Some v => de v end.

(** A struct with a single field. *)
Definition struct1 {A} (name : string) (dflt : bool) (de : option json -> option A) (j : json) :
    option A :=
  slots ← struct_fields [(name, dflt)] j;
  match slots with [slot] => de slot | _ => None end.

(** ** Leaf types *)

Definition de_str (j : json) : option string := match j with JStr s => Some s | _ => None end.
Definition de_bool (j : json) : option bool := match j with JBool b => Some b | _ => None end.

(** [IgnoredAny]. *)
Definition de_any (j : json) : option unit := Some tt.

(** [OwnedUserId]. *)
Definition de_user_id (j : json) : option string :=
  s ← de_str j; if is_ok (user_id_validate s) then Some s else None.

Fixpoint omapM {A B} (f : A -> option B) (l : list A) : option (list B) :=
  match l with
  | [] => Some []
  | x :: l => y ← f x; ys ← omapM f l; Some (y :: ys)
  end.

Definition de_vec {A} (de : json -> option A) (j : json) : option (list A) :=
  match j with JArr l => omapM de l | _ => None end.

(** [i64]: an integer in range; a float is not accepted. *)
Definition de_i64 (j : json) : option Z :=
  match j with JNum (NumInt z) => in_range I64_MIN I64_MAX (Some z) | _ => None end.

(** ** Power levels *)

(** [visit_str] of [IntOrStringVisitor]. *)
Definition v1_power_level_str (v : string) : option Z :=
  let trimmed := trim v in
  match str_strip_prefix "+" trimmed with
  | Some without => as_i64 <$> parse_u64 without
  | None => parse_i64 trimmed
  end.

Definition deserialize_v1_power_level (j : json) : option Z :=
  match j with
  | JNum (NumInt z) => in_range I64_MIN I64_MAX (Some z)
  | JStr s => v1_power_level_str s
  | _ => None
  end.

(** A [BTreeMap] from keys read by [de_key] to integers read by [de_val]: the
    entries are visited in the order of the object's keys, and when two of them
    read to the same key the later one wins. *)
Definition de_int_map (de_key : string -> option string) (de_val : json -> option Z) (j : json) :
    option (gmap string Z) :=
  match j with
  | JObj members =>
      kvs ← omapM (fun '(k, v) => k ← de_key k; z ← de_val v; Some (k, z)) (json_map members);
      Some (list_to_map (reverse kvs))
  | _ => None
  end.

Definition btreemap_deserialize_v1_power_level_values (de_key : string -> option string) :
    json -> option (gmap string Z) :=
  de_int_map de_key deserialize_v1_power_level.

(** Keys of the maps: any text for notification keys, a valid user ID for
    users. *)
Definition key_any (k : string) : option string := Some k.
Definition key_user_id (k : string) : option string :=
  if is_ok (user_id_validate k) then Some k else None.

(** ** Lemmas *)

Lemma omapM_Some {A B} (f : A -> option B) l ys :
  omapM f l = Some ys <-> Forall2 (fun x y => f x = Some y) l ys.
Proof.
  revert ys; induction l as [|x l IH]; intros ys; cbn [omapM].
  - split; [intros [=<-]; constructor|by inversion 1].
  - rewrite bind_Some. split.
    + intros (y & Hy & (ys' & Hl & [=<-])%bind_Some). constructor; [done|by apply IH].
    + inversion 1; subst. eexists; split; [done|]. rewrite bind_Some.
      eexists; split; [by apply IH|done].
Qed.

(** ** Properties *)

(** A power level, read from a number or from a string, lies in the
    [i64] range. *)
Theorem v1_power_level_bounds j z :
  deserialize_v1_power_level j = Some z -> (I64_MIN <= z <= I64_MAX)%Z.
Proof.
  destruct j as [| |[y|]|s| |]; cbn [deserialize_v1_power_level]; try done.
  - by intros [_ ?]%in_range_Some.
  - unfold v1_power_level_str. destruct (str_strip_prefix "+" (trim s)) as [w|].
    + intros (u & Hu & ->)%fmap_Some. apply in_range_Some in Hu as [_ Hu].
      unfold as_i64, U64_MAX, I64_MAX, I64_MIN in *. destruct (Z.leb_spec u (2 ^ 63 - 1)); lia.
    + by intros [_ ?]%in_range_Some.
Qed.

(** A string level with a leading [+] above [i64::MAX] is accepted
    and read as a negative level. *)
Theorem v1_power_level_plus_wraps s w u :
  str_strip_prefix "+" (trim s) = Some w -> parse_u64 w = Some u -> (I64_MAX < u)%Z ->
  exists z, deserialize_v1_power_level (JStr s) = Some z /\ (z < 0)%Z /\ z = (u - 2 ^ 64)%Z.
Proof.
  intros Hs Hu Hgt. exists (u - 2 ^ 64)%Z. simpl. unfold v1_power_level_str. rewrite Hs, Hu. simpl.
  unfold as_i64. apply in_range_Some in Hu as [_ Hu]. unfold U64_MAX, I64_MAX in *.
  destruct (Z.leb_spec u (2 ^ 63 - 1)); [lia|]. split; [done|]. split; [lia|done].
Qed.

Lemma v1_power_level_plus_wraps_witness :
  exists z, deserialize_v1_power_level (JStr " +18446744073709551615") = Some z /\ (z < 0)%Z
    /\ z = (18446744073709551615 - 2 ^ 64)%Z.
Proof.
  apply (v1_power_level_plus_wraps _ "18446744073709551615" 18446744073709551615);
    [vm_compute; reflexivity|vm_compute; reflexivity|unfold I64_MAX; lia].
Defined.

Lemma v1_power_level_bounds_witness : (I64_MIN <= 100 <= I64_MAX)%Z.
Proof. apply (v1_power_level_bounds (JStr " 100 ")). vm_compute. reflexivity. Defined.
