(* ===== verification/Canonical.v ===== *)
(** Canonical JSON: [crates/core/src/serde/canonical_json.rs] and
    [canonical_json/value.rs].

    [CanonicalJsonObject] is [BTreeMap<String, CanonicalJsonValue>], here a
    key-sorted association list (file [BTree]).  [try_from] and [into_json] are
    the conversions from and to [serde_json::Value]; proved here are that every value of
    the type survives the round trip, and what [validate_canonical_json] checks. *)

From S2P Require Import Prelude RustStr BTree Json.

Open Scope string_scope.

Inductive CanonicalJsonValue :=
| CNull
| CBool (b : bool)
| CInteger (z : Z)
| CString (s : string)
| CArray (l : list CanonicalJsonValue)
| CObject (m : list (string * CanonicalJsonValue)).

Definition CanonicalJsonObject := list (string * CanonicalJsonValue).

Inductive CanonicalJsonError :=
| IntegerOutOfRange
| InvalidType.

Definition CANONICALJSON_MAX_INT : Z := 2 ^ 53 - 1.
Definition CANONICALJSON_MIN_INT : Z := - CANONICALJSON_MAX_INT.

Definition as_str (v : CanonicalJsonValue) : option string :=
  match v with CString s => Some s | _ => None end.
Definition as_object (v : CanonicalJsonValue) : option CanonicalJsonObject :=
  match v with CObject m => Some m | _ => None end.

(** The values of a map, or the first error in key order. *)
Definition sequence_map {E A} (m : list (string * result E A)) : result E (list (string * A)) :=
  mapR (fun kv => v ← kv.2; Ok (kv.1, v)) m.

(** [TryFrom<JsonValue> for CanonicalJsonValue].  The map of a [JsonValue]
    holds the last value of each key, so the members are collected into a map
    before their errors are looked at. *)
Fixpoint try_from (val : json) : result CanonicalJsonError CanonicalJsonValue :=
  match val with
  | JBool b => Ok (CBool b)
  | JNum (NumInt z) =>
      if (I64_MIN <=? z)%Z && (z <=? I64_MAX)%Z then Ok (CInteger z) else Err IntegerOutOfRange
  | JNum (NumFloat _) => Err InvalidType
  | JArr l => CArray <$> mapR id (map try_from l)
  | JStr s => Ok (CString s)
  | JObj members =>
      CObject <$> sequence_map (bt_from_list (map (fun kv => (kv.1, try_from kv.2)) members))
  | JNull => Ok CNull
  end.

(** [From<CanonicalJsonValue> for JsonValue]. *)
Fixpoint into_json (val : CanonicalJsonValue) : json :=
  match val with
  | CBool b => JBool b
  | CInteger z => JNum (NumInt z)
  | CString s => JStr s
  | CArray l => JArr (map into_json l)
  | CObject m => JObj (map (fun kv => (kv.1, into_json kv.2)) m)
  | CNull => JNull
  end.

(** [validate_canonical_json] on one value of an object. *)
Fixpoint validate_value (value : CanonicalJsonValue) : result CanonicalJsonError unit :=
  match value with
  | CObject m =>
      (fix values (m : list (string * CanonicalJsonValue)) :=
         match m with
         | [] => Ok tt
         | (_, v) :: m => _ ← validate_value v; values m
         end) m
  | CArray l =>
      (fix items (l : list CanonicalJsonValue) :=
         match l with
         | [] => Ok tt
         | v :: l => _ ← (match v with CObject _ => validate_value v | _ => Ok tt end); items l
         end) l
  | CInteger z =>
      if (z <? CANONICALJSON_MIN_INT)%Z || (z >? CANONICALJSON_MAX_INT)%Z
      then Err IntegerOutOfRange else Ok tt
  | _ => Ok tt
  end.

Definition validate_canonical_json (json : CanonicalJsonObject) : result CanonicalJsonError unit :=
  validate_value (CObject json).

(** ** Values of the type

    What the types of the source say of a value: integers are [i64], objects are
    [BTreeMap]s.  The range of canonical JSON is not part of it. *)

Fixpoint canonical_wf (v : CanonicalJsonValue) : Prop :=
  match v with
  | CInteger z => (I64_MIN <= z <= I64_MAX)%Z
  | CArray l => foldr (fun v P => canonical_wf v /\ P) True l
  | CObject m => bt_wf m /\ foldr (fun kv P => canonical_wf kv.2 /\ P) True m
  | _ => True
  end.

(** Induction through arrays and objects. *)
Lemma canonical_ind (P : CanonicalJsonValue -> Prop) :
  P CNull -> (forall b, P (CBool b)) -> (forall z, P (CInteger z)) -> (forall s, P (CString s)) ->
  (forall l, Forall P l -> P (CArray l)) ->
  (forall m, Forall (fun kv => P kv.2) m -> P (CObject m)) ->
  forall v, P v.
Proof.
  intros Hn Hb Hi Hs Ha Ho. fix IH 1. intros [|b|z|s|l|m]; [exact Hn|apply Hb|apply Hi|apply Hs| |].
  - apply Ha. induction l as [|v l IHl]; constructor; [apply IH|exact IHl].
  - apply Ho. induction m as [|[k v] m IHm]; constructor; [apply IH|exact IHm].
Qed.

Lemma json_ind' (P : json -> Prop) :
  P JNull -> (forall b, P (JBool b)) -> (forall n, P (JNum n)) -> (forall s, P (JStr s)) ->
  (forall l, Forall P l -> P (JArr l)) ->
  (forall m, Forall (fun kv => P kv.2) m -> P (JObj m)) ->
  forall j, P j.
Proof.
  intros Hn Hb Hi Hs Ha Ho. fix IH 1. intros [|b|n|s|l|m]; [exact Hn|apply Hb|apply Hi|apply Hs| |].
  - apply Ha. induction l as [|v l IHl]; constructor; [apply IH|exact IHl].
  - apply Ho. induction m as [|[k v] m IHm]; constructor; [apply IH|exact IHm].
Qed.

Lemma canonical_wf_array l : canonical_wf (CArray l) <-> Forall canonical_wf l.
Proof.
  simpl. induction l as [|v l IH]; simpl; [done|]. rewrite IH, Forall_cons. done.
Qed.

Lemma canonical_wf_object m :
  canonical_wf (CObject m) <-> bt_wf m /\ Forall (fun kv => canonical_wf kv.2) m.
Proof.
  simpl. assert (forall m, foldr (fun kv P => canonical_wf kv.2 /\ P) True m <->
    Forall (fun kv : string * CanonicalJsonValue => canonical_wf kv.2) m) as Hf.
  { clear. induction m as [|kv m IH]; simpl; [done|]. rewrite IH, Forall_cons. done. }
  by rewrite Hf.
Qed.

(** [bt_wf] only depends on the keys. *)
Lemma bt_wf_keys {A B} (m : list (string * A)) (m' : list (string * B)) :
  m.*1 = m'.*1 -> bt_wf m -> bt_wf m'.
Proof.
  unfold bt_wf. revert m'; induction m as [|[k v] m IH]; intros [|[k' v'] m'] Hk Hwf;
    try done; [constructor|]. rewrite !fmap_cons in Hk. injection Hk as Hk1 Hk2. simpl in Hk1. subst k'.
  apply StronglySorted_inv in Hwf as [H1 H2]. constructor; [by apply IH|].
  assert (Forall (fun x => String.compare k x = Lt) m.*1) as Hall.
  { apply Forall_fmap. eapply Forall_impl; [exact H2|]. done. }
  rewrite Hk2 in Hall. apply Forall_fmap in Hall. eapply Forall_impl; [exact Hall|]. done.
Qed.

Lemma sequence_map_Ok {E A} (m : list (string * result E A)) m' :
  sequence_map m = Ok m' <-> m = (fun kv => (kv.1, Ok kv.2)) <$> m'.
Proof.
  unfold sequence_map. rewrite mapR_Ok. split.
  - induction 1 as [|[k r] [k' v] m m' H _ IH]; [done|]. rewrite fmap_cons, <- IH. simpl in *.
    by apply bind_Ok in H as (v' & -> & [= -> ->]).
  - intros ->. induction m' as [|[k v] m' IH]; [constructor|]. by constructor.
Qed.

(** ** Properties *)

Lemma try_from_canonical j v : try_from j = Ok v -> canonical_wf v.
Proof.
  revert v; induction j as [|b|[z|t]|s|l IH|m IH] using json_ind'; intros v; cbn [try_from].
  1,2,4,5: try (intros [= <-]; done); done.
  - destruct (Z.leb_spec I64_MIN z), (Z.leb_spec z I64_MAX); simpl; try done. by intros [= <-].
  - destruct (mapR id (map try_from l)) as [vs|] eqn:Hl; simpl; [|done]. intros [= <-].
    apply canonical_wf_array. apply mapR_Ok in Hl. revert vs Hl.
    induction IH as [|x l Hx _ IHl]; intros vs Hl; inversion Hl; subst; constructor; auto.
  - destruct (sequence_map _) as [m'|] eqn:Hm; simpl; [|done]. intros [= <-].
    apply sequence_map_Ok in Hm. apply canonical_wf_object.
    pose proof (bt_from_list_wf (map (fun kv => (kv.1, try_from kv.2)) m)) as Hwf.
    assert (Hfrom : Forall (fun kv => forall v, kv.2 = Ok v -> canonical_wf v)
      (bt_from_list (map (fun kv => (kv.1, try_from kv.2)) m))).
    { clear Hm Hwf. unfold bt_from_list.
      assert (Hacc : Forall (fun kv : string * result CanonicalJsonError CanonicalJsonValue =>
        forall v, kv.2 = Ok v -> canonical_wf v) []) by constructor. revert Hacc.
      generalize (@nil (string * result CanonicalJsonError CanonicalJsonValue)) as acc.
      induction IH as [|[k j] m Hj _ IHm]; intros acc Hacc; simpl; [done|]. apply IHm.
      apply Forall_forall. intros x [->|Hx]%bt_insert_elem; [intros v; apply Hj|].
      rewrite Forall_forall in Hacc. by apply Hacc. }
    rewrite Hm in Hwf, Hfrom. split.
    + eapply bt_wf_keys; [|exact Hwf]. clear. induction m' as [|kv m' IH]; [done|].
      rewrite !fmap_cons. by rewrite IH.
    + apply Forall_fmap in Hfrom. eapply Forall_impl; [exact Hfrom|]. intros kv H. by apply H.
Qed.

(** A well-formed canonical value converted to JSON and back
    is itself. *)
Theorem try_from_into_json v : canonical_wf v -> try_from (into_json v) = Ok v.
Proof.
  induction v as [|b|z|s|l IH|m IH] using canonical_ind; intros Hwf; simpl; try done.
  - destruct (Z.leb_spec I64_MIN z), (Z.leb_spec z I64_MAX); simpl in *; try done; lia.
  - apply canonical_wf_array in Hwf. rewrite map_map.
    replace (mapR id (map (fun x => try_from (into_json x)) l))
      with (Ok l : result CanonicalJsonError _); [done|].
    symmetry. apply mapR_Ok. induction l as [|x l IHl]; [constructor|].
    apply Forall_cons in IH as [Hx IH]. apply Forall_cons in Hwf as [Hwx Hwf].
    constructor; [by apply Hx|by apply IHl].
  - apply canonical_wf_object in Hwf as [Hs Hwf]. rewrite map_map. simpl.
    assert (Hm : map (fun x => (x.1, try_from (into_json x.2))) m
      = (fun kv => (kv.1, Ok kv.2)) <$> m).
    { clear Hs. induction m as [|[k v] m IHm]; [done|].
      apply Forall_cons in IH as [Hx IH]. apply Forall_cons in Hwf as [Hwx Hwf].
      specialize (IHm IH Hwf). specialize (Hx Hwx).
      simpl in *. rewrite Hx. f_equal. exact IHm. }
    rewrite Hm, bt_from_list_sorted.
    + by rewrite (proj2 (sequence_map_Ok _ m) eq_refl).
    + eapply bt_wf_keys; [|exact Hs]. clear. induction m as [|kv m IH]; [done|].
      rewrite !fmap_cons. by rewrite <- IH.
Qed.

(** The integers [validate_canonical_json] looks at: the integer members of
    objects, where objects are followed through members and through the items
    of an array that is itself a member. *)
Inductive checked_int : CanonicalJsonObject -> Z -> Prop :=
| checked_here m k z : (k, CInteger z) ∈ m -> checked_int m z
| checked_member m k m' z : (k, CObject m') ∈ m -> checked_int m' z -> checked_int m z
| checked_item m k l m' z :
    (k, CArray l) ∈ m -> CObject m' ∈ l -> checked_int m' z -> checked_int m z.

Lemma validate_object m :
  validate_value (CObject m) = Ok tt <-> Forall (fun kv => validate_value kv.2 = Ok tt) m.
Proof.
  simpl. induction m as [|[k v] m IH]; [split; [constructor|done]|].
  rewrite Forall_cons, bind_Ok. rewrite <- IH. simpl. split.
  - by intros ([] & ? & ?).
  - intros [? ?]. by exists tt.
Qed.

Lemma validate_array l :
  validate_value (CArray l) = Ok tt <->
  Forall (fun v => match v with CObject _ => validate_value v = Ok tt | _ => True end) l.
Proof.
  cbn [validate_value]. induction l as [|v l IH]; [split; [constructor|done]|].
  rewrite Forall_cons, bind_Ok. rewrite <- IH. split.
  - intros ([] & Hv & ?). split; [|done]. by destruct v.
  - intros [Hv ?]. exists tt. split; [|done]. by destruct v.
Qed.

Lemma validate_integer z :
  validate_value (CInteger z) = Ok tt <->
  (CANONICALJSON_MIN_INT <= z <= CANONICALJSON_MAX_INT)%Z.
Proof.
  simpl. destruct (Z.ltb_spec z CANONICALJSON_MIN_INT); simpl; [split; [done|lia]|].
  rewrite Z.gtb_ltb. destruct (Z.ltb_spec CANONICALJSON_MAX_INT z); split; (done || lia).
Qed.

(** If every integer [validate_canonical_json] looks at in [m] is in range then
    it accepts [m]; stated for the objects that are [v] or an item of [v]. *)
Definition accepts_checked (m : CanonicalJsonObject) : Prop :=
  (forall z, checked_int m z -> (CANONICALJSON_MIN_INT <= z <= CANONICALJSON_MAX_INT)%Z) ->
  validate_value (CObject m) = Ok tt.

Lemma checked_complete v :
  match v with
  | CObject m => accepts_checked m
  | CArray l => forall m, CObject m ∈ l -> accepts_checked m
  | _ => True
  end.
Proof.
  induction v as [|b|z|s|l IH|m IH] using canonical_ind; try done.
  - intros m Hm. rewrite Forall_forall in IH. apply (IH _ Hm).
  - intros Hm. apply validate_object, Forall_forall. intros [k v] Hin. simpl.
    rewrite Forall_forall in IH. specialize (IH _ Hin). simpl in IH.
    destruct v as [|b|z|s|l|m2]; try done.
    + apply validate_integer, Hm. by eapply checked_here.
    + apply validate_array, Forall_forall. intros [| | | | |m2] Hl; try done.
      apply (IH m2 Hl). intros z Hz. apply Hm. by eapply checked_item.
    + apply IH. intros z Hz. apply Hm. by eapply checked_member.
Qed.

(** C40: [validate_canonical_json] accepts an object exactly when the integers it looks at
    are in the range of canonical JSON: those that are members of the object or of an object
    it reaches through members and through the items of an array that is itself a member.
    An integer that is an item of an array is not among them, whatever its value: an object
    all of whose members are arrays without objects in them is accepted. *)
Theorem validate_canonical_json_iff m :
  (validate_canonical_json m = Ok tt <->
   forall z, checked_int m z -> (CANONICALJSON_MIN_INT <= z <= CANONICALJSON_MAX_INT)%Z) /\
  ((forall k v, (k, v) ∈ m -> exists l, v = CArray l /\ forall m', CObject m' ∉ l) ->
   validate_canonical_json m = Ok tt).
Proof.
  unfold validate_canonical_json. split; [split|].
  - intros Hm z Hz. induction Hz as [m k z Hin|m k m' z Hin _ IH|m k l m' z Hin Hl _ IH];
      rewrite validate_object, Forall_forall in Hm; specialize (Hm _ Hin); cbn [snd] in Hm.
    + by apply validate_integer.
    + by apply IH.
    + rewrite validate_array, Forall_forall in Hm. apply IH. by apply (Hm _ Hl).
  - apply (checked_complete (CObject m)).
  - intros Hm. apply (checked_complete (CObject m)). intros z Hz. exfalso.
    destruct Hz as [m k z Hin|m k m' z Hin _|m k l m' z Hin Hl _]; destruct (Hm _ _ Hin) as (l' & [= ->] & Hno).
    by apply (Hno m').
Qed.

(** ** Witnesses *)

(** Closes [canonical_wf] of a concrete value. *)
Ltac solve_wf :=
  repeat first [split | constructor | reflexivity | (vm_compute; congruence)].

Definition example_value : CanonicalJsonValue :=
  CObject [("a", CArray [CInteger 3; CNull]); ("b", CObject [("c", CBool true)])].

(** An integer beyond the range, as a member and as an item. *)
Lemma validate_canonical_json_iff_witness :
  validate_canonical_json [("a", CInteger (2 ^ 53))] <> Ok tt /\
  validate_canonical_json [("a", CArray [CInteger (2 ^ 53)])] = Ok tt.
Proof.
  split; [vm_compute; discriminate|].
  apply (validate_canonical_json_iff [("a", CArray [CInteger (2 ^ 53)])]).
  intros k v [= -> ->]%list_elem_of_singleton. eexists. split; [reflexivity|].
  intros m' H%list_elem_of_singleton. discriminate H.
Defined.

Lemma try_from_into_json_witness : try_from (into_json example_value) = Ok example_value.
Proof. apply (try_from_into_json example_value). simpl. solve_wf. Defined.
