(* ===== verification/Redaction.v ===== *)
(** Event redaction: [crates/core/src/serde/canonical_json/redaction.rs].

    The functions edit an object in place; here they return the edited object.
    On an error the source leaves the caller's object partly edited, which is
    not represented: every caller drops the object then ([redact] returns only
    the error). *)

From S2P Require Import Prelude RustStr BTree Canonical RoomVersion.

Open Scope string_scope.

Inductive JsonType := TObject | TString | TInteger | TArray | TBoolean | TNull.

Inductive RedactionError :=
| NotOfType (field : string) (of_type : JsonType)
| JsonFieldMissingFromObject (field : string).

(** [RetainKeyFn]: whether the field is kept, and its value, which the function
    may have edited. *)
Definition RetainKeyFn :=
  RedactionRules.t -> string -> CanonicalJsonValue ->
  result RedactionError (bool * CanonicalJsonValue).

Inductive RetainedKeys :=
| All
| SomeKeys (f : RetainKeyFn)
| NoneKeys.

(** A [RetainKeyFn] that does not look at the value. *)
Definition key_only (f : RedactionRules.t -> string -> bool) : RetainKeyFn :=
  fun rules key value => Ok (f rules key, value).

Fixpoint retain_loop (f : RetainKeyFn) (rules : RedactionRules.t)
    (old_object object : CanonicalJsonObject) : result RedactionError CanonicalJsonObject :=
  match old_object with
  | [] => Ok object
  | (key, value) :: old_object =>
      '(keep, value) ← f rules key value;
      retain_loop f rules old_object (if keep : bool then bt_insert key value object else object)
  end.

Definition apply (r : RetainedKeys) (rules : RedactionRules.t) (object : CanonicalJsonObject) :
    result RedactionError CanonicalJsonObject :=
  match r with
  | All => Ok object
  | SomeKeys allow_field_fn => retain_loop allow_field_fn rules object []
  | NoneKeys => Ok []
  end.

Definition is_event_key_retained (rules : RedactionRules.t) (key : string) : bool :=
  if bool_decide (key ∈ ["event_id"; "type"; "room_id"; "sender"; "state_key"; "content"; "hashes";
       "signatures"; "depth"; "prev_events"; "auth_events"; "origin_server_ts"])
  then true
  else if bool_decide (key ∈ ["origin"; "membership"; "prev_state"])
  then rules.(RedactionRules.keep_origin_membership_prev_state)
  else false.

Definition is_room_member_content_key_retained : RetainKeyFn := fun rules key value =>
  if key =? "membership" then Ok (true, value)
  else if key =? "join_authorised_via_users_server" then
    Ok (rules.(RedactionRules.keep_room_member_join_authorised_via_users_server), value)
  else if (key =? "third_party_invite")
       && rules.(RedactionRules.keep_room_member_third_party_invite_signed) then
    match as_object value with
    | None => Err (NotOfType "third_party_invite" TObject)
    | Some third_party_invite =>
        let third_party_invite := filter (fun kv => kv.1 = "signed") third_party_invite in
        Ok (match third_party_invite with [] => false | _ => true end,
            CObject third_party_invite)
    end
  else Ok (false, value).

Definition room_create_content_retained_keys (rules : RedactionRules.t) : RetainedKeys :=
  if rules.(RedactionRules.keep_room_create_content) then All
  else SomeKeys (key_only (fun _ field => bool_decide (field = "creator"))).

Definition is_room_join_rules_content_key_retained (rules : RedactionRules.t) (key : string) : bool :=
  if key =? "join_rule" then true
  else if key =? "allow" then rules.(RedactionRules.keep_room_join_rules_allow)
  else false.

Definition is_room_power_levels_content_key_retained (rules : RedactionRules.t) (key : string) : bool :=
  if bool_decide (key ∈ ["ban"; "events"; "events_default"; "kick"; "redact"; "state_default";
       "users"; "users_default"])
  then true
  else if bool_decide (key = "invite") then rules.(RedactionRules.keep_room_power_levels_invite)
  else false.

Definition is_room_history_visibility_content_key_retained (key : string) : bool :=
  bool_decide (key = "history_visibility").

Definition room_redaction_content_retained_keys (rules : RedactionRules.t) : RetainedKeys :=
  if rules.(RedactionRules.keep_room_redaction_redacts)
  then SomeKeys (key_only (fun _ field => bool_decide (field = "redacts")))
  else NoneKeys.

Definition room_aliases_content_retained_keys (rules : RedactionRules.t) : RetainedKeys :=
  if rules.(RedactionRules.keep_room_aliases_aliases)
  then SomeKeys (key_only (fun _ field => bool_decide (field = "aliases")))
  else NoneKeys.

Definition is_room_server_acl_content_key_retained (rules : RedactionRules.t) (key : string) : bool :=
  if bool_decide (key ∈ ["allow"; "deny"; "allow_ip_literals"])
  then rules.(RedactionRules.keep_room_server_acl_allow_deny_allow_ip_literals)
  else false.

Definition retained_event_content_keys (event_type : string) (rules : RedactionRules.t) : RetainedKeys :=
  if event_type =? "m.room.member" then SomeKeys is_room_member_content_key_retained
  else if event_type =? "m.room.create" then room_create_content_retained_keys rules
  else if event_type =? "m.room.join_rules" then
    SomeKeys (key_only is_room_join_rules_content_key_retained)
  else if event_type =? "m.room.power_levels" then
    SomeKeys (key_only is_room_power_levels_content_key_retained)
  else if event_type =? "m.room.history_visibility" then
    SomeKeys (key_only (fun _ => is_room_history_visibility_content_key_retained))
  else if event_type =? "m.room.redaction" then room_redaction_content_retained_keys rules
  else if event_type =? "m.room.aliases" then room_aliases_content_retained_keys rules
  else if event_type =? "m.room.server_acl" then
    SomeKeys (key_only is_room_server_acl_content_key_retained)
  else NoneKeys.

Definition redact_content_in_place (content : CanonicalJsonObject) (rules : RedactionRules.t)
    (event_type : string) : result RedactionError CanonicalJsonObject :=
  apply (retained_event_content_keys event_type rules) rules content.

Definition redact_in_place (event : CanonicalJsonObject) (rules : RedactionRules.t)
    (redacted_because : option CanonicalJsonObject) : result RedactionError CanonicalJsonObject :=
  content_keys ←
    match bt_get "type" event with
    | Some (CString event_type) => Ok (retained_event_content_keys event_type rules)
    | Some _ => Err (NotOfType "type" TString)
    | None => Err (JsonFieldMissingFromObject "type")
    end;
  event ←
    match bt_get "content" event with
    | Some (CObject content) =>
        content ← apply content_keys rules content;
        Ok (bt_insert "content" (CObject content) event)
    | Some _ => Err (NotOfType "content" TObject)
    | None => Ok event
    end;
  event ← apply (SomeKeys (key_only is_event_key_retained)) rules event;
  match redacted_because with
  | Some because =>
      Ok (bt_insert "unsigned" (CObject [("redacted_because", CObject because)]) event)
  | None => Ok event
  end.

Definition redact (object : CanonicalJsonObject) (rules : RedactionRules.t)
    (redacted_because : option CanonicalJsonObject) : result RedactionError CanonicalJsonObject :=
  redact_in_place object rules redacted_because.

#[global] Arguments apply : simpl never.

(** ** The retaining loop *)

(** What the loop keeps, read off the object member by member. *)
Fixpoint retain_spec (f : RetainKeyFn) (rules : RedactionRules.t) (m : CanonicalJsonObject) :
    result RedactionError CanonicalJsonObject :=
  match m with
  | [] => Ok []
  | (k, v) :: m =>
      '(keep, v) ← f rules k v;
      rest ← retain_spec f rules m;
      Ok (if keep : bool then (k, v) :: rest else rest)
  end.

Lemma bt_wf_app_l {V} (m1 m2 : list (string * V)) x :
  bt_wf (m1 ++ x :: m2) -> Forall (fun y => String.compare y.1 x.1 = Lt) m1 /\ bt_wf (m1 ++ m2).
Proof.
  unfold bt_wf. induction m1 as [|y m1 IH]; simpl; intros Hwf.
  - apply StronglySorted_inv in Hwf as [? ?]. by split.
  - apply StronglySorted_inv in Hwf as [[H1 H2]%IH Hall].
    apply Forall_app in Hall as [Ha [Hx Hb]%Forall_cons]. split.
    + by constructor.
    + constructor; [done|]. by apply Forall_app.
Qed.

Lemma retain_loop_eq f rules old acc :
  bt_wf (acc ++ old)%list ->
  retain_loop f rules old acc = (fun r => acc ++ r)%list <$> retain_spec f rules old.
Proof.
  revert acc; induction old as [|[k v] old IH]; intros acc Hwf; cbn [retain_loop retain_spec].
  - simpl. by rewrite app_nil_r.
  - destruct (f rules k v) as [[keep v']|e]; [|done]. cbn.
    destruct (bt_wf_app_l _ _ _ Hwf) as [Hlt Hwf']. destruct keep.
    + rewrite bt_insert_last by done. rewrite IH.
      * destruct (retain_spec f rules old); cbn; [|done]. by rewrite <- (assoc_L (++)%list).
      * rewrite <- (assoc_L (++)%list). simpl.
        eapply (bt_wf_keys (acc ++ (k, v) :: old)%list); [|done].
        by rewrite !fmap_app, !fmap_cons.
    + rewrite IH by done. by destruct (retain_spec f rules old).
Qed.

Lemma retain_spec_get f rules m m' k :
  retain_spec f rules m = Ok m' -> bt_wf m ->
  bt_wf m' /\
  bt_get k m' = v ← bt_get k m;
                match f rules k v with Ok (true, v') => Some v' | _ => None end.
Proof.
  revert m'; induction m as [|[k0 v] m IH]; intros m' Hm Hwf; cbn [retain_spec] in Hm.
  { inv_ok. split; [constructor|done]. }
  inv_ok. destruct a as [keep v']. inv_ok.
  pose proof (StronglySorted_inv Hwf) as [Hm Hall].
  destruct (IH _ Ha0 Hm) as [Hwf' Hget].
  assert (Hsub : Forall (key_lt (k0, v')) a).
  { clear -Ha0 Hall. revert a Ha0. induction m as [|[k1 v1] m IH]; intros a Ha; cbn [retain_spec] in Ha.
    - inv_ok. constructor.
    - inv_ok. destruct a0 as [keep v2]. inv_ok. apply Forall_cons in Hall as [Hk Hall].
      destruct keep; [|by apply IH]. constructor; [done|by apply IH]. }
  pose proof (bt_get_tail _ _ Hwf) as Htail. simpl in Htail. simpl. split.
  { destruct keep; [by constructor|done]. }
  destruct (String.eqb_spec k k0) as [->|Hne]; cbn.
  - rewrite Ha. destruct keep; [by rewrite bt_get_head|]. by rewrite Hget, Htail.
  - destruct keep; [|done]. simpl. by destruct (String.eqb_spec k k0).
Qed.

(** Keeping what was kept changes nothing. *)
Definition fn_idem (f : RetainKeyFn) : Prop :=
  forall rules k v v', f rules k v = Ok (true, v') -> f rules k v' = Ok (true, v').

Lemma key_only_idem f : fn_idem (key_only f).
Proof. intros rules k v v' [= Hf _]. unfold key_only. by rewrite Hf. Qed.

Lemma member_fn_idem : fn_idem is_room_member_content_key_retained.
Proof.
  intros rules k v v'. unfold is_room_member_content_key_retained.
  destruct (k =? "membership"); [done|].
  destruct (k =? "join_authorised_via_users_server"); [by intros [= -> _]|].
  destruct (_ && _); [|done]. destruct (as_object v) as [m|] eqn:Hv; [|done].
  intros [= Hne <-]. cbn [as_object]. unfold CanonicalJsonObject in *.
  rewrite list_filter_filter_l by done. by rewrite Hne.
Qed.

Lemma retain_spec_idem f rules m m' :
  fn_idem f -> retain_spec f rules m = Ok m' -> retain_spec f rules m' = Ok m'.
Proof.
  intros Hf. revert m'; induction m as [|[k v] m IH]; intros m' Hm; cbn [retain_spec] in Hm.
  { by inv_ok. }
  inv_ok. destruct a as [[] v']; inv_ok; [|by apply IH].
  cbn [retain_spec]. rewrite (Hf _ _ _ _ Ha). cbn. by rewrite (IH _ Ha0).
Qed.

Lemma retained_content_cases t rules :
  match retained_event_content_keys t rules with SomeKeys f => fn_idem f | _ => True end.
Proof.
  unfold retained_event_content_keys, room_create_content_retained_keys,
    room_redaction_content_retained_keys, room_aliases_content_retained_keys.
  repeat case_match; try done; simplify_eq; auto using key_only_idem, member_fn_idem.
Qed.

Lemma apply_some_eq f rules m :
  bt_wf m -> apply (SomeKeys f) rules m = retain_spec f rules m.
Proof.
  intros Hm. unfold apply. rewrite retain_loop_eq by done.
  by destruct (retain_spec f rules m).
Qed.

Lemma redact_content_idem c rules t c' :
  bt_wf c -> redact_content_in_place c rules t = Ok c' ->
  bt_wf c' /\ redact_content_in_place c' rules t = Ok c'.
Proof.
  unfold redact_content_in_place. pose proof (retained_content_cases t rules) as Hf.
  destruct (retained_event_content_keys t rules) as [|f|]; intros Hc.
  - intros [= <-]. done.
  - rewrite apply_some_eq by done. intros Hs.
    destruct (retain_spec_get _ _ _ _ EmptyString Hs Hc) as [Hwf _]. split; [done|].
    rewrite apply_some_eq by done. by eapply retain_spec_idem.
  - intros [= <-]. split; [constructor|done].
Qed.

(** ** The event level *)

(** The value of field [k] after redaction. *)
Definition redacted_field (event : CanonicalJsonObject) (rules : RedactionRules.t)
    (content : option CanonicalJsonObject) (redacted_because : option CanonicalJsonObject)
    (k : string) : option CanonicalJsonValue :=
  match redacted_because with
  | Some because =>
      if k =? "unsigned" then Some (CObject [("redacted_because", CObject because)])
      else if is_event_key_retained rules k
      then if k =? "content" then CObject <$> content else bt_get k event else None
  | None =>
      if is_event_key_retained rules k
      then if k =? "content" then CObject <$> content else bt_get k event else None
  end.

(** The redacted content of an event of type [t]: absent when there is none. *)
Definition content_redacts (event : CanonicalJsonObject) (rules : RedactionRules.t) (t : string)
    (content : option CanonicalJsonObject) : Prop :=
  match bt_get "content" event with
  | None => content = None
  | Some (CObject c) => exists c', content = Some c' /\ redact_content_in_place c rules t = Ok c'
  | Some _ => False
  end.

Lemma event_keys_get rules ev ev' k :
  bt_wf ev -> apply (SomeKeys (key_only is_event_key_retained)) rules ev = Ok ev' ->
  bt_wf ev' /\ bt_get k ev' = if is_event_key_retained rules k then bt_get k ev else None.
Proof.
  intros Hwf. rewrite apply_some_eq by done. intros Hs.
  destruct (retain_spec_get _ _ _ _ k Hs Hwf) as [? ->]. split; [done|].
  unfold key_only. destruct (bt_get k ev), (is_event_key_retained rules k); done.
Qed.

Lemma event_keys_total rules ev :
  bt_wf ev -> exists ev', apply (SomeKeys (key_only is_event_key_retained)) rules ev = Ok ev'.
Proof.
  intros Hwf. rewrite apply_some_eq by done. clear Hwf.
  induction ev as [|[k v] ev [ev' IH]]; [by eexists|]. cbn [retain_spec]. cbn. rewrite IH. by eexists.
Qed.

(** [redact] succeeds exactly on events with a string type and redactable
    content, and then its fields are [redacted_field]. *)
Lemma redact_fields ev rules because ev' :
  bt_wf ev -> redact ev rules because = Ok ev' ->
  bt_wf ev' /\ exists t content,
    bt_get "type" ev = Some (CString t) /\ content_redacts ev rules t content /\
    forall k, bt_get k ev' = redacted_field ev rules content because k.
Proof.
  intros Hwf. unfold redact, redact_in_place, content_redacts, redact_content_in_place, redacted_field.
  destruct (bt_get "type" ev) as [[| | |t| |]|]; try done. cbn. intros H.
  assert (exists content ev1, bt_wf ev1 /\
    content_redacts ev rules t content /\
    (forall k, bt_get k ev1 = if k =? "content" then CObject <$> content else bt_get k ev) /\
    (ev2 ← apply (SomeKeys (key_only is_event_key_retained)) rules ev1;
    match because with
    | Some because => Ok (bt_insert "unsigned" (CObject [("redacted_because", CObject because)]) ev2)
    | None => Ok ev2
    end) = Ok ev') as (content & ev1 & Hwf1 & Hc & Hget & H').
  { unfold content_redacts, redact_content_in_place.
    destruct (bt_get "content" ev) as [[| | | | |c]|] eqn:Hcont; try done.
    - destruct (apply (retained_event_content_keys t rules) rules c) as [c'|] eqn:Hcc; [|done].
      exists (Some c'). eexists. repeat split; [by apply bt_insert_wf|by eexists| |exact H].
      intros k. by rewrite bt_get_insert.
    - exists None. exists ev. repeat split; try done.
      intros k. destruct (String.eqb_spec k "content") as [->|]; done. }
  apply bind_Ok in H' as (ev2 & H2 & H3).
  assert (bt_wf ev2) as Hwf2 by (by destruct (event_keys_get _ _ _ "type" Hwf1 H2)).
  split.
  { destruct because; inv_ok; [by apply bt_insert_wf|done]. }
  exists t, content. split; [done|]. split; [done|]. intros k.
  destruct (event_keys_get _ _ _ k Hwf1 H2) as [_ Hk]. rewrite Hget in Hk.
  destruct because; inv_ok; [|done]. rewrite bt_get_insert by done. by rewrite Hk.
Qed.

Lemma redact_succeeds ev rules because t content :
  bt_wf ev -> bt_get "type" ev = Some (CString t) -> content_redacts ev rules t content ->
  exists ev', redact ev rules because = Ok ev'.
Proof.
  intros Hwf Ht Hc. unfold redact, redact_in_place. rewrite Ht. cbn.
  unfold content_redacts, redact_content_in_place in Hc.
  destruct (bt_get "content" ev) as [[| | | | |c]|]; try done.
  - destruct Hc as (c' & -> & ->). cbn.
    destruct (event_keys_total rules (bt_insert "content" (CObject c') ev)) as [ev' ->];
      [by apply bt_insert_wf|]. cbn. destruct because; by eexists.
  - cbn. destruct (event_keys_total rules ev Hwf) as [ev' ->]. cbn. destruct because; by eexists.
Qed.

Lemma content_redacts_functional ev rules t c1 c2 :
  content_redacts ev rules t c1 -> content_redacts ev rules t c2 -> c1 = c2.
Proof.
  unfold content_redacts. destruct (bt_get "content" ev) as [[]|]; try done.
  - intros (? & -> & H1) (? & -> & H2). congruence.
  - congruence.
Qed.

(** Redacting a redacted event. *)
Lemma redact_twice ev rules b1 ev1 b2 :
  canonical_wf (CObject ev) -> redact ev rules b1 = Ok ev1 ->
  redact ev1 rules b2 = redact ev rules b2.
Proof.
  intros [Hwf Hall]%canonical_wf_object H1.
  destruct (redact_fields _ _ _ _ Hwf H1) as (Hwf1 & t & content & Ht & Hc & Hg1).
  destruct (redact_succeeds ev rules b2 t content Hwf Ht Hc) as [ev2 H2].
  destruct (redact_fields _ _ _ _ Hwf H2) as (Hwf2 & t2 & content2 & Ht2 & Hc2 & Hg2).
  replace t2 with t in * by congruence.
  rewrite <- (content_redacts_functional _ _ _ _ _ Hc Hc2) in Hg2. clear t2 content2 Ht2 Hc2.
  assert (bt_get "type" ev1 = Some (CString t)) as Ht1.
  { rewrite Hg1. unfold redacted_field. by destruct b1. }
  assert (content_redacts ev1 rules t content) as Hc1.
  { unfold content_redacts. rewrite Hg1.
    replace (redacted_field ev rules content b1 "content") with (CObject <$> content)
      by (by destruct b1).
    destruct content as [c'|]; [|done]. exists c'. split; [done|].
    unfold content_redacts in Hc. destruct (bt_get "content" ev) as [[| | | | |c]|] eqn:Hce; try done.
    destruct Hc as (? & [= <-] & Hr). apply bt_get_Some_elem in Hce.
    rewrite Forall_forall in Hall. apply Hall in Hce. apply canonical_wf_object in Hce as [Hcwf _].
    by destruct (redact_content_idem _ _ _ _ Hcwf Hr). }
  destruct (redact_succeeds ev1 rules b2 t content Hwf1 Ht1 Hc1) as [ev3 H3].
  destruct (redact_fields _ _ _ _ Hwf1 H3) as (Hwf3 & t3 & content3 & Ht3 & Hc3 & Hg3).
  replace t3 with t in * by congruence.
  rewrite <- (content_redacts_functional _ _ _ _ _ Hc1 Hc3) in Hg3.
  rewrite H2, H3. f_equal. apply bt_ext; [done..|]. intros k. rewrite Hg2, Hg3.
  unfold redacted_field. rewrite Hg1. unfold redacted_field.
  assert (is_event_key_retained rules "unsigned" = false) as Hu by done.
  destruct (String.eqb_spec k "unsigned") as [->|]; [rewrite Hu; by destruct b2|].
  destruct b1, b2, (is_event_key_retained rules k), (k =? "content"); done.
Qed.

(** Two events that agree outside [signatures] and [unsigned] have redactions
    that agree there, or fail alike. *)
Lemma redact_agree o1 o2 rules :
  bt_wf o1 -> bt_wf o2 ->
  (forall k, k ∉ ["signatures"; "unsigned"] -> bt_get k o1 = bt_get k o2) ->
  match redact o1 rules None, redact o2 rules None with
  | Ok r1, Ok r2 => bt_wf r1 /\ bt_wf r2 /\
      forall k, k ∉ ["signatures"; "unsigned"] -> bt_get k r1 = bt_get k r2
  | Err e1, Err e2 => e1 = e2
  | _, _ => False
  end.
Proof.
  intros H1 H2 Hk. unfold redact, redact_in_place.
  rewrite (Hk "type") by (apply not_elem_of_cons; split; [done|set_solver]).
  rewrite (Hk "content") by (apply not_elem_of_cons; split; [done|set_solver]).
  assert (forall p1 p2, bt_wf p1 -> bt_wf p2 ->
    (forall k, k ∉ ["signatures"; "unsigned"] -> bt_get k p1 = bt_get k p2) ->
    exists r1 r2, apply (SomeKeys (key_only is_event_key_retained)) rules p1 = Ok r1 /\
      apply (SomeKeys (key_only is_event_key_retained)) rules p2 = Ok r2 /\ bt_wf r1 /\ bt_wf r2 /\
      forall k, k ∉ ["signatures"; "unsigned"] -> bt_get k r1 = bt_get k r2) as Htop.
  { intros p1 p2 Hp1 Hp2 Hp. destruct (event_keys_total rules p1 Hp1) as [r1 Hr1].
    destruct (event_keys_total rules p2 Hp2) as [r2 Hr2]. exists r1, r2.
    destruct (event_keys_get _ _ _ "type" Hp1 Hr1) as [Hw1 _].
    destruct (event_keys_get _ _ _ "type" Hp2 Hr2) as [Hw2 _]. repeat split; try done.
    intros k Hnin. destruct (event_keys_get _ _ _ k Hp1 Hr1) as [_ ->].
    destruct (event_keys_get _ _ _ k Hp2 Hr2) as [_ ->]. by rewrite Hp. }
  destruct (bt_get "type" o2) as [[| | |t| |]|]; cbn; try done.
  destruct (bt_get "content" o2) as [[| | | | |c]|]; cbn; try done.
  - destruct (apply (retained_event_content_keys t rules) rules c) as [c'|]; cbn; [|done].
    destruct (Htop (bt_insert "content" (CObject c') o1) (bt_insert "content" (CObject c') o2))
      as (r1 & r2 & -> & -> & Hr); [by apply bt_insert_wf..| |done].
    intros k Hnin. rewrite !bt_get_insert by done. by rewrite Hk.
  - by destruct (Htop o1 o2) as (r1 & r2 & -> & -> & Hr).
Qed.

(** ** Properties *)

(** Redacting a well-formed event keeps exactly the top-level
    fields the rules list, each unchanged except [content], which is the
    content redacted for the event's type, and sets [unsigned] to the reason
    when one is given. *)
Theorem redact_keeps ev rules because ev' :
  bt_wf ev -> redact ev rules because = Ok ev' ->
  exists t content, bt_get "type" ev = Some (CString t) /\ content_redacts ev rules t content /\
    forall k, bt_get k ev' = redacted_field ev rules content because k.
Proof. intros Hwf H. by destruct (redact_fields _ _ _ _ Hwf H). Qed.

(** Redaction fails exactly when the type is missing or is not
    a string, when the content is present and is not an object, or when the
    content's own redaction fails; [hashes] and [signatures] are not looked at. *)
Theorem redact_fails_iff ev rules because :
  bt_wf ev ->
  (exists e, redact ev rules because = Err e) <->
  (forall t, bt_get "type" ev <> Some (CString t)) \/
  (exists t v, bt_get "type" ev = Some (CString t) /\ bt_get "content" ev = Some v /\
     match v with
     | CObject c => exists e, redact_content_in_place c rules t = Err e
     | _ => True
     end).
Proof.
  intros Hwf. split.
  - intros [e He]. destruct (bt_get "type" ev) as [[| | |t| |]|] eqn:Ht; try (left; congruence).
    right. destruct (bt_get "content" ev) as [v|] eqn:Hc.
    + exists t, v. repeat split; try done. destruct v as [| | | | |c]; try done.
      destruct (redact_content_in_place c rules t) as [c'|e'] eqn:Hr; [|by eexists].
      destruct (redact_succeeds ev rules because t (Some c')) as [ev' Hev]; try done; [|congruence].
      unfold content_redacts. rewrite Hc. by eexists.
    + destruct (redact_succeeds ev rules because t None) as [ev' Hev]; try done; [|congruence].
      unfold content_redacts. by rewrite Hc.
  - intros H. destruct (redact ev rules because) as [ev'|e] eqn:Hr; [|by eexists].
    destruct (redact_fields _ _ _ _ Hwf Hr) as (_ & t & content & Ht & Hc & _).
    destruct H as [H|(t' & v & Ht' & Hv & H)]; [by destruct (H t)|].
    unfold content_redacts in Hc. rewrite Hv in Hc. destruct v; try done.
    destruct Hc as (c' & _ & Hc'). destruct H as [e He]. congruence.
Qed.

(** C38: redacting an already redacted event is redacting the
    original one, for any reason given either time; in particular redaction is
    idempotent, so the reference hash and signatures computed on a redacted
    copy are those of the event. *)
Theorem redact_absorbs ev rules b1 ev1 b2 :
  canonical_wf (CObject ev) -> redact ev rules b1 = Ok ev1 ->
  redact ev1 rules b2 = redact ev rules b2.
Proof. apply redact_twice. Qed.

(** ** Witnesses *)

(** A membership event with fields that redaction drops. *)
Definition example_event : CanonicalJsonObject := [
  ("content", CObject [("displayname", CString "Alice"); ("membership", CString "join")]);
  ("origin_server_ts", CInteger 7);
  ("prev_state", CArray []);
  ("room_id", CString "!r:x");
  ("sender", CString "@alice:x");
  ("state_key", CString "@alice:x");
  ("type", CString "m.room.member");
  ("unsigned", CObject [("age", CInteger 1)])].

Definition example_redacted : CanonicalJsonObject := [
  ("content", CObject [("membership", CString "join")]);
  ("origin_server_ts", CInteger 7);
  ("room_id", CString "!r:x");
  ("sender", CString "@alice:x");
  ("state_key", CString "@alice:x");
  ("type", CString "m.room.member")].

Lemma redact_keeps_witness :
  exists t content, bt_get "type" example_event = Some (CString t) /\
    content_redacts example_event RedactionRules.V11 t content /\
    forall k, bt_get k example_redacted = redacted_field example_event RedactionRules.V11 content None k.
Proof.
  apply (redact_keeps example_event RedactionRules.V11 None example_redacted);
    [solve_wf|vm_compute; reflexivity].
Defined.

Lemma redact_fails_iff_witness :
  (exists e, redact example_event RedactionRules.V1 None = Err e) <->
  (forall t, bt_get "type" example_event <> Some (CString t)) \/
  (exists t v, bt_get "type" example_event = Some (CString t) /\ bt_get "content" example_event = Some v /\
     match v with
     | CObject c => exists e, redact_content_in_place c RedactionRules.V1 t = Err e
     | _ => True
     end).
Proof. apply (redact_fails_iff example_event RedactionRules.V1 None). solve_wf. Defined.

Lemma redact_absorbs_witness :
  redact example_redacted RedactionRules.V11 (Some []) = redact example_event RedactionRules.V11 (Some []).
Proof.
  apply (redact_absorbs example_event RedactionRules.V11 None example_redacted (Some []));
    [simpl; solve_wf|vm_compute; reflexivity].
Defined.
