(* ===== verification/Signatures.v ===== *)
(** Hashing, signing and verification of JSON and events:
    [crates/core/src/signatures/functions.rs], [verification.rs] and the
    [KeyPair] trait of [keys.rs].

    The primitives that come from other crates are the fields of the class
    [Crypto]: SHA-256 ([sha2]), Ed25519 ([ed25519_dalek]), base64 ([base64])
    and the compact JSON text of an object ([serde_json::to_string], which does
    not fail on a [BTreeMap] with string keys).  Byte strings are [string]s.
    What is assumed of them is the class [CryptoLaws]. *)

From S2P Require Import Prelude RustStr BTree Identifiers Canonical RoomVersion Redaction.

Open Scope string_scope.

Class Crypto := {
  sha256 : string -> string;
  base64_standard_encode : string -> string;
  base64_url_encode : string -> string;
  base64_standard_decode : string -> option string;
  base64_url_decode : string -> option string;
  (** [VerifyingKey::try_from(public_key)] and [Signature::try_from(bytes)]
      succeed. *)
  verifying_key_ok : string -> bool;
  signature_ok : string -> bool;
  (** [VerifyingKey::verify]: public key, message, signature. *)
  ed25519_verify : string -> string -> string -> bool;
  to_json_string : CanonicalJsonObject -> string
}.

(** [Error] with the wrapped [JsonError], [VerificationError] and [ParseError]
    cases these functions return; message text is left out. *)
Inductive SigError :=
| SigNotOfType (target : string) (of_type : JsonType)
| SigNotMultiplesOfType (target : string) (of_type : JsonType)
| SigFieldMissing (field : string)
| NoSignaturesForEntity (entity : string)
| NoPublicKeysForEntity (entity : string)
| NoSupportedSignatureForEntity (entity : string)
| UnsupportedAlgorithm
| InvalidBase64Signature (path : string)
| ParseIdentifier (identifier_type : string) (source : IdParseError)
| SignatureMismatch
| ParsePublicKey
| ParseSignature
| PduSize.

(** [From<RedactionError> for Error]. *)
Definition of_redaction_error (e : RedactionError) : SigError :=
  match e with
  | NotOfType field of_type => SigNotOfType field of_type
  | JsonFieldMissingFromObject field => SigFieldMissing field
  end.

(** [Signature], and a key pair as the [KeyPair] trait sees it. *)
Record Signature := { signature_id : string; signature_bytes : string }.
Definition KeyPair := string -> Signature.

(** [PublicKeyMap]: entity to key ID to raw public key. *)
Definition PublicKeyMap := gmap string (gmap string string).

Inductive Verified := VerifiedAll | VerifiedSignatures.

Definition MAX_PDU_BYTES : Z := 65535.
Definition CANONICAL_JSON_FIELDS_TO_REMOVE := ["signatures"; "unsigned"].
Definition CONTENT_HASH_FIELDS_TO_REMOVE := ["hashes"; "signatures"; "unsigned"].
Definition REFERENCE_HASH_FIELDS_TO_REMOVE := ["signatures"; "unsigned"].

(** [SigningKeyAlgorithm] is its string form; [Ed25519] is ["ed25519"]. *)
Definition verifier_from_algorithm (algorithm : string) : bool := algorithm =? "ed25519".

Section signatures.
Context {C : Crypto}.

(** [Signature::base64]. *)
Definition signature_base64 (s : Signature) : string := base64_standard_encode s.(signature_bytes).

(** [Ed25519Verifier::verify_json]. *)
Definition ed25519_verify_json (public_key signature message : string) : result SigError unit :=
  if negb (verifying_key_ok public_key) then Err ParsePublicKey
  else if negb (signature_ok signature) then Err ParseSignature
  else if ed25519_verify public_key message signature then Ok tt
  else Err SignatureMismatch.

Definition to_canonical_json_string_with_fields_to_remove (object : CanonicalJsonObject)
    (fields : list string) : string :=
  to_json_string (foldl (fun o field => bt_remove field o) object fields).

Definition to_canonical_json_string_for_signing (object : CanonicalJsonObject) : string :=
  to_canonical_json_string_with_fields_to_remove object CANONICAL_JSON_FIELDS_TO_REMOVE.

(** [sign_json]; the edited object is returned. *)
Definition sign_json (entity_id : string) (keypair : KeyPair) (object : CanonicalJsonObject) :
    result SigError CanonicalJsonObject :=
  signature_map ←
    match bt_get "signatures" object with
    | Some (CObject signatures) => Ok signatures
    | Some _ => Err (SigNotOfType "signatures" TObject)
    | None => Ok []
    end;
  let object := bt_remove "signatures" object in
  let maybe_unsigned_entry := bt_get "unsigned" object in
  let object := bt_remove "unsigned" object in
  let json := to_json_string object in
  let signature := keypair json in
  match default (CObject []) (bt_get entity_id signature_map) with
  | CObject signature_set =>
      let signature_set :=
        bt_insert signature.(signature_id) (CString (signature_base64 signature)) signature_set in
      let signature_map := bt_insert entity_id (CObject signature_set) signature_map in
      let object := bt_insert "signatures" (CObject signature_map) object in
      Ok (match maybe_unsigned_entry with
          | Some v => bt_insert "unsigned" v object
          | None => object
          end)
  | _ => Err (SigNotMultiplesOfType "signatures" TObject)
  end.

Definition verify_canonical_json_bytes (algorithm public_key signature canonical_json : string) :
    result SigError unit :=
  if verifier_from_algorithm algorithm
  then ed25519_verify_json public_key signature canonical_json
  else Err UnsupportedAlgorithm.

(** One turn of the loop of [verify_canonical_json_for_entity]: [false] for a
    signature it skips ([continue]), [true] for one it has verified. *)
Definition verify_signature_entry (entity_id : string) (public_keys : gmap string string)
    (canonical_json key_id : string) (signature : CanonicalJsonValue) : comp SigError bool :=
  match public_keys !! key_id with
  | None => Done false
  | Some public_key =>
      ok_else (_ ← key_id_validate any_key_name_validate key_id; key_id_algorithm key_id)
        (Done false)
        (fun algorithm =>
           if verifier_from_algorithm algorithm then
             match signature with
             | CString signature =>
                 match base64_standard_decode signature with
                 | None =>
                     Fail (InvalidBase64Signature ("signatures." ++ entity_id ++ "." ++ key_id))
                 | Some signature =>
                     _ ← of_result (ed25519_verify_json public_key signature canonical_json);
                     Done true
                 end
             | _ => Fail (SigNotOfType "signature" TString)
             end
           else Done false)
  end.

Fixpoint verify_signature_set (entity_id : string) (public_keys : gmap string string)
    (canonical_json : string) (set : CanonicalJsonObject) (checked : bool) : comp SigError bool :=
  match set with
  | [] => Done checked
  | (key_id, signature) :: set =>
      verified ← verify_signature_entry entity_id public_keys canonical_json key_id signature;
      verify_signature_set entity_id public_keys canonical_json set (checked || verified)
  end.

Definition verify_canonical_json_for_entity (entity_id : string) (public_key_map : PublicKeyMap)
    (signature_map : CanonicalJsonObject) (canonical_json : string) : comp SigError unit :=
  match bt_get entity_id signature_map with
  | Some (CObject signature_set) =>
      match public_key_map !! entity_id with
      | None => Fail (NoPublicKeysForEntity entity_id)
      | Some public_keys =>
          checked ← verify_signature_set entity_id public_keys canonical_json signature_set false;
          if checked : bool then Done tt else Fail (NoSupportedSignatureForEntity entity_id)
      end
  | Some _ => Fail (SigNotMultiplesOfType "signature sets" TObject)
  | None => Fail (NoSignaturesForEntity entity_id)
  end.

Fixpoint verify_entities (entities : list string) (public_key_map : PublicKeyMap)
    (signature_map : CanonicalJsonObject) (canonical_json : string) : comp SigError unit :=
  match entities with
  | [] => Done tt
  | entity_id :: entities =>
      _ ← verify_canonical_json_for_entity entity_id public_key_map signature_map canonical_json;
      verify_entities entities public_key_map signature_map canonical_json
  end.

(** [match object.get("signatures") { .. }] of the verification functions. *)
Definition get_signature_map (object : CanonicalJsonObject) : result SigError CanonicalJsonObject :=
  match bt_get "signatures" object with
  | Some (CObject signatures) => Ok signatures
  | Some _ => Err (SigNotOfType "signatures" TObject)
  | None => Err (SigFieldMissing "signatures")
  end.

Definition verify_json (public_key_map : PublicKeyMap) (object : CanonicalJsonObject) :
    comp SigError unit :=
  signature_map ← of_result (get_signature_map object);
  verify_entities signature_map.*1 public_key_map signature_map
    (to_canonical_json_string_for_signing object).

Definition content_hash (object : CanonicalJsonObject) : result SigError string :=
  let json := to_canonical_json_string_with_fields_to_remove object CONTENT_HASH_FIELDS_TO_REMOVE in
  if (MAX_PDU_BYTES <? Z.of_nat (str_len json))%Z then Err PduSize else Ok (sha256 json).

Definition reference_hash (object : CanonicalJsonObject) (rules : RoomVersionRules.t) :
    result SigError string :=
  redacted_value ←
    map_err of_redaction_error (redact object rules.(RoomVersionRules.redaction) None);
  let json :=
    to_canonical_json_string_with_fields_to_remove redacted_value REFERENCE_HASH_FIELDS_TO_REMOVE in
  if (MAX_PDU_BYTES <? Z.of_nat (str_len json))%Z then Err PduSize
  else
    let hash := sha256 json in
    Ok (match rules.(RoomVersionRules.event_id_format) with
        | EventIdFormat_V1 | EventIdFormat_V2 => base64_standard_encode hash
        | _ => base64_url_encode hash
        end).

(** [hash_and_sign_event]; the edited object is returned. *)
Definition hash_and_sign_event (entity_id : string) (key_pair : KeyPair)
    (object : CanonicalJsonObject) (redaction_rules : RedactionRules.t) :
    result SigError CanonicalJsonObject :=
  hash ← content_hash object;
  object ←
    match default (CObject []) (bt_get "hashes" object) with
    | CObject hashes =>
        let hashes := bt_insert "sha256" (CString (base64_standard_encode hash)) hashes in
        Ok (bt_insert "hashes" (CObject hashes) object)
    | _ => Err (SigNotOfType "hashes" TObject)
    end;
  redacted ← map_err of_redaction_error (redact object redaction_rules None);
  redacted ← sign_json entity_id key_pair redacted;
  match bt_get "signatures" redacted with
  | Some signatures => Ok (bt_insert "signatures" signatures object)
  | None => Err (SigNotOfType "signatures" TObject)
  end.

Definition is_invite_via_third_party_id (object : CanonicalJsonObject) : result SigError bool :=
  match bt_get "type" object with
  | Some (CString raw_type) =>
      if negb (raw_type =? "m.room.member") then Ok false
      else match bt_get "content" object with
      | Some (CObject content) =>
          match bt_get "membership" content with
          | Some (CString membership) =>
              if negb (membership =? "invite") then Ok false
              else match bt_get "third_party_invite" content with
              | Some (CObject _) => Ok true
              | None => Ok false
              | _ => Err (SigNotOfType "third_party_invite" TObject)
              end
          | _ => Err (SigNotOfType "membership" TString)
          end
      | _ => Err (SigNotOfType "content" TObject)
      end
  | _ => Err (SigNotOfType "type" TString)
  end.

(** [<&UserId>::try_from(s)] followed by [server_name]. *)
Definition parse_user_server (s : string) : comp IdParseError string :=
  _ ← of_result (user_id_validate s); user_id_server_name s.

Definition servers_to_check_signatures (object : CanonicalJsonObject) (rules : SignaturesRules.t) :
    comp SigError (gset string) :=
  third_party ← of_result (is_invite_via_third_party_id object);
  servers_to_check ←
    (if third_party : bool then Done (∅ : gset string)
     else match bt_get "sender" object with
     | Some (CString raw_sender) =>
         server ← comp_map_err (ParseIdentifier "user ID") (parse_user_server raw_sender);
         Done {[ server ]}
     | Some _ => Fail (SigNotOfType "sender" TString)
     | _ => Fail (SigFieldMissing "sender")
     end);
  servers_to_check ←
    (if rules.(SignaturesRules.check_event_id_server) then
       match bt_get "event_id" object with
       | Some (CString raw_event_id) =>
           _ ← of_result (map_err (ParseIdentifier "event ID") (event_id_validate raw_event_id));
           match event_id_server_name raw_event_id with
           | Some server_name => Done (servers_to_check ∪ {[ server_name ]})
           | None => Fail (ParseIdentifier "event ID" InvalidServerName)
           end
       | Some _ => Fail (SigNotOfType "event_id" TString)
       | _ => Fail (SigFieldMissing "event_id")
       end
     else Done servers_to_check);
  if rules.(SignaturesRules.check_join_authorised_via_users_server) then
    match c ← bt_get "content" object; c ← as_object c;
          bt_get "join_authorised_via_users_server" c with
    | Some authorized_user =>
        match as_str authorized_user with
        | None => Fail (SigNotOfType "join_authorised_via_users_server" TString)
        | Some authorized_user =>
            ok_else (parse_user_server authorized_user)
              (Done servers_to_check)
              (fun server => Done (servers_to_check ∪ {[ server ]}))
        end
    | None => Done servers_to_check
    end
  else Done servers_to_check.

(** The [hashes.sha256] field, as [verify_event] reads it. *)
Definition get_sha256 (object : CanonicalJsonObject) : result SigError string :=
  match bt_get "hashes" object with
  | Some (CObject hashes) =>
      match bt_get "sha256" hashes with
      | Some (CString hash) => Ok hash
      | Some _ => Err (SigNotOfType "sha256 hash" TString)
      | None => Err (SigNotOfType "hashes" TObject)
      end
  | Some _ => Err (SigFieldMissing "sha256")
  | None => Err (SigFieldMissing "hashes")
  end.

Definition verify_event (public_key_map : PublicKeyMap) (object : CanonicalJsonObject)
    (rules : RoomVersionRules.t) : comp SigError Verified :=
  redacted ←
    of_result (map_err of_redaction_error (redact object rules.(RoomVersionRules.redaction) None));
  hash ← of_result (get_sha256 object);
  signature_map ← of_result (get_signature_map object);
  servers_to_check ← servers_to_check_signatures object rules.(RoomVersionRules.signatures);
  let canonical_json := to_canonical_json_string_for_signing redacted in
  _ ← verify_entities (bset_iter servers_to_check) public_key_map signature_map canonical_json;
  calculated_hash ← of_result (content_hash object);
  Done (match base64_standard_decode hash with
        | Some hash => if hash =? calculated_hash then VerifiedAll else VerifiedSignatures
        | None => VerifiedSignatures
        end).

(** [RoomPolicyEventContent]; [public_keys] is keyed by the algorithm. *)
Record RoomPolicy := { via : string; public_keys : gmap string string }.
Definition POLICY_SERVER_ED25519_SIGNING_KEY_ID := "ed25519:policy_server".

Definition verify_policy_server_signature (room_policy : RoomPolicy) (object : CanonicalJsonObject)
    (rules : RoomVersionRules.t) : comp SigError unit :=
  event_type ←
    match bt_get "type" object with
    | Some (CString event_type) => Done event_type
    | Some _ => Fail (SigNotOfType "type" TString)
    | None => Fail (SigFieldMissing "type")
    end;
  if (event_type =? "m.room.policy")
     && match bt_get "state_key" object with
        | Some (CString state_key) => str_is_empty state_key
        | _ => false
        end
  then Done tt
  else
    redacted ←
      of_result (map_err of_redaction_error (redact object rules.(RoomVersionRules.redaction) None));
    let canonical_json := to_canonical_json_string_for_signing redacted in
    signature_map ← of_result (get_signature_map object);
    match room_policy.(public_keys) !! "ed25519" with
    | None => Fail (NoSupportedSignatureForEntity room_policy.(via))
    | Some public_key =>
        verify_canonical_json_for_entity room_policy.(via)
          {[ room_policy.(via) := {[ POLICY_SERVER_ED25519_SIGNING_KEY_ID := public_key ]} ]}
          signature_map canonical_json
    end.

(** The key IDs of one signature set that parse as server signing key IDs. *)
Fixpoint server_key_ids {U : Unicode} (keys : list string) : comp SigError (list string) :=
  match keys with
  | [] => Done []
  | key_id :: keys =>
      ok_else (key_id_validate server_signing_key_version_validate key_id)
        (server_key_ids keys)
        (fun _ => ids ← server_key_ids keys; Done (key_id :: ids))
  end.

Fixpoint required_keys_loop {U : Unicode} (servers : list string) (signatures : CanonicalJsonObject)
    (map : gmap string (list string)) : comp SigError (gmap string (list string)) :=
  match servers with
  | [] => Done map
  | server :: servers =>
      match bt_get server signatures with
      | Some (CObject set) =>
          ids ← server_key_ids set.*1;
          required_keys_loop servers signatures
            (<[ server := (default [] (map !! server) ++ ids)%list ]> map)
      | _ => required_keys_loop servers signatures map
      end
  end.

Definition required_keys {U : Unicode} (object : CanonicalJsonObject) (version : RoomVersionRules.t) :
    comp SigError (gmap string (list string)) :=
  match bt_get "signatures" object with
  | Some (CObject signatures) =>
      servers ← servers_to_check_signatures object version.(RoomVersionRules.signatures);
      required_keys_loop (bset_iter servers) signatures ∅
  | _ => Done ∅
  end.

End signatures.

(** ** Lemmas *)

(** What the sources rely on of the [base64] crate. *)
Class Base64Laws {C : Crypto} : Prop :=
  base64_roundtrip : forall b, base64_standard_decode (base64_standard_encode b) = Some b.

(** [kp] signs under key ID [kid], with signatures that verify under [pk]. *)
Record signs_with {C : Crypto} (kp : KeyPair) (kid pk : string) : Prop := {
  signs_id : forall m, (kp m).(signature_id) = kid;
  signs_ok : forall m, ed25519_verify_json pk (kp m).(signature_bytes) m = Ok tt
}.

(** [kid] is a well-formed Ed25519 key ID. *)
Definition ed25519_key_id (kid : string) : Prop :=
  (_ ← key_id_validate any_key_name_validate kid; key_id_algorithm kid) = Done "ed25519".

Section lemmas.
Context {C : Crypto}.

Lemma verify_signature_set_Done e pks cj set checked b :
  verify_signature_set e pks cj set checked = Done b <->
  exists bs, Forall2 (fun kv c => verify_signature_entry e pks cj kv.1 kv.2 = Done c) set bs
    /\ b = checked || existsb id bs.
Proof.
  revert checked; induction set as [|[k sig] set IH]; intros checked; cbn [verify_signature_set].
  - split.
    + intros [= ->]. exists []. split; [constructor|]. simpl. by rewrite orb_false_r.
    + intros (bs & Hbs & ->). inversion Hbs. simpl. by rewrite orb_false_r.
  - rewrite bind_Done. split.
    + intros (c & Hc & (bs & Hbs & ->)%IH). exists (c :: bs). split; [by constructor|].
      simpl. by rewrite orb_assoc.
    + intros (bs & Hbs & ->). inversion Hbs as [|? c ? bs' Hc Hbs']; subst. exists c.
      split; [done|]. apply IH. exists bs'. simpl. by rewrite orb_assoc.
Qed.

(** An entity verifies exactly when none of its signatures fails and at least
    one of them was verified. *)
Lemma verify_entity_Done e pkm sm cj :
  verify_canonical_json_for_entity e pkm sm cj = Done tt <->
  exists set pks, bt_get e sm = Some (CObject set) /\ pkm !! e = Some pks /\
    Forall (fun kv => exists c, verify_signature_entry e pks cj kv.1 kv.2 = Done c) set /\
    Exists (fun kv => verify_signature_entry e pks cj kv.1 kv.2 = Done true) set.
Proof.
  unfold verify_canonical_json_for_entity. split.
  - destruct (bt_get e sm) as [[| | | | |set]|]; try done.
    destruct (pkm !! e) as [pks|] eqn:Hp; [|done].
    intros (c & Hc & Hd)%bind_Done. destruct c; [|done].
    apply verify_signature_set_Done in Hc as (bs & Hbs & Hex).
    exists set, pks. repeat split; try done.
    + clear Hex. induction Hbs; constructor; [by eexists|done].
    + simpl in Hex. symmetry in Hex. clear Hd Hp. induction Hbs as [|kv c set bs Hc _ IH]; [done|].
      simpl in Hex. destruct c; [by left|right]. by apply IH.
  - intros (set & pks & -> & -> & Hall & Hex). apply bind_Done. exists true. split; [|done].
    apply verify_signature_set_Done.
    induction Hall as [|kv set [c Hc] Hall IH]; [by inversion Hex|].
    destruct c.
    + assert (exists bs, Forall2 (fun kv c => verify_signature_entry e pks cj kv.1 kv.2 = Done c) set bs)
        as [bs Hbs].
      { clear -Hall. induction Hall as [|kv' set [c' Hc'] _ [bs IH]]; [by exists []|].
        exists (c' :: bs). by constructor. }
      exists (true :: bs). split; [by constructor|done].
    + apply Exists_cons in Hex as [Hex|Hex]; [congruence|].
      destruct (IH Hex) as (bs & Hbs & Hb). exists (false :: bs). split; [by constructor|done].
Qed.

Lemma verify_entities_Done es pkm sm cj :
  verify_entities es pkm sm cj = Done tt <->
  Forall (fun e => verify_canonical_json_for_entity e pkm sm cj = Done tt) es.
Proof.
  induction es as [|e es IH]; cbn [verify_entities]; [split; [constructor|done]|].
  rewrite Forall_cons, bind_Done, <- IH. split.
  - by intros ([] & ? & ?).
  - intros [? ?]. by exists tt.
Qed.

Lemma verify_signature_entry_own {L : Base64Laws} kp kid pk e pks m :
  signs_with kp kid pk -> ed25519_key_id kid -> pks !! kid = Some pk ->
  verify_signature_entry e pks m kid (CString (signature_base64 (kp m))) = Done true.
Proof.
  intros [Hid Hok] Hkid Hpk. unfold verify_signature_entry. rewrite Hpk.
  unfold ed25519_key_id in Hkid. rewrite Hkid. simpl. unfold signature_base64.
  by rewrite base64_roundtrip, Hok.
Qed.

(** The signed text only depends on the fields other than [signatures] and
    [unsigned]. *)
Lemma signing_string_ext o1 o2 fields :
  bt_wf o1 -> bt_wf o2 -> (forall k, k ∉ fields -> bt_get k o1 = bt_get k o2) ->
  to_canonical_json_string_with_fields_to_remove o1 fields
  = to_canonical_json_string_with_fields_to_remove o2 fields.
Proof.
  intros H1 H2 Hk. unfold to_canonical_json_string_with_fields_to_remove. f_equal.
  apply bt_ext; [by apply bt_remove_all_wf..|]. intros k. rewrite !bt_get_remove_all by done.
  case_bool_decide; [done|]. by apply Hk.
Qed.

Lemma sign_json_spec e kp o o' :
  bt_wf o -> sign_json e kp o = Ok o' ->
  exists sm set, bt_wf o' /\
    default (CObject []) (bt_get "signatures" o) = CObject sm /\
    default (CObject []) (bt_get e sm) = CObject set /\
    let sig := kp (to_canonical_json_string_for_signing o) in
    bt_get "signatures" o' = Some (CObject (bt_insert e
      (CObject (bt_insert sig.(signature_id) (CString (signature_base64 sig)) set)) sm)) /\
    forall k, k <> "signatures" -> bt_get k o' = bt_get k o.
Proof.
  intros Hwf. unfold sign_json. intros (sm & Hsm & H)%bind_Ok.
  assert (default (CObject []) (bt_get "signatures" o) = CObject sm) as Hd.
  { destruct (bt_get "signatures" o) as [[]|]; simpl; inv_ok; done. }
  destruct (default (CObject []) (bt_get e sm)) as [| | | | |set] eqn:Hset; try done. inv_ok.
  assert (bt_wf (bt_remove "unsigned" (bt_remove "signatures" o))) as Hwf'
    by (by repeat apply bt_remove_wf).
  exists sm, set. split; [|split; [done|split; [done|]]].
  { destruct (bt_get "unsigned" _); repeat apply bt_insert_wf; done. }
  cbn zeta.
  replace (bt_get "unsigned" (bt_remove "signatures" o)) with (bt_get "unsigned" o)
    by (by rewrite bt_get_remove).
  assert (forall k, k <> "signatures" -> k <> "unsigned" ->
    bt_get k (bt_remove "unsigned" (bt_remove "signatures" o)) = bt_get k o) as Hrem.
  { intros k Hk1 Hk2. rewrite bt_get_remove by (by apply bt_remove_wf). rewrite bt_get_remove by done.
    by destruct (String.eqb_spec k "unsigned"), (String.eqb_spec k "signatures"). }
  destruct (bt_get "unsigned" o) as [u|] eqn:Hu; cbv iota beta; split.
  - rewrite bt_get_insert by (by apply bt_insert_wf). rewrite bt_get_insert by done. done.
  - intros k Hk. rewrite bt_get_insert by (by apply bt_insert_wf). rewrite bt_get_insert by done.
    destruct (String.eqb_spec k "unsigned") as [->|]; [done|].
    destruct (String.eqb_spec k "signatures"); [done|]. by apply Hrem.
  - rewrite bt_get_insert by done. done.
  - intros k Hk. rewrite bt_get_insert by done.
    destruct (String.eqb_spec k "signatures"); [done|].
    destruct (String.eqb_spec k "unsigned") as [->|]; [|by apply Hrem].
    rewrite bt_get_remove by (by apply bt_remove_wf). by rewrite Hu.
Qed.

Lemma sign_json_succeeds e kp o sm set :
  default (CObject []) (bt_get "signatures" o) = CObject sm ->
  default (CObject []) (bt_get e sm) = CObject set ->
  exists o', sign_json e kp o = Ok o'.
Proof.
  intros Hsm Hset. unfold sign_json.
  destruct (bt_get "signatures" o) as [[]|]; simpl in Hsm; try done;
    injection Hsm as <-; cbn; [|by eexists]. rewrite Hset. by eexists.
Qed.

Lemma signing_string_signed e kp o o' :
  bt_wf o -> sign_json e kp o = Ok o' ->
  to_canonical_json_string_for_signing o' = to_canonical_json_string_for_signing o.
Proof.
  intros Hwf Hs. destruct (sign_json_spec _ _ _ _ Hwf Hs) as (sm & set & Hwf' & _ & _ & _ & Hk).
  apply signing_string_ext; [done..|]. intros k Hnin. apply Hk. unfold CANONICAL_JSON_FIELDS_TO_REMOVE in Hnin.
  set_solver.
Qed.

(** Adding a valid signature of [e] to a map of signatures in which every
    signature set named in [es] verifies. *)
Lemma verify_signed_entity {L : Base64Laws} e kp kid pk pks pkm sm set cj :
  signs_with kp kid pk -> ed25519_key_id kid -> pkm !! e = Some pks -> pks !! kid = Some pk ->
  bt_wf sm -> Forall (fun kv => exists c, verify_signature_entry e pks cj kv.1 kv.2 = Done c) set ->
  verify_canonical_json_for_entity e pkm
    (bt_insert e (CObject (bt_insert (kp cj).(signature_id)
       (CString (signature_base64 (kp cj))) set)) sm) cj = Done tt.
Proof.
  intros Hs Hkid Hpkm Hpk Hwf Hall. apply verify_entity_Done.
  pose proof (verify_signature_entry_own kp kid pk e pks cj Hs Hkid Hpk) as Hown.
  rewrite (signs_id _ _ _ Hs). eexists _, pks. split; [|split; [done|split]].
  - by rewrite bt_get_insert, String.eqb_refl.
  - apply Forall_forall. intros x [->|Hx]%bt_insert_elem; [by eexists|].
    rewrite Forall_forall in Hall. by apply Hall.
  - apply Exists_exists. eexists. split; [apply bt_insert_mem|done].
Qed.
End lemmas.

(** ** Properties *)

(** An object that carries no signature, or whose signatures all
    verify, verifies after it is signed with a key of the public key map, and
    signing did not change the signed text. *)
Theorem sign_json_verifies {C : Crypto} {L : Base64Laws} e kp kid pk pks pkm o :
  signs_with kp kid pk -> ed25519_key_id kid ->
  pkm !! e = Some pks -> pks !! kid = Some pk ->
  canonical_wf (CObject o) ->
  bt_get "signatures" o = None \/ verify_json pkm o = Done tt ->
  exists o', sign_json e kp o = Ok o' /\ verify_json pkm o' = Done tt /\
    to_canonical_json_string_for_signing o' = to_canonical_json_string_for_signing o.
Proof.
  intros Hs Hkid Hpkm Hpk [Hwf Hall]%canonical_wf_object Hsig.
  set (cj := to_canonical_json_string_for_signing o).
  assert (exists sm, default (CObject []) (bt_get "signatures" o) = CObject sm /\
    bt_wf sm /\ Forall (fun e => verify_canonical_json_for_entity e pkm sm cj = Done tt) sm.*1)
    as (sm & Hsm & Hwfsm & Hver).
  { destruct Hsig as [->|Hv]; [exists []; repeat constructor|]. unfold verify_json, get_signature_map in Hv.
    destruct (bt_get "signatures" o) as [[| | | | |sm]|] eqn:Hg; try done. exists sm.
    split; [done|]. apply bt_get_Some_elem in Hg. rewrite Forall_forall in Hall. apply Hall in Hg.
    apply canonical_wf_object in Hg as [Hg _]. split; [done|]. by apply verify_entities_Done. }
  assert (exists set, default (CObject []) (bt_get e sm) = CObject set /\
    Forall (fun kv => exists c, verify_signature_entry e pks cj kv.1 kv.2 = Done c) set)
    as (set & Hset & Hentries).
  { destruct (bt_get e sm) as [v|] eqn:Hg; [|exists []; by repeat constructor].
    apply bt_get_Some_elem in Hg as Hin. apply (list_elem_of_fmap_2 fst) in Hin.
    rewrite Forall_forall in Hver. apply Hver, verify_entity_Done in Hin as (set & pks' & Hs' & Hp & Hf & _).
    simpl in *. exists set. rewrite Hg in Hs'. injection Hs' as ->.
    replace pks with pks' by congruence. done. }
  destruct (sign_json_succeeds e kp o sm set Hsm Hset) as [o' Ho'].
  exists o'. split; [done|]. rewrite (signing_string_signed _ _ _ _ Hwf Ho'). split; [|done].
  destruct (sign_json_spec _ _ _ _ Hwf Ho') as (sm2 & set2 & _ & Hsm2 & Hset2 & Hg & _).
  rewrite Hsm in Hsm2. injection Hsm2 as <-. rewrite Hset in Hset2. injection Hset2 as <-.
  unfold verify_json, get_signature_map. rewrite Hg. simpl.
  rewrite (signing_string_signed _ _ _ _ Hwf Ho'). fold cj. apply verify_entities_Done, Forall_forall.
  intros e' ([e2 v] & -> & Hin)%list_elem_of_fmap. simpl.
  destruct (decide (e2 = e)) as [->|Hne]; [by eapply verify_signed_entity|].
  apply bt_insert_elem in Hin as [[= -> _]|Hin]; [done|]. apply (list_elem_of_fmap_2 fst) in Hin.
  rewrite Forall_forall in Hver. apply Hver, verify_entity_Done in Hin as (set' & pks' & Hs' & Hrest).
  apply verify_entity_Done. exists set', pks'. split; [|done]. simpl in *.
  rewrite bt_get_insert by done. by destruct (String.eqb_spec e2 e).
Qed.

(** [s] has signed [text] in the signature map [sm]: one of its signatures
    verifies under the public key the map [pkm] has for it. *)
Definition signed_by {C : Crypto} (pkm : PublicKeyMap) (sm : CanonicalJsonObject)
    (text s : string) : Prop :=
  exists set pks kid sig bytes pk,
    bt_get s sm = Some (CObject set) /\ pkm !! s = Some pks /\ (kid, CString sig) ∈ set /\
    pks !! kid = Some pk /\ base64_standard_decode sig = Some bytes /\
    ed25519_verify pk text bytes = true.

Lemma verify_entity_signed_by {C : Crypto} e pkm sm cj :
  verify_canonical_json_for_entity e pkm sm cj = Done tt -> signed_by pkm sm cj e.
Proof.
  intros (set & pks & Hset & Hpks & _ & Hex)%verify_entity_Done.
  apply Exists_exists in Hex as ([kid v] & Hin & Hv). simpl in Hv.
  unfold verify_signature_entry in Hv. destruct (pks !! kid) as [pk|] eqn:Hpk; [|done].
  destruct (mbind _ _) as [alg| | |]; simpl in Hv; try done.
  destruct (verifier_from_algorithm alg); [|done]. destruct v as [| | |sig| |]; try done.
  destruct (base64_standard_decode sig) as [bytes|] eqn:Hd; [|done]. inv_ok.
  unfold ed25519_verify_json in Ha. repeat (case_match; try done).
  exists set, pks, kid, sig, bytes, pk. done.
Qed.

Lemma servers_to_check_sender o rules servers :
  is_invite_via_third_party_id o = Ok false -> servers_to_check_signatures o rules = Done servers ->
  exists sender server, bt_get "sender" o = Some (CString sender) /\
    user_id_server_name sender = Done server /\ server ∈ servers.
Proof.
  intros Htp. unfold servers_to_check_signatures. rewrite Htp.
  intros (third & [= <-] & H)%bind_Done. apply bind_Done in H as (s1 & H1 & H).
  apply bind_Done in H as (s2 & H2 & H).
  destruct (bt_get "sender" o) as [[| | |sender| |]|]; try done.
  apply bind_Done in H1 as (server & H1 & [= <-]). apply comp_map_err_Done in H1.
  unfold parse_user_server in H1. apply bind_Done in H1 as (u & _ & H1).
  exists sender, server. split; [done|]. split; [done|].
  assert (server ∈ s2) as Hin.
  { destruct (SignaturesRules.check_event_id_server rules); [|inv_ok; set_solver].
    destruct (bt_get "event_id" o) as [[| | |ev| |]|]; try done. inv_ok.
    destruct (event_id_server_name ev); inv_ok. set_solver. }
  destruct (SignaturesRules.check_join_authorised_via_users_server rules); [|by inv_ok].
  destruct (_ ≫= _) as [v|]; [|by inv_ok]. destruct (as_str v) as [w|]; [|done].
  destruct (parse_user_server w); simpl in H; inv_ok; set_solver.
Qed.

(** What a successful [verify_event] has checked. *)
Lemma verify_event_Done {C : Crypto} pkm o rules v :
  verify_event pkm o rules = Done v ->
  exists r sm servers,
    redact o rules.(RoomVersionRules.redaction) None = Ok r /\
    bt_get "signatures" o = Some (CObject sm) /\
    servers_to_check_signatures o rules.(RoomVersionRules.signatures) = Done servers /\
    (forall s, s ∈ servers -> signed_by pkm sm (to_canonical_json_string_for_signing r) s) /\
    (is_invite_via_third_party_id o = Ok false ->
       exists sender server, bt_get "sender" o = Some (CString sender) /\
         user_id_server_name sender = Done server /\ server ∈ servers).
Proof.
  unfold verify_event. intros H. inv_ok.
  apply map_err_Ok in Ha. unfold get_signature_map in Ha1.
  destruct (bt_get "signatures" o) as [[| | | | |sm]|] eqn:Hsm; try done. injection Ha1 as ->.
  exists a, a1, a2. split; [done|]. split; [done|]. split; [done|]. split.
  - intros s Hs. destruct a3. apply verify_entities_Done in Ha3. rewrite Forall_forall in Ha3.
    apply verify_entity_signed_by, Ha3. by apply elem_of_bset_iter.
  - intros Htp. by eapply servers_to_check_sender.
Qed.

(** C26: when an event verifies, every server whose signature is
    required has a verified signature on the redacted event's signing text;
    the sender's server is one of them unless the event is a third-party
    invite; and [Verified::All] means the stated content hash is the computed
    one. *)
Theorem verify_event_sound {C : Crypto} pkm o rules v :
  verify_event pkm o rules = Done v ->
  exists r sm servers,
    redact o rules.(RoomVersionRules.redaction) None = Ok r /\
    bt_get "signatures" o = Some (CObject sm) /\
    servers_to_check_signatures o rules.(RoomVersionRules.signatures) = Done servers /\
    (forall s, s ∈ servers -> signed_by pkm sm (to_canonical_json_string_for_signing r) s) /\
    (is_invite_via_third_party_id o = Ok false ->
       exists sender server, bt_get "sender" o = Some (CString sender) /\
         user_id_server_name sender = Done server /\ server ∈ servers) /\
    (v = VerifiedAll ->
       exists h, get_sha256 o = Ok h /\ (ok (content_hash o) : option string)
         = base64_standard_decode h).
Proof.
  intros H. destruct (verify_event_Done _ _ _ _ H) as (r & sm & servers & Hr & Hsm & Hs & Hsig & Hsend).
  exists r, sm, servers. repeat (split; [done|]). intros ->.
  unfold verify_event in H. inv_ok. exists a0. split; [done|]. rewrite Ha4. simpl.
  destruct (base64_standard_decode a0) as [h|]; [|done]. destruct (String.eqb_spec h a4); [congruence|done].
Qed.

(** The reference hash of an event, hence its event ID from
    room version 3 on, does not change when the event is redacted or when its
    [signatures] or [unsigned] fields are set to anything. *)
Theorem reference_hash_stable {C : Crypto} o rules r because k v :
  canonical_wf (CObject o) ->
  redact o rules.(RoomVersionRules.redaction) because = Ok r ->
  k ∈ ["signatures"; "unsigned"] ->
  reference_hash r rules = reference_hash o rules /\
  reference_hash (bt_insert k v o) rules = reference_hash o rules.
Proof.
  intros Hwf Hr Hin. split.
  - unfold reference_hash. by rewrite (redact_twice _ _ _ _ None Hwf Hr).
  - apply canonical_wf_object in Hwf as [Hwf _]. unfold reference_hash.
    pose proof (redact_agree (bt_insert k v o) o rules.(RoomVersionRules.redaction)
      (bt_insert_wf _ _ _ Hwf) Hwf) as Hag.
    specialize (Hag ltac:(intros k2 Hk2; rewrite bt_get_insert by done;
      by destruct (String.eqb_spec k2 k); subst)).
    destruct (redact (bt_insert k v o) _ None) as [r1|e1], (redact o _ None) as [r2|e2]; try done;
      [|by subst]. destruct Hag as (H1 & H2 & Hk). cbn.
    by rewrite (signing_string_ext r1 r2 REFERENCE_HASH_FIELDS_TO_REMOVE H1 H2 Hk).
Qed.

(** The required servers depend only on these four fields. *)
Lemma servers_to_check_ext o1 o2 rules :
  (forall k, k ∈ ["type"; "content"; "sender"; "event_id"] -> bt_get k o1 = bt_get k o2) ->
  servers_to_check_signatures o1 rules = servers_to_check_signatures o2 rules.
Proof.
  intros Hk. unfold servers_to_check_signatures, is_invite_via_third_party_id.
  rewrite (Hk "type"), (Hk "content"), (Hk "sender"), (Hk "event_id") by set_solver. done.
Qed.

(** What [hash_and_sign_event] adds to an event without signatures. *)
Lemma hash_and_sign_spec {C : Crypto} e kp o rules o' :
  bt_wf o -> bt_get "signatures" o = None -> hash_and_sign_event e kp o rules = Ok o' ->
  exists h hashes r, content_hash o = Ok h /\
    let o1 := bt_insert "hashes" (CObject hashes) o in
    bt_get "sha256" hashes = Some (CString (base64_standard_encode h)) /\
    redact o1 rules None = Ok r /\
    let sig := kp (to_canonical_json_string_for_signing r) in
    o' = bt_insert "signatures" (CObject (bt_insert e
      (CObject (bt_insert sig.(signature_id) (CString (signature_base64 sig)) [])) [])) o1.
Proof.
  intros Hwf Hnone. unfold hash_and_sign_event. intros (h & Hh & H)%bind_Ok.
  apply bind_Ok in H as (o1 & Ho1 & H). apply bind_Ok in H as (r & Hr & H).
  apply bind_Ok in H as (r' & Hr' & H). apply map_err_Ok in Hr.
  destruct (default (CObject []) (bt_get "hashes" o)) as [| | | | |hashes] eqn:Hd; try done.
  injection Ho1 as <-. exists h. eexists. exists r. split; [done|]. cbn zeta. split.
  { apply bt_get_insert_eq. }
  split; [exact Hr|].
  assert (bt_wf (bt_insert "hashes" (CObject (bt_insert "sha256" (CString (base64_standard_encode h)) hashes)) o))
    as Hwf1 by (by apply bt_insert_wf).
  destruct (redact_fields _ _ _ _ Hwf1 Hr) as (Hwfr & t & content & _ & _ & Hg).
  assert (bt_get "signatures" r = None) as Hrn.
  { rewrite Hg. unfold redacted_field. simpl. rewrite bt_get_insert by done. done. }
  destruct (sign_json_spec _ _ _ _ Hwfr Hr') as (sm & set & _ & Hsm & Hset & Hsig & _).
  rewrite Hrn in Hsm. injection Hsm as <-. simpl in Hset. injection Hset as <-.
  rewrite Hsig in H. by injection H as <-.
Qed.

Lemma verify_event_intro {C : Crypto} pkm o rules r h sm servers ch :
  redact o rules.(RoomVersionRules.redaction) None = Ok r ->
  get_sha256 o = Ok h -> get_signature_map o = Ok sm ->
  servers_to_check_signatures o rules.(RoomVersionRules.signatures) = Done servers ->
  (forall s, s ∈ servers ->
     verify_canonical_json_for_entity s pkm sm (to_canonical_json_string_for_signing r) = Done tt) ->
  content_hash o = Ok ch -> base64_standard_decode h = Some ch ->
  verify_event pkm o rules = Done VerifiedAll.
Proof.
  intros Hr Hh Hsm Hs Hv Hc Hd. unfold verify_event. rewrite Hr, Hh, Hsm, Hs. cbn.
  rewrite (proj2 (verify_entities_Done _ _ _ _)).
  - cbn. rewrite Hc. cbn. by rewrite Hd, String.eqb_refl.
  - apply Forall_forall. intros s Hin%elem_of_bset_iter. by apply Hv.
Qed.

(** An event that is hashed and signed verifies. *)
Lemma signed_event_verifies {C : Crypto} {L : Base64Laws} e kp kid pk pks pkm o o' rules servers :
  signs_with kp kid pk -> ed25519_key_id kid ->
  pkm !! e = Some pks -> pks !! kid = Some pk ->
  bt_wf o -> bt_get "signatures" o = None ->
  servers_to_check_signatures o rules.(RoomVersionRules.signatures) = Done servers ->
  (forall s, s ∈ servers -> s = e) ->
  hash_and_sign_event e kp o rules.(RoomVersionRules.redaction) = Ok o' ->
  verify_event pkm o' rules = Done VerifiedAll.
Proof.
  intros Hs Hkid Hpkm Hpk Hwf Hnone Hserv Honly H.
  destruct (hash_and_sign_spec _ _ _ _ _ Hwf Hnone H) as (h & hashes & r & Hh & Hsha & Hr & ->).
  set (o1 := bt_insert "hashes" (CObject hashes) o) in *.
  set (sig := CObject (bt_insert e _ [])).
  assert (Hwf1 : bt_wf o1) by (by apply bt_insert_wf).
  assert (Hwf2 : bt_wf (bt_insert "signatures" sig o1)) by (by apply bt_insert_wf).
  assert (Hget : forall k, k <> "signatures" -> k <> "hashes" ->
    bt_get k (bt_insert "signatures" sig o1) = bt_get k o).
  { intros k H1 H2. unfold o1. rewrite !bt_get_insert by done.
    by destruct (String.eqb_spec k "signatures"), (String.eqb_spec k "hashes"). }
  pose proof (redact_agree (bt_insert "signatures" sig o1) o1 rules.(RoomVersionRules.redaction)
    Hwf2 Hwf1) as Hag.
  rewrite Hr in Hag. specialize (Hag ltac:(intros k Hnin; rewrite bt_get_insert by done;
    destruct (String.eqb_spec k "signatures"); set_solver)).
  destruct (redact (bt_insert "signatures" sig o1) _ None) as [r2|] eqn:Hr2; [|done].
  destruct Hag as (Hw2 & Hw1 & Hk).
  eapply verify_event_intro.
  - exact Hr2.
  - unfold get_sha256. rewrite bt_get_insert by done. unfold o1. simpl. rewrite bt_get_insert_eq.
    by rewrite Hsha.
  - unfold get_signature_map. by rewrite bt_get_insert_eq.
  - rewrite <- Hserv. apply servers_to_check_ext. intros k Hin. apply Hget; set_solver.
  - intros s ->%Honly.
    replace (to_canonical_json_string_for_signing r2) with (to_canonical_json_string_for_signing r)
      by (symmetry; by apply signing_string_ext).
    eapply verify_signed_entity; try done; constructor.
  - rewrite <- Hh. unfold content_hash.
    by rewrite (signing_string_ext (bt_insert "signatures" sig o1) o CONTENT_HASH_FIELDS_TO_REMOVE)
      by (done || intros k Hnin; apply Hget; set_solver).
  - apply base64_roundtrip.
Qed.

(** C27: an unsigned event that a server hashes and signs with a
    published key verifies completely ([Verified::All]) wherever that server is
    the only one whose signature the room version requires. *)
Theorem hash_and_sign_verifies {C : Crypto} {L : Base64Laws} e kp kid pk pks pkm o o' rules servers :
  signs_with kp kid pk -> ed25519_key_id kid ->
  pkm !! e = Some pks -> pks !! kid = Some pk ->
  bt_wf o -> bt_get "signatures" o = None ->
  servers_to_check_signatures o rules.(RoomVersionRules.signatures) = Done servers ->
  (forall s, s ∈ servers -> s = e) ->
  hash_and_sign_event e kp o rules.(RoomVersionRules.redaction) = Ok o' ->
  verify_event pkm o' rules = Done VerifiedAll.
Proof. apply signed_event_verifies. Qed.

(** ** Witnesses *)

(** A signature scheme in which a signature is the key followed by the text, and
    the text of an object lists its keys. *)
Definition toy_crypto : Crypto := {|
  sha256 := fun s => s;
  base64_standard_encode := fun s => s; base64_url_encode := fun s => s;
  base64_standard_decode := Some; base64_url_decode := Some;
  verifying_key_ok := fun _ => true; signature_ok := fun _ => true;
  ed25519_verify := fun pk m s => s =? pk ++ m;
  to_json_string := fun o => String.concat "," o.*1 |}.

Definition toy_laws : @Base64Laws toy_crypto := fun b => eq_refl.

Definition toy_key_pair : KeyPair := fun m => {| signature_id := "ed25519:1"; signature_bytes := "pk" ++ m |}.
Definition toy_keys : PublicKeyMap := {[ "x" := {[ "ed25519:1" := "pk" ]} ]}.

Lemma toy_signs : @signs_with toy_crypto toy_key_pair "ed25519:1" "pk".
Proof.
  split; [done|]. intros m. unfold ed25519_verify_json. cbn [toy_crypto verifying_key_ok signature_ok ed25519_verify].
  cbn [negb toy_key_pair signature_bytes]. by rewrite String.eqb_refl.
Qed.

Lemma sign_json_verifies_witness :
  exists o', @sign_json toy_crypto "x" toy_key_pair example_event = Ok o' /\
    @verify_json toy_crypto toy_keys o' = Done tt /\
    @to_canonical_json_string_for_signing toy_crypto o'
    = @to_canonical_json_string_for_signing toy_crypto example_event.
Proof.
  apply (@sign_json_verifies toy_crypto toy_laws "x" toy_key_pair "ed25519:1" "pk"
    {[ "ed25519:1" := "pk" ]} toy_keys example_event toy_signs).
  1-3: vm_compute; reflexivity.
  - simpl. solve_wf.
  - left. vm_compute. reflexivity.
Defined.

(** The event hashed and signed by its sender's server. *)
Definition example_signed : CanonicalJsonObject :=
  match @hash_and_sign_event toy_crypto "x" toy_key_pair example_event RedactionRules.V11 with
  | Ok o => o
  | Err _ => []
  end.

Lemma verify_event_sound_witness :
  exists r sm servers,
    redact example_signed RedactionRules.V11 None = Ok r /\
    bt_get "signatures" example_signed = Some (CObject sm) /\
    servers_to_check_signatures example_signed SignaturesRules.V8 = Done servers /\
    (forall s, s ∈ servers ->
       @signed_by toy_crypto toy_keys sm (@to_canonical_json_string_for_signing toy_crypto r) s) /\
    (is_invite_via_third_party_id example_signed = Ok false ->
       exists sender server, bt_get "sender" example_signed = Some (CString sender) /\
         user_id_server_name sender = Done server /\ server ∈ servers) /\
    (VerifiedAll = VerifiedAll ->
       exists h, get_sha256 example_signed = Ok h /\
         (ok (@content_hash toy_crypto example_signed) : option string)
         = @base64_standard_decode toy_crypto h).
Proof.
  apply (@verify_event_sound toy_crypto toy_keys example_signed RoomVersionRules.V11 VerifiedAll).
  vm_compute. reflexivity.
Defined.

Lemma reference_hash_stable_witness :
  @reference_hash toy_crypto example_redacted RoomVersionRules.V11
    = @reference_hash toy_crypto example_event RoomVersionRules.V11 /\
  @reference_hash toy_crypto (bt_insert "unsigned" CNull example_event) RoomVersionRules.V11
    = @reference_hash toy_crypto example_event RoomVersionRules.V11.
Proof.
  apply (@reference_hash_stable toy_crypto example_event RoomVersionRules.V11 example_redacted None
    "unsigned" CNull).
  - simpl. solve_wf.
  - vm_compute. reflexivity.
  - right. left.
Defined.

Lemma hash_and_sign_verifies_witness :
  @verify_event toy_crypto toy_keys example_signed RoomVersionRules.V11 = Done VerifiedAll.
Proof.
  apply (@hash_and_sign_verifies toy_crypto toy_laws "x" toy_key_pair "ed25519:1" "pk"
    {[ "ed25519:1" := "pk" ]} toy_keys example_event example_signed RoomVersionRules.V11 {[ "x" ]}
    toy_signs).
  1-3: vm_compute; reflexivity.
  - solve_wf.
  - vm_compute. reflexivity.
  - vm_compute. reflexivity.
  - intros s Hs. by apply elem_of_singleton in Hs.
  - vm_compute. reflexivity.
Defined.
