(* ===== verification/Events.v ===== *)
(** The event abstraction and the typed views of state events:
    [crates/core/src/state/events.rs] and its submodules,
    [crates/core/src/state/error.rs], and the enums they read.

    [Pdu] holds what the [Event] trait exposes.  The content is the JSON
    document; each accessor deserializes the field it is asked for, as the
    sources do.  Results cached in the sources ([OnceLock], the mutexed map of
    [RoomPowerLevelsEvent]) are recomputed here: a view is only ever read with
    the authorization rules it was first read with, and failures are not
    cached.

    [MembershipState], [JoinRuleKind] and the event types are generated from
    lists of names; event types are represented by their canonical wire name,
    [timeline_event_type] being the reading of a wire name (aliases of the
    message-like and state enums of [crates/core/src/events/enums.rs] included,
    for the features the server is built with). *)

From Stdlib Require Import Ascii.
From S2P Require Import Prelude RustStr BTree Identifiers Json Canonical RoomVersion Signatures.

Open Scope string_scope.

(** ** Errors *)

(** [StateError]; the message texts are left out. *)
Inductive StateError :=
| NotFound (event_id : string)
| Forbidden
| AuthEvent
| MissingStateKey
| FetchConflictedStateSubgraphFailed
| Other.

Abbreviation StateResult := (result StateError).

(** A deserialization error mapped to [StateError::Other]. *)
Definition de_result {A} (o : option A) : StateResult A := ok_or o Other.

(** ** Events *)

Record Pdu := {
  event_id : string;
  room_id : string;
  sender : string;
  origin_server_ts : Z;
  event_type : string;
  content : json;
  state_key : option string;
  prev_events : list string;
  auth_events : list string;
  redacts : option string;
  rejected : bool
}.

Definition timeline_aliases : list (string * string) := [
  ("m.audio", "org.matrix.msc1767.audio");
  ("org.matrix.call.sdp_stream_metadata_changed", "m.call.sdp_stream_metadata_changed");
  ("m.emote", "org.matrix.msc1767.emote");
  ("m.encrypted", "org.matrix.msc1767.encrypted");
  ("m.file", "org.matrix.msc1767.file");
  ("m.image", "org.matrix.msc1767.image");
  ("m.message", "org.matrix.msc1767.message");
  ("m.beacon", "org.matrix.msc3672.beacon");
  ("m.video", "org.matrix.msc1767.video");
  ("m.voice", "org.matrix.msc3245.voice.v2");
  ("m.call.notify", "org.matrix.msc4075.call.notify");
  ("m.rtc.notification", "org.matrix.msc4075.rtc.notification");
  ("m.rtc.decline", "org.matrix.msc4310.rtc.decline");
  ("m.image_pack", "m.room.image_pack");
  ("im.ponies.room_emotes", "m.room.image_pack");
  ("m.beacon_info", "org.matrix.msc3672.beacon_info");
  ("m.call.member", "org.matrix.msc3401.call.member");
  ("m.member_hints", "io.element.functional_members")
].

(** [TimelineEventType::from]. *)
Definition timeline_event_type (s : string) : string := default s (bt_get s timeline_aliases).

(** ** Enums *)

Inductive MembershipState :=
| MBan | MInvite | MJoin | MKnock | MLeave
| MCustom (s : string).

#[global] Instance MembershipState_eq_dec : EqDecision MembershipState.
Proof. solve_decision. Defined.

Definition membership_of_string (s : string) : MembershipState :=
  if s =? "ban" then MBan
  else if s =? "invite" then MInvite
  else if s =? "join" then MJoin
  else if s =? "knock" then MKnock
  else if s =? "leave" then MLeave
  else MCustom s.

Definition membership_as_str (m : MembershipState) : string :=
  match m with
  | MBan => "ban" | MInvite => "invite" | MJoin => "join" | MKnock => "knock" | MLeave => "leave"
  | MCustom s => s
  end.

Inductive JoinRuleKind :=
| JInvite | JKnock | JPrivate | JRestricted | JKnockRestricted | JPublic
| JCustom (s : string).

#[global] Instance JoinRuleKind_eq_dec : EqDecision JoinRuleKind.
Proof. solve_decision. Defined.

Definition join_rule_of_string (s : string) : JoinRuleKind :=
  if s =? "invite" then JInvite
  else if s =? "knock" then JKnock
  else if s =? "private" then JPrivate
  else if s =? "restricted" then JRestricted
  else if s =? "knock_restricted" then JKnockRestricted
  else if s =? "public" then JPublic
  else JCustom s.

(** [UserPowerLevel] and its comparisons with itself and with integers. *)
Inductive UserPowerLevel :=
| Infinite
| Int (z : Z).

Definition upl_cmp (x y : UserPowerLevel) : comparison :=
  match x, y with
  | Infinite, Infinite => Eq
  | Infinite, Int _ => Gt
  | Int _, Infinite => Lt
  | Int a, Int b => Z.compare a b
  end.

(** [PartialOrd<i64> for UserPowerLevel] and [PartialOrd<UserPowerLevel> for i64]. *)
Definition upl_cmp_int (x : UserPowerLevel) (y : Z) : comparison :=
  match x with Infinite => Gt | Int a => Z.compare a y end.
Definition int_cmp_upl (x : Z) (y : UserPowerLevel) : comparison :=
  match y with Infinite => Lt | Int b => Z.compare x b end.

Definition is_lt (c : comparison) : bool := match c with Lt => true | _ => false end.
Definition is_gt (c : comparison) : bool := match c with Gt => true | _ => false end.
Definition is_ge (c : comparison) : bool := match c with Lt => false | _ => true end.

(** ** [m.room.create] *)

Module RoomCreate.
Section room_create.
Context {U : Unicode}.

Definition de_room_version (j : json) : option RoomVersionId :=
  s ← de_str j; ok (room_version_try_from s).

Definition room_version (ev : Pdu) : StateResult RoomVersionId :=
  v ← de_result (struct1 "room_version" false (field_option de_room_version) ev.(content));
  Ok (default RV_V1 v).

Definition version_rules (ev : Pdu) : StateResult RoomVersionRules.t :=
  room_version ← room_version ev;
  ok_or (room_version_rules room_version) Other.

Definition federate (ev : Pdu) : StateResult bool :=
  federate ← de_result (struct1 "m.federate" false (field_option de_bool) ev.(content));
  Ok (default true federate).

Definition creator (ev : Pdu) : StateResult string :=
  rules ← version_rules ev;
  if rules.(RoomVersionRules.authorization).(AuthorizationRules.use_room_create_sender)
  then Ok ev.(sender)
  else de_result (struct1 "creator" false (field_required de_user_id) ev.(content)).

Definition additional_creators (ev : Pdu) : StateResult (gset string) :=
  rules ← version_rules ev;
  if rules.(RoomVersionRules.authorization).(AuthorizationRules.additional_room_creators)
  then
    creators ← de_result
      (struct1 "additional_creators" true (field_default [] (de_vec de_user_id)) ev.(content));
    Ok (list_to_set creators)
  else Ok ∅.

Definition creators (ev : Pdu) : StateResult (gset string) :=
  creators ← additional_creators ev;
  creator ← creator ev;
  Ok ({[ creator ]} ∪ creators).

Definition has_creator (ev : Pdu) : StateResult bool :=
  creator ← de_result (struct1 "creator" false (field_option de_any) ev.(content));
  Ok (match creator with Some _ => true | None => false end).

End room_create.
End RoomCreate.

(** ** [m.room.join_rules] *)

Definition join_rules_join_rule (ev : Pdu) : StateResult JoinRuleKind :=
  s ← de_result (struct1 "join_rule" false (field_required de_str) ev.(content));
  Ok (join_rule_of_string s).

(** ** [m.room.member] *)

(** [ThirdPartyInvite]: its [signed] object.  Every member is converted before
    the map is built, so a bad value fails even when a later member has the
    same key. *)
Definition de_canonical_object (j : json) : option CanonicalJsonObject :=
  match j with
  | JObj members =>
      ok (members ← mapR (fun kv => v ← try_from kv.2; Ok (kv.1, v)) members;
          Ok (bt_from_list members))
  | _ => None
  end.

Definition de_third_party_invite (j : json) : option CanonicalJsonObject :=
  struct1 "signed" false (field_required de_canonical_object) j.

Module RoomMember.

(** [RoomMemberEventContent]. *)
Definition membership (content : json) : StateResult MembershipState :=
  s ← de_result (struct1 "membership" false (field_required de_str) content);
  Ok (membership_of_string s).

(** An unreadable field counts as absent. *)
Definition join_authorised_via_users_server (content : json) : StateResult (option string) :=
  Ok (default None
        (struct1 "join_authorised_via_users_server" false (field_option de_user_id) content)).

Definition third_party_invite (content : json) : StateResult (option CanonicalJsonObject) :=
  de_result (struct1 "third_party_invite" false (field_option de_third_party_invite) content).

End RoomMember.

(** [RoomMemberEventOptionExt::membership]. *)
Definition opt_membership (ev : option Pdu) : StateResult MembershipState :=
  match ev with
  | Some ev => RoomMember.membership ev.(content)
  | None => Ok MLeave
  end.

Module ThirdPartyInvite.

Definition token (signed : CanonicalJsonObject) : StateResult string :=
  v ← ok_or (bt_get "token" signed) Other; ok_or (as_str v) Other.

Definition mxid (signed : CanonicalJsonObject) : StateResult string :=
  v ← ok_or (bt_get "mxid" signed) Other; ok_or (as_str v) Other.

Definition signatures (signed : CanonicalJsonObject) : StateResult CanonicalJsonObject :=
  v ← ok_or (bt_get "signatures" signed) Other; ok_or (as_object v) Other.

Definition signed_canonical_json {C : Crypto} (signed : CanonicalJsonObject) : string :=
  to_canonical_json_string_for_signing signed.

End ThirdPartyInvite.

(** ** [m.room.third_party_invite] *)

Definition de_public_key (j : json) : option string :=
  struct1 "public_key" false (field_required de_str) j.

(** The encoded public keys, a [BTreeSet]. *)
Definition room_third_party_invite_public_keys (ev : Pdu) : StateResult (gset string) :=
  de_result (
    slots ← struct_fields [("public_key", false); ("public_keys", true)] ev.(content);
    match slots with
    | [public_key; public_keys] =>
        public_key ← field_option de_str public_key;
        public_keys ← field_default [] (de_vec de_public_key) public_keys;
        Some (list_to_set ((match public_key with Some k => [k] | None => [] end) ++ public_keys)%list)
    | _ => None
    end).

(** [IdentityServerBase64PublicKey::decode]. *)
Definition identity_key_decode {C : Crypto} (key : string) : option string :=
  if str_contains "-"%char key || str_contains "_"%char key
  then base64_url_decode key else base64_standard_decode key.

(** ** [m.room.power_levels] *)

Inductive RoomPowerLevelsIntField :=
| UsersDefault | EventsDefault | StateDefault | FBan | FRedact | FKick | FInvite.

#[global] Instance RoomPowerLevelsIntField_eq_dec : EqDecision RoomPowerLevelsIntField.
Proof. solve_decision. Defined.

Definition int_field_all : list RoomPowerLevelsIntField :=
  [UsersDefault; EventsDefault; StateDefault; FBan; FRedact; FKick; FInvite].

Definition int_field_as_str (f : RoomPowerLevelsIntField) : string :=
  match f with
  | UsersDefault => "users_default"
  | EventsDefault => "events_default"
  | StateDefault => "state_default"
  | FBan => "ban"
  | FRedact => "redact"
  | FKick => "kick"
  | FInvite => "invite"
  end.

Definition default_value (f : RoomPowerLevelsIntField) : Z :=
  match f with
  | UsersDefault | EventsDefault | FInvite => 0
  | StateDefault | FKick | FBan | FRedact => 50
  end.

Definition DEFAULT_CREATOR_POWER_LEVEL : Z := 100.

Module PowerLevels.

Definition deserialized_content (ev : Pdu) : StateResult (list (string * json)) :=
  match ev.(content) with
  | JObj members => Ok (json_map members)
  | _ => Err Other
  end.

Definition get_as_int (ev : Pdu) (field : RoomPowerLevelsIntField) (rules : AuthorizationRules.t) :
    StateResult (option Z) :=
  content ← deserialized_content ev;
  match bt_get (int_field_as_str field) content with
  | None => Ok None
  | Some value =>
      power_level ← de_result
        (if rules.(AuthorizationRules.integer_power_levels) then de_i64 value
         else deserialize_v1_power_level value);
      Ok (Some power_level)
  end.

Definition get_as_int_or_default (ev : Pdu) (field : RoomPowerLevelsIntField)
    (rules : AuthorizationRules.t) : StateResult Z :=
  v ← get_as_int ev field rules;
  Ok (default (default_value field) v).

Definition get_as_int_map (de_key : string -> option string) (ev : Pdu) (field : string)
    (rules : AuthorizationRules.t) : StateResult (option (gmap string Z)) :=
  content ← deserialized_content ev;
  match bt_get field content with
  | None => Ok None
  | Some value =>
      map ← de_result
        (if rules.(AuthorizationRules.integer_power_levels) then de_int_map de_key de_i64 value
         else btreemap_deserialize_v1_power_level_values de_key value);
      Ok (Some map)
  end.

Definition events (ev : Pdu) (rules : AuthorizationRules.t) : StateResult (option (gmap string Z)) :=
  get_as_int_map (fun k => Some (timeline_event_type k)) ev "events" rules.

Definition notifications (ev : Pdu) (rules : AuthorizationRules.t) :
    StateResult (option (gmap string Z)) :=
  get_as_int_map key_any ev "notifications" rules.

Definition users (ev : Pdu) (rules : AuthorizationRules.t) : StateResult (option (gmap string Z)) :=
  get_as_int_map key_user_id ev "users" rules.

Definition user_power_level (ev : Pdu) (user_id : string) (rules : AuthorizationRules.t) :
    StateResult Z :=
  users ← users ev rules;
  match users ≫= (.!! user_id) with
  | Some power_level => Ok power_level
  | None => get_as_int_or_default ev UsersDefault rules
  end.

Definition event_power_level (ev : Pdu) (event_type : string) (state_key : option string)
    (rules : AuthorizationRules.t) : StateResult Z :=
  events ← events ev rules;
  match events ≫= (.!! event_type) with
  | Some power_level => Ok power_level
  | None =>
      get_as_int_or_default ev
        (match state_key with Some _ => StateDefault | None => EventsDefault end) rules
  end.

(** The fields that are present, in the order of [ALL]; the first error wins. *)
Fixpoint int_fields_loop (ev : Pdu) (rules : AuthorizationRules.t)
    (fields : list RoomPowerLevelsIntField) : StateResult (list (RoomPowerLevelsIntField * Z)) :=
  match fields with
  | [] => Ok []
  | field :: fields =>
      v ← get_as_int ev field rules;
      rest ← int_fields_loop ev rules fields;
      Ok (match v with Some v => (field, v) :: rest | None => rest end)
  end.

Definition int_fields_map (ev : Pdu) (rules : AuthorizationRules.t) :
    StateResult (list (RoomPowerLevelsIntField * Z)) :=
  int_fields_loop ev rules int_field_all.

Definition int_fields_get (m : list (RoomPowerLevelsIntField * Z)) (f : RoomPowerLevelsIntField) :
    option Z :=
  snd <$> find (fun kv => bool_decide (kv.1 = f)) m.

End PowerLevels.

(** [RoomPowerLevelsEventOptionExt]. *)
Definition opt_user_power_level (pl : option Pdu) (user_id : string) (creators : gset string)
    (rules : AuthorizationRules.t) : StateResult UserPowerLevel :=
  if rules.(AuthorizationRules.explicitly_privilege_room_creators)
     && bool_decide (user_id ∈ creators)
  then Ok Infinite
  else match pl with
  | Some ev => Int <$> PowerLevels.user_power_level ev user_id rules
  | None =>
      Ok (Int (if bool_decide (user_id ∈ creators) then DEFAULT_CREATOR_POWER_LEVEL
               else default_value UsersDefault))
  end.

Definition opt_get_as_int_or_default (pl : option Pdu) (field : RoomPowerLevelsIntField)
    (rules : AuthorizationRules.t) : StateResult Z :=
  match pl with
  | Some ev => PowerLevels.get_as_int_or_default ev field rules
  | None => Ok (default_value field)
  end.

Definition opt_event_power_level (pl : option Pdu) (event_type : string)
    (state_key : option string) (rules : AuthorizationRules.t) : StateResult Z :=
  match pl with
  | Some ev => PowerLevels.event_power_level ev event_type state_key rules
  | None =>
      Ok (default_value (match state_key with Some _ => StateDefault | None => EventsDefault end))
  end.

(** ** Orders *)

#[global] Instance upl_total_cmp : TotalCmp upl_cmp.
Proof.
  split.
  - intros [|a] [|b]; simpl; try done. rewrite Z.compare_eq_iff. naive_solver.
  - intros [|a] [|b]; simpl; try done. apply Z.compare_antisym.
  - intros [|a] [|b] [|c]; simpl; try done. rewrite !Z.compare_lt_iff. lia.
Qed.

Lemma upl_cmp_int_Int x z : upl_cmp_int x z = upl_cmp x (Int z).
Proof. by destruct x. Qed.

Lemma int_cmp_upl_Int x z : int_cmp_upl z x = upl_cmp (Int z) x.
Proof. by destruct x. Qed.

Lemma int_fields_get_loop ev rules fields m f :
  PowerLevels.int_fields_loop ev rules fields = Ok m -> f ∈ fields -> NoDup fields ->
  PowerLevels.get_as_int ev f rules = Ok (PowerLevels.int_fields_get m f).
Proof.
  unfold PowerLevels.int_fields_get.
  revert m; induction fields as [|g fields IH]; intros m Hm Hin Hnd; [by apply elem_of_nil in Hin|].
  cbn [PowerLevels.int_fields_loop] in Hm. apply bind_Ok in Hm as (v & Hv & Hm).
  apply bind_Ok in Hm as (rest & Hrest & [= <-]). apply NoDup_cons in Hnd as [Hg Hnd].
  assert (forall rest, PowerLevels.int_fields_loop ev rules fields = Ok rest ->
    forall kv, kv ∈ rest -> kv.1 ∈ fields) as Hdom.
  { clear. induction fields as [|g fields IH]; intros rest Hr kv Hin; cbn [PowerLevels.int_fields_loop] in Hr.
    - injection Hr as <-. by apply elem_of_nil in Hin.
    - apply bind_Ok in Hr as (v & _ & Hr). apply bind_Ok in Hr as (r & Hr & [= <-]).
      destruct v; [apply elem_of_cons in Hin as [->|Hin]; [by left|]|]; right; by eapply IH. }
  apply elem_of_cons in Hin as [->|Hin].
  - rewrite Hv. f_equal. destruct v as [z|]; simpl; [by rewrite bool_decide_true|].
    destruct (find _ rest) as [kv|] eqn:Hf; [|done]. apply List.find_some in Hf as [Hi Hb].
    apply bool_decide_eq_true in Hb. subst g. destruct Hg. eapply Hdom; [done|].
    by apply list_elem_of_In.
  - rewrite (IH rest) by done. f_equal. destruct v as [z|]; simpl; [|done].
    rewrite bool_decide_false; [done|]. intros ->. done.
Qed.
