(* ===== verification/Membership.v ===== *)
(** Authorization of [m.room.member] events:
    [crates/core/src/state/event_auth/room_member.rs], with the [FetchStateExt]
    accessors of [crates/core/src/state/event_auth.rs].

    [fetch_state] is the closure that looks a state entry up; the future it
    returns is its result.  [Panic] is a panic of the identifier code below
    the check (see [Identifiers.key_id_validate]). *)

From S2P Require Import Prelude RustStr BTree Identifiers Json Canonical RoomVersion Signatures Events.

Open Scope string_scope.

Definition FetchState := string -> string -> StateResult Pdu.

(** ** [FetchStateExt] *)

Definition fetch_room_create_event (fetch_state : FetchState) : StateResult Pdu :=
  fetch_state "m.room.create" EmptyString.

Definition fetch_user_membership (fetch_state : FetchState) (user_id : string) :
    StateResult MembershipState :=
  opt_membership (ok (fetch_state "m.room.member" user_id)).

Definition fetch_room_power_levels_event (fetch_state : FetchState) : option Pdu :=
  ok (fetch_state "m.room.power_levels" EmptyString).

Definition fetch_join_rule (fetch_state : FetchState) : StateResult JoinRuleKind :=
  ev ← fetch_state "m.room.join_rules" EmptyString;
  join_rules_join_rule ev.

Definition fetch_room_third_party_invite_event (fetch_state : FetchState) (token : string) :
    option Pdu :=
  ok (fetch_state "m.room.third_party_invite" token).

Section room_member.
Context {U : Unicode} {C : Crypto}.

(** The part of [check_room_member_join] after the join rule is known. *)
Definition join_rule_check (rules : AuthorizationRules.t) (creators : gset string) (ev : Pdu)
    (fetch_state : FetchState) (cur : MembershipState) (jr : JoinRuleKind) : StateResult unit :=
  if (bool_decide (jr = JInvite)
      || rules.(AuthorizationRules.knocking) && bool_decide (jr = JKnock))
     && bool_decide (cur ∈ [MInvite; MJoin])
  then Ok tt
  else if rules.(AuthorizationRules.restricted_join_rule) && bool_decide (jr = JRestricted)
       || rules.(AuthorizationRules.knock_restricted_join_rule)
          && bool_decide (jr = JKnockRestricted)
  then
    if bool_decide (cur ∈ [MJoin; MInvite]) then Ok tt
    else
      authorized ← RoomMember.join_authorised_via_users_server ev.(content);
      match authorized with
      | None => Err Forbidden
      | Some u =>
          m ← fetch_user_membership fetch_state u;
          if bool_decide (m <> MJoin) then Err Forbidden
          else
            let pl := fetch_room_power_levels_event fetch_state in
            level ← opt_user_power_level pl u creators rules;
            invite ← opt_get_as_int_or_default pl FInvite rules;
            if is_ge (upl_cmp_int level invite) then Ok tt else Err Forbidden
      end
  else if bool_decide (jr = JPublic) then Ok tt
  else Err Forbidden.

Definition check_room_member_join (ev : Pdu) (target_user : string) (rules : AuthorizationRules.t)
    (create : Pdu) (fetch_state : FetchState) : StateResult unit :=
  creator ← RoomCreate.creator create;
  creators ← RoomCreate.creators create;
  let prev_event_is_room_create_event :=
    match ev.(prev_events) with
    | first :: _ => bool_decide (first = create.(event_id))
    | [] => false
    end in
  let prev_event_is_only_room_create_event :=
    prev_event_is_room_create_event && Nat.eqb (length ev.(prev_events)) 1 in
  if prev_event_is_only_room_create_event && bool_decide (target_user = creator) then Ok tt
  else if bool_decide (ev.(sender) <> target_user) then Err Forbidden
  else
    current_membership ← fetch_user_membership fetch_state target_user;
    if bool_decide (current_membership = MBan) then Err Forbidden
    else
      join_rule ← fetch_join_rule fetch_state;
      join_rule_check rules creators ev fetch_state current_membership join_rule.

(** The two inner loops of [check_third_party_invite], over the public keys
    and over the signatures of one entity: whether a signature verifies. *)
Definition verify_with_keys (keys : list string) (algorithm signature text : string) : bool :=
  existsb (fun encoded_public_key =>
    match identity_key_decode encoded_public_key with
    | None => false
    | Some public_key => is_ok (verify_canonical_json_bytes algorithm public_key signature text)
    end) keys.

Fixpoint verify_entity_signatures (entity_signatures : CanonicalJsonObject) (keys : list string)
    (text : string) : comp StateError bool :=
  match entity_signatures with
  | [] => Done false
  | (key_id, signature_value) :: rest =>
      ok_else (_ ← key_id_validate any_key_name_validate key_id; key_id_algorithm key_id)
        (verify_entity_signatures rest keys text)
        (fun algorithm =>
           match as_str signature_value with
           | None => verify_entity_signatures rest keys text
           | Some signature_str =>
               match base64_standard_decode signature_str with
               | None => verify_entity_signatures rest keys text
               | Some signature =>
                   if verify_with_keys keys algorithm signature text then Done true
                   else verify_entity_signatures rest keys text
               end
           end)
  end.

Fixpoint verify_third_party_signatures (signatures : CanonicalJsonObject) (keys : list string)
    (text : string) : comp StateError unit :=
  match signatures with
  | [] => Fail Other
  | (_, entity_signatures_value) :: rest =>
      match as_object entity_signatures_value with
      | None => Fail Other
      | Some entity_signatures =>
          found ← verify_entity_signatures entity_signatures keys text;
          if found : bool then Done tt else verify_third_party_signatures rest keys text
      end
  end.

Definition check_third_party_invite (ev : Pdu) (third_party_invite : CanonicalJsonObject)
    (target_user : string) (fetch_state : FetchState) : comp StateError unit :=
  current ← of_result (fetch_user_membership fetch_state target_user);
  if bool_decide (current = MBan) then Fail Other
  else
    token ← of_result (ThirdPartyInvite.token third_party_invite);
    mxid ← of_result (ThirdPartyInvite.mxid third_party_invite);
    if bool_decide (target_user <> mxid) then Fail Other
    else match fetch_room_third_party_invite_event fetch_state token with
    | None => Fail Other
    | Some invite_event =>
        if bool_decide (ev.(sender) <> invite_event.(sender)) then Fail Other
        else
          public_keys ← of_result (room_third_party_invite_public_keys invite_event);
          signatures ← of_result (ThirdPartyInvite.signatures third_party_invite);
          let text := ThirdPartyInvite.signed_canonical_json third_party_invite in
          verify_third_party_signatures signatures (bset_iter public_keys) text
    end.

Definition check_room_member_invite (ev : Pdu) (target_user : string) (rules : AuthorizationRules.t)
    (create : Pdu) (fetch_state : FetchState) : comp StateError unit :=
  third_party_invite ← of_result (RoomMember.third_party_invite ev.(content));
  match third_party_invite with
  | Some third_party_invite => check_third_party_invite ev third_party_invite target_user fetch_state
  | None => of_result (
      sender_membership ← fetch_user_membership fetch_state ev.(sender);
      if bool_decide (sender_membership <> MJoin) then Err Forbidden
      else
        current ← fetch_user_membership fetch_state target_user;
        if bool_decide (current ∈ [MJoin; MBan]) then Err Forbidden
        else
          creators ← RoomCreate.creators create;
          let pl := fetch_room_power_levels_event fetch_state in
          sender_power_level ← opt_user_power_level pl ev.(sender) creators rules;
          invite_power_level ← opt_get_as_int_or_default pl FInvite rules;
          if is_ge (upl_cmp_int sender_power_level invite_power_level) then Ok tt else Err Forbidden)
  end.

Definition check_room_member_leave (ev : Pdu) (target_user : string) (rules : AuthorizationRules.t)
    (create : Pdu) (fetch_state : FetchState) : StateResult unit :=
  sender_membership ← fetch_user_membership fetch_state ev.(sender);
  if bool_decide (ev.(sender) = target_user) then
    if bool_decide (sender_membership ∈ [MJoin; MInvite])
       || rules.(AuthorizationRules.knocking) && bool_decide (sender_membership = MKnock)
    then Ok tt else Err Forbidden
  else if bool_decide (sender_membership <> MJoin) then Err Forbidden
  else
    creators ← RoomCreate.creators create;
    let pl := fetch_room_power_levels_event fetch_state in
    current ← fetch_user_membership fetch_state target_user;
    sender_power_level ← opt_user_power_level pl ev.(sender) creators rules;
    ban_power_level ← opt_get_as_int_or_default pl FBan rules;
    if bool_decide (current = MBan) && is_lt (upl_cmp_int sender_power_level ban_power_level)
    then Err Forbidden
    else
      kick_power_level ← opt_get_as_int_or_default pl FKick rules;
      target_user_power_level ← opt_user_power_level pl target_user creators rules;
      if is_ge (upl_cmp_int sender_power_level kick_power_level)
         && is_lt (upl_cmp target_user_power_level sender_power_level)
      then Ok tt else Err Forbidden.

Definition check_room_member_ban (ev : Pdu) (target_user : string) (rules : AuthorizationRules.t)
    (create : Pdu) (fetch_state : FetchState) : StateResult unit :=
  sender_membership ← fetch_user_membership fetch_state ev.(sender);
  if bool_decide (sender_membership <> MJoin) then Err Forbidden
  else
    creators ← RoomCreate.creators create;
    let pl := fetch_room_power_levels_event fetch_state in
    sender_power_level ← opt_user_power_level pl ev.(sender) creators rules;
    ban_power_level ← opt_get_as_int_or_default pl FBan rules;
    target_user_power_level ← opt_user_power_level pl target_user creators rules;
    if is_ge (upl_cmp_int sender_power_level ban_power_level)
       && is_lt (upl_cmp target_user_power_level sender_power_level)
    then Ok tt else Err Forbidden.

Definition check_room_member_knock (ev : Pdu) (target_user : string) (rules : AuthorizationRules.t)
    (fetch_state : FetchState) : StateResult unit :=
  join_rule ← fetch_join_rule fetch_state;
  let supports_knock :=
    bool_decide (join_rule = JKnock)
    || rules.(AuthorizationRules.knock_restricted_join_rule)
       && bool_decide (join_rule = JKnockRestricted) in
  if negb supports_knock then Err Forbidden
  else if bool_decide (ev.(sender) <> target_user) then Err Forbidden
  else
    sender_membership ← fetch_user_membership fetch_state ev.(sender);
    if negb (bool_decide (sender_membership ∈ [MBan; MInvite; MJoin])) then Ok tt
    else Err Forbidden.

Definition check_room_member (ev : Pdu) (rules : AuthorizationRules.t) (create : Pdu)
    (fetch_state : FetchState) : comp StateError unit :=
  match ev.(state_key) with
  | None => Fail Forbidden
  | Some state_key =>
      _ ← of_result (map_err (fun _ => Forbidden) (user_id_validate state_key));
      let target_user := state_key in
      target_membership ← of_result (RoomMember.membership ev.(content));
      match target_membership with
      | MJoin => of_result (check_room_member_join ev target_user rules create fetch_state)
      | MInvite => check_room_member_invite ev target_user rules create fetch_state
      | MLeave => of_result (check_room_member_leave ev target_user rules create fetch_state)
      | MBan => of_result (check_room_member_ban ev target_user rules create fetch_state)
      | MKnock =>
          if rules.(AuthorizationRules.knocking)
          then of_result (check_room_member_knock ev target_user rules fetch_state)
          else Fail Forbidden
      | MCustom _ => Fail Forbidden
      end
  end.

End room_member.

(** ** Lemmas *)

(** Case analysis of a check that succeeded: every error branch goes away. *)
Ltac auth_inv :=
  repeat (first
    [ progress inv_ok
    | match goal with
      | H : (if ?b then _ else _) = Ok _ |- _ => destruct b eqn:?; try discriminate H
      | H : (if ?b then _ else _) = Done _ |- _ => destruct b eqn:?; try discriminate H
      | H : bool_decide _ = true |- _ => apply bool_decide_eq_true in H
      | H : bool_decide _ = false |- _ => apply bool_decide_eq_false in H
      | H : negb _ = true |- _ => apply negb_true_iff in H
      | H : negb _ = false |- _ => apply negb_false_iff in H
      | H : _ && _ = true |- _ => apply andb_true_iff in H as [? ?]
      | H : _ || _ = false |- _ => apply orb_false_iff in H as [? ?]
      | H : ~ (_ <> _) |- _ => apply dec_stable in H
      end ]).

Lemma is_lt_true c : is_lt c = true <-> c = Lt.
Proof. by destruct c. Qed.
Lemma is_ge_true c : is_ge c = true <-> c <> Lt.
Proof. by destruct c. Qed.
Lemma is_gt_false c : is_gt c = false <-> c <> Gt.
Proof. by destruct c. Qed.

(** [x] is at least the integer level [z]. *)
Definition at_least (x : UserPowerLevel) (z : Z) : Prop := cmp_le upl_cmp (Int z) x.

Lemma upl_ge_at_least x z : is_ge (upl_cmp_int x z) = true <-> at_least x z.
Proof.
  rewrite is_ge_true, upl_cmp_int_Int. unfold at_least, cmp_le.
  rewrite (cmp_opp upl_cmp x (Int z)). by destruct (upl_cmp x (Int z)).
Qed.

Lemma upl_lt_at_least x z : is_lt (upl_cmp_int x z) = false <-> at_least x z.
Proof. rewrite <- upl_ge_at_least. by destruct (upl_cmp_int x z). Qed.

(** A privileged creator is above everyone who is not below them. *)
Lemma infinite_not_below x : upl_cmp Infinite x <> Lt.
Proof. by destruct x. Qed.

Section member_lemmas.
Context {U : Unicode} {C : Crypto}.

(** The room's join rule [jr] lets a user with current membership [cur] in. *)
Inductive join_permitted (rules : AuthorizationRules.t) (creators : gset string) (ev : Pdu)
    (fetch_state : FetchState) (cur : MembershipState) (jr : JoinRuleKind) : Prop :=
| join_public : jr = JPublic -> join_permitted rules creators ev fetch_state cur jr
| join_invited :
    jr = JInvite \/ (rules.(AuthorizationRules.knocking) = true /\ jr = JKnock) \/
    (rules.(AuthorizationRules.restricted_join_rule) = true /\ jr = JRestricted) \/
    (rules.(AuthorizationRules.knock_restricted_join_rule) = true /\ jr = JKnockRestricted) ->
    cur = MInvite \/ cur = MJoin -> join_permitted rules creators ev fetch_state cur jr
| join_authorised u level invite :
    (rules.(AuthorizationRules.restricted_join_rule) = true /\ jr = JRestricted) \/
    (rules.(AuthorizationRules.knock_restricted_join_rule) = true /\ jr = JKnockRestricted) ->
    RoomMember.join_authorised_via_users_server ev.(content) = Ok (Some u) ->
    fetch_user_membership fetch_state u = Ok MJoin ->
    opt_user_power_level (fetch_room_power_levels_event fetch_state) u creators rules = Ok level ->
    opt_get_as_int_or_default (fetch_room_power_levels_event fetch_state) FInvite rules = Ok invite ->
    at_least level invite -> join_permitted rules creators ev fetch_state cur jr.

Lemma join_rule_check_iff rules creators ev fetch_state cur jr :
  join_rule_check rules creators ev fetch_state cur jr = Ok tt <->
  join_permitted rules creators ev fetch_state cur jr.
Proof.
  unfold join_rule_check. split.
  - intros H.
    destruct (_ && bool_decide (cur ∈ [MInvite; MJoin])) eqn:Hinv.
    { auth_inv. apply join_invited; [|set_solver].
      match goal with Ho : _ || _ = true |- _ => apply orb_true_iff in Ho as [?|?] end; auth_inv; auto. }
    destruct (_ || _) eqn:Hres in H; [|auth_inv; by apply join_public].
    assert ((rules.(AuthorizationRules.restricted_join_rule) = true /\ jr = JRestricted) \/
      (rules.(AuthorizationRules.knock_restricted_join_rule) = true /\ jr = JKnockRestricted)) as Hr.
    { apply orb_true_iff in Hres as [?|?]; auth_inv; auto. }
    destruct (bool_decide (cur ∈ [MJoin; MInvite])) eqn:Hc.
    { auth_inv. apply join_invited; [tauto|set_solver]. }
    apply bind_Ok in H as ([u|] & Hu & H); [|done]. apply bind_Ok in H as (m & Hm & H).
    destruct (bool_decide (m <> MJoin)) eqn:Hmj; [done|]. auth_inv. subst.
    eapply join_authorised; try done. by apply upl_ge_at_least.
  - intros [->|Hjr Hcur|u level invite Hjr Hu Hm Hl Hi Hat].
    + simpl. rewrite !andb_false_r. done.
    + assert (cur ∈ [MInvite; MJoin]) as Hc1 by (destruct Hcur as [->| ->]; set_solver).
      assert (cur ∈ [MJoin; MInvite]) as Hc2 by set_solver.
      rewrite (bool_decide_true _ Hc1), (bool_decide_true _ Hc2).
      destruct Hjr as [->|[[Hk ->]|[[Hk ->]|[Hk ->]]]]; rewrite ?Hk; simpl;
        rewrite ?orb_true_r, ?andb_false_r; done.
    + assert (rules.(AuthorizationRules.restricted_join_rule) && bool_decide (jr = JRestricted)
       || rules.(AuthorizationRules.knock_restricted_join_rule)
          && bool_decide (jr = JKnockRestricted) = true) as Hres.
      { destruct Hjr as [[-> ->]|[-> ->]]; simpl; by rewrite ?orb_true_r. }
      rewrite Hres.
      replace (bool_decide (jr = JInvite)
        || rules.(AuthorizationRules.knocking) && bool_decide (jr = JKnock)) with false
        by (destruct Hjr as [[_ ->]|[_ ->]]; simpl; by rewrite andb_false_r).
      cbn [andb]. destruct (bool_decide (cur ∈ [MJoin; MInvite])); [done|].
      rewrite Hu. cbn [mbind result_bind]. rewrite Hm. cbn. rewrite Hl. cbn. rewrite Hi. cbn.
      by rewrite (proj2 (upl_ge_at_least _ _) Hat).
Qed.
End member_lemmas.

(** One of the signatures in [signatures] on [text] verifies under one of the
    encoded public keys. *)
Definition third_party_signed {C : Crypto} (signatures : CanonicalJsonObject) (keys : gset string)
    (text : string) : Prop :=
  exists entity set key_id sig bytes key pk,
    (entity, CObject set) ∈ signatures /\ (key_id, CString sig) ∈ set /\
    base64_standard_decode sig = Some bytes /\ key ∈ keys /\
    identity_key_decode key = Some pk /\ ed25519_verify pk text bytes = true.

Lemma verify_entity_signatures_true {C : Crypto} set keys text :
  verify_entity_signatures set keys text = Done true ->
  exists key_id sig bytes key pk, (key_id, CString sig) ∈ set /\
    base64_standard_decode sig = Some bytes /\ key ∈ keys /\
    identity_key_decode key = Some pk /\ ed25519_verify pk text bytes = true.
Proof.
  induction set as [|[key_id v] set IH]; cbn [verify_entity_signatures]; [done|].
  assert (verify_entity_signatures set keys text = Done true ->
    exists key_id0 sig bytes key pk, (key_id0, CString sig) ∈ (key_id, v) :: set /\
      base64_standard_decode sig = Some bytes /\ key ∈ keys /\
      identity_key_decode key = Some pk /\ ed25519_verify pk text bytes = true) as Hrest.
  { intros (k & sig & bytes & key & pk & Hin & Hr)%IH. exists k, sig, bytes, key, pk.
    split; [by right|done]. }
  destruct (mbind _ _) as [alg| | |]; cbn [ok_else]; try done.
  destruct v as [| | |sig| |]; cbn [as_str]; try done.
  destruct (base64_standard_decode sig) as [bytes|] eqn:Hd; [|done].
  destruct (verify_with_keys keys alg bytes text) eqn:Hv; [|done]. intros _.
  unfold verify_with_keys in Hv. apply List.existsb_exists in Hv as (key & Hkey & Hv).
  destruct (identity_key_decode key) as [pk|] eqn:Hk; [|done].
  exists key_id, sig, bytes, key, pk. split; [by left|]. split; [done|].
  split; [by apply list_elem_of_In|]. split; [done|].
  unfold verify_canonical_json_bytes, ed25519_verify_json in Hv.
  repeat (case_match; try done).
Qed.

Lemma verify_third_party_signatures_Done {C : Crypto} signatures keys text :
  verify_third_party_signatures signatures (bset_iter keys) text = Done tt ->
  third_party_signed signatures keys text.
Proof.
  intros H. assert (exists entity set, (entity, CObject set) ∈ signatures /\
    verify_entity_signatures set (bset_iter keys) text = Done true) as (entity & set & Hin & Hv).
  { induction signatures as [|[entity v] signatures IH]; cbn [verify_third_party_signatures] in H; [done|].
    destruct v as [| | | | |set]; cbn [as_object] in H; try done.
    apply bind_Done in H as (found & Hf & H). destruct found.
    - exists entity, set. split; [by left|done].
    - destruct (IH H) as (e & s & Hin & Hs). exists e, s. split; [by right|done]. }
  apply verify_entity_signatures_true in Hv as (key_id & sig & bytes & key & pk & Hs & Hd & Hk & Hr).
  exists entity, set, key_id, sig, bytes, key, pk. repeat (split; [done|]).
  split; [by apply elem_of_bset_iter|done].
Qed.

(** ** Properties *)

(** A join is allowed exactly when it directly follows the create event
    and the target is the creator, or when users join for themselves, are not
    banned, and the join rule lets them in: the room is public, they are
    invited or joined already, or a restricted rule is met through a joined
    user with the power to invite. *)
Theorem check_room_member_join_iff {U : Unicode} ev target rules create fetch_state :
  check_room_member_join ev target rules create fetch_state = Ok tt <->
  exists creator creators,
    RoomCreate.creator create = Ok creator /\ RoomCreate.creators create = Ok creators /\
    ((ev.(prev_events) = [create.(event_id)] /\ target = creator) \/
     (ev.(sender) = target /\ exists cur jr,
        fetch_user_membership fetch_state target = Ok cur /\ cur <> MBan /\
        fetch_join_rule fetch_state = Ok jr /\
        join_permitted rules creators ev fetch_state cur jr)).
Proof.
  unfold check_room_member_join. split.
  - intros (creator & Hc & H)%bind_Ok. apply bind_Ok in H as (creators & Hcs & H).
    exists creator, creators. split; [done|]. split; [done|].
    destruct (_ && bool_decide (target = creator)) eqn:Hfirst.
    + left. auth_inv. destruct (prev_events ev) as [|p [|]]; try done. auth_inv. by subst.
    + right. destruct (bool_decide (_ <> _)) eqn:Hs in H; [done|]. auth_inv. split; [done|].
      exists a, a0. split; [done|]. split; [done|]. split; [done|]. by apply join_rule_check_iff.
  - intros (creator & creators & -> & -> & [[-> ->]|(Hs & cur & jr & Hm & Hban & Hj & Hp)]);
    cbn [mbind result_bind length Nat.eqb].
    + by rewrite !bool_decide_true by done.
    + rewrite Hm, Hj. destruct (_ && bool_decide (target = creator)); [done|].
      rewrite bool_decide_false by naive_solver. cbn [mbind result_bind].
      rewrite bool_decide_false by done. by apply join_rule_check_iff.
Qed.

(** Whenever a kick (a [leave] for someone else) or a ban is
    allowed, the sender is joined, reaches the kick or ban level, and the
    target is strictly below the sender; where creators are privileged, no
    creator can be removed. *)
Theorem removal_needs_power {U : Unicode} {C : Crypto} ev rules create fetch_state target m :
  check_room_member ev rules create fetch_state = Done tt ->
  ev.(state_key) = Some target ->
  RoomMember.membership ev.(content) = Ok m ->
  m = MBan \/ (m = MLeave /\ ev.(sender) <> target) ->
  let pl := fetch_room_power_levels_event fetch_state in
  exists creators sender_level target_level needed,
    RoomCreate.creators create = Ok creators /\
    fetch_user_membership fetch_state ev.(sender) = Ok MJoin /\
    opt_user_power_level pl ev.(sender) creators rules = Ok sender_level /\
    opt_user_power_level pl target creators rules = Ok target_level /\
    opt_get_as_int_or_default pl (if decide (m = MBan) then FBan else FKick) rules = Ok needed /\
    at_least sender_level needed /\ upl_cmp target_level sender_level = Lt /\
    (rules.(AuthorizationRules.explicitly_privilege_room_creators) = true -> target ∉ creators).
Proof.
  intros H Hk Hm Hcase. unfold check_room_member in H. rewrite Hk, Hm in H.
  assert (forall cs sl tl, opt_user_power_level (fetch_room_power_levels_event fetch_state) target cs rules
      = Ok tl -> upl_cmp tl sl = Lt ->
      rules.(AuthorizationRules.explicitly_privilege_room_creators) = true -> target ∉ cs) as Hpriv.
  { intros cs sl tl Htl Hlt Hp Hin. unfold opt_user_power_level in Htl.
    rewrite Hp, bool_decide_true in Htl by done. injection Htl as <-. by destruct (infinite_not_below sl). }
  destruct Hcase as [->|[-> Hne]]; cbn zeta.
  - destruct (decide _); [|done]. apply bind_Done in H as (u & _ & H). cbn in H.
    apply of_result_Done in H. unfold check_room_member_ban in H. auth_inv.
    subst a. exists a0, a1, a3, a2. repeat (split; [done|]).
    split; [by apply upl_ge_at_least|]. split; [by apply is_lt_true|].
    eapply Hpriv; [done|]. by apply is_lt_true.
  - destruct (decide _); [done|]. apply bind_Done in H as (u & _ & H). cbn in H.
    apply of_result_Done in H. unfold check_room_member_leave in H. auth_inv; [done..|].
    subst a. exists a0, a2, a5, a4. repeat (split; [done|]).
    split; [by apply upl_ge_at_least|]. split; [by apply is_lt_true|].
    eapply Hpriv; [done|]. by apply is_lt_true.
Qed.

(** An allowed invite is either an ordinary one, sent by a joined user
    with the power to invite to someone neither joined nor banned, or redeems a
    third-party invite of the room: issued by the same sender, made out to the
    invited user, who is not banned, and signed by one of the keys the room
    state lists for its token. *)
Theorem invite_needs {U : Unicode} {C : Crypto} ev rules create fetch_state target :
  check_room_member ev rules create fetch_state = Done tt ->
  ev.(state_key) = Some target ->
  RoomMember.membership ev.(content) = Ok MInvite ->
  let pl := fetch_room_power_levels_event fetch_state in
  exists current, fetch_user_membership fetch_state target = Ok current /\ current <> MBan /\
  ((RoomMember.third_party_invite ev.(content) = Ok None /\ current <> MJoin /\
    fetch_user_membership fetch_state ev.(sender) = Ok MJoin /\
    exists creators level invite,
      RoomCreate.creators create = Ok creators /\
      opt_user_power_level pl ev.(sender) creators rules = Ok level /\
      opt_get_as_int_or_default pl FInvite rules = Ok invite /\ at_least level invite) \/
   (exists signed token invite keys signatures,
      RoomMember.third_party_invite ev.(content) = Ok (Some signed) /\
      ThirdPartyInvite.token signed = Ok token /\ ThirdPartyInvite.mxid signed = Ok target /\
      fetch_room_third_party_invite_event fetch_state token = Some invite /\
      invite.(sender) = ev.(sender) /\
      room_third_party_invite_public_keys invite = Ok keys /\
      ThirdPartyInvite.signatures signed = Ok signatures /\
      third_party_signed signatures keys (ThirdPartyInvite.signed_canonical_json signed))).
Proof.
  intros H Hk Hm. unfold check_room_member in H. rewrite Hk, Hm in H.
  apply bind_Done in H as (u & _ & H). cbn [of_result mbind comp_bind] in H.
  unfold check_room_member_invite in H. apply bind_Done in H as (tpi & Htpi & H).
  apply of_result_Done in Htpi. cbn zeta. destruct tpi as [signed|].
  - unfold check_third_party_invite in H. apply bind_Done in H as (cur & Hcur & H).
    apply of_result_Done in Hcur. destruct (bool_decide (cur = MBan)) eqn:Hban; [done|].
    apply bool_decide_eq_false in Hban.
    apply bind_Done in H as (token & Htok & H). apply bind_Done in H as (mxid & Hmx & H).
    destruct (bool_decide (target <> mxid)) eqn:Hneq; [done|].
    apply bool_decide_eq_false, dec_stable in Hneq as <-.
    destruct (fetch_room_third_party_invite_event fetch_state token) as [invite|] eqn:Hinv; [|done].
    destruct (bool_decide (_ <> _)) eqn:Hsnd in H; [done|]. apply bool_decide_eq_false, dec_stable in Hsnd.
    apply bind_Done in H as (keys & Hkeys & H). apply bind_Done in H as (sigs & Hsigs & H).
    apply of_result_Done in Htok, Hmx, Hkeys, Hsigs.
    exists cur. split; [done|]. split; [done|]. right. exists signed, token, invite, keys, sigs.
    repeat (split; [done|]). by apply verify_third_party_signatures_Done.
  - apply of_result_Done in H. auth_inv. subst. eexists. split; [done|].
    split; [set_solver|]. left. split; [done|]. split; [set_solver|]. split; [done|].
    do 3 eexists. repeat (split; [done|]). by apply upl_ge_at_least.
Qed.

(** ** Witnesses *)

(** A room of Alice's: she bans Bob in one fork, he joins in the other. *)
Definition example_pdu (id who : string) (ts : Z) (ty : string) (c : json) (key : string)
    (auths : list string) : Pdu :=
  {| event_id := id; room_id := "!r:x"; sender := who; origin_server_ts := ts; event_type := ty;
     content := c; state_key := Some key; prev_events := []; auth_events := auths; redacts := None;
     rejected := false |}.

Definition ex_create := example_pdu "$create:x" "@a:x" 1 "m.room.create"
  (JObj [("creator", JStr "@a:x"); ("room_version", JStr "10")]) EmptyString [].
Definition ex_alice := example_pdu "$alice:x" "@a:x" 2 "m.room.member"
  (JObj [("membership", JStr "join")]) "@a:x" ["$create:x"].
Definition ex_levels := example_pdu "$levels:x" "@a:x" 3 "m.room.power_levels"
  (JObj [("users", JObj [("@a:x", JNum (NumInt 100))])]) EmptyString ["$create:x"; "$alice:x"].
Definition ex_rules := example_pdu "$rules:x" "@a:x" 4 "m.room.join_rules"
  (JObj [("join_rule", JStr "public")]) EmptyString ["$create:x"; "$alice:x"; "$levels:x"].
Definition ex_ban := example_pdu "$ban:x" "@a:x" 5 "m.room.member"
  (JObj [("membership", JStr "ban")]) "@b:x" ["$create:x"; "$alice:x"; "$levels:x"].
Definition ex_join := example_pdu "$join:x" "@b:x" 6 "m.room.member"
  (JObj [("membership", JStr "join")]) "@b:x" ["$create:x"; "$levels:x"; "$rules:x"].
Definition ex_invite := example_pdu "$invite:x" "@a:x" 7 "m.room.member"
  (JObj [("membership", JStr "invite")]) "@c:x" ["$create:x"; "$alice:x"; "$levels:x"; "$rules:x"].

Definition ex_events : list Pdu := [ex_create; ex_alice; ex_levels; ex_rules; ex_ban; ex_join; ex_invite].

(** The state made of the given events. *)
Definition ex_state (evs : list Pdu) : FetchState := fun ty key =>
  match List.find (fun ev => (ev.(event_type) =? ty) && bool_decide (ev.(state_key) = Some key)) evs with
  | Some ev => Ok ev
  | None => Err Other
  end.

Definition ex_base : FetchState := ex_state [ex_create; ex_alice; ex_levels; ex_rules].

Lemma removal_needs_power_witness :
  exists sender_level target_level,
    opt_user_power_level (fetch_room_power_levels_event ex_base) "@a:x" {[ "@a:x" ]} AuthorizationRules.V10
      = Ok sender_level /\
    opt_user_power_level (fetch_room_power_levels_event ex_base) "@b:x" {[ "@a:x" ]} AuthorizationRules.V10
      = Ok target_level /\ upl_cmp target_level sender_level = Lt.
Proof.
  destruct (@removal_needs_power ascii_unicode toy_crypto ex_ban AuthorizationRules.V10 ex_create ex_base
    "@b:x" MBan) as (creators & sl & tl & needed & Hc & _ & Hs & Ht & _ & _ & Hlt & _).
  - vm_compute. reflexivity.
  - reflexivity.
  - vm_compute. reflexivity.
  - by left.
  - assert (creators = {[ "@a:x" ]}) as -> by (vm_compute in Hc; injection Hc as <-; reflexivity).
    exists sl, tl. split; [exact Hs|]. split; [exact Ht|exact Hlt].
Defined.

Lemma invite_needs_witness :
  exists current, fetch_user_membership ex_base "@c:x" = Ok current /\ current <> MBan.
Proof.
  destruct (@invite_needs ascii_unicode toy_crypto ex_invite AuthorizationRules.V10 ex_create ex_base
    "@c:x") as (current & Hc & Hb & _).
  - vm_compute. reflexivity.
  - reflexivity.
  - vm_compute. reflexivity.
  - exists current. split; [exact Hc|exact Hb].
Defined.
