(* ===== verification/EventAuth.v ===== *)
(** Event authorization: [crates/core/src/state/event_auth.rs].

    [fetch_event] and [fetch_state] stand for the two asynchronous closures. *)

From S2P Require Import Prelude.
From S2P Require Import RustStr.
From S2P Require Import BTree.
From S2P Require Import Identifiers.
From S2P Require Import Json.
From S2P Require Import Canonical.
From S2P Require Import RoomVersion.
From S2P Require Import Signatures.
From S2P Require Import Events.
From S2P Require Import Membership.

Open Scope string_scope.

Definition FetchEvent := string -> StateResult Pdu.

(** ** Selection of the auth events *)

Definition push_new (key : string * string) (auth_types : list (string * string)) :
    list (string * string) :=
  if bool_decide (key ∈ auth_types) then auth_types else (auth_types ++ [key])%list.

Definition auth_types_for_event (event_type sender : string) (state_key : option string)
    (content : json) (rules : AuthorizationRules.t) : StateResult (list (string * string)) :=
  if event_type =? "m.room.create" then Ok []
  else
    let auth_types := [("m.room.power_levels", EmptyString); ("m.room.member", sender)] in
    let auth_types :=
      if negb rules.(AuthorizationRules.room_create_event_id_as_room_id)
      then (auth_types ++ [("m.room.create", EmptyString)])%list else auth_types in
    if event_type =? "m.room.member" then
      match state_key with
      | None => Err Other
      | Some state_key =>
          let auth_types := push_new ("m.room.member", state_key) auth_types in
          membership ← RoomMember.membership content;
          let auth_types :=
            if bool_decide (membership ∈ [MJoin; MInvite; MKnock])
            then push_new ("m.room.join_rules", EmptyString) auth_types else auth_types in
          auth_types ←
            (if bool_decide (membership = MInvite) then
               third_party_invite ← RoomMember.third_party_invite content;
               match third_party_invite with
               | Some third_party_invite =>
                   token ← ThirdPartyInvite.token third_party_invite;
                   Ok (push_new ("m.room.third_party_invite", token) auth_types)
               | None => Ok auth_types
               end
             else Ok auth_types);
          if bool_decide (membership = MJoin) && rules.(AuthorizationRules.restricted_join_rule) then
            authorised ← RoomMember.join_authorised_via_users_server content;
            Ok (match authorised with
                | Some user_id => push_new ("m.room.member", user_id) auth_types
                | None => auth_types
                end)
          else Ok auth_types
      end
    else Ok auth_types.

Section event_auth.
Context {U : Unicode} {C : Crypto}.

(** [UserId::server_name] of a sender; a sender without a colon would panic. *)
Definition sender_server_name (u : string) : comp StateError string :=
  comp_map_err (fun _ => Other) (user_id_server_name u).

(** ** State-independent rules *)

Definition check_room_create (ev : Pdu) (rules : AuthorizationRules.t) : comp StateError unit :=
  match ev.(prev_events) with
  | _ :: _ => Fail Other
  | [] =>
      _ ← (if rules.(AuthorizationRules.room_create_event_id_as_room_id) then Done tt
           else match room_id_server_name ev.(room_id) with
           | None => Fail Other
           | Some room_id_server_name =>
               server ← sender_server_name ev.(sender);
               if bool_decide (room_id_server_name <> server) then Fail Other else Done tt
           end);
      _ ← (if negb rules.(AuthorizationRules.use_room_create_sender) then
             has_creator ← of_result (RoomCreate.has_creator ev);
             if has_creator : bool then Done tt else Fail Other
           else Done tt);
      _ ← of_result (RoomCreate.additional_creators ev);
      Done tt
  end.

(** The loop over [auth_events]; [seen] is [seen_auth_types]. *)
Fixpoint check_auth_events (fetch_event : FetchEvent) (room : string)
    (expected : gset (string * string)) (auth : list string) (seen : gset (string * string)) :
    StateResult (gset (string * string)) :=
  match auth with
  | [] => Ok seen
  | id :: auth =>
      match fetch_event id with
      | Err _ => Err Other
      | Ok auth_event =>
          if bool_decide (auth_event.(room_id) <> room) then Err AuthEvent
          else match auth_event.(state_key) with
          | None => Err AuthEvent
          | Some state_key =>
              let key := (auth_event.(event_type), state_key) in
              if bool_decide (key ∈ seen) then Err AuthEvent
              else if bool_decide (key ∉ expected) then Err AuthEvent
              else if auth_event.(rejected) then Err AuthEvent
              else check_auth_events fetch_event room expected auth ({[ key ]} ∪ seen)
          end
      end
  end.

Definition check_state_independent_auth_rules (rules : AuthorizationRules.t) (ev : Pdu)
    (fetch_event : FetchEvent) : comp StateError unit :=
  if ev.(event_type) =? "m.room.create" then check_room_create ev rules
  else
    expected ← of_result
      (auth_types_for_event ev.(event_type) ev.(sender) ev.(state_key) ev.(content) rules);
    seen ← of_result
      (check_auth_events fetch_event ev.(room_id) (list_to_set expected) ev.(auth_events) ∅);
    if negb rules.(AuthorizationRules.room_create_event_id_as_room_id)
       && negb (existsb (fun key => key.1 =? "m.room.create") (elements seen))
    then Fail AuthEvent
    else if rules.(AuthorizationRules.room_create_event_id_as_room_id) then
      create_id ← comp_map_err (fun _ => AuthEvent) (room_create_event_id ev.(room_id));
      create ← of_result (fetch_event create_id);
      if create.(rejected) : bool then Fail AuthEvent else Done tt
    else Done tt.

(** ** State-dependent rules *)

(** The loop of [check_power_level_maps] over the keys of both maps. *)
Fixpoint check_power_level_keys (current new : option (gmap string Z)) (level : UserPowerLevel)
    (reject_current : string -> Z -> bool) (keys : list string) : StateResult unit :=
  match keys with
  | [] => Ok tt
  | key :: keys =>
      let current_power_level := current ≫= (.!! key) in
      let new_power_level := new ≫= (.!! key) in
      if bool_decide (current_power_level = new_power_level)
      then check_power_level_keys current new level reject_current keys
      else if match current_power_level with Some z => reject_current key z | None => false end
              || match new_power_level with Some z => is_gt (int_cmp_upl z level) | None => false end
      then Err Other
      else check_power_level_keys current new level reject_current keys
  end.

Definition opt_keys (m : option (gmap string Z)) : gset string :=
  match m with Some m => dom m | None => ∅ end.

Definition check_power_level_maps (current new : option (gmap string Z)) (level : UserPowerLevel)
    (reject_current : string -> Z -> bool) : StateResult unit :=
  check_power_level_keys current new level reject_current
    (bset_iter (opt_keys current ∪ opt_keys new)).

(** The loop of [check_room_power_levels] over the integer fields. *)
Fixpoint check_int_fields (current : Pdu) (new_int_fields : list (RoomPowerLevelsIntField * Z))
    (rules : AuthorizationRules.t) (level : UserPowerLevel) (fields : list RoomPowerLevelsIntField) :
    StateResult unit :=
  match fields with
  | [] => Ok tt
  | field :: fields =>
      current_power_level ← PowerLevels.get_as_int current field rules;
      let new_power_level := PowerLevels.int_fields_get new_int_fields field in
      if bool_decide (current_power_level = new_power_level)
      then check_int_fields current new_int_fields rules level fields
      else if is_gt (int_cmp_upl (default (default_value field) current_power_level) level)
              || is_gt (int_cmp_upl (default (default_value field) new_power_level) level)
      then Err Other
      else check_int_fields current new_int_fields rules level fields
  end.

Definition check_room_power_levels (ev : Pdu) (current : option Pdu) (rules : AuthorizationRules.t)
    (level : UserPowerLevel) (room_creators : gset string) : StateResult unit :=
  new_int_fields ← PowerLevels.int_fields_map ev rules;
  new_events ← PowerLevels.events ev rules;
  new_notifications ← PowerLevels.notifications ev rules;
  new_users ← PowerLevels.users ev rules;
  if rules.(AuthorizationRules.explicitly_privilege_room_creators)
     && match new_users with
        | Some new_users => bool_decide (Exists (fun creator => creator ∈ dom new_users) (elements room_creators))
        | None => false
        end
  then Err Other
  else match current with
  | None => Ok tt
  | Some current =>
      _ ← check_int_fields current new_int_fields rules level int_field_all;
      current_events ← PowerLevels.events current rules;
      _ ← check_power_level_maps current_events new_events level
            (fun _ z => is_gt (int_cmp_upl z level));
      _ ← (if rules.(AuthorizationRules.limit_notifications_power_levels) then
             current_notifications ← PowerLevels.notifications current rules;
             check_power_level_maps current_notifications new_notifications level
               (fun _ z => is_gt (int_cmp_upl z level))
           else Ok tt);
      current_users ← PowerLevels.users current rules;
      check_power_level_maps current_users new_users level
        (fun user_id z => bool_decide (user_id <> ev.(sender)) && is_ge (int_cmp_upl z level))
  end.

Definition check_room_redaction (ev : Pdu) (current : option Pdu) (rules : AuthorizationRules.t)
    (sender_level : UserPowerLevel) : StateResult unit :=
  redact_level ← opt_get_as_int_or_default current FRedact rules;
  if is_ge (upl_cmp_int sender_level redact_level) then Ok tt
  else if bool_decide (event_id_server_name ev.(event_id)
                       = (id ← ev.(redacts); event_id_server_name id))
  then Ok tt
  else Err Other.

Definition check_state_dependent_auth_rules (rules : AuthorizationRules.t) (ev : Pdu)
    (fetch_state : FetchState) : comp StateError unit :=
  if ev.(event_type) =? "m.room.create" then Done tt
  else
    create ← of_result (fetch_room_create_event fetch_state);
    federate ← of_result (RoomCreate.federate create);
    foreign ← (if federate : bool then Done false
               else
                 create_server ← sender_server_name create.(sender);
                 server ← sender_server_name ev.(sender);
                 Done (bool_decide (create_server <> server)));
    if foreign : bool then Fail Forbidden
    else if rules.(AuthorizationRules.special_case_room_aliases)
            && (ev.(event_type) =? "m.room.aliases")
    then
      server ← sender_server_name ev.(sender);
      if bool_decide (ev.(state_key) <> Some server) then Fail Forbidden else Done tt
    else if ev.(event_type) =? "m.room.member" then check_room_member ev rules create fetch_state
    else
      of_result (
        sender_membership ← fetch_user_membership fetch_state ev.(sender);
        if bool_decide (sender_membership <> MJoin) then Err Forbidden
        else
          creators ← RoomCreate.creators create;
          let pl := fetch_room_power_levels_event fetch_state in
          sender_power_level ← opt_user_power_level pl ev.(sender) creators rules;
          if ev.(event_type) =? "m.room.third_party_invite" then
            invite_power_level ← opt_get_as_int_or_default pl FInvite rules;
            if is_lt (upl_cmp_int sender_power_level invite_power_level)
            then Err Forbidden else Ok tt
          else
            event_type_power_level ← opt_event_power_level pl ev.(event_type) ev.(state_key) rules;
            if is_lt (upl_cmp_int sender_power_level event_type_power_level) then Err Forbidden
            else if match ev.(state_key) with
                    | Some k => str_starts_with "@" k
                    | None => false
                    end
                    && bool_decide (ev.(state_key) <> Some ev.(sender))
            then Err Forbidden
            else if ev.(event_type) =? "m.room.power_levels"
            then check_room_power_levels ev pl rules sender_power_level creators
            else if rules.(AuthorizationRules.special_case_room_redaction)
                    && (ev.(event_type) =? "m.room.redaction")
            then check_room_redaction ev pl rules sender_power_level
            else Ok tt).

Definition auth_check (rules : AuthorizationRules.t) (ev : Pdu) (fetch_event : FetchEvent)
    (fetch_state : FetchState) : comp StateError unit :=
  _ ← check_state_dependent_auth_rules rules ev fetch_state;
  check_state_independent_auth_rules rules ev fetch_event.

End event_auth.

(** ** Lemmas *)

Lemma elem_of_push_new key x l : x ∈ push_new key l <-> x = key \/ x ∈ l.
Proof.
  unfold push_new. case_bool_decide; [naive_solver|]. rewrite elem_of_app, list_elem_of_singleton. tauto.
Qed.

(** Two state snapshots agree on the entries [keys]. *)
Definition agree (keys : list (string * string)) (f1 f2 : FetchState) : Prop :=
  forall t k, (t, k) ∈ keys -> f1 t k = f2 t k.

(** What [auth_types_for_event] selects. *)
Lemma auth_types_base event_type sender state_key content rules keys :
  auth_types_for_event event_type sender state_key content rules = Ok keys ->
  event_type <> "m.room.create" ->
  ("m.room.power_levels", EmptyString) ∈ keys /\ ("m.room.member", sender) ∈ keys.
Proof.
  unfold auth_types_for_event. intros H Hc. destruct (String.eqb_spec event_type "m.room.create"); [done|].
  set (base := if negb _ then _ else _) in H.
  assert (("m.room.power_levels", EmptyString) ∈ base /\ ("m.room.member", sender) ∈ base) as Hb.
  { unfold base. destruct (negb _); set_solver. }
  destruct (event_type =? "m.room.member"); [|by injection H as <-].
  destruct state_key as [sk|]; [|done]. apply bind_Ok in H as (m & _ & H).
  apply bind_Ok in H as (l & Hl & H).
  assert (forall x, x ∈ base -> x ∈ l) as Hsub.
  { intros x Hx. destruct (bool_decide (m = MInvite)).
    - apply bind_Ok in Hl as ([t|] & _ & Hl).
      + apply bind_Ok in Hl as (tok & _ & [= <-]). rewrite elem_of_push_new. right.
        destruct (bool_decide (m ∈ _)); repeat rewrite elem_of_push_new; auto.
      + injection Hl as <-. destruct (bool_decide (m ∈ _)); repeat rewrite elem_of_push_new; auto.
    - injection Hl as <-. destruct (bool_decide (m ∈ _)); repeat rewrite elem_of_push_new; auto. }
  destruct Hb as [Hb1%Hsub Hb2%Hsub]. destruct (_ && _); [|by injection H as <-].
  apply bind_Ok in H as ([a|] & _ & [= <-]); repeat rewrite elem_of_push_new; auto.
Qed.

Lemma auth_types_member sender sk content rules keys m :
  auth_types_for_event "m.room.member" sender (Some sk) content rules = Ok keys ->
  RoomMember.membership content = Ok m ->
  ("m.room.member", sk) ∈ keys /\
  (m ∈ [MJoin; MInvite; MKnock] -> ("m.room.join_rules", EmptyString) ∈ keys) /\
  (m = MInvite -> forall signed token,
     RoomMember.third_party_invite content = Ok (Some signed) ->
     ThirdPartyInvite.token signed = Ok token -> ("m.room.third_party_invite", token) ∈ keys) /\
  (m = MJoin -> rules.(AuthorizationRules.restricted_join_rule) = true -> forall u,
     RoomMember.join_authorised_via_users_server content = Ok (Some u) ->
     ("m.room.member", u) ∈ keys).
Proof.
  unfold auth_types_for_event. cbn [String.eqb]. intros H Hm.
  change ("m.room.member" =? "m.room.create") with false in H.
  change ("m.room.member" =? "m.room.member") with true in H. cbv iota in H.
  rewrite Hm in H. apply bind_Ok in H as (m' & [= <-] & H).
  set (l1 := push_new ("m.room.member", sk) _) in H.
  assert (("m.room.member", sk) ∈ l1) as H1 by (apply elem_of_push_new; auto).
  set (l2 := if bool_decide (m ∈ _) then _ else _) in H.
  assert (("m.room.member", sk) ∈ l2 /\
    (m ∈ [MJoin; MInvite; MKnock] -> ("m.room.join_rules", EmptyString) ∈ l2)) as [H2 H2'].
  { unfold l2. destruct (bool_decide_reflect (m ∈ [MJoin; MInvite; MKnock]));
      repeat rewrite elem_of_push_new; tauto. }
  apply bind_Ok in H as (l3 & Hl3 & H).
  assert ((forall x, x ∈ l2 -> x ∈ l3) /\ (m = MInvite -> forall signed token,
     RoomMember.third_party_invite content = Ok (Some signed) ->
     ThirdPartyInvite.token signed = Ok token -> ("m.room.third_party_invite", token) ∈ l3))
    as [H3 H3'].
  { destruct (bool_decide (m = MInvite)) eqn:Hi; [|injection Hl3 as <-; split; [done|];
      by apply bool_decide_eq_false in Hi].
    apply bind_Ok in Hl3 as ([s|] & Hs & Hl3).
    - apply bind_Ok in Hl3 as (tok & Htok & [= <-]). split.
      + intros x Hx. rewrite elem_of_push_new. auto.
      + intros _ signed token Hs' Ht'. rewrite Hs in Hs'. injection Hs' as ->.
        rewrite Htok in Ht'. injection Ht' as ->. rewrite elem_of_push_new. auto.
    - injection Hl3 as <-. split; [done|]. intros _ signed token Hs'. congruence. }
  destruct (bool_decide (m = MJoin) && _) eqn:Hj.
  - apply andb_true_iff in Hj as [Hj _]. apply bool_decide_eq_true in Hj.
    apply bind_Ok in H as (au & Hau & [= <-]).
    assert (forall x, x ∈ l3 -> x ∈ match au with
       | Some user_id => push_new ("m.room.member", user_id) l3 | None => l3 end) as Hx.
    { intros x Hin. destruct au; repeat rewrite elem_of_push_new; auto. }
    repeat split; eauto. intros _ _ u Hu. rewrite Hau in Hu. injection Hu as ->.
    rewrite elem_of_push_new. auto.
  - injection H as <-. repeat split; eauto. intros -> Hr. rewrite Hr in Hj. done.
Qed.

Section sufficiency.
Context {U : Unicode} {C : Crypto} (f1 f2 : FetchState).

Lemma fetch_user_membership_agree u :
  f1 "m.room.member" u = f2 "m.room.member" u ->
  fetch_user_membership f1 u = fetch_user_membership f2 u.
Proof. unfold fetch_user_membership. by intros ->. Qed.

Lemma fetch_join_rule_agree :
  f1 "m.room.join_rules" EmptyString = f2 "m.room.join_rules" EmptyString ->
  fetch_join_rule f1 = fetch_join_rule f2.
Proof. unfold fetch_join_rule. by intros ->. Qed.

Lemma fetch_power_levels_agree :
  f1 "m.room.power_levels" EmptyString = f2 "m.room.power_levels" EmptyString ->
  fetch_room_power_levels_event f1 = fetch_room_power_levels_event f2.
Proof. unfold fetch_room_power_levels_event. by intros ->. Qed.

Lemma join_rule_check_agree rules creators ev cur jr :
  (rules.(AuthorizationRules.knock_restricted_join_rule) = true ->
   rules.(AuthorizationRules.restricted_join_rule) = true) ->
  fetch_room_power_levels_event f1 = fetch_room_power_levels_event f2 ->
  (rules.(AuthorizationRules.restricted_join_rule) = true -> forall u,
     RoomMember.join_authorised_via_users_server ev.(content) = Ok (Some u) ->
     fetch_user_membership f1 u = fetch_user_membership f2 u) ->
  join_rule_check rules creators ev f1 cur jr = join_rule_check rules creators ev f2 cur jr.
Proof.
  intros Hk Hpl Hu. unfold join_rule_check. rewrite Hpl.
  destruct (_ && bool_decide (cur ∈ [MInvite; MJoin])); [done|].
  destruct (_ || _) eqn:Hres; [|done]. destruct (bool_decide (cur ∈ _)); [done|].
  assert (rules.(AuthorizationRules.restricted_join_rule) = true) as Hr.
  { apply orb_true_iff in Hres as [[? _]%andb_true_iff|[? _]%andb_true_iff]; auto. }
  destruct (RoomMember.join_authorised_via_users_server _) as [[u|]|] eqn:Hj; try done.
  cbn [mbind result_bind]. by rewrite (Hu Hr u).
Qed.

Lemma check_third_party_invite_agree ev signed target :
  fetch_user_membership f1 target = fetch_user_membership f2 target ->
  (forall token, ThirdPartyInvite.token signed = Ok token ->
     f1 "m.room.third_party_invite" token = f2 "m.room.third_party_invite" token) ->
  check_third_party_invite ev signed target f1 = check_third_party_invite ev signed target f2.
Proof.
  intros Ht Htok. unfold check_third_party_invite. rewrite Ht.
  destruct (fetch_user_membership f2 target) as [cur|]; [|done]. cbn [of_result mbind comp_bind].
  destruct (bool_decide (cur = MBan)); [done|].
  destruct (ThirdPartyInvite.token signed) as [token|]; [|done]. cbn [of_result mbind comp_bind].
  unfold fetch_room_third_party_invite_event. by rewrite Htok.
Qed.

Lemma check_room_member_agree ev rules create keys :
  ev.(event_type) = "m.room.member" ->
  auth_types_for_event ev.(event_type) ev.(sender) ev.(state_key) ev.(content) rules = Ok keys ->
  (rules.(AuthorizationRules.knock_restricted_join_rule) = true ->
   rules.(AuthorizationRules.restricted_join_rule) = true) ->
  agree keys f1 f2 ->
  check_room_member ev rules create f1 = check_room_member ev rules create f2.
Proof.
  intros Hty Hkeys Hk Hag. rewrite Hty in Hkeys.
  destruct (auth_types_base _ _ _ _ _ _ Hkeys) as [Hpl Hsnd]; [done|].
  apply Hag, fetch_power_levels_agree in Hpl. apply Hag, fetch_user_membership_agree in Hsnd.
  unfold check_room_member. destruct (state_key ev) as [sk|]; [|done].
  destruct (user_id_validate sk); [|done]. cbn [map_err of_result mbind comp_bind].
  destruct (RoomMember.membership (content ev)) as [m|] eqn:Hm; [|done]. cbn [of_result mbind comp_bind].
  destruct (auth_types_member _ _ _ _ _ _ Hkeys Hm) as (Hsk & Hjr & Htpi & Hau).
  apply Hag, fetch_user_membership_agree in Hsk.
  destruct m.
  - unfold check_room_member_ban. by rewrite Hsnd, Hpl.
  - unfold check_room_member_invite. rewrite Hsnd, Hpl, Hsk.
    destruct (RoomMember.third_party_invite _) as [[signed|]|] eqn:Ht; try done.
    cbn [of_result mbind comp_bind]. apply check_third_party_invite_agree; [done|].
    intros token Htoken. apply Hag. by eapply Htpi.
  - unfold check_room_member_join. rewrite Hsk.
    rewrite (fetch_join_rule_agree (Hag _ _ (Hjr ltac:(set_solver)))).
    f_equal. destruct (RoomCreate.creator create) as [creator|]; [|done]. cbn [mbind result_bind].
    destruct (RoomCreate.creators create) as [creators|]; [|done]. cbn [mbind result_bind].
    destruct (_ && bool_decide (sk = creator)); [done|]. destruct (bool_decide (_ <> _)); [done|].
    destruct (fetch_user_membership f2 sk) as [cur|]; [|done]. cbn [mbind result_bind].
    destruct (bool_decide (cur = MBan)); [done|].
    destruct (fetch_join_rule f2) as [jr|]; [|done]. cbn [mbind result_bind].
    apply join_rule_check_agree; [done|done|]. intros Hr u Hu.
    apply fetch_user_membership_agree, Hag. by apply Hau.
  - unfold check_room_member_knock. rewrite Hsnd.
    by rewrite (fetch_join_rule_agree (Hag _ _ (Hjr ltac:(set_solver)))).
  - unfold check_room_member_leave. by rewrite Hsnd, Hpl, Hsk.
  - done.
Qed.
End sufficiency.

(** A change from [c] to [n] of one power level entry by a user of level
    [level]: the old value must not be protected and the new one not above. *)
Definition change_ok (level : UserPowerLevel) (protected : Z -> Prop) (c n : option Z) : Prop :=
  c = n \/
  ((forall z, c = Some z -> ~ protected z) /\ (forall z, n = Some z -> at_least level z)).

Lemma int_not_gt_at_least z x : is_gt (int_cmp_upl z x) = false <-> at_least x z.
Proof. rewrite is_gt_false, int_cmp_upl_Int. done. Qed.

(** One entry, as [check_power_level_keys] tests it. *)
Lemma change_ok_test level (reject : string -> Z -> bool) key c n :
  change_ok level (fun z => reject key z = true) c n <->
  c = n \/ (match c with Some z => reject key z | None => false end
            || match n with Some z => is_gt (int_cmp_upl z level) | None => false end = false).
Proof.
  unfold change_ok. rewrite orb_false_iff. apply or_iff_compat_l.
  setoid_rewrite <- int_not_gt_at_least. split.
  - intros [H1 H2]. split.
    + destruct c as [z|]; [|done]. apply not_true_iff_false. by apply H1.
    + destruct n as [z|]; [|done]. by apply H2.
  - intros [H1 H2]. split.
    + intros z ->. by rewrite H1.
    + by intros z ->.
Qed.

Lemma check_power_level_keys_Ok current new level reject keys :
  check_power_level_keys current new level reject keys = Ok tt <->
  forall key, key ∈ keys ->
    change_ok level (fun z => reject key z = true) (current ≫= (.!! key)) (new ≫= (.!! key)).
Proof.
  induction keys as [|key keys IH]; cbn [check_power_level_keys].
  { split; [intros _ key Hin; by apply elem_of_nil in Hin|done]. }
  assert (forall P : string -> Prop, (forall k, k ∈ key :: keys -> P k) <-> P key /\ forall k, k ∈ keys -> P k)
    as Hall by (intros P; setoid_rewrite elem_of_cons; naive_solver).
  rewrite Hall, <- IH, change_ok_test.
  destruct (bool_decide_reflect (current ≫= (.!! key) = new ≫= (.!! key))); [tauto|].
  destruct (_ || _); [|tauto]. split; [done|]. by intros [[?|?] _].
Qed.

Lemma check_power_level_maps_Ok current new level reject :
  check_power_level_maps current new level reject = Ok tt <->
  forall key,
    change_ok level (fun z => reject key z = true) (current ≫= (.!! key)) (new ≫= (.!! key)).
Proof.
  unfold check_power_level_maps. rewrite check_power_level_keys_Ok. split; [|naive_solver].
  intros H key. destruct (decide (key ∈ opt_keys current ∪ opt_keys new)) as [Hin|Hnin].
  - apply H. by apply elem_of_bset_iter.
  - left. apply not_elem_of_union in Hnin as [H1 H2].
    assert (forall m : option (gmap string Z), key ∉ opt_keys m -> m ≫= (.!! key) = None) as Hnone.
    { intros [m|]; simpl; [|done]. by intros ?%not_elem_of_dom. }
    by rewrite !Hnone.
Qed.

Lemma check_int_fields_Ok cur m rules level fields :
  check_int_fields cur m rules level fields = Ok tt <->
  forall f, f ∈ fields -> exists c, PowerLevels.get_as_int cur f rules = Ok c /\
    (c = PowerLevels.int_fields_get m f \/
     (at_least level (default (default_value f) c) /\
      at_least level (default (default_value f) (PowerLevels.int_fields_get m f)))).
Proof.
  induction fields as [|f fields IH]; cbn [check_int_fields].
  { split; [intros _ f Hin; by apply elem_of_nil in Hin|done]. }
  rewrite bind_Ok. setoid_rewrite elem_of_cons. split.
  - intros (c & Hc & H) g [->|Hg].
    + exists c. split; [done|]. case_bool_decide; [by left|].
      destruct (_ || _) eqn:Hor; [done|]. apply orb_false_iff in Hor as [H1 H2]. right.
      by rewrite <- !int_not_gt_at_least.
    + apply IH; [|done]. case_bool_decide; [done|]. by destruct (_ || _).
  - intros H. destruct (H f) as (c & Hc & Hcase); [by left|]. exists c. split; [done|].
    assert (check_int_fields cur m rules level fields = Ok tt) as Hrest by (apply IH; auto).
    case_bool_decide; [done|]. destruct Hcase as [?|[H1 H2]]; [done|].
    rewrite <- int_not_gt_at_least in H1, H2. by rewrite H1, H2.
Qed.

Lemma int_field_all_NoDup : NoDup int_field_all.
Proof. by apply (bool_decide_unpack _). Qed.

Lemma elem_of_int_field_all f : f ∈ int_field_all.
Proof. destruct f; set_solver. Qed.

Lemma int_fields_map_get ev rules m f :
  PowerLevels.int_fields_map ev rules = Ok m ->
  PowerLevels.get_as_int ev f rules = Ok (PowerLevels.int_fields_get m f).
Proof.
  intros H. eapply int_fields_get_loop; [exact H|apply elem_of_int_field_all|apply int_field_all_NoDup].
Qed.

(** What an accepted change of the power levels satisfies. *)
Lemma check_maps_change_ok current new level :
  check_power_level_maps current new level (fun _ z => is_gt (int_cmp_upl z level)) = Ok tt ->
  forall k, change_ok level (fun z => upl_cmp (Int z) level = Gt) (current ≫= (.!! k)) (new ≫= (.!! k)).
Proof.
  rewrite check_power_level_maps_Ok. intros H k.
  destruct (H k) as [Heq|[H1 H2]]; [by left|right]. split; [|done]. intros z Hz Hgt.
  apply (H1 z Hz). by rewrite int_cmp_upl_Int, Hgt.
Qed.

Lemma power_levels_reach ev cur rules level creators :
  check_room_power_levels ev (Some cur) rules level creators = Ok tt ->
  exists new_users cur_users new_events cur_events,
    PowerLevels.users ev rules = Ok new_users /\ PowerLevels.users cur rules = Ok cur_users /\
    PowerLevels.events ev rules = Ok new_events /\ PowerLevels.events cur rules = Ok cur_events /\
    (forall u, change_ok level
       (fun z => u <> ev.(sender) /\ cmp_le upl_cmp level (Int z))
       (cur_users ≫= (.!! u)) (new_users ≫= (.!! u))) /\
    (forall t, change_ok level (fun z => upl_cmp (Int z) level = Gt)
       (cur_events ≫= (.!! t)) (new_events ≫= (.!! t))) /\
    (forall f, exists c n,
       PowerLevels.get_as_int cur f rules = Ok c /\ PowerLevels.get_as_int ev f rules = Ok n /\
       (c = n \/ (at_least level (default (default_value f) c) /\
                  at_least level (default (default_value f) n)))) /\
    (rules.(AuthorizationRules.explicitly_privilege_room_creators) = true ->
       forall u, u ∈ creators -> new_users ≫= (.!! u) = None) /\
    (rules.(AuthorizationRules.limit_notifications_power_levels) = true ->
       exists new_notes cur_notes,
         PowerLevels.notifications ev rules = Ok new_notes /\
         PowerLevels.notifications cur rules = Ok cur_notes /\
         forall k, change_ok level (fun z => upl_cmp (Int z) level = Gt)
           (cur_notes ≫= (.!! k)) (new_notes ≫= (.!! k))).
Proof.
  unfold check_room_power_levels. intros (m & Hm & H)%bind_Ok.
  apply bind_Ok in H as (ne & Hne & H). apply bind_Ok in H as (nn & Hnn & H).
  apply bind_Ok in H as (nu & Hnu & H). destruct (_ && _) eqn:Hpriv; [done|].
  apply bind_Ok in H as ([] & Hint & H). apply bind_Ok in H as (ce & Hce & H).
  apply bind_Ok in H as ([] & Hev & H). apply bind_Ok in H as ([] & Hnotes & H).
  apply bind_Ok in H as (cu & Hcu & H).
  exists nu, cu, ne, ce. repeat (split; [done|]). repeat split.
  - intros u. rewrite check_power_level_maps_Ok in H. specialize (H u).
    destruct H as [H|[H1 H2]]; [by left|right]. split; [|done]. intros z Hz [Hne' Hge].
    apply (H1 z Hz). rewrite bool_decide_true by done. simpl. apply is_ge_true.
    rewrite int_cmp_upl_Int, (cmp_opp upl_cmp level (Int z)). unfold cmp_le in Hge.
    by destruct (upl_cmp level (Int z)).
  - by apply check_maps_change_ok.
  - intros f. rewrite check_int_fields_Ok in Hint.
    destruct (Hint f) as (c & Hc & Hcase); [apply elem_of_int_field_all|].
    exists c, (PowerLevels.int_fields_get m f). split; [done|]. split; [by apply int_fields_map_get|done].
  - intros Hp u Hu. rewrite Hp in Hpriv. destruct nu as [nu|]; [|done]. simpl in *.
    apply bool_decide_eq_false in Hpriv. apply not_elem_of_dom. intros Hd. apply Hpriv.
    apply Exists_exists. exists u. split; [by apply elem_of_elements|done].
  - intros Hl. rewrite Hl in Hnotes. apply bind_Ok in Hnotes as (cn & Hcn & Hnotes).
    exists nn, cn. split; [done|]. split; [done|]. by apply check_maps_change_ok.
Qed.

(** The state key an auth event fills. *)
Definition auth_key (ev : Pdu) : option (string * string) := pair ev.(event_type) <$> ev.(state_key).

(** An auth event the state-independent rules accept. *)
Definition valid_auth_event (room : string) (expected : gset (string * string)) (ev : Pdu) : Prop :=
  ev.(room_id) = room /\ ev.(rejected) = false /\
  exists key, auth_key ev = Some key /\ key ∈ expected.

Lemma check_auth_events_Ok fetch_event room expected auth seen seen' :
  check_auth_events fetch_event room expected auth seen = Ok seen' <->
  exists evs,
    Forall2 (fun id ev => fetch_event id = Ok ev /\ valid_auth_event room expected ev) auth evs /\
    NoDup (omap auth_key evs) /\ (forall k, k ∈ omap auth_key evs -> k ∉ seen) /\
    seen' = list_to_set (omap auth_key evs) ∪ seen.
Proof.
  revert seen; induction auth as [|id auth IH]; intros seen; cbn [check_auth_events].
  - split.
    + intros [= <-]. exists []. split; [constructor|]. split; [constructor|].
      split; [by intros k ?%elem_of_nil|]. cbn. by rewrite (left_id_L ∅ (∪)).
    + intros (evs & Hevs & _ & _ & ->). inversion Hevs. cbn. by rewrite (left_id_L ∅ (∪)).
  - split.
    + destruct (fetch_event id) as [ev|] eqn:Hf; [|done].
      destruct (bool_decide (_ <> _)) eqn:Hr; [done|]. apply bool_decide_eq_false, dec_stable in Hr.
      destruct (state_key ev) as [sk|] eqn:Hsk; [|done].
      destruct (bool_decide (_ ∈ seen)) eqn:Hs; [done|]. apply bool_decide_eq_false in Hs.
      destruct (bool_decide (_ ∉ expected)) eqn:He; [done|]. apply bool_decide_eq_false, dec_stable in He.
      destruct (rejected ev) eqn:Hj; [done|]. rewrite IH.
      intros (evs & Hall & Hnd & Hfresh & ->).
      assert (auth_key ev = Some (event_type ev, sk)) as Hk by (unfold auth_key; by rewrite Hsk).
      exists (ev :: evs). cbn [omap list_omap]. rewrite Hk. split; [constructor; [|done]|].
      { split; [done|]. split; [done|]. split; [done|]. by eexists. }
      split; [constructor; [intros Hin%Hfresh; set_solver|done]|].
      split; [|by cbn; rewrite (assoc_L (∪)), (comm_L (∪) (list_to_set _))].
      intros k [->|Hin]%elem_of_cons; [done|]. apply Hfresh in Hin. set_solver.
    + intros (evs & Hall & Hnd & Hfresh & ->). inversion Hall as [|? ev ? evs' [Hf Hv] Hall']; subst.
      destruct Hv as (Hr & Hj & key & Hk & He). cbn [omap list_omap] in *. rewrite Hk in *.
      rewrite Hf. rewrite bool_decide_false by naive_solver.
      unfold auth_key in Hk. destruct (state_key ev) as [sk|]; [|done]. injection Hk as <-.
      apply NoDup_cons in Hnd as [Hnin Hnd].
      rewrite bool_decide_false by (apply Hfresh; by left). rewrite bool_decide_false by naive_solver.
      rewrite Hj. apply IH. exists evs'. split; [done|]. split; [done|]. split.
      * intros k Hin. assert (k ∉ seen) by (apply Hfresh; by right). set_solver.
      * cbn. by rewrite (assoc_L (∪)), (comm_L (∪) (list_to_set _)).
Qed.

(** ** Properties *)

(** C22: the auth events selected for an event, together with the
    create event, are all its authorization depends on: two room states that
    agree on those entries give the same verdict, errors included. *)
Theorem auth_types_sufficient {U : Unicode} {C : Crypto} rules ev keys f1 f2 :
  auth_types_for_event ev.(event_type) ev.(sender) ev.(state_key) ev.(content) rules = Ok keys ->
  (rules.(AuthorizationRules.knock_restricted_join_rule) = true ->
   rules.(AuthorizationRules.restricted_join_rule) = true) ->
  agree (("m.room.create", EmptyString) :: keys) f1 f2 ->
  check_state_dependent_auth_rules rules ev f1 = check_state_dependent_auth_rules rules ev f2.
Proof.
  intros Hkeys Hk Hag. unfold check_state_dependent_auth_rules.
  destruct (String.eqb_spec (event_type ev) "m.room.create") as [|Hc]; [done|].
  unfold fetch_room_create_event. rewrite (Hag "m.room.create" EmptyString) by (by left).
  assert (agree keys f1 f2) as Hag' by (intros t k Hin; apply Hag; by right).
  destruct (auth_types_base _ _ _ _ _ _ Hkeys Hc) as [Hpl Hsnd].
  apply Hag', fetch_power_levels_agree in Hpl. apply Hag', fetch_user_membership_agree in Hsnd.
  destruct (f2 "m.room.create" EmptyString) as [create|]; [|done]. cbn [of_result mbind comp_bind].
  destruct (RoomCreate.federate create) as [fed|]; [|done]. cbn [of_result mbind comp_bind].
  destruct (if fed then _ else _) as [foreign| | |]; try done. cbn [mbind comp_bind].
  destruct foreign; [done|]. destruct (_ && _); [done|].
  destruct (String.eqb_spec (event_type ev) "m.room.member") as [Hm|].
  - by eapply check_room_member_agree.
  - by rewrite Hsnd, Hpl.
Qed.

(** C23: when a change of the power levels is accepted, every entry
    that differs was within the sender's reach: for users, nobody but the
    sender loses or changes a level at or above the sender's, and no level
    above the sender's is given; event types, the seven integer settings and,
    where the room version limits them, notification keys move only among
    values the sender reaches; where creators are privileged, none of them is
    listed. *)
Theorem power_levels_within_reach ev cur rules level creators :
  check_room_power_levels ev (Some cur) rules level creators = Ok tt ->
  exists new_users cur_users new_events cur_events,
    PowerLevels.users ev rules = Ok new_users /\ PowerLevels.users cur rules = Ok cur_users /\
    PowerLevels.events ev rules = Ok new_events /\ PowerLevels.events cur rules = Ok cur_events /\
    (forall u, change_ok level
       (fun z => u <> ev.(sender) /\ cmp_le upl_cmp level (Int z))
       (cur_users ≫= (.!! u)) (new_users ≫= (.!! u))) /\
    (forall t, change_ok level (fun z => upl_cmp (Int z) level = Gt)
       (cur_events ≫= (.!! t)) (new_events ≫= (.!! t))) /\
    (forall f, exists c n,
       PowerLevels.get_as_int cur f rules = Ok c /\ PowerLevels.get_as_int ev f rules = Ok n /\
       (c = n \/ (at_least level (default (default_value f) c) /\
                  at_least level (default (default_value f) n)))) /\
    (rules.(AuthorizationRules.explicitly_privilege_room_creators) = true ->
       forall u, u ∈ creators -> new_users ≫= (.!! u) = None) /\
    (rules.(AuthorizationRules.limit_notifications_power_levels) = true ->
       exists new_notes cur_notes,
         PowerLevels.notifications ev rules = Ok new_notes /\
         PowerLevels.notifications cur rules = Ok cur_notes /\
         forall k, change_ok level (fun z => upl_cmp (Int z) level = Gt)
           (cur_notes ≫= (.!! k)) (new_notes ≫= (.!! k))).
Proof. apply power_levels_reach. Qed.

(** C24: after an accepted change, every user's effective power
    level is at most the sender's, or what it was before, or the room's
    default for users, which the change left as it was. *)
Theorem no_escalation ev cur rules level creators u old new :
  check_room_power_levels ev (Some cur) rules level creators = Ok tt ->
  PowerLevels.user_power_level cur u rules = Ok old ->
  PowerLevels.user_power_level ev u rules = Ok new ->
  at_least level new \/ new = old \/
  PowerLevels.get_as_int_or_default cur UsersDefault rules = Ok new.
Proof.
  intros H Hold Hnew. unfold PowerLevels.user_power_level in Hold, Hnew.
  apply bind_Ok in Hold as (cu & Hcu & Hold). apply bind_Ok in Hnew as (nu & Hnu & Hnew).
  destruct (power_levels_reach _ _ _ _ _ H) as (nu' & cu' & ne & ce & Hnu' & Hcu' & _ & _ & Hu & _ & Hf & _).
  rewrite Hnu in Hnu'. injection Hnu' as <-. rewrite Hcu in Hcu'. injection Hcu' as <-.
  unfold PowerLevels.get_as_int_or_default in *.
  destruct (Hf UsersDefault) as (c & n & Hc & Hn & Hdef). rewrite Hc in *. rewrite Hn in *.
  cbn [mbind result_bind] in *.
  destruct (nu ≫= (.!! u)) as [z|] eqn:Hz.
  - injection Hnew as <-. destruct (Hu u) as [Hsame|[_ Hreach]].
    + right. left. rewrite Hsame, Hz in Hold. by injection Hold.
    + left. by apply Hreach.
  - injection Hnew as <-. destruct Hdef as [->|[_ Hreach]]; [by right; right|by left].
Qed.

(** An event other than the create event passes the
    state-independent rules exactly when each auth event it cites can be
    fetched, belongs to the room, was not rejected and fills one of the
    selected state keys, no key is filled twice, and the room's create event
    is cited (before room version 12) or is the accepted event the room ID
    names (from it on). *)
Theorem check_state_independent_iff {U : Unicode} rules ev fetch_event :
  ev.(event_type) <> "m.room.create" ->
  check_state_independent_auth_rules rules ev fetch_event = Done tt <->
  exists keys evs,
    auth_types_for_event ev.(event_type) ev.(sender) ev.(state_key) ev.(content) rules = Ok keys /\
    Forall2 (fun id a => fetch_event id = Ok a
               /\ valid_auth_event ev.(room_id) (list_to_set keys) a) ev.(auth_events) evs /\
    NoDup (omap auth_key evs) /\
    (if rules.(AuthorizationRules.room_create_event_id_as_room_id)
     then exists id create, room_create_event_id ev.(room_id) = Done id /\
            fetch_event id = Ok create /\ create.(rejected) = false
     else Exists (fun a => a.(event_type) = "m.room.create") evs).
Proof.
  intros Hty. unfold check_state_independent_auth_rules.
  destruct (String.eqb_spec (event_type ev) "m.room.create"); [done|]. split.
  - intros (keys & Hkeys & H)%bind_Done. apply bind_Done in H as (seen & Hseen & H).
    apply of_result_Done in Hkeys, Hseen. apply check_auth_events_Ok in Hseen as (evs & Hall & Hnd & _ & ->).
    exists keys, evs. repeat (split; [done|]).
    destruct (AuthorizationRules.room_create_event_id_as_room_id rules).
    + cbn [negb andb] in H. apply bind_Done in H as (id & Hid & H).
      apply bind_Done in H as (create & Hc & H). apply comp_map_err_Done in Hid. apply of_result_Done in Hc.
      exists id, create. repeat (split; [done|]). by destruct (rejected create).
    + rewrite andb_true_l in H. destruct (negb (existsb _ _)) eqn:Hex; [done|].
      apply negb_false_iff, List.existsb_exists in Hex as ([t k] & Hin & Ht).
      apply String.eqb_eq in Ht. simpl in Ht. subst t.
      apply list_elem_of_In, elem_of_elements in Hin. rewrite (right_id_L ∅ (∪)), elem_of_list_to_set in Hin.
      apply list_elem_of_omap in Hin as (a & Ha & Hk). apply Exists_exists. exists a. split; [done|].
      unfold auth_key in Hk. destruct (state_key a); [|done]. by injection Hk.
  - intros (keys & evs & Hkeys & Hall & Hnd & Hcreate). rewrite Hkeys. cbn [of_result mbind comp_bind].
    rewrite (proj2 (check_auth_events_Ok _ _ _ _ ∅ (list_to_set (omap auth_key evs)))).
    2:{ exists evs. split; [done|]. split; [done|]. split; [set_solver|]. by rewrite (right_id_L ∅ (∪)). }
    cbn [of_result mbind comp_bind]. destruct (AuthorizationRules.room_create_event_id_as_room_id rules).
    + destruct Hcreate as (id & create & -> & Hf & Hr). cbn. rewrite Hf. cbn. by rewrite Hr.
    + apply Exists_exists in Hcreate as (a & Ha & Ht).
      replace (existsb _ _) with true; [done|]. symmetry. apply List.existsb_exists.
      assert (exists k, auth_key a = Some k) as [[t k] Hk].
      { apply list_elem_of_lookup in Ha as [i Hi].
        apply (Forall2_lookup_r _ _ _ _ _ Hall) in Hi as (id & _ & _ & _ & _ & k & Hk & _). by exists k. }
      exists (t, k). split.
      * apply list_elem_of_In, elem_of_elements, elem_of_list_to_set, list_elem_of_omap. by exists a.
      * unfold auth_key in Hk. destruct (state_key a); [|done]. injection Hk as <- _. simpl. by rewrite Ht.
Qed.

(** The sender of an allowed event of these types is joined. *)
Lemma allowed_sender_joined {U : Unicode} {C : Crypto} rules ev fetch_event fetch_state :
  auth_check rules ev fetch_event fetch_state = Done tt ->
  ev.(event_type) <> "m.room.create" -> ev.(event_type) <> "m.room.member" ->
  rules.(AuthorizationRules.special_case_room_aliases) = false \/ ev.(event_type) <> "m.room.aliases" ->
  fetch_user_membership fetch_state ev.(sender) = Ok MJoin.
Proof.
  unfold auth_check, check_state_dependent_auth_rules. intros H Hc Hm Hal.
  apply bind_Done in H as (u & H & _).
  destruct (String.eqb_spec (event_type ev) "m.room.create"); [done|].
  apply bind_Done in H as (create & _ & H). apply bind_Done in H as (federate & _ & H).
  apply bind_Done in H as (foreign & _ & H). destruct foreign; [done|].
  replace (_ && (event_type ev =? "m.room.aliases")) with false in H
    by (destruct Hal as [->|?]; [done|]; by destruct (String.eqb_spec (event_type ev) "m.room.aliases");
        rewrite ?andb_false_r).
  destruct (String.eqb_spec (event_type ev) "m.room.member"); [done|].
  apply of_result_Done, bind_Ok in H as (sm & Hsm & H).
  destruct (bool_decide (sm <> MJoin)) eqn:Hj; [done|]. by apply bool_decide_eq_false, dec_stable in Hj as ->.
Qed.

(** An allowed event other than creation, membership and (before
    version 6) aliases comes from a joined sender, on the create event's server
    when the room is not federated, with at least the level its type requires,
    and never carries another user's ID as its state key. *)
Theorem allowed_event_needs {U : Unicode} {C : Crypto} rules ev fetch_state :
  check_state_dependent_auth_rules rules ev fetch_state = Done tt ->
  ev.(event_type) <> "m.room.create" -> ev.(event_type) <> "m.room.member" ->
  rules.(AuthorizationRules.special_case_room_aliases) = false \/ ev.(event_type) <> "m.room.aliases" ->
  let pl := fetch_room_power_levels_event fetch_state in
  exists create federate creators level needed,
    fetch_room_create_event fetch_state = Ok create /\
    RoomCreate.federate create = Ok federate /\
    (federate = false -> user_id_server_name create.(sender) = user_id_server_name ev.(sender)) /\
    fetch_user_membership fetch_state ev.(sender) = Ok MJoin /\
    RoomCreate.creators create = Ok creators /\
    opt_user_power_level pl ev.(sender) creators rules = Ok level /\
    (if ev.(event_type) =? "m.room.third_party_invite"
     then opt_get_as_int_or_default pl FInvite rules = Ok needed
     else opt_event_power_level pl ev.(event_type) ev.(state_key) rules = Ok needed /\
          forall k, ev.(state_key) = Some k -> str_starts_with "@" k = true -> k = ev.(sender)) /\
    at_least level needed.
Proof.
  unfold check_state_dependent_auth_rules. intros H Hc Hm Hal.
  destruct (String.eqb_spec (event_type ev) "m.room.create"); [done|].
  apply bind_Done in H as (create & Hcreate & H). apply of_result_Done in Hcreate.
  apply bind_Done in H as (federate & Hfed & H). apply of_result_Done in Hfed.
  apply bind_Done in H as (foreign & Hfor & H). destruct foreign; [done|].
  replace (_ && (event_type ev =? "m.room.aliases")) with false in H
    by (destruct Hal as [->|?]; [done|]; by destruct (String.eqb_spec (event_type ev) "m.room.aliases");
        rewrite ?andb_false_r).
  destruct (String.eqb_spec (event_type ev) "m.room.member"); [done|].
  apply of_result_Done, bind_Ok in H as (sm & Hsm & H).
  destruct (bool_decide (sm <> MJoin)) eqn:Hj; [done|]. apply bool_decide_eq_false, dec_stable in Hj as ->.
  apply bind_Ok in H as (creators & Hcs & H). apply bind_Ok in H as (level & Hl & H).
  assert (federate = false -> user_id_server_name (sender create) = user_id_server_name (sender ev)) as Hsrv.
  { intros ->. apply bind_Done in Hfor as (s1 & H1 & Hfor). apply bind_Done in Hfor as (s2 & H2 & [= Hd]).
    unfold sender_server_name in H1, H2. apply comp_map_err_Done in H1, H2.
    apply bool_decide_eq_false, dec_stable in Hd. congruence. }
  cbn zeta. destruct (event_type ev =? "m.room.third_party_invite").
  - apply bind_Ok in H as (needed & Hn & H). exists create, federate, creators, level, needed.
    repeat (split; [done|]). apply upl_lt_at_least. by destruct (is_lt _).
  - apply bind_Ok in H as (needed & Hn & H). exists create, federate, creators, level, needed.
    repeat (split; [done|]). destruct (is_lt _) eqn:Hlt; [done|]. split; [|by apply upl_lt_at_least].
    split; [done|]. intros k Hk Hat. rewrite Hk, Hat in H. cbn [andb] in H.
    destruct (bool_decide (Some k <> Some (sender ev))) eqn:Hd; [done|].
    apply bool_decide_eq_false, dec_stable in Hd. by injection Hd.
Qed.

(** ** A panic reachable from a received event *)

(** An invite that redeems a third-party invite, with one signature whose key
    ID has its first colon at byte 300. *)
Definition panic_invite : Pdu := {|
  event_id := "$invite:evil"; room_id := "!r:evil"; sender := "@a:evil"; origin_server_ts := 2;
  event_type := "m.room.member";
  content := JObj [
    ("membership", JStr "invite");
    ("third_party_invite", JObj [("signed", JObj [
      ("mxid", JStr "@b:evil"); ("token", JStr "tok");
      ("signatures", JObj [("evil", JObj [(long_key_id, JStr "sig")])])])])];
  state_key := Some "@b:evil"; prev_events := []; auth_events := []; redacts := None;
  rejected := false |}.

Definition panic_state : FetchState := fun t k =>
  if bool_decide ((t, k) = ("m.room.create", EmptyString)) then Ok {|
    event_id := "$create:evil"; room_id := "!r:evil"; sender := "@a:evil"; origin_server_ts := 0;
    event_type := "m.room.create"; content := JObj [("creator", JStr "@a:evil")];
    state_key := Some EmptyString; prev_events := []; auth_events := []; redacts := None;
    rejected := false |}
  else if bool_decide ((t, k) = ("m.room.third_party_invite", "tok")) then Ok {|
    event_id := "$tpi:evil"; room_id := "!r:evil"; sender := "@a:evil"; origin_server_ts := 1;
    event_type := "m.room.third_party_invite"; content := JObj [("public_key", JStr "key")];
    state_key := Some "tok"; prev_events := []; auth_events := []; redacts := None;
    rejected := false |}
  else Err (NotFound k).

(** Authorization of a well-formed third-party invite panics when
    a signature's key ID is long enough for its colon index to be truncated to
    a byte inside a multi-byte character. *)
Theorem auth_panics_on_long_key_id {U : Unicode} {C : Crypto} :
  check_state_dependent_auth_rules AuthorizationRules.V1 panic_invite panic_state = Panic.
Proof. vm_compute. reflexivity. Qed.

(** ** Witnesses *)

Definition ex_topic := example_pdu "$topic:x" "@a:x" 8 "m.room.topic"
  (JObj [("topic", JStr "hello")]) EmptyString ["$create:x"; "$alice:x"; "$levels:x"].

(** Bob is given a level. *)
Definition ex_levels2 := example_pdu "$levels2:x" "@a:x" 9 "m.room.power_levels"
  (JObj [("users", JObj [("@a:x", JNum (NumInt 100)); ("@b:x", JNum (NumInt 50))])]) EmptyString
  ["$create:x"; "$alice:x"; "$levels:x"].

Definition ex_fetch : FetchEvent := fun id =>
  match List.find (fun ev => ev.(event_id) =? id) (ex_levels2 :: ex_topic :: ex_events) with
  | Some ev => Ok ev
  | None => Err (NotFound id)
  end.

Definition ex_with_topic : FetchState := ex_state [ex_topic; ex_create; ex_alice; ex_levels; ex_rules].

Definition ex_join_keys : list (string * string) :=
  [("m.room.power_levels", EmptyString); ("m.room.member", "@b:x"); ("m.room.create", EmptyString);
   ("m.room.join_rules", EmptyString)].

Lemma auth_types_sufficient_witness :
  @check_state_dependent_auth_rules ascii_unicode toy_crypto AuthorizationRules.V10 ex_join ex_base =
  @check_state_dependent_auth_rules ascii_unicode toy_crypto AuthorizationRules.V10 ex_join ex_with_topic.
Proof.
  apply (@auth_types_sufficient ascii_unicode toy_crypto AuthorizationRules.V10 ex_join ex_join_keys).
  - vm_compute. reflexivity.
  - reflexivity.
  - intros t k H. unfold ex_join_keys in H. rewrite !elem_of_cons, elem_of_nil in H.
    destruct H as [H|[H|[H|[H|[H|H]]]]]; [injection H as -> ->; vm_compute; reflexivity..|destruct H].
Defined.

Lemma power_levels_within_reach_witness :
  exists new_users cur_users,
    PowerLevels.users ex_levels2 AuthorizationRules.V10 = Ok new_users /\
    PowerLevels.users ex_levels AuthorizationRules.V10 = Ok cur_users /\
    forall u, change_ok (Int 100) (fun z => u <> "@a:x" /\ cmp_le upl_cmp (Int 100) (Int z))
      (cur_users ≫= (.!! u)) (new_users ≫= (.!! u)).
Proof.
  destruct (power_levels_within_reach ex_levels2 ex_levels AuthorizationRules.V10 (Int 100) {[ "@a:x" ]})
    as (nu & cu & ne & ce & Hnu & Hcu & _ & _ & Hu & _).
  - vm_compute. reflexivity.
  - exists nu, cu. split; [exact Hnu|]. split; [exact Hcu|exact Hu].
Defined.

Lemma no_escalation_witness :
  at_least (Int 100) 50 \/ 50%Z = 0%Z \/
  PowerLevels.get_as_int_or_default ex_levels UsersDefault AuthorizationRules.V10 = Ok 50%Z.
Proof.
  apply (no_escalation ex_levels2 ex_levels AuthorizationRules.V10 (Int 100) {[ "@a:x" ]} "@b:x" 0 50);
    vm_compute; reflexivity.
Defined.

Lemma check_state_independent_iff_witness :
  exists keys evs,
    auth_types_for_event "m.room.member" "@b:x" (Some "@b:x") ex_join.(content) AuthorizationRules.V10 = Ok keys /\
    Forall2 (fun id a => ex_fetch id = Ok a /\ valid_auth_event "!r:x" (list_to_set keys) a)
      ex_join.(auth_events) evs.
Proof.
  destruct (proj1 (@check_state_independent_iff ascii_unicode AuthorizationRules.V10 ex_join ex_fetch
    ltac:(vm_compute; congruence))) as (keys & evs & Hk & Hf & _).
  - vm_compute. reflexivity.
  - exists keys, evs. split; [exact Hk|exact Hf].
Defined.

Lemma allowed_event_needs_witness :
  fetch_user_membership ex_base "@a:x" = Ok MJoin.
Proof.
  destruct (@allowed_event_needs ascii_unicode toy_crypto AuthorizationRules.V10 ex_topic ex_base)
    as (? & ? & ? & ? & ? & _ & _ & _ & Hj & _).
  - vm_compute. reflexivity.
  - vm_compute. congruence.
  - vm_compute. congruence.
  - left. reflexivity.
  - exact Hj.
Defined.
