(* ===== verification/TopoSort.v ===== *)
(** Reverse topological power ordering: [reverse_topological_power_sort] of
    [crates/core/src/state.rs].

    The graph maps an event to those of its auth events that are in it.  Hash
    tables are iterated in an arbitrary order ([HashOrder]); the [BinaryHeap]
    of [Reverse<TieBreaker>] is the list of its elements in increasing order,
    so that [pop] takes the head.  [power_order] states the ordering the
    specification asks for; the algorithm is proved to compute it, whatever
    the iteration order. *)

From S2P Require Import Prelude Events.

Abbreviation EventIdMap := (gmap string).
Abbreviation EventIdSet := (gset string).

Record TieBreaker := {
  tb_power_level : UserPowerLevel;
  tb_origin_server_ts : Z;
  tb_event_id : string
}.

(** [Ord for TieBreaker]: the power level comparison is backwards. *)
Definition tb_cmp (x y : TieBreaker) : comparison :=
  then_cmp
    (then_cmp (upl_cmp y.(tb_power_level) x.(tb_power_level))
              (Z.compare x.(tb_origin_server_ts) y.(tb_origin_server_ts)))
    (String.compare x.(tb_event_id) y.(tb_event_id)).

(** [BinaryHeap::push] of a [Reverse]. *)
Fixpoint heap_push (x : TieBreaker) (heap : list TieBreaker) : list TieBreaker :=
  match heap with
  | [] => [x]
  | y :: heap' =>
      match tb_cmp x y with
      | Gt => y :: heap_push x heap'
      | _ => x :: heap
      end
  end.

Section sort.
Context {HO : HashOrder} (event_details_fn : string -> StateResult (UserPowerLevel * Z)).

Definition push_event (event_id : string) (heap : list TieBreaker) : comp StateError (list TieBreaker) :=
  '(power_level, origin_server_ts) ← of_result (event_details_fn event_id);
  Done (heap_push {| tb_power_level := power_level; tb_origin_server_ts := origin_server_ts;
                     tb_event_id := event_id |} heap).

(** [incoming_edges_map.entry(auth).or_default().insert(event_id)] for each
    auth event. *)
Definition add_incoming (event_id : string) (edges : list string) (incoming : EventIdMap EventIdSet) :
    EventIdMap EventIdSet :=
  foldl (fun incoming auth_event_id =>
           <[ auth_event_id := {[ event_id ]} ∪ default ∅ (incoming !! auth_event_id) ]> incoming)
        incoming edges.

(** The loop that fills the maps and the heap. *)
Fixpoint populate (entries : list (string * EventIdSet))
    (outgoing incoming : EventIdMap EventIdSet) (heap : list TieBreaker) :
    comp StateError (EventIdMap EventIdSet * EventIdMap EventIdSet * list TieBreaker) :=
  match entries with
  | [] => Done (outgoing, incoming, heap)
  | (event_id, outgoing_edges) :: entries =>
      if bool_decide (outgoing_edges = ∅) then
        heap ← push_event event_id heap;
        populate entries outgoing incoming heap
      else
        populate entries (<[ event_id := outgoing_edges ]> outgoing)
          (add_incoming event_id (iter_set outgoing_edges) incoming) heap
  end.

(** The inner loop of Kahn's algorithm: [event_id] has been popped. *)
Fixpoint release_parents (event_id : string) (parents : list string)
    (outgoing : EventIdMap EventIdSet) (heap : list TieBreaker) :
    comp StateError (EventIdMap EventIdSet * list TieBreaker) :=
  match parents with
  | [] => Done (outgoing, heap)
  | parent_id :: parents =>
      match outgoing !! parent_id with
      | None => Panic
      | Some outgoing_edges =>
          let outgoing_edges := outgoing_edges ∖ {[ event_id ]} in
          if bool_decide (outgoing_edges = ∅) then
            heap ← push_event parent_id heap;
            release_parents event_id parents (delete parent_id outgoing) heap
          else release_parents event_id parents (<[ parent_id := outgoing_edges ]> outgoing) heap
      end
  end.

(** [while let Some(..) = heap.pop()]. *)
Fixpoint kahn_loop (fuel : nat) (incoming outgoing : EventIdMap EventIdSet) (heap : list TieBreaker)
    (sorted : list string) : comp StateError (list string) :=
  match heap with
  | [] => Done sorted
  | tb :: heap =>
      match fuel with
      | O => OutOfFuel
      | S fuel =>
          let event_id := tb.(tb_event_id) in
          '(outgoing, heap) ←
            release_parents event_id (iter_set (default ∅ (incoming !! event_id))) outgoing heap;
          kahn_loop fuel incoming outgoing heap (sorted ++ [event_id])
      end
  end.

(** At most one turn per event of the graph. *)
Definition reverse_topological_power_sort (graph : EventIdMap EventIdSet) :
    comp StateError (list string) :=
  '(outgoing, incoming, heap) ← populate (iter_map graph) ∅ ∅ [];
  kahn_loop (size graph) incoming outgoing heap [].

End sort.

(** ** Specification *)

Section spec.
Context (key : string -> TieBreaker) (graph : EventIdMap EventIdSet).

(** The events that may come next once [done] are placed. *)
Definition ready (done : EventIdSet) : EventIdSet :=
  filter (fun e => (e ∉ done) /\ (default ∅ (graph !! e) ⊆ done)) (dom graph).

(** [l] continues [done] by taking the smallest ready event at each step, for
    as long as there is one. *)
Inductive power_order : EventIdSet -> list string -> Prop :=
| po_nil done : ready done = ∅ -> power_order done []
| po_cons done e l :
    e ∈ ready done -> (forall x, x ∈ ready done -> cmp_le tb_cmp (key e) (key x)) ->
    power_order ({[ e ]} ∪ done) l -> power_order done (e :: l).

(** [l] lists every event of the graph once, each after its auth events. *)
Definition topological (l : list string) : Prop :=
  l ≡ₚ elements (dom graph) /\
  forall i e, l !! i = Some e -> default ∅ (graph !! e) ⊆ list_to_set (take i l).
End spec.

(** [x] goes before [y]: its sender has more power, or as much and it is older,
    or is as old and has the smaller ID. *)
Definition goes_before (x y : TieBreaker) : Prop :=
  match x.(tb_power_level), y.(tb_power_level) with
  | Infinite, Int _ => True
  | Int _, Infinite => False
  | Int a, Int b => (b < a)%Z
  | Infinite, Infinite => False
  end \/
  (x.(tb_power_level) = y.(tb_power_level) /\
   ((x.(tb_origin_server_ts) < y.(tb_origin_server_ts))%Z \/
    (x.(tb_origin_server_ts) = y.(tb_origin_server_ts) /\
     String.compare x.(tb_event_id) y.(tb_event_id) = Lt))).

(** Lexicographic comparison of two listings of the same events. *)
Inductive lex_le (key : string -> TieBreaker) : list string -> list string -> Prop :=
| lex_nil l : lex_le key [] l
| lex_lt x y l l' : goes_before (key x) (key y) -> lex_le key (x :: l) (y :: l')
| lex_eq x l l' : lex_le key l l' -> lex_le key (x :: l) (x :: l').

(** ** Lemmas *)

Lemma total_cmp_ext {A} (c1 c2 : A -> A -> comparison) :
  (forall x y, c1 x y = c2 x y) -> TotalCmp c1 -> TotalCmp c2.
Proof.
  intros Heq [He Ho Ht]. split; intros *; rewrite <- !Heq; [apply He|apply Ho|apply Ht].
Qed.

Definition tb_tuple (x : TieBreaker) : UserPowerLevel * (Z * string) :=
  (x.(tb_power_level), (x.(tb_origin_server_ts), x.(tb_event_id))).

#[global] Instance tb_tuple_inj : Inj (=) (=) tb_tuple.
Proof. intros [] []. unfold tb_tuple. simpl. by intros [= -> -> ->]. Qed.

#[global] Instance tb_total_cmp : TotalCmp tb_cmp.
Proof.
  apply (total_cmp_ext (fun x y =>
    pair_cmp (rev_cmp upl_cmp) (pair_cmp Z.compare String.compare) (tb_tuple x) (tb_tuple y))).
  - intros x y. unfold pair_cmp, rev_cmp, tb_cmp, then_cmp, tb_tuple. simpl.
    by destruct (upl_cmp (tb_power_level y) (tb_power_level x)),
      (Z.compare (tb_origin_server_ts x) (tb_origin_server_ts y)).
  - pose proof (rev_total_cmp upl_cmp) as H1.
    pose proof (pair_total_cmp Z.compare String.compare) as H2.
    pose proof (pair_total_cmp (rev_cmp upl_cmp) (pair_cmp Z.compare String.compare)) as H3.
    exact (@inj_total_cmp _ _ tb_tuple _ H3 tb_tuple_inj).

Qed.

Lemma tb_cmp_Lt x y : tb_cmp x y = Lt -> goes_before x y.
Proof.
  unfold tb_cmp, goes_before, then_cmp.
  destruct (tb_power_level x) as [|a], (tb_power_level y) as [|b]; simpl; auto; [|done|].
  - destruct (Z.compare_spec (tb_origin_server_ts x) (tb_origin_server_ts y)); auto; done.
  - destruct (Z.compare_spec b a) as [->|?|?]; [|auto|done].
    destruct (Z.compare_spec (tb_origin_server_ts x) (tb_origin_server_ts y)); auto; done.
Qed.

Lemma heap_push_Permutation x h : heap_push x h ≡ₚ x :: h.
Proof.
  induction h as [|y h IH]; simpl; [done|]. destruct (tb_cmp x y); [done|done|].
  rewrite IH. apply Permutation_swap.
Qed.

Lemma heap_push_sorted x h :
  StronglySorted (cmp_le tb_cmp) h -> StronglySorted (cmp_le tb_cmp) (heap_push x h).
Proof.
  induction h as [|y h IH]; simpl; intros Hs; [repeat constructor|].
  pose proof (StronglySorted_inv Hs) as [Hh Hy].
  assert (tb_cmp x y <> Gt -> StronglySorted (cmp_le tb_cmp) (x :: y :: h)) as Hfront.
  { intros Hle. constructor; [done|]. constructor; [done|]. eapply Forall_impl; [exact Hy|].
    intros z Hz. by apply (cmp_le_trans tb_cmp x y z). }
  destruct (tb_cmp x y) eqn:Hc; [by apply Hfront|by apply Hfront|].
  constructor; [by apply IH|]. rewrite heap_push_Permutation. constructor; [|done].
  unfold cmp_le. rewrite (cmp_opp tb_cmp x y), Hc. done.
Qed.

(** The key [event_details_fn] gives an event. *)
Definition tiebreaker (details : string -> StateResult (UserPowerLevel * Z)) (e : string) : TieBreaker :=
  match details e with
  | Ok (p, ts) => {| tb_power_level := p; tb_origin_server_ts := ts; tb_event_id := e |}
  | Err _ => {| tb_power_level := Infinite; tb_origin_server_ts := 0; tb_event_id := e |}
  end.

Lemma tiebreaker_id details e : (tiebreaker details e).(tb_event_id) = e.
Proof. unfold tiebreaker. by destruct (details e) as [[]|]. Qed.

#[global] Instance tiebreaker_inj details : Inj (=) (=) (tiebreaker details).
Proof. intros x y H. by rewrite <- (tiebreaker_id details x), H, tiebreaker_id. Qed.

(** Every event of [graph] has its details. *)
Definition details_total (details : string -> StateResult (UserPowerLevel * Z)) (graph : EventIdMap EventIdSet) :=
  forall e, e ∈ dom graph -> is_ok (details e) = true.

Section kahn.
Context {HO : HashOrder} (details : string -> StateResult (UserPowerLevel * Z)).
Context (graph : EventIdMap EventIdSet) (Hdet : details_total details graph).
Abbreviation key := (tiebreaker details).
Abbreviation edges e := (default ∅ (graph !! e)).

Lemma push_event_Done e h : e ∈ dom graph -> push_event details e h = Done (heap_push (key e) h).
Proof.
  intros He%Hdet. unfold push_event, tiebreaker. by destruct (details e) as [[p ts]|].
Qed.

Lemma add_incoming_spec e l inc a p :
  p ∈ default ∅ (add_incoming e l inc !! a) <-> p ∈ default ∅ (inc !! a) \/ (p = e /\ a ∈ l).
Proof.
  unfold add_incoming. revert inc; induction l as [|b l IH]; intros inc; simpl.
  - rewrite elem_of_nil. tauto.
  - rewrite IH, elem_of_cons. destruct (decide (a = b)) as [->|Hne].
    + rewrite lookup_insert_eq. simpl. set_solver.
    + rewrite lookup_insert_ne by done. naive_solver.
Qed.

Lemma populate_spec entries out inc h :
  NoDup entries.*1 -> (forall e E, (e, E) ∈ entries -> e ∈ dom graph) ->
  (forall e E, (e, E) ∈ entries -> out !! e = None) -> StronglySorted (cmp_le tb_cmp) h ->
  exists out' inc' h', populate details entries out inc h = Done (out', inc', h') /\
    (forall e E, out' !! e = Some E <-> out !! e = Some E \/ ((e, E) ∈ entries /\ E <> ∅)) /\
    (forall a p, p ∈ default ∅ (inc' !! a) <->
       p ∈ default ∅ (inc !! a) \/ exists E, (p, E) ∈ entries /\ a ∈ E) /\
    h' ≡ₚ (key <$> (filter (fun x => x.2 = ∅) entries).*1) ++ h /\
    StronglySorted (cmp_le tb_cmp) h'.
Proof.
  revert out inc h; induction entries as [|[e E] entries IH]; intros out inc h Hnd Hdom Hfresh Hs.
  { exists out, inc, h. split; [done|]. split; [|split; [|done]].
    - intros e E. rewrite elem_of_nil. tauto.
    - intros a p. setoid_rewrite elem_of_nil. naive_solver. }
  rewrite fmap_cons in Hnd. apply NoDup_cons in Hnd as [Hnin Hnd].
  assert (forall E', (e, E') ∉ entries) as Hnin'.
  { intros E' Hin. apply Hnin. apply list_elem_of_fmap. by exists (e, E'). }
  cbn [populate]. case_bool_decide as HE.
  - rewrite push_event_Done by (apply (Hdom e E); by left). cbn [mbind comp_bind].
    destruct (IH out inc (heap_push (key e) h)) as (out' & inc' & h' & -> & Ho & Hi & Hh & Hs');
      [done|intros; eapply Hdom; by right|intros; eapply Hfresh; by right|by apply heap_push_sorted|].
    exists out', inc', h'. split; [done|]. split; [|split; [|split]].
    + intros x X. rewrite Ho, elem_of_cons. naive_solver.
    + intros a p. rewrite Hi. setoid_rewrite elem_of_cons. split; [naive_solver|].
      intros [?|(X & [[= -> ->]|?] & Ha)]; [by left| |naive_solver].
      rewrite HE in Ha. set_solver +Ha.
    + rewrite Hh, filter_cons_True by done. rewrite !fmap_cons, heap_push_Permutation. simpl.
      by rewrite Permutation_middle.
    + done.
  - destruct (IH (<[e := E]> out) (add_incoming e (iter_set E) inc) h)
      as (out' & inc' & h' & -> & Ho & Hi & Hh & Hs'); [done|intros; eapply Hdom; by right| |done|].
    { intros x X Hx. rewrite lookup_insert_ne; [eapply Hfresh; by right|].
      intros ->. by apply (Hnin' X). }
    exists out', inc', h'. split; [done|]. split; [|split; [|split]].
    + intros x X. rewrite Ho. destruct (decide (x = e)) as [->|Hne].
      * rewrite lookup_insert_eq, (Hfresh e E), elem_of_cons by (by left). specialize (Hnin' X). naive_solver.
      * rewrite lookup_insert_ne, elem_of_cons by done. naive_solver.
    + intros a p. rewrite Hi, add_incoming_spec, elem_of_iter_set. setoid_rewrite elem_of_cons.
      naive_solver.
    + by rewrite Hh, filter_cons_False.
    + done.
Qed.

(** After releasing the parents [ps] of [e]: their edge to [e] is gone, and
    those left without edges moved to the heap. *)
Lemma release_spec e ps out h :
  NoDup ps -> (forall p, p ∈ ps -> p ∈ dom graph /\ is_Some (out !! p)) ->
  StronglySorted (cmp_le tb_cmp) h ->
  exists out' h' freed, release_parents details e ps out h = Done (out', h') /\
    (forall p R, out' !! p = Some R <->
       ((p ∉ ps) /\ out !! p = Some R) \/
       (p ∈ ps /\ exists R0, out !! p = Some R0 /\ R = R0 ∖ {[e]} /\ R <> ∅)) /\
    NoDup freed /\
    (forall p, p ∈ freed <-> p ∈ ps /\ exists R0, out !! p = Some R0 /\ R0 ∖ {[e]} = ∅) /\
    h' ≡ₚ (key <$> freed) ++ h /\ StronglySorted (cmp_le tb_cmp) h'.
Proof.
  revert out h; induction ps as [|p ps IH]; intros out h Hnd Hps Hs.
  { exists out, h, []. split; [done|]. setoid_rewrite elem_of_nil.
    split; [naive_solver|]. split; [constructor|]. split; [naive_solver|]. split; done. }
  apply NoDup_cons in Hnd as [Hp Hnd]. destruct (Hps p) as [Hdom [R0 HR0]]; [by left|].
  cbn [release_parents]. rewrite HR0. cbn zeta.
  case_bool_decide as HE.
  - rewrite push_event_Done by done. cbn [mbind comp_bind].
    destruct (IH (delete p out) (heap_push (key p) h)) as (out' & h' & freed & -> & Ho & Hnf & Hf & Hh & Hs');
      [done| |by apply heap_push_sorted|].
    { intros q Hq. rewrite lookup_delete_ne by congruence. apply Hps. by right. }
    exists out', h', (p :: freed). split; [done|]. setoid_rewrite elem_of_cons. repeat split.
    + rewrite Ho. destruct (decide (p0 = p)) as [->|Hne].
      * rewrite lookup_delete_eq. naive_solver.
      * rewrite lookup_delete_ne by done. naive_solver.
    + rewrite Ho. destruct (decide (p0 = p)) as [->|Hne].
      * rewrite lookup_delete_eq, HR0. naive_solver.
      * rewrite lookup_delete_ne by done. naive_solver.
    + constructor; [|done]. rewrite Hf. tauto.
    + destruct H as [->|H]; [by left|right]. apply Hf in H as [H _]. done.
    + destruct H as [->|H]; [by exists R0|]. apply Hf in H as [H (R1 & HR1 & He)].
      rewrite lookup_delete_ne in HR1 by congruence. by exists R1.
    + intros [[->|Hin] (R1 & HR1 & He)]; [by left|right]. apply Hf. split; [done|].
      exists R1. rewrite lookup_delete_ne by congruence. done.
    + rewrite Hh, heap_push_Permutation, fmap_cons. by rewrite <- Permutation_middle.
    + done.
  - destruct (IH (<[p := R0 ∖ {[e]}]> out) h) as (out' & h' & freed & -> & Ho & Hnf & Hf & Hh & Hs');
      [done| |done|].
    { intros q Hq. rewrite lookup_insert_ne by congruence. apply Hps. by right. }
    exists out', h', freed. split; [done|]. setoid_rewrite elem_of_cons. repeat split; try done.
    + rewrite Ho. destruct (decide (p0 = p)) as [->|Hne].
      * rewrite lookup_insert_eq. naive_solver.
      * rewrite lookup_insert_ne by done. naive_solver.
    + rewrite Ho. destruct (decide (p0 = p)) as [->|Hne].
      * rewrite lookup_insert_eq, HR0. naive_solver.
      * rewrite lookup_insert_ne by done. naive_solver.
    + right. apply Hf in H as [H _]. done.
    + apply Hf in H as [H (R1 & HR1 & He)]. rewrite lookup_insert_ne in HR1 by congruence. by exists R1.
    + intros [[->|Hin] (R1 & HR1 & He)]; [congruence|]. apply Hf. split; [done|].
      exists R1. rewrite lookup_insert_ne by congruence. done.
Qed.

(** The state of the loop when [done] have been placed. *)
Record kahn_inv (done : EventIdSet) (out : EventIdMap EventIdSet) (h : list TieBreaker) : Prop := {
  inv_closed : forall p, p ∈ done -> edges p ⊆ done;
  inv_out : forall p R, out !! p = Some R <-> R = edges p ∖ done /\ R <> ∅;
  inv_heap : exists l, h ≡ₚ key <$> l /\ NoDup l /\ forall x, x ∈ l <-> x ∈ ready graph done;
  inv_sorted : StronglySorted (cmp_le tb_cmp) h
}.

(** [inc] lists for each event the events that cite it. *)
Definition incoming_ok (inc : EventIdMap EventIdSet) : Prop :=
  forall a p, p ∈ default ∅ (inc !! a) <-> a ∈ edges p.

Lemma elem_of_edges_dom p a : a ∈ edges p -> p ∈ dom graph.
Proof. intros Ha. apply elem_of_dom. destruct (graph !! p); [done|]. set_solver +Ha. Qed.

Lemma elem_of_ready D e :
  e ∈ ready graph D <-> e ∈ dom graph /\ (e ∉ D) /\ edges e ⊆ D.
Proof. unfold ready. rewrite elem_of_filter. tauto. Qed.

(** The head of the heap is a smallest ready event; the rest are the others. *)
Lemma heap_head D e h :
  (exists l, key e :: h ≡ₚ key <$> l /\ NoDup l /\ forall x, x ∈ l <-> x ∈ ready graph D) ->
  StronglySorted (cmp_le tb_cmp) (key e :: h) ->
  e ∈ ready graph D /\ (forall x, x ∈ ready graph D -> cmp_le tb_cmp (key e) (key x)) /\
  exists l, h ≡ₚ key <$> l /\ NoDup l /\ forall x, x ∈ l <-> x ∈ ready graph D /\ x <> e.
Proof.
  intros (l & Hl & Hndl & Hrl) [_ Hmin]%StronglySorted_inv.
  assert (e ∈ l) as Hel.
  { assert (key e ∈ key <$> l) as Hin by (rewrite <- Hl; by left).
    apply list_elem_of_fmap in Hin as (x & Hx%(inj _) & Hin). by subst. }
  split; [by apply Hrl|].
  apply elem_of_Permutation in Hel as [l' Hl']. rewrite Hl' in Hndl, Hl. rewrite fmap_cons in Hl.
  apply (inj (cons (key e))) in Hl. apply NoDup_cons in Hndl as [Hel' Hndl']. split.
  - intros x Hx%Hrl. rewrite Hl' in Hx. apply elem_of_cons in Hx as [->|Hx]; [apply (cmp_le_refl tb_cmp)|].
    rewrite Forall_forall in Hmin. apply Hmin. rewrite Hl. by apply list_elem_of_fmap_2.
  - exists l'. split; [done|]. split; [done|]. intros x. rewrite <- Hrl, Hl', elem_of_cons.
    split; [intros Hx; split; [by right|by intros ->]|naive_solver].
Qed.

(** Placing a ready event makes ready those for which it was the last one. *)
Lemma ready_step D e x :
  (forall p, p ∈ D -> edges p ⊆ D) -> e ∈ ready graph D ->
  x ∈ ready graph ({[e]} ∪ D) <->
  (e ∈ edges x /\ edges x ∖ D ∖ {[e]} = ∅) \/ (x ∈ ready graph D /\ x <> e).
Proof.
  intros Hcl (Hed & HeD & Hee)%elem_of_ready. rewrite !elem_of_ready. split.
  - intros (Hd & Hnin & Hsub). destruct (decide (e ∈ edges x)) as [Hin|Hnin'].
    + left. split; [done|]. set_solver +Hsub.
    + right. split; [|set_solver +Hnin]. split; [done|]. split; [set_solver +Hnin|set_solver +Hsub Hnin'].
  - intros [[Hex Hempty]|[(H1 & H2 & H3) Hne]]; [|set_solver +H1 H2 H3 Hne].
    split; [by eapply elem_of_edges_dom|]. split.
    + intros [Hx|Hx]%elem_of_union; [apply elem_of_singleton in Hx as ->; set_solver +Hee Hex HeD|].
      apply Hcl in Hx. set_solver +Hx Hex HeD.
    + intros y Hy. destruct (decide (y = e)) as [->|Hne]; [set_solver +|].
      destruct (decide (y ∈ D)) as [Hy'|Hy']; [set_solver +Hy'|].
      assert (y ∈ edges x ∖ D ∖ {[e]}) as Habs by set_solver +Hy Hne Hy'.
      rewrite Hempty in Habs. set_solver +Habs.
Qed.

Lemma kahn_step D out e h inc :
  incoming_ok inc -> kahn_inv D out (key e :: h) ->
  exists out' h', release_parents details e (iter_set (default ∅ (inc !! e))) out h = Done (out', h') /\
    kahn_inv ({[e]} ∪ D) out' h' /\ e ∈ ready graph D /\
    forall x, x ∈ ready graph D -> cmp_le tb_cmp (key e) (key x).
Proof.
  unfold incoming_ok. intros Hinc [Hcl Hout Hheap Hs].
  destruct (heap_head D e h Hheap Hs) as (Her & Hmin & l & Hl & Hndl & Hrl).
  apply StronglySorted_inv in Hs as [Hs _].
  apply elem_of_ready in Her as Her'. destruct Her' as (Hed & HeD & Hee).
  destruct (release_spec e (iter_set (default ∅ (inc !! e))) out h) as
    (out' & h' & freed & Hrel & Ho & Hnf & Hf & Hh & Hs'); [apply NoDup_iter_set| |done|].
  { intros p Hp. apply elem_of_iter_set, Hinc in Hp as Hep. split; [by eapply elem_of_edges_dom|].
    exists (edges p ∖ D). apply Hout. split; [done|]. set_solver +Hep HeD. }
  exists out', h'. split; [done|]. split; [|split; done]. split.
  - intros p [Hp|Hp]%elem_of_union; [apply elem_of_singleton in Hp as ->; set_solver +Hee|].
    apply Hcl in Hp. set_solver +Hp.
  - intros p R. rewrite Ho, elem_of_iter_set, Hinc. setoid_rewrite Hout. split.
    + intros [[Hnin [-> Hne]]|[Hin (R0 & [-> Hne0] & -> & Hne)]].
      * split; [set_solver +Hnin|done].
      * split; [set_solver +|done].
    + intros [-> Hne]. destruct (decide (e ∈ edges p)) as [Hin|Hnin].
      * right. split; [done|]. exists (edges p ∖ D). split; [split; [done|set_solver +Hin HeD]|].
        split; [set_solver +|done].
      * left. split; [done|]. assert (edges p ∖ ({[e]} ∪ D) = edges p ∖ D) as Heq by set_solver +Hnin.
        rewrite Heq in *. done.
  - exists (freed ++ l)%list. split; [by rewrite Hh, fmap_app, Hl|].
    assert (forall p, p ∈ freed <-> e ∈ edges p /\ edges p ∖ D ∖ {[e]} = ∅) as Hfreed.
    { intros p. rewrite Hf, elem_of_iter_set, Hinc. setoid_rewrite Hout. split; [naive_solver|].
      intros [Hp He]. split; [done|]. exists (edges p ∖ D). split; [|done]. split; [done|]. set_solver +Hp HeD. }
    split; [|intros x; by rewrite elem_of_app, Hfreed, Hrl, ready_step].
    apply NoDup_app. split; [done|]. split; [|done]. intros p [Hp _]%Hfreed [Hpr _]%Hrl.
    apply elem_of_ready in Hpr as (_ & _ & Hpr). set_solver +Hp Hpr HeD.
  - done.
Qed.

Lemma kahn_loop_spec fuel inc D out h sorted :
  incoming_ok inc -> kahn_inv D out h -> size (dom graph ∖ D) <= fuel ->
  exists l, kahn_loop details fuel inc out h sorted = Done (sorted ++ l)%list /\ power_order key graph D l.
Proof.
  intros Hinc. revert D out h sorted; induction fuel as [|fuel IH]; intros D out h sorted Hinv Hfuel.
  all: destruct h as [|tb h].
  1,3: exists []; split; [by cbn; rewrite app_nil_r|]; apply po_nil;
    destruct (inv_heap _ _ _ Hinv) as (l & Hl%Permutation_nil_l & _ & Hr);
    symmetry in Hl; apply fmap_nil_inv in Hl as ->; apply set_eq; intros x; rewrite <- Hr;
    rewrite elem_of_nil; set_solver +.
  all: assert (exists e, tb = key e) as [e ->]
    by (destruct (inv_heap _ _ _ Hinv) as (l & Hl & _);
        assert (tb ∈ key <$> l) as Hin by (rewrite <- Hl; by left);
        apply list_elem_of_fmap in Hin as (e & -> & _); by exists e).
  all: destruct (kahn_step D out e h inc Hinc Hinv) as (out' & h' & Hrel & Hinv' & Her & Hmin).
  all: assert (size (dom graph ∖ ({[e]} ∪ D)) < size (dom graph ∖ D)) as Hlt
    by (apply elem_of_ready in Her as (Hd & HnD & _); apply subset_size; set_solver +Hd HnD).
  - lia.
  - cbn [kahn_loop]. rewrite tiebreaker_id, Hrel. cbn [mbind comp_bind].
    destruct (IH _ _ _ (sorted ++ [e])%list Hinv') as (l & -> & Hpo); [lia|].
    exists (e :: l). rewrite <- (assoc_L (++)%list). split; [done|]. by apply po_cons.
Qed.
End kahn.

Lemma sort_power_order {HO : HashOrder} details graph :
  details_total details graph ->
  exists l, reverse_topological_power_sort details graph = Done l /\
    power_order (tiebreaker details) graph ∅ l.
Proof.
  intros Hdet. unfold reverse_topological_power_sort.
  destruct (populate_spec details graph Hdet (iter_map graph) ∅ ∅ []) as
    (out & inc & h & -> & Ho & Hi & Hh & Hs).
  - apply NoDup_iter_keys.
  - intros e E He%elem_of_iter_map. by eapply elem_of_dom_2.
  - done.
  - constructor.
  - cbn [mbind comp_bind].
    assert (incoming_ok graph inc) as Hinc.
    { intros a p. rewrite Hi, lookup_empty. setoid_rewrite elem_of_iter_map. split.
      - intros [Hin|(E & -> & Ha)]; [set_solver +Hin|done].
      - intros Ha. right. destruct (graph !! p) as [E|]; [|set_solver +Ha]. by exists E. }
    assert (kahn_inv details graph ∅ out h) as Hinv.
    { split; [set_solver +| | |done].
      - intros p R. rewrite Ho, lookup_empty, elem_of_iter_map. rewrite difference_empty_L. split.
        + intros [?|[-> ?]]; done.
        + intros [-> Hne]. right. split; [|done]. by destruct (graph !! p).
      - exists (filter (fun x => x.2 = ∅) (iter_map graph)).*1. rewrite app_nil_r in Hh.
        split; [done|]. split.
        + eapply (sublist_NoDup _ (iter_map graph).*1); [apply NoDup_iter_keys|].
          apply fmap_sublist, sublist_filter.
        + intros x. rewrite list_elem_of_fmap, elem_of_ready. split.
          * intros ([x' E] & -> & Hin). apply list_elem_of_filter in Hin as [HE Hin].
            simpl in HE. subst E. apply elem_of_iter_map in Hin. split; [by eapply elem_of_dom_2|].
            split; [set_solver +|]. simpl. by rewrite Hin.
          * intros (Hd & _ & Hsub). apply elem_of_dom in Hd as [E HE]. rewrite HE in Hsub. simpl in Hsub.
            exists (x, E). split; [done|]. apply list_elem_of_filter. split.
            -- simpl. set_solver +Hsub.
            -- by apply elem_of_iter_map. }
    destruct (kahn_loop_spec details graph Hdet (size graph) inc ∅ out h [] Hinc Hinv) as (l & Hl & Hpo).
    { rewrite difference_empty_L, size_dom. done. }
    exists l. by rewrite Hl.
Qed.

Section order_lemmas.
Context (key : string -> TieBreaker) `{!Inj (=) (=) key} (graph : EventIdMap EventIdSet).
Abbreviation edges e := (default ∅ (graph !! e)).

Lemma power_order_unique D l1 l2 :
  power_order key graph D l1 -> power_order key graph D l2 -> l1 = l2.
Proof.
  intros H1. revert l2; induction H1 as [D Hr|D e l He Hmin _ IH]; intros l2 H2; inversion H2; subst.
  - done.
  - set_solver.
  - set_solver.
  - assert (e = e0) as <-.
    { apply (inj key), (cmp_le_antisymm tb_cmp); auto. }
    f_equal. by apply IH.
Qed.

(** The events placed after [D] are distinct, each after its auth events, and
    nothing is left that could be placed. *)
Lemma power_order_placed D l :
  power_order key graph D l ->
  NoDup l /\ (forall x, x ∈ l -> x ∈ dom graph /\ x ∉ D) /\
  (forall i e, l !! i = Some e -> edges e ⊆ D ∪ list_to_set (take i l)) /\
  ready graph (D ∪ list_to_set l) = ∅.
Proof.
  induction 1 as [D Hr|D e l He Hmin _ (Hnd & Hin & Hpre & Hend)].
  - split; [constructor|]. split; [by intros x ?%elem_of_nil|]. split; [done|].
    by rewrite list_to_set_nil, (right_id_L ∅ (∪)).
  - apply elem_of_ready in He as (Hd & HnD & Hsub). split; [|split; [|split]].
    + constructor; [|done]. intros [_ Hx]%Hin. set_solver +Hx.
    + intros x [->|Hx]%elem_of_cons; [done|]. apply Hin in Hx as [? Hx]. split; [done|]. set_solver +Hx.
    + intros [|i] x Hx; simpl in *.
      * injection Hx as <-. set_solver +Hsub.
      * apply Hpre in Hx. set_solver +Hx.
    + rewrite list_to_set_cons. replace (D ∪ ({[e]} ∪ list_to_set l)) with ({[e]} ∪ D ∪ list_to_set l);
        [done|]. set_solver +.
Qed.

(** In an acyclic graph that is closed under auth events everything is placed. *)
Lemma power_order_complete (rank : string -> nat) l :
  (forall e a, a ∈ edges e -> a ∈ dom graph /\ rank a < rank e) ->
  power_order key graph ∅ l -> topological graph l.
Proof.
  intros Hrank Hpo. destruct (power_order_placed _ _ Hpo) as (Hnd & Hin & Hpre & Hend).
  rewrite (left_id_L ∅ (∪)) in Hend. split.
  - apply NoDup_Permutation; [done|apply NoDup_elements|]. intros x. rewrite elem_of_elements.
    split; [by intros [? _]%Hin|].
    induction x as [x IH] using (induction_ltof1 _ rank). intros Hd.
    destruct (decide (x ∈ l)) as [|Hnin]; [done|]. exfalso.
    assert (x ∈ ready graph (list_to_set l)) as Hr; [|set_solver +Hr Hend].
    apply elem_of_ready. split; [done|]. split; [by rewrite elem_of_list_to_set|].
    intros a Ha. apply elem_of_list_to_set. apply Hrank in Ha as [Ha Hlt]. by apply IH.
  - intros i e He. apply Hpre in He. set_solver +He.
Qed.

Lemma power_order_smallest D l l' :
  power_order key graph D l -> l' ≡ₚ elements (dom graph ∖ D) ->
  (forall i e, l' !! i = Some e -> edges e ⊆ D ∪ list_to_set (take i l')) -> lex_le key l l'.
Proof.
  intros H. revert l'; induction H as [D _|D e l He Hmin _ IH]; intros l' Hp Hpre; [constructor|].
  apply elem_of_ready in He as (Hd & HnD & _).
  assert (NoDup l') as Hnd by (rewrite Hp; apply NoDup_elements).
  destruct l' as [|x l'].
  { assert (e ∈ elements (dom graph ∖ D)) as Hin by set_solver +Hd HnD.
    rewrite <- Hp in Hin. by apply elem_of_nil in Hin. }
  assert (x ∈ ready graph D) as Hx.
  { assert (x ∈ elements (dom graph ∖ D)) as Hin by (rewrite <- Hp; by left).
    apply elem_of_elements in Hin. apply elem_of_ready. split; [set_solver +Hin|].
    split; [set_solver +Hin|]. specialize (Hpre 0 x eq_refl). simpl in Hpre. set_solver +Hpre. }
  destruct (tb_cmp (key e) (key x)) eqn:Hc.
  - apply (cmp_eq tb_cmp), (inj key) in Hc as <-. apply lex_eq. apply IH.
    + apply NoDup_cons in Hnd as [Hnin Hnd]. apply NoDup_Permutation; [done|apply NoDup_elements|].
      intros y. assert (y ∈ e :: l' <-> y ∈ dom graph ∖ D) as Hy by (by rewrite Hp, elem_of_elements).
      rewrite elem_of_elements. rewrite elem_of_cons in Hy. set_solver +Hy Hnin.
    + intros i y Hi. specialize (Hpre (S i) y Hi). simpl in Hpre. set_solver +Hpre.
  - by apply lex_lt, tb_cmp_Lt.
  - by apply Hmin in Hx.
Qed.
End order_lemmas.

(** *** Sorts that stop at an event without details *)

(** Two runs of which the second may stop early with an error. *)
Definition may_fail {E A} (c c' : comp E A) : Prop := c' = c \/ exists e, c' = Fail e.

Lemma may_fail_bind {E A B} (m m' : comp E A) (f f' : A -> comp E B) :
  may_fail m m' -> (forall a, may_fail (f a) (f' a)) -> may_fail (m ≫= f) (m' ≫= f').
Proof.
  intros [->|[e ->]] Hf; [|by right; exists e].
  destruct m as [a| | |]; cbn [mbind comp_bind]; [apply Hf|by left..].
Qed.

Section partial.
Context {HO : HashOrder} (details : string -> StateResult (UserPowerLevel * Z)).

(** [details] with a default for the events it has nothing about. *)
Definition total_details (e : string) : StateResult (UserPowerLevel * Z) :=
  match details e with Ok d => Ok d | Err _ => Ok (Infinite, 0%Z) end.

Lemma push_event_total e h : may_fail (push_event total_details e h) (push_event details e h).
Proof. unfold push_event, total_details. destruct (details e) as [[]|]; [by left|by right; eexists]. Qed.

Lemma populate_total entries out inc h :
  may_fail (populate total_details entries out inc h) (populate details entries out inc h).
Proof.
  revert out inc h; induction entries as [|[e E] entries IH]; intros out inc h; cbn [populate]; [by left|].
  destruct (bool_decide _); [|apply IH]. apply may_fail_bind; [apply push_event_total|auto].
Qed.

Lemma release_parents_total e parents out h :
  may_fail (release_parents total_details e parents out h) (release_parents details e parents out h).
Proof.
  revert out h; induction parents as [|p parents IH]; intros out h; cbn [release_parents]; [by left|].
  destruct (out !! p); [|by left]. destruct (bool_decide _); [|apply IH].
  apply may_fail_bind; [apply push_event_total|auto].
Qed.

Lemma kahn_loop_total fuel inc out h sorted :
  may_fail (kahn_loop total_details fuel inc out h sorted) (kahn_loop details fuel inc out h sorted).
Proof.
  revert out h sorted; induction fuel as [|fuel IH]; intros out [|tb h] sorted; cbn [kahn_loop];
    [by left..|].
  apply may_fail_bind; [apply release_parents_total|]. intros []. apply IH.
Qed.

(** Whatever the details, the sort ends, and it lists events of the graph. *)
Lemma sort_total graph :
  match reverse_topological_power_sort details graph with
  | Done l => NoDup l /\ forall x, x ∈ l -> x ∈ dom graph
  | Fail _ => True
  | Panic | OutOfFuel => False
  end.
Proof.
  destruct (sort_power_order total_details graph) as (l & Hl & Hpo).
  { intros e _. unfold total_details. by destruct (details e). }
  assert (may_fail (reverse_topological_power_sort total_details graph)
    (reverse_topological_power_sort details graph)) as [H|[e H]].
  { apply may_fail_bind; [apply populate_total|]. intros [[]]. apply kahn_loop_total. }
  - rewrite H, Hl. destruct (power_order_placed _ _ _ _ Hpo) as (Hnd & Hin & _).
    split; [done|]. intros x Hx. by apply Hin.
  - by rewrite H.
Qed.
End partial.

(** ** Properties *)

(** For any graph whose events have their details, cyclic or not,
    the sort terminates without panicking, and its result takes the smallest
    ready event at each step until none is ready. *)
Theorem reverse_topological_power_sort_spec {HO : HashOrder} details graph :
  details_total details graph ->
  exists l, reverse_topological_power_sort details graph = Done l /\
    power_order (tiebreaker details) graph ∅ l.
Proof. apply sort_power_order. Qed.

(** The result does not depend on the iteration order of
    the hash tables, so all servers sort alike. *)
Theorem reverse_topological_power_sort_deterministic (HO1 HO2 : HashOrder) details graph :
  details_total details graph ->
  @reverse_topological_power_sort HO1 details graph = @reverse_topological_power_sort HO2 details graph.
Proof.
  intros Hdet. destruct (@sort_power_order HO1 details graph Hdet) as (l1 & -> & H1).
  destruct (@sort_power_order HO2 details graph Hdet) as (l2 & -> & H2).
  by rewrite (power_order_unique _ _ _ _ _ H1 H2).
Qed.

(** C21: on an acyclic graph that contains the auth events it cites
    the sort returns every event once, each after its auth events, and among
    all such orders the lexicographically smallest one under the comparison of
    power level (greatest first), timestamp and event ID. *)
Theorem reverse_topological_power_sort_smallest {HO : HashOrder} details graph rank :
  details_total details graph ->
  (forall e a, a ∈ default ∅ (graph !! e) -> a ∈ dom graph /\ rank a < rank e) ->
  exists l, reverse_topological_power_sort details graph = Done l /\ topological graph l /\
    forall l', topological graph l' -> lex_le (tiebreaker details) l l'.
Proof.
  intros Hdet Hrank. destruct (sort_power_order details graph Hdet) as (l & Hl & Hpo).
  exists l. split; [done|]. split; [by eapply power_order_complete|].
  intros l' [Hp Hpre]. eapply power_order_smallest; [apply _|exact Hpo|by rewrite difference_empty_L|].
  intros i e He. apply Hpre in He. set_solver +He.
Qed.

(** ** Witnesses *)

(** Two events that cite a third. *)
Definition ex_graph : EventIdMap EventIdSet :=
  {[ "$a" := ∅; "$b" := {[ "$a" ]}; "$c" := {[ "$a" ]} ]}.
Definition ex_details (id : string) : StateResult (UserPowerLevel * Z) :=
  if id =? "$a" then Ok (Int 0, 1%Z) else if id =? "$b" then Ok (Int 0, 2%Z) else Ok (Int 50, 3%Z).

Lemma ex_details_total : details_total ex_details ex_graph.
Proof. intros e _. unfold ex_details. by destruct (e =? "$a"), (e =? "$b"). Qed.

Lemma reverse_topological_power_sort_spec_witness :
  exists l, @reverse_topological_power_sort backward_order ex_details ex_graph = Done l /\
    power_order (tiebreaker ex_details) ex_graph ∅ l.
Proof. apply (@reverse_topological_power_sort_spec backward_order). apply ex_details_total. Defined.

Lemma reverse_topological_power_sort_deterministic_witness :
  @reverse_topological_power_sort forward_order ex_details ex_graph =
  @reverse_topological_power_sort backward_order ex_details ex_graph.
Proof. apply (reverse_topological_power_sort_deterministic forward_order backward_order). apply ex_details_total. Defined.

Lemma ex_graph_edges e a :
  a ∈ default ∅ (ex_graph !! e) ->
  a ∈ dom ex_graph /\ (if a =? "$a" then 0 else 1) < (if e =? "$a" then 0 else 1).
Proof.
  unfold ex_graph. intros H.
  destruct (decide (e = "$a")) as [->|Ha]; [by rewrite lookup_insert_eq in H|].
  rewrite lookup_insert_ne in H by done.
  assert (a = "$a") as ->.
  { destruct (decide (e = "$b")) as [->|Hb]; [rewrite lookup_insert_eq in H; simpl in H; by apply elem_of_singleton in H|].
    rewrite lookup_insert_ne in H by done.
    destruct (decide (e = "$c")) as [->|Hc]; [rewrite lookup_singleton_eq in H; simpl in H; by apply elem_of_singleton in H|].
    by rewrite lookup_singleton_ne in H. }
  split; [apply elem_of_dom; by rewrite lookup_insert_eq|].
  rewrite (proj2 (String.eqb_neq _ _) Ha). simpl. lia.
Qed.

Lemma reverse_topological_power_sort_smallest_witness :
  exists l, @reverse_topological_power_sort backward_order ex_details ex_graph = Done l /\
    topological ex_graph l /\
    forall l', topological ex_graph l' -> lex_le (tiebreaker ex_details) l l'.
Proof.
  apply (@reverse_topological_power_sort_smallest backward_order ex_details ex_graph
    (fun e => if e =? "$a" then 0 else 1)); [apply ex_details_total|apply ex_graph_edges].
Defined.
