(* ===== verification/StateRes.v ===== *)
(** State resolution: [crates/core/src/state.rs].

    [fetch_event] and [fetch_conflicted_state_subgraph] are the closures the
    caller passes; [HashOrder] is the iteration order of the hash tables.  Two
    kinds of loops are not structural: the walk of an auth chain, which needs
    no more turns than [chain_fuel] (proved below), and the walks along
    power-levels events of [mainline_sort], which only end because auth chains
    are acyclic and take their fuel as an argument. *)

From S2P Require Import Prelude.
From S2P Require Import Identifiers.
From S2P Require Import Json.
From S2P Require Import RoomVersion.
From S2P Require Import Signatures.
From S2P Require Import Events.
From S2P Require Import Membership.
From S2P Require Import EventAuth.
From S2P Require Import TopoSort.

Open Scope string_scope.

Abbreviation StateKey := (string * string)%type.
Abbreviation StateMap := (gmap StateKey).

(** [EventTypeExt::with_state_key]; the canonical name of a timeline event type
    is that of the state event type. *)
Definition with_state_key (event_type state_key : string) : StateKey := (event_type, state_key).

Definition is_type_and_key (ev : Pdu) (ty key : string) : bool :=
  (ev.(event_type) =? ty) && bool_decide (ev.(state_key) = Some key).

Definition is_power_event (ev : Pdu) : bool :=
  if bool_decide (ev.(event_type) ∈ ["m.room.power_levels"; "m.room.join_rules"; "m.room.create"])
  then bool_decide (ev.(state_key) = Some EmptyString)
  else if ev.(event_type) =? "m.room.member" then
    match RoomMember.membership ev.(content) with
    | Ok membership =>
        if bool_decide (membership ∈ [MLeave; MBan])
        then bool_decide (Some ev.(sender) <> ev.(state_key)) else false
    | Err _ => false
    end
  else false.

Definition is_power_event_id (fetch_event : FetchEvent) (id : string) : bool :=
  match fetch_event id with Ok ev => is_power_event ev | Err _ => false end.

(** ** Splitting *)

(** [entry(v).and_modify(|x| *x += 1).or_insert(1)]. *)
Definition count_one {K} `{Countable K} (counts : gmap K nat) (k : K) : gmap K nat :=
  <[ k := S (default 0 (counts !! k)) ]> counts.

Section split.
Context {HO : HashOrder}.

Definition occurrences_of (entries : list (StateKey * string)) : StateMap (gmap string nat) :=
  foldl (fun occ kv => <[ kv.1 := count_one (default ∅ (occ !! kv.1)) kv.2 ]> occ) ∅ entries.

(** One (key, event, count) of the second loop. *)
Definition split_one (state_set_count : nat)
    (acc : StateMap string * StateMap (list string)) (x : StateKey * (string * nat)) :
    StateMap string * StateMap (list string) :=
  let '(unconflicted, conflicted) := acc in
  let '(k, (id, occurrence_count)) := x in
  if Nat.eqb occurrence_count state_set_count then (<[ k := id ]> unconflicted, conflicted)
  else (unconflicted,
        <[ k := match conflicted !! k with Some ids => ids ++ [id] | None => [id] end%list ]> conflicted).

Definition split_conflicted_state_set (state_maps : list (StateMap string)) :
    StateMap string * StateMap (list string) :=
  let occurrences := occurrences_of (concat (map iter_map state_maps)) in
  foldl (split_one (length state_maps)) (∅, ∅)
    (concat (map (fun kv => map (pair kv.1) (iter_map kv.2)) (iter_map occurrences))).

Definition auth_difference (auth_chains : list EventIdSet) : list string :=
  let id_counts := foldl count_one ∅ (concat (map iter_set auth_chains)) in
  (filter (fun kv => kv.2 < length auth_chains) (iter_map id_counts)).*1.

End split.

(** ** Power events *)

(** The auth events of the event with the given ID, none if it is missing. *)
Definition auth_ids (fetch_event : FetchEvent) (id : string) : list string :=
  match fetch_event id with Ok ev => ev.(auth_events) | Err _ => [] end.

Section graph.
Context (fetch_event : FetchEvent) (full_conflicted_set : EventIdSet).

(** The loop over the auth events of [event_id]; the head of [stack] is the top. *)
Fixpoint add_auth_events (event_id : string) (auths : list string)
    (graph : EventIdMap EventIdSet) (stack : list string) : EventIdMap EventIdSet * list string :=
  match auths with
  | [] => (graph, stack)
  | auth_event_id :: auths =>
      if bool_decide (auth_event_id ∈ full_conflicted_set) then
        let stack := if bool_decide (auth_event_id ∈ dom graph) then stack else auth_event_id :: stack in
        let graph := match graph !! event_id with
                     | Some edges => <[ event_id := {[ auth_event_id ]} ∪ edges ]> graph
                     | None => graph
                     end in
        add_auth_events event_id auths graph stack
      else add_auth_events event_id auths graph stack
  end.

Fixpoint add_chain_loop (fuel : nat) (graph : EventIdMap EventIdSet) (stack : list string) :
    comp StateError (EventIdMap EventIdSet) :=
  match stack with
  | [] => Done graph
  | event_id :: stack =>
      match fuel with
      | O => OutOfFuel
      | S fuel =>
          let graph := <[ event_id := default ∅ (graph !! event_id) ]> graph in
          let '(graph, stack) := add_auth_events event_id (auth_ids fetch_event event_id) graph stack in
          add_chain_loop fuel graph stack
      end
  end.

(** One turn for the event itself and one for each citation in the set. *)
Definition chain_weight (ids : EventIdSet) : nat :=
  sum_list ((fun e => length (auth_ids fetch_event e)) <$> elements ids).
Definition chain_fuel (event_id : string) : nat :=
  S (chain_weight ({[ event_id ]} ∪ full_conflicted_set)).

Definition add_event_and_auth_chain_to_graph (graph : EventIdMap EventIdSet) (event_id : string) :
    comp StateError (EventIdMap EventIdSet) :=
  add_chain_loop (chain_fuel event_id) graph [event_id].

Fixpoint fill_graph (graph : EventIdMap EventIdSet) (ids : list string) :
    comp StateError (EventIdMap EventIdSet) :=
  match ids with
  | [] => Done graph
  | id :: ids => graph ← add_event_and_auth_chain_to_graph graph id; fill_graph graph ids
  end.

End graph.

Section power.
Context {U : Unicode} {C : Crypto} {HO : HashOrder}.
Context (rules : AuthorizationRules.t) (fetch_event : FetchEvent).

(** The loop over the auth events in [power_level_for_sender]: the create event
    and the power-levels event found, with the early exit. *)
Fixpoint find_auth_events (locked : bool) (auths : list string) (create pl : option Pdu) :
    option Pdu * option Pdu :=
  match auths with
  | [] => (create, pl)
  | id :: auths =>
      match fetch_event id with
      | Err _ => find_auth_events locked auths create pl
      | Ok auth_event =>
          let '(create, pl) :=
            if is_type_and_key auth_event "m.room.power_levels" EmptyString then (create, Some auth_event)
            else if negb rules.(AuthorizationRules.room_create_event_id_as_room_id) && negb locked
                    && is_type_and_key auth_event "m.room.create" EmptyString
            then (Some auth_event, pl)
            else (create, pl) in
          if bool_decide (is_Some pl)
             && (rules.(AuthorizationRules.room_create_event_id_as_room_id) || locked
                 || bool_decide (is_Some create))
          then (create, pl)
          else find_auth_events locked auths create pl
      end
  end.

(** [creators_lock] is passed in and out. *)
Definition power_level_for_sender (event_id : string) (creators_lock : option (gset string)) :
    comp StateError (UserPowerLevel * option (gset string)) :=
  let event := ok (fetch_event event_id) in
  let locked := bool_decide (is_Some creators_lock) in
  room_create_event ←
    match event with
    | Some event =>
        if rules.(AuthorizationRules.room_create_event_id_as_room_id) && negb locked then
          ok_else (room_create_event_id event.(room_id)) (Done None)
            (fun id => Done (ok (fetch_event id)))
        else Done None
    | None => Done None
    end;
  let '(room_create_event, room_power_levels_event) :=
    find_auth_events locked (match event with Some e => e.(auth_events) | None => [] end)
      room_create_event None in
  '(creators, creators_lock) ←
    match creators_lock, room_create_event with
    | Some creators, _ => Done (Some creators, creators_lock)
    | None, Some create =>
        creators ← of_result (RoomCreate.creators create);
        Done (Some creators, Some creators)
    | None, None => Done (None, None)
    end;
  match event, creators with
  | Some event, Some creators =>
      level ← of_result (opt_user_power_level room_power_levels_event event.(sender) creators rules);
      Done (level, creators_lock)
  | _, _ =>
      level ← of_result (opt_get_as_int_or_default room_power_levels_event UsersDefault rules);
      Done (Int level, creators_lock)
  end.

(** The loop over the keys of the graph. *)
Fixpoint sender_levels (ids : list string) (creators_lock : option (gset string))
    (levels : gmap string UserPowerLevel) : comp StateError (gmap string UserPowerLevel) :=
  match ids with
  | [] => Done levels
  | id :: ids =>
      '(level, creators_lock) ← power_level_for_sender id creators_lock;
      sender_levels ids creators_lock (<[ id := level ]> levels)
  end.

(** The closure [sort_power_events] passes to the sort. *)
Definition event_details (levels : gmap string UserPowerLevel) (id : string) :
    StateResult (UserPowerLevel * Z) :=
  power_level ← ok_or (levels !! id) (NotFound id);
  event ← fetch_event id;
  Ok (power_level, event.(origin_server_ts)).

Definition sort_power_events (conflicted_power_events : list string)
    (full_conflicted_set : EventIdSet) : comp StateError (list string) :=
  graph ← fill_graph fetch_event full_conflicted_set ∅ conflicted_power_events;
  levels ← sender_levels (iter_keys graph) None ∅;
  reverse_topological_power_sort (event_details levels) graph.
End power.

(** ** Iterative auth checks *)

Section iterative.
Context {U : Unicode} {C : Crypto}.
Context (rules : AuthorizationRules.t) (fetch_event : FetchEvent).

(** The auth events of the event that can be fetched and were not rejected. *)
Fixpoint collect_auth_events (auths : list string) (auth_events : StateMap Pdu) :
    StateResult (StateMap Pdu) :=
  match auths with
  | [] => Ok auth_events
  | id :: auths =>
      match fetch_event id with
      | Err _ => collect_auth_events auths auth_events
      | Ok auth_event =>
          if auth_event.(rejected) then collect_auth_events auths auth_events
          else
            state_key ← ok_or auth_event.(state_key) MissingStateKey;
            collect_auth_events auths
              (<[ with_state_key auth_event.(event_type) state_key := auth_event ]> auth_events)
      end
  end.

(** The entries of [state] that take the place of the event's own auth events. *)
Fixpoint overlay_state (state : StateMap string) (keys : list StateKey) (auth_events : StateMap Pdu) :
    StateMap Pdu :=
  match keys with
  | [] => auth_events
  | key :: keys =>
      overlay_state state keys
        (match state !! key with
         | Some id =>
             match fetch_event id with
             | Ok auth_event =>
                 if auth_event.(rejected) then auth_events else <[ key := auth_event ]> auth_events
             | Err _ => auth_events
             end
         | None => auth_events
         end)
  end.

(** The [fetch_state] closure over the collected auth events. *)
Definition fetch_from (auth_events : StateMap Pdu) : FetchState :=
  fun ty key => ok_or (auth_events !! with_state_key ty key) Other.

(** The create event added to the auth events where it is not one of them. *)
Definition add_create_event (event : Pdu) (auth_events : StateMap Pdu) :
    comp StateError (StateMap Pdu) :=
  if rules.(AuthorizationRules.room_create_event_id_as_room_id)
     && negb (event.(event_type) =? "m.room.create")
  then
    ok_else (room_create_event_id event.(room_id)) (Done auth_events)
      (fun id =>
         create ← of_result (fetch_event id);
         Done (<[ ("m.room.create", EmptyString) := create ]> auth_events))
  else Done auth_events.

(** One event of [iterative_auth_check]. *)
Definition iterative_auth_step (state : StateMap string) (event_id : string) :
    comp StateError (StateMap string) :=
  event ← of_result (fetch_event event_id);
  state_key ← of_result (ok_or event.(state_key) MissingStateKey);
  auth_events ← of_result (collect_auth_events event.(auth_events) ∅);
  auth_events ← add_create_event event auth_events;
  match auth_types_for_event event.(event_type) event.(sender) (Some state_key) event.(content) rules with
  | Err _ => Done state
  | Ok auth_types =>
      let auth_events := overlay_state state auth_types auth_events in
      ok_else (check_state_dependent_auth_rules rules event (fetch_from auth_events))
        (Done state)
        (fun _ => Done (<[ with_state_key event.(event_type) state_key := event_id ]> state))
  end.

Fixpoint iterative_auth_check (events : list string) (state : StateMap string) :
    comp StateError (StateMap string) :=
  match events with
  | [] => Done state
  | event_id :: events => state ← iterative_auth_step state event_id; iterative_auth_check events state
  end.

End iterative.

(** ** Mainline ordering *)

Section mainline.
Context {HO : HashOrder} (fetch_event : FetchEvent).

(** The first power-levels event among the auth events. *)
Fixpoint find_power_levels (auths : list string) : StateResult (option (string * Pdu)) :=
  match auths with
  | [] => Ok None
  | id :: auths =>
      auth_event ← fetch_event id;
      if is_type_and_key auth_event "m.room.power_levels" EmptyString then Ok (Some (id, auth_event))
      else find_power_levels auths
  end.

(** [while let Some(power_level_event_id) = power_level]. *)
Fixpoint mainline_loop (fuel : nat) (power_level : option string) (mainline : list string) :
    comp StateError (list string) :=
  match power_level with
  | None => Done mainline
  | Some id =>
      match fuel with
      | O => OutOfFuel
      | S fuel =>
          event ← of_result (fetch_event id);
          next ← of_result (find_power_levels event.(auth_events));
          mainline_loop fuel (fst <$> next) (mainline ++ [id])%list
      end
  end.

(** Positions counted from the deepest event, from 1. *)
Definition mainline_map (mainline : list string) : EventIdMap positive :=
  foldl (fun m kv => <[ kv.2 := Pos.of_succ_nat kv.1 ]> m) ∅
    (imap pair (reverse mainline)).

Fixpoint mainline_position (fuel : nat) (event : Pdu) (positions : EventIdMap positive) :
    comp StateError (option positive) :=
  match positions !! event.(event_id) with
  | Some position => Done (Some position)
  | None =>
      match fuel with
      | O => OutOfFuel
      | S fuel =>
          next ← of_result (find_power_levels event.(auth_events));
          match next with
          | Some (_, auth_event) => mainline_position fuel auth_event positions
          | None => Done None
          end
      end
  end.

(** The sort key of an event. *)
Definition order_key : Type := option positive * (option Z * string).
Definition order_cmp : order_key -> order_key -> comparison :=
  pair_cmp (option_cmp Pos.compare) (pair_cmp (option_cmp Z.compare) String.compare).

Fixpoint order_events (fuel : nat) (positions : EventIdMap positive) (events : list string)
    (order_map : EventIdMap order_key) : comp StateError (EventIdMap order_key) :=
  match events with
  | [] => Done order_map
  | id :: events =>
      match fetch_event id with
      | Err _ => order_events fuel positions events order_map
      | Ok event =>
          ok_else (mainline_position fuel event positions)
            (order_events fuel positions events order_map)
            (fun position =>
               order_events fuel positions events
                 (<[ id := (position, (Some event.(origin_server_ts), id)) ]> order_map))
      end
  end.

Definition mainline_sort (fuel : nat) (events : list string) (power_level : option string) :
    comp StateError (list string) :=
  match events with
  | [] => Done []
  | _ =>
      mainline ← mainline_loop fuel power_level [];
      order_map ← order_events fuel (mainline_map mainline) events ∅;
      Done (sort_by_key order_cmp
              (fun id => default (None, (None, id)) (order_map !! id)) (iter_keys order_map))
  end.

End mainline.

(** ** Resolution *)

Section resolve.
Context {U : Unicode} {C : Crypto} {HO : HashOrder}.
Context (fuel : nat) (rules : AuthorizationRules.t) (state_res_rules : StateResolutionV2Rules.t).
Context (fetch_event : FetchEvent).
Context (fetch_conflicted_state_subgraph : StateMap (list string) -> option EventIdSet).

Definition full_conflicted_set_of (auth_chains : list EventIdSet)
    (conflicted : StateMap (list string)) (subgraph : EventIdSet) : EventIdSet :=
  list_to_set (filter (fun id => is_ok (fetch_event id) = true)
    (auth_difference auth_chains ++ concat (map snd (iter_map conflicted)) ++ iter_set subgraph)%list).

Definition resolve (state_maps : list (StateMap string)) (auth_chains : list EventIdSet) :
    comp StateError (StateMap string) :=
  let '(unconflicted, conflicted) := split_conflicted_state_set state_maps in
  if bool_decide (conflicted = ∅) then Done unconflicted
  else
    subgraph ← of_result
      (if state_res_rules.(StateResolutionV2Rules.consider_conflicted_state_subgraph)
       then ok_or (fetch_conflicted_state_subgraph conflicted) FetchConflictedStateSubgraphFailed
       else Ok ∅);
    let full := full_conflicted_set_of auth_chains conflicted subgraph in
    let conflicted_power_events := filter (fun id => is_power_event_id fetch_event id = true) (iter_set full) in
    sorted_power_events ← sort_power_events rules fetch_event conflicted_power_events full;
    let initial :=
      if state_res_rules.(StateResolutionV2Rules.begin_iterative_auth_check_with_empty_state_map)
      then ∅ else unconflicted in
    partially_resolved ← iterative_auth_check rules fetch_event sorted_power_events initial;
    let remaining :=
      filter (fun id => id ∉ (list_to_set sorted_power_events : EventIdSet)) (iter_set full) in
    sorted_remaining ← mainline_sort fetch_event fuel remaining
      (partially_resolved !! ("m.room.power_levels", EmptyString));
    resolved ← iterative_auth_check rules fetch_event sorted_remaining partially_resolved;
    Done (unconflicted ∪ resolved).

End resolve.

(** ** Lemmas: counting *)

(** How often [x] occurs in [l]. *)
Definition cnt {K} `{EqDecision K} (x : K) (l : list K) : nat := length (filter (fun y => y = x) l).

Section counting.
Context {K : Type} `{Countable K}.
Implicit Types (l : list K) (x : K).

Lemma cnt_cons x y l : cnt x (y :: l) = (if decide (y = x) then 1 else 0) + cnt x l.
Proof. unfold cnt. rewrite filter_cons. by destruct (decide (y = x)). Qed.

Lemma cnt_app x l1 l2 : cnt x (l1 ++ l2) = cnt x l1 + cnt x l2.
Proof. unfold cnt. by rewrite filter_app, length_app. Qed.

Lemma cnt_pos x l : 0 < cnt x l <-> x ∈ l.
Proof.
  induction l as [|y l IH]; [rewrite elem_of_nil; cbn; lia|]. rewrite cnt_cons, elem_of_cons.
  destruct (decide (y = x)) as [->|Hne]; [split; [by left|lia]|]. simpl. rewrite IH. naive_solver.
Qed.

Lemma cnt_NoDup x l : NoDup l -> cnt x l = if decide (x ∈ l) then 1 else 0.
Proof.
  induction 1 as [|y l Hy Hnd IH]; [by destruct (decide _) as [?%elem_of_nil|]|].
  rewrite cnt_cons, IH. destruct (decide (y = x)) as [->|Hne].
  - rewrite (decide_False (P := x ∈ l)) by done. by rewrite (decide_True (P := x ∈ x :: l)) by (by left).
  - destruct (decide (x ∈ l)).
    + by rewrite (decide_True (P := x ∈ y :: l)) by (by right).
    + rewrite (decide_False (P := x ∈ y :: l)); [done|]. intros [?|?]%elem_of_cons; congruence.
Qed.

Lemma count_lookup (m : gmap K nat) l x :
  foldl count_one m l !! x = if decide (x ∈ l) then Some (default 0 (m !! x) + cnt x l) else m !! x.
Proof.
  revert m; induction l as [|y l IH]; intros m; cbn [foldl].
  { by rewrite decide_False by (by intros ?%elem_of_nil). }
  rewrite IH, cnt_cons. unfold count_one. destruct (decide (y = x)) as [->|Hne].
  - rewrite lookup_insert_eq. rewrite (decide_True (P := x ∈ x :: l)) by (by left). simpl.
    destruct (decide (x ∈ l)) as [|Hnin]; [f_equal; lia|].
    assert (cnt x l = 0) as -> by (rewrite <- cnt_pos in Hnin; lia). f_equal; lia.
  - rewrite lookup_insert_ne by done. simpl.
    destruct (decide (x ∈ l)) as [Hin|Hnin].
    + by rewrite (decide_True (P := x ∈ y :: l)) by (by right).
    + rewrite (decide_False (P := x ∈ y :: l)); [done|]. intros [?|?]%elem_of_cons; congruence.
Qed.

(** Occurrences in a concatenation of duplicate-free lists: how many contain it. *)
Lemma cnt_concat {A} (f : A -> list K) (ls : list A) x :
  (forall a, a ∈ ls -> NoDup (f a)) ->
  cnt x (concat (map f ls)) = length (filter (fun a => x ∈ f a) ls).
Proof.
  induction ls as [|a ls IH]; intros Hnd; simpl; [done|].
  rewrite cnt_app, IH by (intros; apply Hnd; by right). rewrite (cnt_NoDup x (f a)) by (apply Hnd; by left).
  rewrite filter_cons. by destruct (decide (x ∈ f a)).
Qed.
End counting.

Lemma filter_length_full {A} (P : A -> Prop) `{!forall x, Decision (P x)} (l : list A) :
  length (filter P l) = length l <-> Forall P l.
Proof.
  induction l as [|x l IH]; [split; [constructor|done]|]. rewrite filter_cons, Forall_cons.
  pose proof (length_filter P l) as Hle. destruct (decide (P x)); simpl.
  - rewrite <- IH. split; [intros [= ?]; done|intros [_ ?]; congruence].
  - split; [intros; lia|]. by intros [? _].
Qed.

Lemma elem_of_concat_map {A B} (f : A -> list B) (l : list A) (y : B) :
  y ∈ concat (map f l) <-> exists x, x ∈ l /\ y ∈ f x.
Proof.
  induction l as [|x l IH]; simpl.
  - rewrite elem_of_nil. setoid_rewrite elem_of_nil. naive_solver.
  - rewrite elem_of_app, IH. setoid_rewrite elem_of_cons. naive_solver.
Qed.

Lemma auth_difference_elem {HO : HashOrder} chains x :
  x ∈ auth_difference chains <-> (exists c, c ∈ chains /\ x ∈ c) /\ (exists c, c ∈ chains /\ x ∉ c).
Proof.
  unfold auth_difference. rewrite list_elem_of_fmap.
  set (l := concat (map iter_set chains)).
  assert (cnt x l = length (filter (fun c => x ∈ iter_set c) chains)) as Hcnt
    by (apply cnt_concat; intros; apply NoDup_iter_set).
  assert (x ∈ l <-> exists c, c ∈ chains /\ x ∈ c) as Hl.
  { unfold l. rewrite elem_of_concat_map. by setoid_rewrite elem_of_iter_set. }
  pose proof (length_filter (fun c => x ∈ iter_set c) chains) as Hle.
  assert (length (filter (fun c => x ∈ iter_set c) chains) < length chains <->
    exists c, c ∈ chains /\ x ∉ c) as Hlt.
  { pose proof (filter_length_full (fun c => x ∈ iter_set c) chains) as Hfull. split.
    - intros Hn. destruct (decide (Forall (fun c => x ∈ iter_set c) chains)) as [Hf|Hf];
        [apply Hfull in Hf; lia|].
      apply not_Forall_Exists, Exists_exists in Hf as (c & Hc & Hx); [|apply _]. exists c.
      split; [done|]. by rewrite <- elem_of_iter_set.
    - intros (c & Hc & Hx). assert (length (filter (fun c => x ∈ iter_set c) chains) <> length chains); [|lia].
      intros Hf%Hfull. rewrite Forall_forall in Hf. apply Hf in Hc. by rewrite elem_of_iter_set in Hc. }
  split.
  - intros ([y n] & -> & Hin). apply list_elem_of_filter in Hin as [Hn Hin]. simpl in *.
    apply elem_of_iter_map in Hin. rewrite count_lookup in Hin. fold l in Hin.
    destruct (decide (y ∈ l)) as [Hy|]; [|done]. rewrite lookup_empty in Hin. injection Hin as <-.
    simpl in Hn. rewrite Hcnt in Hn. tauto.
  - intros [H1 H2]. exists (x, cnt x l). split; [done|]. apply list_elem_of_filter. split.
    + simpl. rewrite Hcnt. by apply Hlt.
    + apply elem_of_iter_map. rewrite count_lookup. fold l. rewrite decide_True by (by apply Hl). done.
Qed.

(** ** Lemmas: splitting *)

Lemma occurrences_lookup (occ : StateMap (gmap string nat)) entries k v :
  default ∅ (foldl (fun occ kv => <[ kv.1 := count_one (default ∅ (occ !! kv.1)) kv.2 ]> occ) occ entries !! k)
    !! v
  = if decide ((k, v) ∈ entries)
    then Some (default 0 (default ∅ (occ !! k) !! v) + cnt (k, v) entries)
    else default ∅ (occ !! k) !! v.
Proof.
  revert occ; induction entries as [|[k' v'] entries IH]; intros occ; cbn [foldl fst snd].
  { by rewrite decide_False by (by intros ?%elem_of_nil). }
  rewrite IH, cnt_cons.
  assert (forall o, default ∅ (<[k' := count_one (default ∅ (occ !! k')) v']> occ !! k) !! v = o ->
    o = if decide ((k', v') = (k, v)) then Some (S (default 0 (default ∅ (occ !! k) !! v)))
        else default ∅ (occ !! k) !! v) as Hone.
  { intros o <-. destruct (decide (k' = k)) as [->|Hk].
    - rewrite lookup_insert_eq. unfold count_one. cbn [default from_option id]. destruct (decide (v' = v)) as [->|Hv].
      + rewrite lookup_insert_eq. by rewrite decide_True.
      + rewrite lookup_insert_ne by done. rewrite decide_False by congruence. done.
    - rewrite lookup_insert_ne by done. rewrite decide_False by congruence. done. }
  specialize (Hone _ eq_refl). rewrite Hone.
  destruct (decide ((k', v') = (k, v))) as [Heq|Hne].
  - rewrite (decide_True (P := (k, v) ∈ (k', v') :: entries)) by (rewrite Heq; by left).
    destruct (decide ((k, v) ∈ entries)) as [|Hnin]; cbn [default from_option id]; [f_equal; lia|].
    assert (cnt (k, v) entries = 0) as -> by (rewrite <- cnt_pos in Hnin; lia). f_equal; lia.
  - destruct (decide ((k, v) ∈ entries)) as [Hin|Hnin].
    + by rewrite (decide_True (P := (k, v) ∈ (k', v') :: entries)) by (by right).
    + rewrite (decide_False (P := (k, v) ∈ (k', v') :: entries)); [done|].
      intros [?|?]%elem_of_cons; congruence.
Qed.

(** The non-empty list a key maps to. *)
Definition mk_list {A} (l : list A) : option (list A) := match l with [] => None | _ => Some l end.

(** The events of key [k] that are not in every state, in visiting order. *)
Definition sel (n : nat) (k : StateKey) (t : list (StateKey * (string * nat))) : list string :=
  omap (fun x => if decide (x.1 = k /\ x.2.2 <> n) then Some x.2.1 else None) t.

Lemma elem_of_sel n k t id : id ∈ sel n k t <-> exists c, c <> n /\ (k, (id, c)) ∈ t.
Proof.
  unfold sel. rewrite list_elem_of_omap. split.
  - intros ([k' [id' c]] & Hin & Hx). simpl in Hx. destruct (decide _) as [[-> Hc]|]; [|done].
    injection Hx as <-. by exists c.
  - intros (c & Hc & Hin). exists (k, (id, c)). split; [done|]. simpl. by rewrite decide_True.
Qed.

Lemma sel_NoDup n k t :
  NoDup (map (fun x => (x.1, x.2.1)) t) -> NoDup (sel n k t).
Proof.
  induction t as [|[k' [id c]] t IH]; intros Hnd; [constructor|].
  simpl in Hnd. apply NoDup_cons in Hnd as [Hnin Hnd]. unfold sel. simpl.
  destruct (decide _) as [[-> Hc]|]; [|by apply IH]. constructor; [|by apply IH].
  intros (c' & Hc' & Hin)%elem_of_sel. apply Hnin. apply list_elem_of_In, in_map_iff.
  exists (k, (id, c')). split; [done|]. by apply list_elem_of_In.
Qed.

Lemma split_fold_spec n t unc conf g :
  (forall k id id', (k, (id, n)) ∈ t -> (k, (id', n)) ∈ t -> id = id') ->
  (forall k, conf !! k = mk_list (g k)) ->
  let r := foldl (split_one n) (unc, conf) t in
  (forall k id, r.1 !! k = Some id <->
     (k, (id, n)) ∈ t \/ (unc !! k = Some id /\ forall id', (k, (id', n)) ∉ t)) /\
  (forall k, r.2 !! k = mk_list (g k ++ sel n k t)%list).
Proof.
  revert unc conf g; induction t as [|[k0 [id0 c0]] t IH]; intros unc conf g Hfun Hconf; cbn [foldl].
  { split; intros k; [intros id|].
    - cbn [fst]. split.
      + intros H. right. split; [done|]. intros id'. apply not_elem_of_nil.
      + intros [Hin%elem_of_nil|[? _]]; done.
    - simpl. unfold sel. simpl. by rewrite app_nil_r. }
  assert (forall k id id', (k, (id, n)) ∈ t -> (k, (id', n)) ∈ t -> id = id') as Hfun'
    by (intros k id id' H1 H2; apply (Hfun k); by right).
  cbv zeta. destruct (decide (c0 = n)) as [->|Hc].
  - assert (split_one n (unc, conf) (k0, (id0, n)) = (<[k0 := id0]> unc, conf)) as ->
      by (unfold split_one; by rewrite Nat.eqb_refl).
    destruct (IH (<[k0 := id0]> unc) conf g Hfun' Hconf) as [H1 H2]. split.
    + intros k id. rewrite H1. setoid_rewrite elem_of_cons. destruct (decide (k = k0)) as [->|Hk].
      * rewrite lookup_insert_eq. split.
        -- intros [Hin|[[= ->] Hno]]; [by left; right|by left; left].
        -- intros [[[= ->]|Hin]|[_ Hno]].
           ++ destruct (decide ((k0, (id0, n)) ∈ t)) as [|Hnin]; [by left|]. right. split; [done|].
              intros id' Hin'. apply Hnin. rewrite (Hfun k0 id0 id'); [done|by left|by right].
           ++ by left.
           ++ exfalso. apply (Hno id0). by left.
      * rewrite lookup_insert_ne by done. naive_solver.
    + intros k. rewrite H2. unfold sel. simpl. rewrite decide_False; [done|]. by intros [_ ?].
  - set (conf' := <[ k0 := match conf !! k0 with Some ids => ids ++ [id0] | None => [id0] end%list ]> conf).
    assert (split_one n (unc, conf) (k0, (id0, c0)) = (unc, conf')) as ->
      by (unfold split_one; by destruct (Nat.eqb_spec c0 n)).
    destruct (IH unc conf' (fun k => if decide (k = k0) then g k ++ [id0] else g k)%list Hfun') as [H1 H2].
    { intros k. unfold conf'. destruct (decide (k = k0)) as [->|Hk].
      - rewrite lookup_insert_eq, Hconf. by destruct (g k0).
      - rewrite lookup_insert_ne by done. apply Hconf. }
    split.
    + intros k id. rewrite H1. setoid_rewrite elem_of_cons. naive_solver.
    + intros k. rewrite H2. unfold sel. simpl. destruct (decide (k = k0)) as [->|Hk].
      * rewrite decide_True by done. by rewrite <- (assoc_L (++)%list).
      * rewrite decide_False; [done|]. intros [? _]. congruence.
Qed.

Lemma NoDup_concat_map {A B} (f : A -> list B) (l : list A) :
  NoDup l -> (forall a, a ∈ l -> NoDup (f a)) ->
  (forall a b y, a ∈ l -> b ∈ l -> y ∈ f a -> y ∈ f b -> a = b) -> NoDup (concat (map f l)).
Proof.
  induction 1 as [|a l Ha Hnd IH]; intros Hf Hdisj; simpl; [constructor|].
  apply NoDup_app. split; [apply Hf; by left|]. split.
  - intros y Hy (b & Hb & Hyb)%elem_of_concat_map. apply Ha.
    rewrite (Hdisj a b y); [done|by left|by right|done|done].
  - apply IH; [intros; apply Hf; by right|]. intros b c y Hb Hc. apply Hdisj; by right.
Qed.

Section split_lemmas.
Context {HO : HashOrder}.

Definition state_triples (maps : list (StateMap string)) : list (StateKey * (string * nat)) :=
  concat (map (fun kv => map (pair kv.1) (iter_map kv.2))
    (iter_map (occurrences_of (concat (map iter_map maps))))).

(** In how many of the states [k] is [id]. *)
Definition holders (k : StateKey) (id : string) (maps : list (StateMap string)) : nat :=
  length (filter (fun m => m !! k = Some id) maps).

Lemma NoDup_iter_map {V} (m : StateMap V) : NoDup (iter_map m).
Proof. unfold iter_map. rewrite hash_perm_ok. apply NoDup_map_to_list. Qed.

Lemma holders_cnt k id maps : cnt (k, id) (concat (map iter_map maps)) = holders k id maps.
Proof.
  rewrite cnt_concat by (intros; apply NoDup_iter_map). unfold holders. f_equal.
  apply list_filter_iff. intros m. apply elem_of_iter_map.
Qed.

Lemma elem_of_state_triples maps k e c :
  (k, (e, c)) ∈ state_triples maps <-> c = holders k e maps /\ 0 < c.
Proof.
  unfold state_triples. rewrite elem_of_concat_map.
  set (entries := concat (map iter_map maps)).
  pose proof (occurrences_lookup ∅ entries k e) as Hocc. rewrite lookup_empty in Hocc.
  cbn [default from_option id] in Hocc. rewrite lookup_empty in Hocc. cbn [default from_option id] in Hocc.
  fold (occurrences_of entries) in Hocc. unfold entries in Hocc. rewrite holders_cnt in Hocc. fold entries in Hocc.
  assert ((k, e) ∈ entries <-> 0 < holders k e maps) as Hin.
  { rewrite <- holders_cnt. by rewrite cnt_pos. }
  split.
  - intros ([k' inner] & Hk & Hx). apply elem_of_iter_map in Hk.
    apply list_elem_of_In, in_map_iff in Hx as ([e' c'] & [= -> -> ->] & Hx).
    apply list_elem_of_In, elem_of_iter_map in Hx.
    rewrite Hk in Hocc. cbn [default from_option id] in Hocc. simpl in Hx; rewrite Hx in Hocc.
    destruct (decide _) as [Hd|]; [|done]. injection Hocc as ->. split; [done|]. by apply Hin.
  - intros [-> Hpos]. rewrite decide_True in Hocc by (by apply Hin).
    destruct (occurrences_of entries !! k) as [inner|] eqn:Hk; cbn [default from_option id] in Hocc;
      [|by rewrite lookup_empty in Hocc].
    exists (k, inner). split; [by apply elem_of_iter_map|].
    apply list_elem_of_In, in_map_iff. exists (e, holders k e maps). split; [done|].
    by apply list_elem_of_In, elem_of_iter_map.
Qed.

Lemma state_triples_NoDup maps : NoDup (map (fun x => (x.1, x.2.1)) (state_triples maps)).
Proof.
  unfold state_triples. rewrite List.concat_map, map_map. apply NoDup_concat_map.
  - apply NoDup_iter_map.
  - intros [k inner] _. rewrite map_map. simpl.
    replace (map (fun x => (k, x.1)) (iter_map inner)) with (map (pair k) (iter_keys inner)).
    + change (NoDup (pair k <$> iter_keys inner)). apply NoDup_fmap; [intros ? ? [=]; done|].
      apply NoDup_iter_keys.
    + unfold iter_keys. change (pair k <$> (fst <$> iter_map inner) = (fun x => (k, x.1)) <$> iter_map inner).
      by rewrite <- list_fmap_compose.
  - intros [k1 i1] [k2 i2] y H1%elem_of_iter_map H2%elem_of_iter_map.
    rewrite !map_map. intros (x1 & <- & _)%list_elem_of_In%in_map_iff.
    intros (x2 & Heq & _)%list_elem_of_In%in_map_iff. simpl in Heq. injection Heq as -> _. congruence.
Qed.

Lemma holders_full k id maps :
  holders k id maps = length maps <-> Forall (fun m => m !! k = Some id) maps.
Proof. apply filter_length_full. Qed.

Lemma holders_pos k id maps : 0 < holders k id maps <-> exists m, m ∈ maps /\ m !! k = Some id.
Proof.
  unfold holders. split.
  - destruct (filter _ maps) as [|m l] eqn:Hf; simpl; [lia|]. intros _.
    assert (m ∈ filter (fun m => m !! k = Some id) maps) as Hm by (rewrite Hf; by left).
    apply list_elem_of_filter in Hm as [? ?]. by exists m.
  - intros (m & Hm & Hk). assert (m ∈ filter (fun m => m !! k = Some id) maps) as Hin
      by (by apply list_elem_of_filter).
    destruct (filter _ maps); [by apply elem_of_nil in Hin|simpl; lia].
Qed.

Lemma split_lookup maps :
  let r := split_conflicted_state_set maps in
  (forall k id, r.1 !! k = Some id <-> maps <> [] /\ Forall (fun m => m !! k = Some id) maps) /\
  (forall k, exists l, r.2 !! k = mk_list l /\ NoDup l /\
     forall id, id ∈ l <-> (exists m, m ∈ maps /\ m !! k = Some id) /\
                           ~ Forall (fun m => m !! k = Some id) maps).
Proof.
  cbv zeta. unfold split_conflicted_state_set. fold (state_triples maps).
  destruct (split_fold_spec (length maps) (state_triples maps) ∅ ∅ (fun _ => [])) as [H1 H2].
  - intros k id id'. rewrite !elem_of_state_triples. intros [Ha Hpos] [Hb _].
    symmetry in Ha, Hb. rewrite holders_full in Ha, Hb. destruct maps as [|m maps]; [simpl in Hpos; lia|].
    apply Forall_cons in Ha as [Ha _], Hb as [Hb _]. congruence.
  - intros k. apply lookup_empty.
  - split.
    + intros k id. rewrite H1, elem_of_state_triples, lookup_empty, <- holders_full.
      split.
      * intros [[Hh Hpos]|[? _]]; [|done]. split; [intros ->; simpl in Hpos; lia|done].
      * intros [Hne Hh]. left. split; [done|]. destruct maps; [done|simpl; lia].
    + intros k. exists (sel (length maps) k (state_triples maps)). rewrite H2. split; [done|].
      split; [apply sel_NoDup, state_triples_NoDup|]. intros id. rewrite elem_of_sel.
      setoid_rewrite elem_of_state_triples. rewrite <- holders_pos, <- holders_full. naive_solver.
Qed.
End split_lemmas.

(** ** Lemmas: the graph of power events *)

Section graph_lemmas.
Context (fetch_event : FetchEvent) (full : EventIdSet).

(** The auth events of [e] in the full conflicted set. *)
Definition edges_of (e : string) : EventIdSet :=
  list_to_set (filter (fun a => a ∈ full) (auth_ids fetch_event e)).

(** [x] is [e] or is in its auth chain through the full conflicted set. *)
Definition in_chain (e x : string) : Prop := rtc (fun e a => a ∈ edges_of e) e x.

Lemma elem_of_edges_of e a : a ∈ edges_of e <-> a ∈ auth_ids fetch_event e /\ a ∈ full.
Proof. unfold edges_of. rewrite elem_of_list_to_set, list_elem_of_filter. tauto. Qed.

Lemma add_auth_events_spec e auths g st E :
  g !! e = Some E ->
  add_auth_events full e auths g st =
    (<[ e := E ∪ list_to_set (filter (fun a => a ∈ full) auths) ]> g,
     (reverse (filter (fun a => a ∈ full /\ (a ∉ dom g)) auths) ++ st)%list).
Proof.
  revert g st E; induction auths as [|a auths IH]; intros g st E He; cbn [add_auth_events].
  { cbn. rewrite (right_id_L ∅ (∪)), insert_id by done. done. }
  assert (forall X, dom (<[e := X]> g) = dom g) as Hdom.
  { intros X. rewrite dom_insert_L. apply elem_of_dom_2 in He. set_solver +He. }
  case_bool_decide as Ha.
  - cbv zeta. rewrite He, (IH _ _ ({[a]} ∪ E)) by (by rewrite lookup_insert_eq).
    rewrite Hdom, insert_insert_eq, filter_cons_True by done. f_equal.
    + f_equal. rewrite list_to_set_cons. set_solver +.
    + case_bool_decide as Hd.
      * rewrite filter_cons_False; [done|]. by intros [_ ?].
      * rewrite filter_cons_True by done. by rewrite reverse_cons, <- (assoc_L (++)%list).
  - rewrite (IH g st E He). rewrite filter_cons_False by done. f_equal.
    rewrite filter_cons_False; [done|]. by intros [? _].
Qed.

Lemma chain_weight_remove X x :
  x ∈ X -> chain_weight fetch_event X = length (auth_ids fetch_event x) + chain_weight fetch_event (X ∖ {[x]}).
Proof.
  intros Hx. unfold chain_weight.
  replace X with ({[x]} ∪ X ∖ {[x]}) at 1.
  - assert (elements ({[x]} ∪ X ∖ {[x]}) ≡ₚ x :: elements (X ∖ {[x]})) as Hp
      by (apply elements_union_singleton; set_solver +).
    rewrite Hp, fmap_cons. done.
  - apply set_eq. intros y. destruct (decide (y = x)) as [->|]; set_solver.
Qed.

Lemma chain_weight_mono X Y : X ⊆ Y -> chain_weight fetch_event X <= chain_weight fetch_event Y.
Proof.
  revert Y; induction X as [|x X Hx IH] using set_ind_L; intros Y Hsub.
  { unfold chain_weight. rewrite elements_empty. cbn. lia. }
  rewrite (chain_weight_remove Y x) by set_solver +Hsub.
  rewrite (chain_weight_remove ({[x]} ∪ X) x) by set_solver +.
  replace (({[x]} ∪ X) ∖ {[x]}) with X by set_solver +Hx.
  specialize (IH (Y ∖ {[x]}) ltac:(set_solver +Hsub Hx)). lia.
Qed.

(** The state of the walk: edges of the placed events are final, and an event
    of the stack that is already placed has its auth events placed or above. *)
Record chain_inv (root : string) (g0 g : EventIdMap EventIdSet) (st : list string) : Prop := {
  ci_edges : forall e E, g !! e = Some E -> E = edges_of e;
  ci_stack : forall above e below, st = (above ++ e :: below)%list -> e ∈ dom g ->
    forall a, a ∈ edges_of e -> a ∈ dom g \/ a ∈ above;
  ci_closed : forall e a, e ∈ dom g -> a ∈ edges_of e -> a ∈ dom g \/ a ∈ st;
  ci_reach : forall e, e ∈ st \/ e ∈ dom g -> e ∈ dom g0 \/ in_chain root e;
  ci_within : forall e, e ∈ st -> e ∈ ({[root]} ∪ full : EventIdSet);
  ci_mono : dom g0 ⊆ dom g;
  ci_root : root ∈ st \/ root ∈ dom g
}.

(** *** One turn of the walk *)

Section turn.
Context (root : string) (g0 g : EventIdMap EventIdSet) (x : string) (st : list string).
Context (Hinv : chain_inv root g0 g (x :: st)).

(** The graph and the events pushed after the turn for [x]. *)
Definition turn_graph : EventIdMap EventIdSet := <[ x := edges_of x ]> g.
Definition turn_pushes : list string :=
  filter (fun a => a ∈ full /\ (a ∉ dom turn_graph)) (auth_ids fetch_event x).

Lemma turn_dom : dom turn_graph = {[x]} ∪ dom g.
Proof. apply dom_insert_L. Qed.

Lemma elem_of_turn_pushes a : a ∈ turn_pushes <-> a ∈ edges_of x /\ a ∉ dom turn_graph.
Proof. unfold turn_pushes. rewrite list_elem_of_filter, elem_of_edges_of. tauto. Qed.

Lemma turn_eq :
  add_auth_events full x (auth_ids fetch_event x) (<[ x := default ∅ (g !! x) ]> g) st
  = (turn_graph, (reverse turn_pushes ++ st)%list).
Proof.
  rewrite (add_auth_events_spec x _ _ st (default ∅ (g !! x))) by (by rewrite lookup_insert_eq).
  rewrite insert_insert_eq. fold (edges_of x).
  assert (default ∅ (g !! x) ∪ edges_of x = edges_of x) as ->.
  { destruct (g !! x) as [E|] eqn:HE; simpl; [|set_solver +].
    apply (ci_edges _ _ _ _ Hinv) in HE as ->. set_solver +. }
  unfold turn_pushes. by rewrite turn_dom, dom_insert_L.
Qed.

(** If [x] was placed before, its auth events are. *)
Lemma turn_again a : x ∈ dom g -> a ∈ edges_of x -> a ∈ dom g.
Proof.
  intros Hx Ha. by destruct (ci_stack _ _ _ _ Hinv [] x st eq_refl Hx a Ha) as [?|?%elem_of_nil].
Qed.

Lemma turn_stack above e below :
  (reverse turn_pushes ++ st = above ++ e :: below)%list -> e ∈ dom turn_graph ->
  forall a, a ∈ edges_of e -> a ∈ dom turn_graph \/ a ∈ above.
Proof.
  pose proof turn_dom as Hdom. intros Hst Hed a Ha.
  destruct (decide (a ∈ dom turn_graph)) as [|Hnd]; [by left|right].
  assert (forall k, st = (k ++ e :: below)%list -> above = (reverse turn_pushes ++ k)%list -> a ∈ above) as Hbelow.
  { intros k Hk ->. apply elem_of_app. destruct (decide (e = x)) as [->|Hne].
    - left. apply elem_of_reverse. by apply elem_of_turn_pushes.
    - right. assert (e ∈ dom g) as Hed' by set_solver +Hed Hdom Hne.
      destruct (ci_stack _ _ _ _ Hinv (x :: k) e below ltac:(by rewrite Hk) Hed' a Ha) as [H|H].
      + set_solver +H Hdom Hnd.
      + apply elem_of_cons in H as [->|H]; [set_solver +Hdom Hnd|done]. }
  apply app_eq_inv in Hst as [(k & Hk & Hst)|(k & Hk & Hst)]; [|by apply (Hbelow k)].
  destruct k as [|e' k]; simpl in Hst; [apply (Hbelow []); [done|by rewrite app_nil_r in *]|].
  injection Hst as <- Hst. exfalso. assert (e ∈ turn_pushes) as Hin.
  { apply elem_of_reverse. rewrite Hk. apply elem_of_app. right. by left. }
  by apply elem_of_turn_pushes in Hin as [_ ?].
Qed.

Lemma turn_reach e :
  e ∈ (reverse turn_pushes ++ st)%list \/ e ∈ dom turn_graph -> e ∈ dom g0 \/ in_chain root e.
Proof.
  pose proof turn_dom as Hdom. pose proof (ci_reach _ _ _ _ Hinv) as Hreach.
  assert (x ∈ dom g0 \/ in_chain root x) as Hx by (apply Hreach; left; by left).
  intros [[He|He]%elem_of_app|He].
  - apply elem_of_reverse, elem_of_turn_pushes in He as [He Hnd]. destruct Hx as [Hx|Hx].
    + pose proof (ci_mono _ _ _ _ Hinv) as Hmono.
      pose proof (turn_again e ltac:(set_solver +Hx Hmono) He) as H. set_solver +H Hdom Hnd.
    + right. eapply rtc_r; done.
  - apply Hreach. left. by right.
  - rewrite Hdom in He. apply elem_of_union in He as [->%elem_of_singleton|He]; [done|].
    apply Hreach. by right.
Qed.

Lemma turn_inv : chain_inv root g0 turn_graph (reverse turn_pushes ++ st)%list.
Proof.
  pose proof turn_dom as Hdom. destruct Hinv as [Hedges Hstack Hclosed Hreach Hwithin Hmono Hroot]. split.
  - intros e E He. unfold turn_graph in He.
    apply lookup_insert_Some in He as [[<- <-]|[_ He]]; [done|by apply Hedges].
  - apply turn_stack.
  - intros e a He Ha. destruct (decide (a ∈ dom turn_graph)) as [|Hnd]; [by left|right].
    apply elem_of_app. destruct (decide (e = x)) as [->|Hne].
    + left. apply elem_of_reverse. by apply elem_of_turn_pushes.
    + right. destruct (Hclosed e a) as [H|H]; [set_solver +He Hdom Hne|done|set_solver +H Hdom Hnd|].
      apply elem_of_cons in H as [->|H]; [set_solver +Hdom Hnd|done].
  - apply turn_reach.
  - intros e [He|He]%elem_of_app; [|apply Hwithin; by right].
    apply elem_of_reverse, elem_of_turn_pushes in He as [He _].
    apply elem_of_edges_of in He as [_ He]. set_solver +He.
  - set_solver +Hmono Hdom.
  - destruct Hroot as [[->|?]%elem_of_cons|H]; [right; set_solver +Hdom| |right; set_solver +H Hdom].
    left. apply elem_of_app. by right.
Qed.

Lemma turn_weight :
  length (reverse turn_pushes ++ st)%list + chain_weight fetch_event (({[root]} ∪ full) ∖ dom turn_graph)
    < length (x :: st) + chain_weight fetch_event (({[root]} ∪ full) ∖ dom g).
Proof.
  rewrite length_app, length_reverse, turn_dom. destruct (decide (x ∈ dom g)) as [Hxg|Hxg].
  - assert (turn_pushes = []) as ->.
    { destruct turn_pushes as [|a l] eqn:Hp; [done|].
      assert (a ∈ turn_pushes) as [Ha Hnd]%elem_of_turn_pushes by (rewrite Hp; by left).
      rewrite turn_dom in Hnd. pose proof (turn_again a Hxg Ha) as H. set_solver +H Hnd. }
    replace ({[x]} ∪ dom g) with (dom g) by set_solver +Hxg. simpl. lia.
  - assert (length turn_pushes <= length (auth_ids fetch_event x)) as Hlen by apply length_filter.
    rewrite (chain_weight_remove (_ ∖ dom g) x).
    2:{ pose proof (ci_within _ _ _ _ Hinv x ltac:(by left)) as Hw. set_solver +Hw Hxg. }
    replace (({[root]} ∪ full) ∖ ({[x]} ∪ dom g))
      with (({[root]} ∪ full) ∖ dom g ∖ {[x]}) by set_solver +.
    simpl. lia.
Qed.
End turn.

Lemma chain_step root g0 g x st :
  chain_inv root g0 g (x :: st) ->
  exists g' st', add_auth_events full x (auth_ids fetch_event x) (<[ x := default ∅ (g !! x) ]> g) st = (g', st') /\
    chain_inv root g0 g' st' /\
    length st' + chain_weight fetch_event (({[root]} ∪ full) ∖ dom g')
      < length (x :: st) + chain_weight fetch_event (({[root]} ∪ full) ∖ dom g).
Proof.
  intros Hinv. eexists _, _. split; [by eapply turn_eq|]. split; [by apply turn_inv|by eapply turn_weight].
Qed.

Lemma add_chain_loop_spec fuel root g0 g st :
  chain_inv root g0 g st ->
  length st + chain_weight fetch_event (({[root]} ∪ full) ∖ dom g) <= fuel ->
  exists g', add_chain_loop fetch_event full fuel g st = Done g' /\ chain_inv root g0 g' [].
Proof.
  revert g st; induction fuel as [|fuel IH]; intros g [|x st] Hinv Hfuel; cbn [add_chain_loop].
  1,3: by exists g.
  - simpl in Hfuel. lia.
  - destruct (chain_step root g0 g x st Hinv) as (g' & st' & -> & Hinv' & Hlt). apply IH; [done|lia].
Qed.

(** A graph whose edges are complete and stay inside it. *)
Definition graph_ok (g : EventIdMap EventIdSet) : Prop :=
  forall e E, g !! e = Some E -> E = edges_of e /\ E ⊆ dom g.

Lemma add_event_spec g root :
  graph_ok g ->
  exists g', add_event_and_auth_chain_to_graph fetch_event full g root = Done g' /\ graph_ok g' /\
    forall x, x ∈ dom g' <-> x ∈ dom g \/ in_chain root x.
Proof.
  intros Hok. destruct (add_chain_loop_spec (chain_fuel fetch_event full root) root g g [root])
    as (g' & Hg' & [Hedges _ Hclosed Hreach _ Hmono Hroot]).
  - split.
    + intros e E He. by apply Hok.
    + intros above e below Hst He a Ha. destruct above as [|? []]; [|done..]. simplify_list_eq.
      left. apply elem_of_dom in He as [E HE]. destruct (Hok _ _ HE) as [-> Hsub]. set_solver +Ha Hsub.
    + intros e a He Ha. left. apply elem_of_dom in He as [E HE].
      destruct (Hok _ _ HE) as [-> Hsub]. set_solver +Ha Hsub.
    + intros e [->%list_elem_of_singleton|He]; [right; apply rtc_refl|by left].
    + intros e ->%list_elem_of_singleton. set_solver +.
    + done.
    + left. by left.
  - unfold chain_fuel. simpl. apply le_n_S, chain_weight_mono. set_solver +.
  - exists g'. split; [done|].
    assert (forall e a, e ∈ dom g' -> a ∈ edges_of e -> a ∈ dom g') as Hcl.
    { intros e a He Ha. destruct (Hclosed e a He Ha) as [?|?%elem_of_nil]; done. }
    split.
    + intros e E HE. pose proof (Hedges _ _ HE) as ->. split; [done|]. intros a Ha.
      eapply Hcl; [|exact Ha]. by eapply elem_of_dom_2.
    + intros x. split; [intros Hx; apply Hreach; by right|].
      intros [Hx|Hx]; [set_solver +Hx Hmono|].
      assert (root ∈ dom g') as Hr by (destruct Hroot as [?%elem_of_nil|?]; done).
      clear -Hx Hr Hcl. induction Hx as [|e a x Ha _ IH]; [done|]. apply IH. by eapply Hcl.
Qed.

Lemma fill_graph_spec g ids :
  graph_ok g ->
  exists g', fill_graph fetch_event full g ids = Done g' /\ graph_ok g' /\
    forall x, x ∈ dom g' <-> x ∈ dom g \/ exists i, i ∈ ids /\ in_chain i x.
Proof.
  revert g; induction ids as [|i ids IH]; intros g Hok; cbn [fill_graph].
  { exists g. split; [done|]. split; [done|]. intros x. setoid_rewrite elem_of_nil. naive_solver. }
  destruct (add_event_spec g i Hok) as (g1 & -> & Hok1 & Hdom1). cbn [mbind comp_bind].
  destruct (IH g1 Hok1) as (g' & -> & Hok' & Hdom'). exists g'. split; [done|]. split; [done|].
  intros x. rewrite Hdom', Hdom1. setoid_rewrite elem_of_cons. naive_solver.
Qed.

(** The graph built from a list of power events. *)
Lemma fill_graph_lookup ids :
  exists g, fill_graph fetch_event full ∅ ids = Done g /\ graph_ok g /\
    forall x E, g !! x = Some E <-> E = edges_of x /\ exists i, i ∈ ids /\ in_chain i x.
Proof.
  destruct (fill_graph_spec ∅ ids) as (g & Hg & Hok & Hdom); [intros e E ?; done|].
  exists g. split; [done|]. split; [done|]. intros x E. split.
  - intros Hx. destruct (Hok _ _ Hx) as [-> _]. split; [done|].
    apply elem_of_dom_2, Hdom in Hx as [Hx|Hx]; [by rewrite dom_empty in Hx|done].
  - intros [-> Hin]. assert (x ∈ dom g) as Hx by (apply Hdom; by right).
    apply elem_of_dom in Hx as [E HE]. destruct (Hok _ _ HE) as [-> _]. done.
Qed.

(** The same power events in another order give the same graph. *)
Lemma fill_graph_ext ids1 ids2 g1 g2 :
  (forall i, i ∈ ids1 <-> i ∈ ids2) ->
  fill_graph fetch_event full ∅ ids1 = Done g1 -> fill_graph fetch_event full ∅ ids2 = Done g2 ->
  g1 = g2.
Proof.
  intros Hids H1 H2. destruct (fill_graph_lookup ids1) as (g1' & H1' & _ & Hl1).
  destruct (fill_graph_lookup ids2) as (g2' & H2' & _ & Hl2).
  rewrite H1 in H1'. injection H1' as <-. rewrite H2 in H2'. injection H2' as <-.
  apply map_eq. intros x. apply option_eq. intros E. rewrite Hl1, Hl2. by setoid_rewrite Hids.
Qed.

Lemma in_chain_full e x : in_chain e x -> e ∈ full -> x ∈ full.
Proof.
  induction 1 as [|e a x Ha _ IH]; [done|]. intros _. apply IH. by apply elem_of_edges_of in Ha as [_ ?].
Qed.
End graph_lemmas.

(** ** Properties *)

(** Starting from any list of power events the walk of their auth
    chains ends, for any events, cyclic or missing ones included; the graph has
    the events reached through the full conflicted set, each with all its auth
    events in that set. *)
Theorem power_graph_spec fetch_event full ids :
  exists graph, fill_graph fetch_event full ∅ ids = Done graph /\
    forall x edges, graph !! x = Some edges <->
      edges = edges_of fetch_event full x /\ exists i, i ∈ ids /\ in_chain fetch_event full i x.
Proof.
  destruct (fill_graph_lookup fetch_event full ids) as (g & Hg & _ & Hl). by exists g.
Qed.

(** Forks with the same state resolve to it, whatever their auth
    chains. *)
Theorem resolve_agreement {U : Unicode} {C : Crypto} {HO : HashOrder} fuel rules state_res_rules fetch_event
    fetch_conflicted_state_subgraph state_maps auth_chains m :
  state_maps <> [] -> Forall (fun m' => m' = m) state_maps ->
  resolve fuel rules state_res_rules fetch_event fetch_conflicted_state_subgraph state_maps auth_chains = Done m.
Proof.
  intros Hne Hall. unfold resolve. destruct (split_lookup state_maps) as [Hunc Hconf].
  rewrite Forall_forall in Hall.
  destruct (split_conflicted_state_set state_maps) as [unc conf]. simpl in *.
  rewrite bool_decide_true.
  - f_equal. apply map_eq. intros key. apply option_eq. intros id. rewrite Hunc, Forall_forall. split.
    + intros [_ H]. destruct state_maps as [|m' l]; [done|].
      rewrite <- (Hall m') by (by left). apply H. by left.
    + intros H. split; [done|]. intros m' Hm'. by rewrite (Hall m').
  - apply map_eq. intros key. destruct (Hconf key) as (l & -> & _ & Hl). rewrite lookup_empty.
    destruct l as [|id l]; [done|]. destruct (proj1 (Hl id)) as [(m' & Hm' & Hid) Hno]; [by left|].
    destruct Hno. apply Forall_forall. intros m2 Hm2. by rewrite (Hall m2), <- (Hall m').
Qed.

(** ** Witnesses *)

Lemma resolve_agreement_witness :
  @resolve ascii_unicode toy_crypto backward_order 0 AuthorizationRules.V10 StateResolutionV2Rules.V2_0
    ex_fetch (fun _ => None) [{[ ("m.room.create", EmptyString) := "$create:x" ]};
      {[ ("m.room.create", EmptyString) := "$create:x" ]}] [∅; {[ "$create:x" ]}]
  = Done {[ ("m.room.create", EmptyString) := "$create:x" ]}.
Proof.
  apply (@resolve_agreement ascii_unicode toy_crypto); [discriminate|].
  constructor; [reflexivity|]. constructor; [reflexivity|constructor].
Defined.
