(* ===== verification/Convergence.v ===== *)
(** What state resolution promises: it ends, it only lets events in that pass
    the authorization rules, it leaves agreed state alone, and servers that
    resolve the same forks reach the same state. *)

From S2P Require Import Prelude.
From S2P Require Import Identifiers.
From S2P Require Import Json.
From S2P Require Import RoomVersion.
From S2P Require Import Signatures.
From S2P Require Import Events.
From S2P Require Import Membership.
From S2P Require Import EventAuth.
From S2P Require Import TopoSort.
From S2P Require Import StateRes.

Open Scope string_scope.

(** ** Power levels of senders *)

Section levels.
Context {U : Unicode} {C : Crypto}.
Context (rules : AuthorizationRules.t) (fetch_event : FetchEvent).

(** The auth events among [auths] with type [ty] and an empty state key. *)
Definition cited (ty : string) (auths : list string) : list Pdu :=
  filter (fun ev => is_type_and_key ev ty EmptyString = true) (omap (fun id => ok (fetch_event id)) auths).

(** [create] is the create event the code finds for [ev]. *)
Definition finds_create (ev create : Pdu) : Prop :=
  if rules.(AuthorizationRules.room_create_event_id_as_room_id)
  then exists id, room_create_event_id ev.(room_id) = Done id /\ fetch_event id = Ok create
  else cited "m.room.create" ev.(auth_events) = [create].

(** The event has the create event of a room with creators [cs], cites at most
    one power-levels event, and this gives its sender a level. *)
Definition well_cited (cs : gset string) (id : string) : Prop :=
  exists ev create pl level, fetch_event id = Ok ev /\
    cited "m.room.power_levels" ev.(auth_events) = option_list pl /\
    finds_create ev create /\ RoomCreate.creators create = Ok cs /\
    opt_user_power_level pl ev.(sender) cs rules = Ok level.

Lemma is_type_and_key_excl ev ty1 ty2 k :
  ty1 <> ty2 -> is_type_and_key ev ty1 k = true -> is_type_and_key ev ty2 k = false.
Proof.
  unfold is_type_and_key. intros Hne [->%String.eqb_eq _]%andb_prop.
  apply andb_false_intro1. by apply String.eqb_neq.
Qed.

(** Once the create event is known or not looked for, the search returns the
    power-levels event. *)
Lemma find_auth_events_skip locked auths create pl :
  rules.(AuthorizationRules.room_create_event_id_as_room_id) || locked = true ->
  cited "m.room.power_levels" auths = option_list pl ->
  find_auth_events rules fetch_event locked auths create None = (create, pl).
Proof.
  intros Hskip. revert pl. unfold cited.
  induction auths as [|id auths IH]; intros pl Hpl; cbn [find_auth_events].
  { by destruct pl. }
  cbn [omap list_omap] in Hpl. destruct (fetch_event id) as [a|] eqn:Ha; cbn [ok] in Hpl; [|by apply IH].
  rewrite filter_cons in Hpl. destruct (is_type_and_key a "m.room.power_levels" EmptyString) eqn:Hty.
  - rewrite decide_True in Hpl by done. destruct pl as [pl|]; [|done]. simplify_eq/=.
    by rewrite Hskip.
  - rewrite decide_False in Hpl by done.
    assert (negb (AuthorizationRules.room_create_event_id_as_room_id rules) && negb locked = false) as ->
      by (destruct (AuthorizationRules.room_create_event_id_as_room_id rules), locked; done).
    cbn [andb]. rewrite bool_decide_false by (by intros []). cbn [andb]. by apply IH.
Qed.

Lemma find_auth_events_both auths create0 pl0 create pl :
  rules.(AuthorizationRules.room_create_event_id_as_room_id) = false ->
  (option_list create0 ++ cited "m.room.create" auths = [create])%list ->
  (option_list pl0 ++ cited "m.room.power_levels" auths = option_list pl)%list ->
  (create0 = None \/ pl0 = None) ->
  find_auth_events rules fetch_event false auths create0 pl0 = (Some create, pl).
Proof.
  intros Hr. revert create0 pl0. unfold cited.
  induction auths as [|id auths IH]; intros create0 pl0 Hc Hp Hnone; cbn [find_auth_events].
  { destruct create0, pl0, pl; naive_solver. }
  cbn [omap list_omap] in Hc, Hp. destruct (fetch_event id) as [a|] eqn:Ha; cbn [ok] in Hc, Hp;
    [|by apply IH].
  rewrite filter_cons in Hc. rewrite filter_cons in Hp. rewrite Hr. cbn [negb andb orb].
  destruct (is_type_and_key a "m.room.power_levels" EmptyString) eqn:Hty.
  - pose proof (is_type_and_key_excl a "m.room.power_levels" "m.room.create" EmptyString ltac:(done) Hty) as Hty'.
    rewrite Hty' in Hc. rewrite decide_True in Hp by done. rewrite decide_False in Hc by done.
    destruct pl0, pl; simplify_eq/=. destruct create0; simplify_eq/=; [done|].
    apply IH; [done|by f_equal|by left].
  - rewrite decide_False in Hp by done.
    destruct (is_type_and_key a "m.room.create" EmptyString) eqn:Hty'.
    + rewrite decide_True in Hc by done. destruct create0; simplify_eq/=.
      destruct pl0; simpl in *; [|apply IH; [by f_equal|done|by right]].
      destruct pl; simplify_eq/=. done.
    + rewrite decide_False in Hc by done.
      assert (bool_decide (is_Some pl0) && bool_decide (is_Some create0) = false) as ->
        by (destruct Hnone as [-> | ->]; [apply andb_false_r|done]).
      by apply IH.
Qed.

Lemma well_cited_level cs id :
  well_cited cs id ->
  exists level, forall lock, lock = None \/ lock = Some cs ->
    power_level_for_sender rules fetch_event id lock = Done (level, Some cs).
Proof.
  intros (ev & create & pl & level & Hev & Hpl & Hcreate & Hcs & Hlevel).
  exists level. intros lock [-> | ->]; unfold power_level_for_sender; rewrite Hev; cbn [ok].
  - unfold finds_create in Hcreate.
    destruct (AuthorizationRules.room_create_event_id_as_room_id rules) eqn:Hr; simpl.
    + destruct Hcreate as (cid & -> & Hcid). cbn [ok_else mbind comp_bind]. rewrite Hcid. cbn [ok].
      rewrite (find_auth_events_skip _ _ _ pl); [|by rewrite Hr|done].
      rewrite Hcs. cbn. by rewrite Hlevel.
    + rewrite (find_auth_events_both _ _ _ create pl); [|done..|by left].
      rewrite Hcs. cbn. by rewrite Hlevel.
  - rewrite bool_decide_true by (by exists cs). rewrite andb_false_r. cbn [mbind comp_bind].
    rewrite (find_auth_events_skip _ _ _ pl); [|by rewrite orb_true_r|done].
    cbn. by rewrite Hlevel.
Qed.
End levels.

Section sort.
Context {U : Unicode} {C : Crypto}.
Context (rules : AuthorizationRules.t) (fetch_event : FetchEvent) (cs : gset string).

(** The level of the sender of [id], whatever was cached before. *)
Definition has_level (id : string) (level : UserPowerLevel) : Prop :=
  forall lock, lock = None \/ lock = Some cs ->
    power_level_for_sender rules fetch_event id lock = Done (level, Some cs).

Lemma has_level_unique id l1 l2 : has_level id l1 -> has_level id l2 -> l1 = l2.
Proof. intros H1 H2. specialize (H1 None (or_introl eq_refl)). rewrite H2 in H1; [congruence|by left]. Qed.

Lemma sender_levels_spec ids lock levels :
  (forall id, id ∈ ids -> exists level, has_level id level) ->
  lock = None \/ lock = Some cs ->
  exists levels', sender_levels rules fetch_event ids lock levels = Done levels' /\
    forall id, (id ∈ ids -> exists level, has_level id level /\ levels' !! id = Some level) /\
               (id ∉ ids -> levels' !! id = levels !! id).
Proof.
  revert lock levels; induction ids as [|id ids IH]; intros lock levels Hall Hlock; cbn [sender_levels].
  { exists levels. split; [done|]. intros id. split; [by intros ?%elem_of_nil|done]. }
  destruct (Hall id ltac:(by left)) as [level Hlevel]. rewrite (Hlevel lock Hlock). cbn [mbind comp_bind].
  destruct (IH (Some cs) (<[id:=level]> levels)) as (levels' & -> & Hl); [|by right|].
  { intros x Hx. apply Hall. by right. }
  exists levels'. split; [done|]. intros x. destruct (Hl x) as [Hin Hout]. split.
  - intros [->|Hx]%elem_of_cons; [|by apply Hin].
    destruct (decide (id ∈ ids)) as [Hi|Hi]; [by apply Hin|].
    exists level. by rewrite (Hout Hi), lookup_insert_eq.
  - intros [Hne Hx]%not_elem_of_cons. rewrite (Hout Hx). by apply lookup_insert_ne.
Qed.

Context (full : EventIdSet) (Hfull : forall id, id ∈ full -> well_cited rules fetch_event cs id).

(** Which graph and which levels the power events are sorted with. *)
Lemma sort_power_events_spec {HO : HashOrder} ids :
  (forall i, i ∈ ids -> i ∈ full) ->
  exists graph levels l,
    fill_graph fetch_event full ∅ ids = Done graph /\
    (forall x, (x ∈ dom graph -> exists level, has_level x level /\ levels !! x = Some level) /\
               (x ∉ dom graph -> levels !! x = None)) /\
    sort_power_events rules fetch_event ids full = Done l /\
    power_order (tiebreaker (event_details fetch_event levels)) graph ∅ l /\ dom graph ⊆ full.
Proof.
  intros Hids. destruct (fill_graph_lookup fetch_event full ids) as (graph & Hg & _ & Hlook).
  assert (dom graph ⊆ full) as Hsub.
  { intros x [E HE]%elem_of_dom. apply Hlook in HE as (_ & i & Hi & Hc).
    eapply in_chain_full; [exact Hc|by apply Hids]. }
  destruct (sender_levels_spec (iter_keys graph) None ∅) as (levels & Hl & Hlevels); [|by left|].
  { intros id Hid%elem_of_iter_keys. by apply well_cited_level, Hfull, Hsub. }
  destruct (sort_power_order (event_details fetch_event levels) graph) as (l & Hsort & Hpo).
  { intros e He. unfold event_details. destruct (Hlevels e) as [Hin _].
    destruct Hin as (level & _ & ->); [by apply elem_of_iter_keys|].
    destruct (Hfull e (Hsub _ He)) as (ev & _ & _ & _ & -> & _). done. }
  exists graph, levels, l. split; [done|]. split; [|split; [|done]].
  - intros x. destruct (Hlevels x) as [Hin Hout]. rewrite elem_of_iter_keys in Hin, Hout.
    split; [done|]. intros Hx. by rewrite (Hout Hx), lookup_empty.
  - unfold sort_power_events. rewrite Hg. cbn [mbind comp_bind]. rewrite Hl. done.
Qed.

Lemma sort_power_events_ext (HO1 HO2 : HashOrder) ids1 ids2 :
  (forall i, i ∈ ids1 <-> i ∈ ids2) -> (forall i, i ∈ ids1 -> i ∈ full) ->
  @sort_power_events U HO1 rules fetch_event ids1 full = @sort_power_events U HO2 rules fetch_event ids2 full.
Proof.
  intros Hsame Hids.
  destruct (@sort_power_events_spec HO1 ids1 Hids) as (g1 & v1 & l1 & Hg1 & Hv1 & -> & Ho1 & _).
  destruct (@sort_power_events_spec HO2 ids2) as (g2 & v2 & l2 & Hg2 & Hv2 & -> & Ho2 & _).
  { intros i Hi. by apply Hids, Hsame. }
  pose proof (fill_graph_ext _ _ _ _ _ _ Hsame Hg1 Hg2) as <-.
  assert (v1 = v2) as <-.
  { apply map_eq. intros x. destruct (Hv1 x) as [Hin1 Hout1], (Hv2 x) as [Hin2 Hout2].
    destruct (decide (x ∈ dom g1)) as [Hx|Hx]; [|by rewrite Hout1, Hout2].
    destruct (Hin1 Hx) as (? & Ha & ->), (Hin2 Hx) as (? & Hb & ->).
    by rewrite (has_level_unique _ _ _ Ha Hb). }
  f_equal. exact (power_order_unique _ _ _ _ _ Ho1 Ho2).
Qed.
End sort.

(** ** Iterative auth checks *)

Section iterative.
Context {U : Unicode} {C : Crypto}.
Context (rules : AuthorizationRules.t) (fetch_event : FetchEvent).

(** An entry the checks of [ev] may read: an accepted event that [ev] cites, an
    accepted event that [known] allows, or the create event of the room. *)
Definition justified (known : string -> Prop) (ev : Pdu) (key : StateKey) (a : Pdu) : Prop :=
  (exists id, fetch_event id = Ok a /\ a.(rejected) = false /\ (id ∈ ev.(auth_events) \/ known id)) \/
  (key = ("m.room.create", EmptyString) /\
   exists id, room_create_event_id ev.(room_id) = Done id /\ fetch_event id = Ok a).

(** [id] passed the state-dependent checks for [key], on justified events. *)
Definition admitted (known : string -> Prop) (key : StateKey) (id : string) : Prop :=
  exists ev auth_events, fetch_event id = Ok ev /\
    ev.(event_type) = key.1 /\ ev.(state_key) = Some key.2 /\
    check_state_dependent_auth_rules rules ev (fetch_from auth_events) = Done tt /\
    map_Forall (justified known ev) auth_events.

Lemma justified_mono (known known' : string -> Prop) ev key a :
  (forall id, known id -> known' id) -> justified known ev key a -> justified known' ev key a.
Proof. intros Hk [(id & ? & ? & H)|?]; [|by right]. left. exists id. naive_solver. Qed.

Lemma admitted_mono (known known' : string -> Prop) key id :
  (forall id, known id -> known' id) -> admitted known key id -> admitted known' key id.
Proof.
  intros Hk (ev & ae & ? & ? & ? & ? & Hj). exists ev, ae. split_and!; [done..|].
  eapply map_Forall_impl; [exact Hj|]. intros k a. by apply justified_mono.
Qed.

Lemma collect_auth_events_justified known ev auths acc acc' :
  auths ⊆ ev.(auth_events) -> map_Forall (justified known ev) acc ->
  collect_auth_events fetch_event auths acc = Ok acc' -> map_Forall (justified known ev) acc'.
Proof.
  revert acc; induction auths as [|id auths IH]; intros acc Hsub Hacc; cbn [collect_auth_events].
  { by intros [= <-]. }
  assert (auths ⊆ ev.(auth_events)) as Hsub' by (intros x Hx; apply Hsub; by right).
  destruct (fetch_event id) as [a|] eqn:Ha; [|by apply IH].
  destruct (rejected a) eqn:Hr; [by apply IH|].
  intros (k & _ & H)%bind_Ok. eapply IH; [done| |exact H].
  apply map_Forall_insert_2; [|done]. left. exists id. split_and!; [done..|]. left. apply Hsub. by left.
Qed.

Lemma overlay_state_justified (known : string -> Prop) ev state keys acc :
  (forall k id, state !! k = Some id -> known id) -> map_Forall (justified known ev) acc ->
  map_Forall (justified known ev) (overlay_state fetch_event state keys acc).
Proof.
  intros Hk. revert acc; induction keys as [|k keys IH]; intros acc Hacc; cbn [overlay_state]; [done|].
  apply IH. destruct (state !! k) as [id|] eqn:Hid; [|done].
  destruct (fetch_event id) as [a|] eqn:Ha; [|done]. destruct (rejected a) eqn:Hr; [done|].
  apply map_Forall_insert_2; [|done]. left. exists id. split_and!; [done..|]. right. by eapply Hk.
Qed.

Lemma add_create_event_justified known ev acc acc' :
  map_Forall (justified known ev) acc -> add_create_event rules fetch_event ev acc = Done acc' ->
  map_Forall (justified known ev) acc'.
Proof.
  unfold add_create_event. intros Hacc. destruct (_ && _); [|by intros [= <-]].
  destruct (room_create_event_id (room_id ev)) as [id| | |] eqn:Hid; cbn [ok_else]; try done;
    [|by intros [= <-]].
  intros (a & Ha%of_result_Done & [= <-])%bind_Done.
  apply map_Forall_insert_2; [|done]. right. split; [done|]. by exists id.
Qed.

Lemma iterative_auth_step_spec known state id state' :
  (forall k id, state !! k = Some id -> known id) ->
  iterative_auth_step rules fetch_event state id = Done state' ->
  state' = state \/ exists key, state' = <[ key := id ]> state /\ admitted known key id.
Proof.
  intros Hk. unfold iterative_auth_step.
  intros (ev & Hev%of_result_Done & H)%bind_Done.
  apply bind_Done in H as (sk & Hsk%of_result_Done%ok_or_Ok & H).
  apply bind_Done in H as (ae & Hae%of_result_Done & H).
  apply bind_Done in H as (ae' & Hae' & H).
  destruct (auth_types_for_event _ _ _ _ _) as [types|]; [|left; congruence].
  destruct (check_state_dependent_auth_rules _ _ _) as [[]| | |] eqn:Hchk; cbn [ok_else] in H;
    [|left; congruence|done..].
  right. exists (with_state_key (event_type ev) sk). split; [congruence|].
  exists ev. eexists. split_and!; [done..|exact Hchk|].
  apply overlay_state_justified; [done|]. eapply add_create_event_justified; [|exact Hae'].
  eapply collect_auth_events_justified; [done| |exact Hae]. apply map_Forall_empty.
Qed.

(** The events of the list, and those of the state it starts from. *)
Definition known_to (events : list string) (state : StateMap string) (id : string) : Prop :=
  id ∈ events \/ exists k, state !! k = Some id.

Lemma iterative_auth_check_spec events state state' :
  iterative_auth_check rules fetch_event events state = Done state' ->
  dom state ⊆ dom state' /\
  forall k id, state' !! k = Some id ->
    state !! k = Some id \/ (id ∈ events /\ admitted (known_to events state) k id).
Proof.
  revert state; induction events as [|e events IH]; intros state; cbn [iterative_auth_check].
  { intros [= <-]. by split; [|left]. }
  intros (state1 & H1 & H)%bind_Done. destruct (IH _ H) as [Hdom Hin].
  destruct (iterative_auth_step_spec (fun id => exists k, state !! k = Some id) state e state1)
    as [->|(key & -> & Hadm)]; [by eauto|done| |].
  - split; [done|]. intros k id [?|[He Hadm]]%Hin; [by left|right]. split; [by right|].
    eapply admitted_mono; [|exact Hadm]. intros x [?|?]; [left; by right|by right].
  - split; [set_solver +Hdom|]. intros k id [Hk|[He Hadm']]%Hin.
    + apply lookup_insert_Some in Hk as [[<- <-]|[_ Hk]]; [right|by left]. split; [by left|].
      eapply admitted_mono; [|exact Hadm]. intros x ?. by right.
    + right. split; [by right|]. eapply admitted_mono; [|exact Hadm'].
      intros x [?|[k' [[_ <-]|[_ ?]]%lookup_insert_Some]]; [left; by right|left; by left|right; by eauto].
Qed.
End iterative.

(** ** Mainline ordering *)

Lemma StronglySorted_impl_elem {A} (R R' : A -> A -> Prop) l :
  (forall x y, x ∈ l -> y ∈ l -> R x y -> R' x y) -> StronglySorted R l -> StronglySorted R' l.
Proof.
  intros Himpl Hs. induction Hs as [|x l Hs IH Hall]; constructor.
  - apply IH. intros y z Hy Hz. apply Himpl; by right.
  - rewrite Forall_forall in Hall |- *. intros y Hy. apply Himpl; [by left|by right|by apply Hall].
Qed.

(** Two equations for the same call. *)
Ltac unify_ok :=
  repeat match goal with
  | H1 : ?x = ?y, H2 : ?x = ?z |- _ =>
      lazymatch type of y with
      | result _ _ => first [constr_eq y z; clear H2 | rewrite H1 in H2; simplify_eq/=]
      | option _ => first [constr_eq y z; clear H2 | rewrite H1 in H2; simplify_eq/=]
      end
  end.

Section mainline.
Context (fetch_event : FetchEvent).

(** The power-levels event, the one it cites, and so on. *)
Inductive mainline_of : option string -> list string -> Prop :=
| mo_nil : mainline_of None []
| mo_cons id ev next l :
    fetch_event id = Ok ev -> find_power_levels fetch_event ev.(auth_events) = Ok next ->
    mainline_of (fst <$> next) l -> mainline_of (Some id) (id :: l).

(** Distance from the old end of the mainline, from 1. *)
Fixpoint mainline_depth (mainline : list string) (id : string) : option positive :=
  match mainline with
  | [] => None
  | x :: l => if x =? id then Some (Pos.of_succ_nat (length l)) else mainline_depth l id
  end.

(** The depth of the first event of the mainline met by following the
    power-levels events from [ev], if there is one. *)
Inductive nearest (mainline : list string) : Pdu -> option positive -> Prop :=
| near_here ev p : mainline_depth mainline ev.(event_id) = Some p -> nearest mainline ev (Some p)
| near_none ev :
    mainline_depth mainline ev.(event_id) = None ->
    find_power_levels fetch_event ev.(auth_events) = Ok None -> nearest mainline ev None
| near_step ev id a p :
    mainline_depth mainline ev.(event_id) = None ->
    find_power_levels fetch_event ev.(auth_events) = Ok (Some (id, a)) ->
    nearest mainline a p -> nearest mainline ev p.

(** Auth events are older than the events that cite them; no auth chain is
    longer than [fuel]. *)
Definition acyclic (rank : string -> nat) (fuel : nat) : Prop :=
  (forall id, rank id < fuel) /\
  forall id ev a, fetch_event id = Ok ev -> a ∈ ev.(auth_events) -> rank a < rank id.

Lemma find_power_levels_spec auths id a :
  find_power_levels fetch_event auths = Ok (Some (id, a)) ->
  id ∈ auths /\ fetch_event id = Ok a /\ is_type_and_key a "m.room.power_levels" EmptyString = true.
Proof.
  induction auths as [|x auths IH]; cbn [find_power_levels]; [done|].
  intros (b & Hb & H)%bind_Ok. destruct (is_type_and_key b _ _) eqn:Hty.
  - injection H as <- <-. split; [by left|done].
  - destruct (IH H) as (? & ? & ?). split; [by right|done].
Qed.

Lemma mainline_map_lookup mainline id : mainline_map mainline !! id = mainline_depth mainline id.
Proof.
  unfold mainline_map. induction mainline as [|x l IH]; [done|].
  rewrite reverse_cons, imap_app, foldl_app. simpl. rewrite length_reverse, Nat.add_0_r.
  destruct (String.eqb_spec x id) as [->|Hne]; [apply lookup_insert_eq|].
  by rewrite lookup_insert_ne, IH.
Qed.

Lemma mainline_loop_spec rank fuel0 fuel power_level mainline :
  acyclic rank fuel0 -> (forall id, power_level = Some id -> rank id < fuel) ->
  match mainline_loop fetch_event fuel power_level mainline with
  | Done l => exists l', l = (mainline ++ l')%list /\ mainline_of power_level l'
  | Fail _ => forall l', ~ mainline_of power_level l'
  | Panic | OutOfFuel => False
  end.
Proof.
  intros [_ Hac]. revert power_level mainline; induction fuel as [|fuel IH]; intros [id|] mainline Hr; simpl.
  - specialize (Hr id eq_refl). lia.
  - exists []. by rewrite app_nil_r; split; [|constructor].
  - destruct (fetch_event id) as [ev|] eqn:Hev; cbn [of_result mbind comp_bind];
      [|intros l' Hm; inversion Hm; congruence].
    destruct (find_power_levels fetch_event (auth_events ev)) as [next|] eqn:Hnext;
      cbn [of_result mbind comp_bind]; [|intros l' Hm; inversion Hm; congruence].
    specialize (IH (fst <$> next) (mainline ++ [id])%list).
    assert (forall id0, fst <$> next = Some id0 -> rank id0 < fuel) as Hlt.
    { intros x Hx. destruct next as [[y a]|]; simplify_eq/=.
      apply find_power_levels_spec in Hnext as (Hin & _). specialize (Hac _ _ _ Hev Hin).
      specialize (Hr id eq_refl). lia. }
    specialize (IH Hlt). destruct (mainline_loop _ _ _ _); [|intros l' Hm; inversion Hm; subst; unify_ok; by eapply IH|done..].
    destruct IH as (l' & -> & Hm). exists (id :: l'). rewrite <- app_assoc. split; [done|]. by econstructor.
  - exists []. by rewrite app_nil_r; split; [|constructor].
Qed.

Lemma mainline_position_spec rank fuel0 fuel mainline id ev :
  acyclic rank fuel0 -> fetch_event id = Ok ev -> rank id < fuel ->
  match mainline_position fetch_event fuel ev (mainline_map mainline) with
  | Done p => nearest mainline ev p
  | Fail _ => forall p, ~ nearest mainline ev p
  | Panic | OutOfFuel => False
  end.
Proof.
  intros [_ Hac]. revert id ev; induction fuel as [|fuel IH]; intros id ev Hev Hr; [lia|].
  cbn [mainline_position]. rewrite mainline_map_lookup.
  destruct (mainline_depth mainline (event_id ev)) as [p|] eqn:Hd; [by constructor|].
  destruct (find_power_levels fetch_event (auth_events ev)) as [[[x a]|]|] eqn:Hnext;
    cbn [of_result mbind comp_bind]; [|by constructor|].
  - pose proof (find_power_levels_spec _ _ _ Hnext) as (Hin & Ha & _).
    specialize (Hac _ _ _ Hev Hin). specialize (IH x a Ha ltac:(lia)).
    destruct (mainline_position _ _ _ _); [by eapply near_step| |done..].
    intros p Hp. inversion Hp; subst; unify_ok. by eapply IH.
  - intros p Hp. inversion Hp; subst; by unify_ok.
Qed.

Lemma nearest_fun mainline ev p q : nearest mainline ev p -> nearest mainline ev q -> p = q.
Proof. intros Hp. revert q; induction Hp; intros q Hq; inversion Hq; subst; unify_ok; eauto. Qed.

(** The sort key of an event that has a mainline position. *)
Definition ordered_by (mainline : list string) (id : string) (k : order_key) : Prop :=
  exists ev p, fetch_event id = Ok ev /\ nearest mainline ev p /\ k = (p, (Some ev.(origin_server_ts), id)).

Lemma ordered_by_fun mainline id k k' : ordered_by mainline id k -> ordered_by mainline id k' -> k = k'.
Proof.
  intros (ev & p & Hev & Hp & ->) (ev' & p' & Hev' & Hp' & ->). rewrite Hev in Hev'. simplify_eq.
  by rewrite (nearest_fun _ _ _ _ Hp Hp').
Qed.

Lemma order_events_spec rank fuel mainline events om :
  acyclic rank fuel ->
  (forall id k, om !! id = Some k -> ordered_by mainline id k) ->
  exists om', order_events fetch_event fuel (mainline_map mainline) events om = Done om' /\
    forall id k, om' !! id = Some k <-> om !! id = Some k \/ (id ∈ events /\ ordered_by mainline id k).
Proof.
  intros Hac. revert om; induction events as [|e events IH]; intros om Hom; cbn [order_events].
  { exists om. split; [done|]. intros id k. rewrite elem_of_nil. naive_solver. }
  assert ((forall k, ~ ordered_by mainline e k) ->
    exists om', order_events fetch_event fuel (mainline_map mainline) events om = Done om' /\
    forall id k, om' !! id = Some k <-> om !! id = Some k \/ (id ∈ e :: events /\ ordered_by mainline id k)) as Hskip.
  { intros Hno. destruct (IH om Hom) as (om' & -> & Hl). exists om'. split; [done|].
    intros id k. rewrite Hl, elem_of_cons. naive_solver. }
  destruct (fetch_event e) as [ev|] eqn:Hev.
  2: { apply Hskip. intros k (? & ? & ? & _). congruence. }
  pose proof (mainline_position_spec rank fuel fuel mainline e ev Hac Hev (proj1 Hac e)) as Hpos.
  destruct (mainline_position _ _ _ _) as [p| | |]; cbn [ok_else]; [| |done..].
  2: { apply Hskip. intros k (ev' & p & Hev' & Hp & _). rewrite Hev in Hev'. simplify_eq. by eapply Hpos. }
  assert (ordered_by mainline e (p, (Some (origin_server_ts ev), e))) as He by (by exists ev, p).
  destruct (IH (<[e := (p, (Some (origin_server_ts ev), e))]> om)) as (om' & -> & Hl).
  { intros id k [[<- <-]|[_ ?]]%lookup_insert_Some; [done|by apply Hom]. }
  exists om'. split; [done|]. intros id k. rewrite Hl, lookup_insert_Some, elem_of_cons. split.
  - naive_solver.
  - intros [H|[[->|H] Hk]]; [|by rewrite (ordered_by_fun _ _ _ _ Hk He); left; left|by right].
    destruct (decide (e = id)) as [->|]; [|by left; right].
    left; left. split; [done|]. by apply (ordered_by_fun mainline id); [|apply Hom].
Qed.

(** [l] lists the events of [events] that have a position, in their order. *)
Definition mainline_sorted (mainline : list string) (events l : list string) : Prop :=
  NoDup l /\ (forall id, id ∈ l <-> id ∈ events /\ exists k, ordered_by mainline id k) /\
  StronglySorted (fun x y => forall kx ky, ordered_by mainline x kx -> ordered_by mainline y ky ->
                              cmp_le order_cmp kx ky) l.

#[global] Instance order_total_cmp : TotalCmp order_cmp.
Proof.
  unfold order_cmp. pose proof (option_total_cmp Pos.compare). pose proof (option_total_cmp Z.compare).
  pose proof (pair_total_cmp (option_cmp Z.compare) String.compare). by apply pair_total_cmp.
Qed.

Lemma mainline_sort_sorted {HO : HashOrder} rank fuel events power_level :
  acyclic rank fuel ->
  match mainline_sort fetch_event fuel events power_level with
  | Done l => events = [] /\ l = [] \/
              exists mainline, mainline_of power_level mainline /\ mainline_sorted mainline events l
  | Fail _ => forall mainline, ~ mainline_of power_level mainline
  | Panic | OutOfFuel => False
  end.
Proof.
  intros Hac. unfold mainline_sort. destruct events as [|e events]; [by left|].
  pose proof (mainline_loop_spec rank fuel fuel power_level [] Hac (fun id _ => proj1 Hac id)) as Hloop.
  destruct (mainline_loop _ _ _ _) as [ml| | |]; cbn [mbind comp_bind]; [|done..].
  destruct Hloop as (mainline & -> & Hml). rewrite app_nil_l.
  destruct (order_events_spec rank fuel mainline (e :: events) ∅ Hac) as (om & -> & Hom);
    [by intros ? ?; rewrite lookup_empty|].
  right. exists mainline. split; [done|].
  assert (forall id, id ∈ iter_keys om <-> exists k, om !! id = Some k) as Hkeys
    by (intros id; by rewrite elem_of_iter_keys, elem_of_dom).
  split; [|split].
  - rewrite sort_by_key_Permutation. apply NoDup_iter_keys.
  - intros id. rewrite sort_by_key_Permutation, Hkeys. setoid_rewrite Hom. rewrite lookup_empty. naive_solver.
  - eapply StronglySorted_impl_elem; [|apply (sort_by_key_sorted order_cmp)].
    intros x y Hx Hy Hle kx ky Hkx Hky.
    rewrite sort_by_key_Permutation, Hkeys in Hx, Hy. destruct Hx as [kx' Hx], Hy as [ky' Hy].
    unfold order_key in *. rewrite Hx, Hy in Hle. cbn in Hle.
    apply Hom in Hx as [Hx|[_ Hx]]; [by rewrite lookup_empty in Hx|].
    apply Hom in Hy as [Hy|[_ Hy]]; [by rewrite lookup_empty in Hy|].
    by rewrite (ordered_by_fun _ _ _ _ Hkx Hx), (ordered_by_fun _ _ _ _ Hky Hy).
Qed.

Lemma mainline_sort_ext (HO1 HO2 : HashOrder) rank fuel events1 events2 power_level :
  acyclic rank fuel -> (forall id, id ∈ events1 <-> id ∈ events2) ->
  @mainline_sort HO1 fetch_event fuel events1 power_level =
  @mainline_sort HO2 fetch_event fuel events2 power_level.
Proof.
  intros Hac Hsame. unfold mainline_sort.
  destruct events1 as [|e1 l1], events2 as [|e2 l2]; [done|..].
  1: by destruct (proj1 (elem_of_nil e2)); apply Hsame; left.
  1: by destruct (proj1 (elem_of_nil e1)); apply Hsame; left.
  pose proof (mainline_loop_spec rank fuel fuel power_level [] Hac (fun id _ => proj1 Hac id)) as Hloop.
  destruct (mainline_loop _ _ _ _) as [ml| | |]; cbn [mbind comp_bind]; [|done..].
  destruct Hloop as (mainline & -> & _). rewrite app_nil_l.
  assert (forall id k, (∅ : EventIdMap order_key) !! id = Some k -> ordered_by mainline id k) as H0
    by (intros ? ?; by rewrite lookup_empty).
  destruct (order_events_spec rank fuel mainline (e1 :: l1) ∅ Hac H0) as (om & -> & Hom).
  destruct (order_events_spec rank fuel mainline (e2 :: l2) ∅ Hac H0) as (om2 & -> & Hom2).
  cbn [mbind comp_bind]. assert (om2 = om) as ->.
  { apply map_eq. intros id. apply option_eq. intros k. by rewrite Hom, Hom2, Hsame. }
  f_equal. apply sort_by_key_unique; [apply _| |by rewrite !iter_keys_Permutation].
  intros x y Hx Hy. rewrite elem_of_iter_keys, elem_of_dom in Hx, Hy. destruct Hx as [kx Hx], Hy as [ky Hy].
  unfold order_key in *. rewrite Hx, Hy. cbn. intros <-.
  apply Hom in Hx as [Hx|[_ (? & ? & _ & _ & ->)]]; [by rewrite lookup_empty in Hx|].
  by apply Hom in Hy as [Hy|[_ (? & ? & _ & _ & ?)]]; [rewrite lookup_empty in Hy|simplify_eq].
Qed.
End mainline.

(** ** Resolution *)

Section resolve.
Context {U : Unicode} {C : Crypto}.
Context (fuel : nat) (rules : AuthorizationRules.t) (state_res_rules : StateResolutionV2Rules.t).
Context (fetch_event : FetchEvent).
Context (fetch_conflicted_state_subgraph : StateMap (list string) -> option EventIdSet).

(** All the forks agree on [id] for [key]. *)
Definition agreed (state_maps : list (StateMap string)) (key : StateKey) (id : string) : Prop :=
  state_maps <> [] /\ Forall (fun m => m !! key = Some id) state_maps.

(** Some fork has [id] for [key] and some fork has not. *)
Definition disputed (state_maps : list (StateMap string)) (key : StateKey) (id : string) : Prop :=
  (exists m, m ∈ state_maps /\ m !! key = Some id) /\ ~ Forall (fun m => m !! key = Some id) state_maps.

(** The full conflicted set: events that can be fetched and are in some auth
    chains but not in all, or disputed, or in the conflicted state subgraph. *)
Definition conflicted (state_maps : list (StateMap string)) (auth_chains : list EventIdSet)
    (subgraph : EventIdSet) (id : string) : Prop :=
  is_ok (fetch_event id) = true /\
  ((exists c, c ∈ auth_chains /\ id ∈ c) /\ (exists c, c ∈ auth_chains /\ id ∉ c) \/
   (exists key, disputed state_maps key id) \/ id ∈ subgraph).

Lemma full_conflicted_set_elem {HO : HashOrder} state_maps auth_chains subgraph id :
  id ∈ full_conflicted_set_of fetch_event auth_chains (split_conflicted_state_set state_maps).2 subgraph <->
  conflicted state_maps auth_chains subgraph id.
Proof.
  unfold full_conflicted_set_of, conflicted.
  rewrite elem_of_list_to_set, list_elem_of_filter, !elem_of_app, auth_difference_elem, elem_of_iter_set.
  enough (id ∈ concat (map snd (iter_map (split_conflicted_state_set state_maps).2)) <->
    exists key, disputed state_maps key id) as -> by done.
  rewrite list_elem_of_In, in_concat. setoid_rewrite <- list_elem_of_In.
  destruct (split_lookup state_maps) as [_ Hc]. split.
  - intros (l & Hl & Hid). apply list_elem_of_fmap in Hl as ([k l'] & -> & Hk%elem_of_iter_map).
    destruct (Hc k) as (l & Hl & _ & Hin). rewrite Hk in Hl. exists k. apply Hin.
    destruct l; simplify_eq/=; done.
  - intros [k Hk]. destruct (Hc k) as (l & Hl & _ & Hin). apply Hin in Hk. exists l.
    split; [|done]. apply list_elem_of_fmap. exists (k, l). split; [done|].
    apply elem_of_iter_map. destruct l; [by apply elem_of_nil in Hk|done].
Qed.

(** *** Termination *)

Lemma key_id_ends id : ends (_ ← key_id_validate any_key_name_validate id; key_id_algorithm id).
Proof. unfold key_id_validate, key_id_algorithm. solve_ends. Qed.

Lemma room_create_event_id_ends r : ends (room_create_event_id r).
Proof. unfold room_create_event_id, room_id_strip_sigil. solve_ends. Qed.

Lemma sender_server_name_ends u : ends (sender_server_name u).
Proof. unfold sender_server_name, user_id_server_name. apply ends_map_err. solve_ends. Qed.

#[local] Hint Resolve key_id_ends room_create_event_id_ends sender_server_name_ends : ends.

Lemma verify_entity_signatures_ends l keys text : ends (verify_entity_signatures l keys text).
Proof. induction l as [|[]]; cbn [verify_entity_signatures]; solve_ends. Qed.

Lemma verify_third_party_signatures_ends l keys text : ends (verify_third_party_signatures l keys text).
Proof.
  induction l as [|[]]; cbn [verify_third_party_signatures]; [done|].
  pose proof verify_entity_signatures_ends. solve_ends.
Qed.

Lemma check_room_member_ends ev create fetch_state : ends (check_room_member ev rules create fetch_state).
Proof.
  pose proof verify_third_party_signatures_ends.
  unfold check_room_member, check_room_member_invite, check_third_party_invite. solve_ends.
Qed.

Lemma check_state_dependent_ends ev fetch_state :
  ends (check_state_dependent_auth_rules rules ev fetch_state).
Proof.
  pose proof check_room_member_ends. unfold check_state_dependent_auth_rules. solve_ends.
Qed.

Lemma iterative_auth_check_ends events state : ends (iterative_auth_check rules fetch_event events state).
Proof.
  pose proof check_state_dependent_ends.
  revert state; induction events as [|e events IH]; intros state; cbn [iterative_auth_check]; [done|].
  unfold iterative_auth_step, add_create_event. solve_ends.
Qed.

Lemma sender_levels_ends ids lock levels : ends (sender_levels rules fetch_event ids lock levels).
Proof.
  revert lock levels; induction ids as [|id ids IH]; intros lock levels; cbn [sender_levels]; [done|].
  unfold power_level_for_sender. solve_ends.
Qed.

Lemma sort_power_events_ends {HO : HashOrder} ids full :
  ends (sort_power_events rules fetch_event ids full).
Proof.
  unfold sort_power_events. destruct (fill_graph_lookup fetch_event full ids) as (g & -> & _).
  cbn [mbind comp_bind]. apply ends_bind; [apply sender_levels_ends|]. intros levels _.
  pose proof (sort_total (event_details fetch_event levels) g) as H. by destruct (reverse_topological_power_sort _ _).
Qed.

Lemma mainline_sort_ends {HO : HashOrder} rank events power_level :
  acyclic fetch_event rank fuel -> ends (mainline_sort fetch_event fuel events power_level).
Proof.
  intros Hac. pose proof (mainline_sort_sorted fetch_event rank fuel events power_level Hac) as H.
  by destruct (mainline_sort _ _ _ _).
Qed.

Lemma resolve_ends {HO : HashOrder} rank state_maps auth_chains :
  acyclic fetch_event rank fuel ->
  ends (resolve fuel rules state_res_rules fetch_event fetch_conflicted_state_subgraph state_maps auth_chains).
Proof.
  intros Hac. unfold resolve. destruct (split_conflicted_state_set state_maps) as [unc conf].
  destruct (bool_decide _); [done|].
  apply ends_bind; [apply ends_of_result|]. intros subgraph _.
  apply ends_bind; [apply sort_power_events_ends|]. intros sorted _.
  apply ends_bind; [apply iterative_auth_check_ends|]. intros partial _.
  apply ends_bind; [|intros rest _; apply ends_bind; [apply iterative_auth_check_ends|done]].
  by eapply mainline_sort_ends.
Qed.

(** *** Soundness *)

(** The conflicted state subgraph the caller supplies. *)
Definition subgraph_for {HO : HashOrder} (state_maps : list (StateMap string)) (subgraph : EventIdSet) : Prop :=
  if state_res_rules.(StateResolutionV2Rules.consider_conflicted_state_subgraph)
  then fetch_conflicted_state_subgraph (split_conflicted_state_set state_maps).2 = Some subgraph
  else subgraph = ∅.

(** An event of the forks: conflicted, or agreed on. *)
Definition of_forks (state_maps : list (StateMap string)) (auth_chains : list EventIdSet)
    (subgraph : EventIdSet) (id : string) : Prop :=
  conflicted state_maps auth_chains subgraph id \/ exists key, agreed state_maps key id.

Lemma sort_power_events_elem {HO : HashOrder} ids full l :
  (forall i, i ∈ ids -> i ∈ full) -> sort_power_events rules fetch_event ids full = Done l ->
  forall x, x ∈ l -> x ∈ full.
Proof.
  intros Hids. unfold sort_power_events.
  destruct (fill_graph_lookup fetch_event full ids) as (g & -> & _ & Hlook). cbn [mbind comp_bind].
  intros (levels & _ & H)%bind_Done x Hx.
  pose proof (sort_total (event_details fetch_event levels) g) as Ht. rewrite H in Ht.
  destruct Ht as [_ Ht]. apply Ht, elem_of_dom in Hx as [E HE]. apply Hlook in HE as (_ & i & Hi & Hc).
  eapply in_chain_full; [exact Hc|by apply Hids].
Qed.

Lemma order_events_elem positions events om om' id :
  order_events fetch_event fuel positions events om = Done om' ->
  id ∈ dom om' -> id ∈ dom om \/ id ∈ events.
Proof.
  revert om; induction events as [|e events IH]; intros om; cbn [order_events].
  { intros [= <-]. by left. }
  assert (order_events fetch_event fuel positions events om = Done om' -> id ∈ dom om' ->
    id ∈ dom om \/ id ∈ e :: events) as Hskip.
  { intros H Hid. destruct (IH _ H Hid); [by left|right; by right]. }
  destruct (fetch_event e) as [ev|]; [|done].
  destruct (mainline_position _ _ _ _); cbn [ok_else]; [|done..].
  intros H Hid. destruct (IH _ H Hid) as [Hd|Hd]; [|right; by right].
  apply dom_insert, elem_of_union in Hd as [->%elem_of_singleton|Hd]; [right; by left|by left].
Qed.

Lemma mainline_sort_elem {HO : HashOrder} events power_level l :
  mainline_sort fetch_event fuel events power_level = Done l -> forall x, x ∈ l -> x ∈ events.
Proof.
  unfold mainline_sort. destruct events as [|e events]; [by intros [= <-]|].
  intros (ml & _ & H)%bind_Done x Hx. apply bind_Done in H as (om & Hom & [= <-]).
  rewrite sort_by_key_Permutation, elem_of_iter_keys in Hx.
  destruct (order_events_elem _ _ _ _ _ Hom Hx) as [Hd|]; [by rewrite dom_empty in Hd|done].
Qed.

Lemma resolve_spec {HO : HashOrder} state_maps auth_chains r :
  resolve fuel rules state_res_rules fetch_event fetch_conflicted_state_subgraph state_maps auth_chains = Done r ->
  (forall key id, agreed state_maps key id -> r !! key = Some id) /\
  (forall key id, r !! key = Some id -> agreed state_maps key id \/
    exists subgraph, subgraph_for state_maps subgraph /\ conflicted state_maps auth_chains subgraph id /\
      admitted rules fetch_event (of_forks state_maps auth_chains subgraph) key id).
Proof.
  unfold resolve. pose proof (full_conflicted_set_elem state_maps auth_chains) as Hfull.
  unfold subgraph_for. destruct (split_lookup state_maps) as [Hunc _].
  destruct (split_conflicted_state_set state_maps) as [unc conf]. cbn [fst snd] in *.
  fold (agreed state_maps) in Hunc.
  destruct (bool_decide _).
  { intros [= <-]. split; intros key id; [apply Hunc|left; by apply Hunc]. }
  intros (subgraph & Hsub%of_result_Done & H)%bind_Done. specialize (Hfull subgraph).
  set (full := full_conflicted_set_of _ _ _ _) in *. cbv zeta in H.
  apply bind_Done in H as (powers & Hpowers & H). apply bind_Done in H as (partial & Hpartial & H).
  apply bind_Done in H as (rest & Hrest & H). apply bind_Done in H as (resolved & Hres & [= <-]).
  split; intros key id Hid.
  { apply lookup_union_Some_l. by apply Hunc. }
  apply lookup_union_Some_raw in Hid as [Hid|[_ Hid]]; [left; by apply Hunc|].
  pose proof (iterative_auth_check_spec _ _ _ _ _ Hpartial) as [_ H1].
  pose proof (iterative_auth_check_spec _ _ _ _ _ Hres) as [_ H2].
  assert (forall x, x ∈ powers -> conflicted state_maps auth_chains subgraph x) as Hp.
  { intros x Hx. apply Hfull. eapply sort_power_events_elem; [|exact Hpowers|exact Hx].
    intros i [_ Hi]%list_elem_of_filter. by apply elem_of_iter_set in Hi. }
  assert (forall x, x ∈ rest -> conflicted state_maps auth_chains subgraph x) as Hr.
  { intros x Hx. apply Hfull. eapply mainline_sort_elem in Hx; [|exact Hrest].
    apply list_elem_of_filter in Hx as [_ Hx]. by apply elem_of_iter_set in Hx. }
  assert (forall k x, (if StateResolutionV2Rules.begin_iterative_auth_check_with_empty_state_map state_res_rules
    then ∅ else unc) !! k = Some x -> agreed state_maps k x) as Hinit.
  { intros k x. destruct (StateResolutionV2Rules.begin_iterative_auth_check_with_empty_state_map _);
      [by rewrite lookup_empty|apply Hunc]. }
  set (initial := if StateResolutionV2Rules.begin_iterative_auth_check_with_empty_state_map _ then _ else _) in *.
  assert (forall x, known_to powers initial x -> of_forks state_maps auth_chains subgraph x) as Hk1.
  { intros x [Hx|[k Hx]]; [left; auto|right; eauto]. }
  assert (forall k x, partial !! k = Some x -> agreed state_maps k x \/
    conflicted state_maps auth_chains subgraph x /\
    admitted rules fetch_event (of_forks state_maps auth_chains subgraph) k x) as Hpart.
  { intros k x [Hx|[Hx Ha]]%H1; [left; auto|right]. split; [auto|]. by eapply admitted_mono. }
  assert (exists s, (if StateResolutionV2Rules.consider_conflicted_state_subgraph state_res_rules
     then fetch_conflicted_state_subgraph conf = Some s else s = ∅) /\ s = subgraph) as (s & Hs & ->).
  { exists subgraph. split; [|done]. destruct (StateResolutionV2Rules.consider_conflicted_state_subgraph _).
    - by apply ok_or_Ok in Hsub.
    - congruence. }
  apply H2 in Hid as [[?|[Hc Ha]]%Hpart|[Hx Ha]]; [by left|right; by exists subgraph|right].
  exists subgraph. split; [done|]. split; [by apply Hr|]. eapply admitted_mono; [|exact Ha].
  intros x [Hx'|[k [?|[? _]]%Hpart]]; [left; auto|right; eauto|by left].
Qed.

(** *** Determinism *)

(** Equality of conflicted state sets up to the order of the events. *)
Definition same_sets (m1 m2 : StateMap (list string)) : Prop :=
  forall key, option_Forall2 (≡ₚ) (m1 !! key) (m2 !! key).

Lemma same_sets_empty m1 m2 : same_sets m1 m2 -> m1 = ∅ -> m2 = ∅.
Proof.
  intros Hs ->. apply map_eq. intros key. specialize (Hs key). rewrite lookup_empty in *. by inversion Hs.
Qed.

Lemma split_ext (HO1 HO2 : HashOrder) maps1 maps2 :
  maps1 ≡ₚ maps2 ->
  (@split_conflicted_state_set HO1 maps1).1 = (@split_conflicted_state_set HO2 maps2).1 /\
  same_sets (@split_conflicted_state_set HO1 maps1).2 (@split_conflicted_state_set HO2 maps2).2.
Proof.
  intros Hp. destruct (@split_lookup HO1 maps1) as [Hu1 Hc1], (@split_lookup HO2 maps2) as [Hu2 Hc2]. split.
  - apply map_eq. intros key. apply option_eq. intros id. rewrite Hu1, Hu2.
    enough (maps1 <> [] <-> maps2 <> []) as -> by (by rewrite Hp).
    by destruct maps1, maps2; [|apply Permutation_nil_cons in Hp|symmetry in Hp; apply Permutation_nil_cons in Hp|].
  - intros key. destruct (Hc1 key) as (l1 & -> & Hnd1 & Hl1), (Hc2 key) as (l2 & -> & Hnd2 & Hl2).
    assert (l1 ≡ₚ l2) as Hl.
    { apply NoDup_Permutation; [done..|]. intros id. rewrite Hl1, Hl2. by setoid_rewrite Hp. }
    destruct l1, l2; simpl; [constructor|..|by constructor].
    + by apply Permutation_nil_cons in Hl.
    + symmetry in Hl. by apply Permutation_nil_cons in Hl.
Qed.

Lemma conflicted_ext maps1 maps2 chains1 chains2 subgraph id :
  maps1 ≡ₚ maps2 -> chains1 ≡ₚ chains2 ->
  conflicted maps1 chains1 subgraph id <-> conflicted maps2 chains2 subgraph id.
Proof. intros Hm Hc. unfold conflicted, disputed. setoid_rewrite Hm. by setoid_rewrite Hc. Qed.

Lemma full_conflicted_set_ext (HO1 HO2 : HashOrder) maps1 maps2 chains1 chains2 subgraph :
  maps1 ≡ₚ maps2 -> chains1 ≡ₚ chains2 ->
  @full_conflicted_set_of HO1 fetch_event chains1 (@split_conflicted_state_set HO1 maps1).2 subgraph =
  @full_conflicted_set_of HO2 fetch_event chains2 (@split_conflicted_state_set HO2 maps2).2 subgraph.
Proof.
  intros Hm Hc. apply set_eq. intros id.
  rewrite !full_conflicted_set_elem. by apply conflicted_ext.
Qed.

Lemma resolve_ext (HO1 HO2 : HashOrder) rank cs maps1 maps2 chains1 chains2 :
  acyclic fetch_event rank fuel ->
  (forall m1 m2, same_sets m1 m2 -> fetch_conflicted_state_subgraph m1 = fetch_conflicted_state_subgraph m2) ->
  (forall subgraph id, @subgraph_for HO1 maps1 subgraph -> conflicted maps1 chains1 subgraph id ->
     well_cited rules fetch_event cs id) ->
  maps1 ≡ₚ maps2 -> chains1 ≡ₚ chains2 ->
  @resolve U C HO1 fuel rules state_res_rules fetch_event fetch_conflicted_state_subgraph maps1 chains1 =
  @resolve U C HO2 fuel rules state_res_rules fetch_event fetch_conflicted_state_subgraph maps2 chains2.
Proof.
  intros Hac Hsub Hcited Hm Hc. unfold resolve.
  pose proof (split_ext HO1 HO2 maps1 maps2 Hm) as [Hunc Hconf].
  pose proof (fun s => full_conflicted_set_ext HO1 HO2 maps1 maps2 chains1 chains2 s Hm Hc) as Hfull.
  pose proof (fun s => @full_conflicted_set_elem HO1 maps1 chains1 s) as Helem.
  unfold subgraph_for in Hcited.
  destruct (@split_conflicted_state_set HO1 maps1) as [unc conf1].
  destruct (@split_conflicted_state_set HO2 maps2) as [unc2 conf2]. simpl in *. subst unc2.
  rewrite (bool_decide_ext (conf1 = ∅) (conf2 = ∅)).
  2: { split; apply same_sets_empty; [done|]. intros key. destruct (Hconf key); by constructor. }
  destruct (bool_decide _); [done|]. rewrite <- (Hsub _ _ Hconf).
  destruct (if StateResolutionV2Rules.consider_conflicted_state_subgraph _ then _ else _)
    as [subgraph|] eqn:Hs; cbn [of_result mbind comp_bind]; [|done].
  rewrite <- Hfull. set (full := full_conflicted_set_of _ _ _ _).
  assert (forall id, id ∈ full -> well_cited rules fetch_event cs id) as Hwell.
  { intros id Hid. apply (Hcited subgraph); [|by apply Helem].
    destruct (StateResolutionV2Rules.consider_conflicted_state_subgraph _); [by apply ok_or_Ok in Hs|congruence]. }
  rewrite (sort_power_events_ext rules fetch_event cs full Hwell HO1 HO2 _
    (filter (fun id => is_power_event_id fetch_event id = true) (@iter_set HO2 _ _ _ full))).
  2, 3: intros i; rewrite !list_elem_of_filter, !elem_of_iter_set; tauto.
  destruct (@sort_power_events _ HO2 _ _ _ _) as [powers| | |]; cbn [mbind comp_bind]; [|done..].
  destruct (iterative_auth_check _ _ powers _) as [partial| | |]; cbn [mbind comp_bind]; [|done..].
  erewrite (mainline_sort_ext fetch_event HO1 HO2 rank); [reflexivity|done|].
  intros i. by rewrite !list_elem_of_filter, !elem_of_iter_set.
Qed.
End resolve.

(** ** Properties *)

Section properties.
Context {U : Unicode} {C : Crypto}.
Context (fuel : nat) (rules : AuthorizationRules.t) (state_res_rules : StateResolutionV2Rules.t).
Context (fetch_event : FetchEvent).
Context (fetch_conflicted_state_subgraph : StateMap (list string) -> option EventIdSet).

(** C1: where the auth chains are acyclic, the caller's subgraph does not depend on the
    order of the conflicted events, and the conflicted events cite the create event of
    the room and at most one power-levels event, servers that resolve the same forks
    reach the same state, or the same error: the outcome depends neither on the order in
    which the state maps and auth chains are given nor on the iteration order of any hash
    table.  [order_matters_without_create] shows two orders that disagree on a
    conflicted event that does not cite the create event. *)
Theorem resolve_convergent (HO1 HO2 : HashOrder) rank cs maps1 maps2 chains1 chains2 :
  acyclic fetch_event rank fuel ->
  (forall m1 m2, same_sets m1 m2 -> fetch_conflicted_state_subgraph m1 = fetch_conflicted_state_subgraph m2) ->
  (forall subgraph id,
     @subgraph_for state_res_rules fetch_conflicted_state_subgraph HO1 maps1 subgraph ->
     conflicted fetch_event maps1 chains1 subgraph id -> well_cited rules fetch_event cs id) ->
  maps1 ≡ₚ maps2 -> chains1 ≡ₚ chains2 ->
  @resolve U C HO1 fuel rules state_res_rules fetch_event fetch_conflicted_state_subgraph maps1 chains1 =
  @resolve U C HO2 fuel rules state_res_rules fetch_event fetch_conflicted_state_subgraph maps2 chains2.
Proof. apply resolve_ext. Qed.

(** C2: in a resolved state every entry all forks agree on is
    kept, and every other entry is an event of the full conflicted set with
    that type and state key which passed the authorization rules, against
    accepted events that it cites or that come from the forks. *)
Theorem resolve_sound {HO : HashOrder} state_maps auth_chains r :
  resolve fuel rules state_res_rules fetch_event fetch_conflicted_state_subgraph state_maps auth_chains = Done r ->
  (forall key id, agreed state_maps key id -> r !! key = Some id) /\
  (forall key id, r !! key = Some id -> agreed state_maps key id \/
    exists subgraph,
      subgraph_for state_res_rules fetch_conflicted_state_subgraph state_maps subgraph /\
      conflicted fetch_event state_maps auth_chains subgraph id /\
      admitted rules fetch_event (of_forks fetch_event state_maps auth_chains subgraph) key id).
Proof. apply resolve_spec. Qed.

(** C25: resolution terminates when no auth chain is longer than the
    fuel given to the walks along power-levels events; the walks of the auth
    chains and the sort need no such bound. *)
Theorem resolve_terminates {HO : HashOrder} rank state_maps auth_chains :
  acyclic fetch_event rank fuel ->
  ends (resolve fuel rules state_res_rules fetch_event fetch_conflicted_state_subgraph state_maps auth_chains).
Proof. apply resolve_ends. Qed.

(** The mainline sort of conflicted events ends, and its result lists
    each event whose power-levels ancestry can be fetched exactly once, ordered
    by the position of its nearest ancestor on the mainline (oldest first,
    events without one before all others), then timestamp, then event ID; it
    fails only when the mainline itself cannot be fetched. *)
Theorem mainline_sort_spec {HO : HashOrder} rank events power_level :
  acyclic fetch_event rank fuel ->
  match mainline_sort fetch_event fuel events power_level with
  | Done l => events = [] /\ l = [] \/
      exists mainline, mainline_of fetch_event power_level mainline /\
        mainline_sorted fetch_event mainline events l
  | Fail _ => forall mainline, ~ mainline_of fetch_event power_level mainline
  | Panic | OutOfFuel => False
  end.
Proof. apply mainline_sort_sorted. Qed.

(** The full conflicted set holds exactly the events that can be
    fetched and are in some but not all auth chains, or stand for some key in
    some but not all forks, or belong to the conflicted state subgraph. *)
Theorem full_conflicted_set_spec {HO : HashOrder} state_maps auth_chains subgraph id :
  id ∈ full_conflicted_set_of fetch_event auth_chains (split_conflicted_state_set state_maps).2 subgraph <->
  conflicted fetch_event state_maps auth_chains subgraph id.
Proof. apply full_conflicted_set_elem. Qed.

(** The creators remembered from an earlier event do not
    change the level found for the sender of a well-cited event. *)
Theorem sender_level_cache cs id :
  well_cited rules fetch_event cs id ->
  exists level, forall lock, lock = None \/ lock = Some cs ->
    power_level_for_sender rules fetch_event id lock = Done (level, Some cs).
Proof. apply well_cited_level. Qed.
End properties.

(** ** Witnesses *)

#[local] Existing Instances ascii_unicode toy_crypto.

Definition ex_fork (last : string) : StateMap string :=
  {[ ("m.room.create", EmptyString) := "$create:x"; ("m.room.member", "@a:x") := "$alice:x";
     ("m.room.power_levels", EmptyString) := "$levels:x"; ("m.room.join_rules", EmptyString) := "$rules:x";
     ("m.room.member", "@b:x") := last ]}.
Definition ex_maps : list (StateMap string) := [ex_fork "$ban:x"; ex_fork "$join:x"].
Definition ex_chains : list EventIdSet :=
  [{[ "$create:x"; "$alice:x"; "$levels:x" ]}; {[ "$create:x"; "$alice:x"; "$levels:x"; "$rules:x" ]}].
Definition ex_rank (id : string) : nat :=
  match ex_fetch id with Ok ev => Z.to_nat ev.(origin_server_ts) | Err _ => 0 end.
Definition no_subgraph (_ : StateMap (list string)) : option EventIdSet := Some ∅.

Lemma ex_fetch_elem id ev :
  ex_fetch id = Ok ev -> id = ev.(event_id) /\ ev ∈ ex_levels2 :: ex_topic :: ex_events.
Proof.
  unfold ex_fetch. destruct (List.find _ _) as [ev'|] eqn:Hf; [|done]. intros [= <-].
  apply find_some in Hf as [Hin Hid%String.eqb_eq]. split; [done|]. by apply list_elem_of_In.
Qed.

Lemma ex_acyclic : acyclic ex_fetch ex_rank 10.
Proof.
  assert (Forall (fun ev => ex_rank ev.(event_id) < 10 /\
    Forall (fun a => ex_rank a < ex_rank ev.(event_id)) ev.(auth_events)) (ex_levels2 :: ex_topic :: ex_events)) as Hall.
  { repeat constructor; apply Nat.ltb_lt; vm_compute; reflexivity. }
  rewrite Forall_forall in Hall. split.
  - intros id. unfold ex_rank. destruct (ex_fetch id) as [ev|] eqn:Hev; [|lia].
    destruct (ex_fetch_elem _ _ Hev) as [-> Hin]. destruct (Hall _ Hin) as [H _].
    unfold ex_rank in H. by rewrite Hev in H.
  - intros id ev a Hev Ha. destruct (ex_fetch_elem _ _ Hev) as [-> Hin].
    destruct (Hall _ Hin) as [_ H]. rewrite Forall_forall in H. by apply H.
Qed.

Lemma ex_well_cited_one id ev level :
  ex_fetch id = Ok ev ->
  cited ex_fetch "m.room.power_levels" ev.(auth_events) = [ex_levels] ->
  cited ex_fetch "m.room.create" ev.(auth_events) = [ex_create] ->
  opt_user_power_level (Some ex_levels) ev.(sender) {[ "@a:x" ]} AuthorizationRules.V10 = Ok level ->
  well_cited AuthorizationRules.V10 ex_fetch {[ "@a:x" ]} id.
Proof.
  intros Hev Hpl Hc Hl. exists ev, ex_create, (Some ex_levels), level.
  split; [done|]. split; [done|]. split; [done|]. split; [by_eval|done].
Qed.

Lemma ex_well_cited subgraph id :
  @subgraph_for StateResolutionV2Rules.V2_0 no_subgraph forward_order ex_maps subgraph ->
  conflicted ex_fetch ex_maps ex_chains subgraph id ->
  well_cited AuthorizationRules.V10 ex_fetch {[ "@a:x" ]} id.
Proof.
  unfold subgraph_for. cbn [StateResolutionV2Rules.V2_0 StateResolutionV2Rules.consider_conflicted_state_subgraph].
  intros -> H. apply (@full_conflicted_set_elem ex_fetch forward_order) in H.
  assert (@full_conflicted_set_of forward_order ex_fetch ex_chains
    (@split_conflicted_state_set forward_order ex_maps).2 ∅ = {[ "$ban:x"; "$join:x"; "$rules:x" ]}) as Heq
    by by_eval.
  rewrite Heq in H. rewrite !elem_of_union, !elem_of_singleton in H.
  destruct H as [[->| ->]| ->].
  - apply (ex_well_cited_one _ ex_ban (Int 100)); by_eval.
  - apply (ex_well_cited_one _ ex_join (Int 0)); by_eval.
  - apply (ex_well_cited_one _ ex_rules (Int 100)); by_eval.
Qed.

Lemma resolve_convergent_witness :
  @resolve ascii_unicode toy_crypto forward_order 10 AuthorizationRules.V10 StateResolutionV2Rules.V2_0
    ex_fetch no_subgraph ex_maps ex_chains =
  @resolve ascii_unicode toy_crypto backward_order 10 AuthorizationRules.V10 StateResolutionV2Rules.V2_0
    ex_fetch no_subgraph (rev ex_maps) (rev ex_chains).
Proof.
  apply (@resolve_convergent ascii_unicode toy_crypto 10 AuthorizationRules.V10 StateResolutionV2Rules.V2_0
    ex_fetch no_subgraph forward_order backward_order ex_rank {[ "@a:x" ]}).
  - exact ex_acyclic.
  - reflexivity.
  - exact ex_well_cited.
  - apply Permutation_rev.
  - apply Permutation_rev.
Defined.

(** The ban prevails over the join. *)
Lemma resolve_sound_witness :
  exists subgraph,
    conflicted ex_fetch ex_maps ex_chains subgraph "$ban:x" /\
    admitted (U := ascii_unicode) (C := toy_crypto) AuthorizationRules.V10 ex_fetch
      (of_forks ex_fetch ex_maps ex_chains subgraph) ("m.room.member", "@b:x") "$ban:x".
Proof.
  destruct (@resolve_sound ascii_unicode toy_crypto 10 AuthorizationRules.V10 StateResolutionV2Rules.V2_0
    ex_fetch no_subgraph forward_order ex_maps ex_chains (ex_fork "$ban:x")) as [_ H].
  - by_eval.
  - destruct (H ("m.room.member", "@b:x") "$ban:x") as [[_ Hag]|(subgraph & _ & Hc & Ha)].
    + by_eval.
    + exfalso. apply Forall_cons in Hag as [_ Hag]. apply Forall_cons in Hag as [Hag _].
      vm_compute in Hag. discriminate Hag.
    + exists subgraph. split; [exact Hc|exact Ha].
Defined.

Lemma resolve_terminates_witness :
  ends (@resolve ascii_unicode toy_crypto backward_order 10 AuthorizationRules.V10
    StateResolutionV2Rules.V2_0 ex_fetch no_subgraph ex_maps ex_chains).
Proof. apply (@resolve_terminates ascii_unicode toy_crypto 10 _ _ _ _ _ ex_rank). exact ex_acyclic. Defined.

Lemma mainline_sort_spec_witness :
  exists mainline, mainline_of ex_fetch (Some "$levels:x") mainline /\
    mainline_sorted ex_fetch mainline ["$topic:x"; "$join:x"] ["$join:x"; "$topic:x"].
Proof.
  pose proof (@mainline_sort_spec 10 ex_fetch backward_order ex_rank ["$topic:x"; "$join:x"]
    (Some "$levels:x") ex_acyclic) as H.
  assert (@mainline_sort backward_order ex_fetch 10 ["$topic:x"; "$join:x"] (Some "$levels:x")
    = Done ["$join:x"; "$topic:x"]) as Heq by by_eval.
  rewrite Heq in H. destruct H as [[H _]|H]; [discriminate H|exact H].
Defined.

Lemma sender_level_cache_witness :
  exists level, forall lock, lock = None \/ lock = Some {[ "@a:x" ]} ->
    power_level_for_sender AuthorizationRules.V10 ex_fetch "$join:x" lock = Done (level, Some {[ "@a:x" ]}).
Proof.
  apply (sender_level_cache AuthorizationRules.V10 ex_fetch {[ "@a:x" ]} "$join:x").
  apply (ex_well_cited_one _ ex_join (Int 0)); by_eval.
Defined.

(** ** Without the create event

    The condition on the conflicted events is needed.  Two rules for joining are in
    conflict, and one of them does not cite the create event.  Its sender has their level
    only if the level of an event that cites it was looked up before, which is a matter of
    the order in which the hash table of the graph is gone through; and the event that
    comes last prevails. *)

Definition ex_bare := example_pdu "$bare:x" "@a:x" 10 "m.room.join_rules"
  (JObj [("join_rule", JStr "public")]) EmptyString ["$alice:x"; "$levels2:x"].
Definition ex_full := example_pdu "$full:x" "@b:x" 11 "m.room.join_rules"
  (JObj [("join_rule", JStr "invite")]) EmptyString ["$create:x"; "$join:x"; "$levels2:x"].
Definition ex_fetch_bare : FetchEvent := fun id =>
  if id =? "$bare:x" then Ok ex_bare else if id =? "$full:x" then Ok ex_full else ex_fetch id.
Definition ex_fork_bare (rules : string) : StateMap string :=
  {[ ("m.room.create", EmptyString) := "$create:x"; ("m.room.member", "@a:x") := "$alice:x";
     ("m.room.power_levels", EmptyString) := "$levels2:x"; ("m.room.join_rules", EmptyString) := rules;
     ("m.room.member", "@b:x") := "$join:x" ]}.
Definition resolve_bare (HO : HashOrder) :=
  @resolve ascii_unicode toy_crypto HO 20 AuthorizationRules.V10 StateResolutionV2Rules.V2_0
    ex_fetch_bare no_subgraph [ex_fork_bare "$bare:x"; ex_fork_bare "$full:x"] [∅; ∅].

Example order_matters_without_create :
  resolve_bare forward_order = Done (ex_fork_bare "$full:x") /\
  resolve_bare backward_order = Done (ex_fork_bare "$bare:x").
Proof. split; by_eval. Qed.
