(* ===== verification/Effects.v ===== *)
(** * Effects of the server crate

    The functions of [crates/server] read and write the database and a few
    in-memory caches, and return [AppResult].  They are modelled as functions
    [S -> comp AppError A * S] of the tables and caches they touch: what has
    been written before an error stays written, since the code opens no
    transaction around these calls.  The file also holds the interface of the
    [lru_cache] crate and the big-endian encoding of [i64]. *)
From S2P Require Import Prelude RustStr.
Open Scope Z_scope.

(** ** Errors *)

(** The errors of [AppError] the modelled code tells apart; the message of the
    others is kept for reading only. *)
Inductive AppError : Type :=
| DbNotFound                  (* [diesel::result::Error::NotFound] *)
| MatrixNotFound              (* [MatrixError::not_found(_)] *)
| MatrixForbidden
| MatrixInvalidParam
| MatrixUnknown
| MatrixConflict              (* [MatrixError::unknown(_)] with status 409 *)
| MatrixBadJson
| MatrixMissingParam
| MatrixTooLarge
| DbUnique                    (* a unique index refuses the row *)
| HttpStatus                  (* [AppError::HttpStatus(_)] *)
| StateForbidden              (* [AppError::State(StateError::Forbidden(_))] *)
| StateAuthEvent              (* [AppError::State(StateError::AuthEvent(_))] *)
| StateOther                  (* the other [AppError::State(_)] *)
| Signing                     (* [AppError::Signatures(_)] *)
| SerdeJson
| IdParse
| AppPublic
| AppInternal.

#[global] Instance AppError_eq_dec : EqDecision AppError.
Proof. solve_decision. Defined.

Definition is_not_found (e : AppError) : bool :=
  match e with DbNotFound | MatrixNotFound => true | _ => false end.

(** ** Stateful computations *)

Definition St (S A : Type) : Type := S -> comp AppError A * S.

#[global] Instance St_ret S : MRet (St S) := fun A a s => (Done a, s).
#[global] Instance St_bind S : MBind (St S) := fun A B f m s =>
  match m s with
  | (Done a, s') => f a s'
  | (Fail e, s') => (Fail e, s')
  | (Panic, s') => (Panic, s')
  | (OutOfFuel, s') => (OutOfFuel, s')
  end.

Definition st_fail {S A} (e : AppError) : St S A := fun s => (Fail e, s).
Definition st_panic {S A} : St S A := fun s => (Panic, s).
Definition st_out_of_fuel {S A} : St S A := fun s => (OutOfFuel, s).
Definition st_do {S A} (f : S -> comp AppError A * S) : St S A := f.
Definition st_gets {S A} (f : S -> A) : St S A := fun s => (Done (f s), s).
Definition st_modify {S} (f : S -> S) : St S unit := fun s => (Done tt, f s).
(** [o.ok_or(e)?] *)
Definition st_some {S A} (o : option A) (e : AppError) : St S A :=
  match o with Some a => mret a | None => st_fail e end.
(** [o.expect(..)] *)
Definition st_expect {S A} (o : option A) : St S A :=
  match o with Some a => mret a | None => st_panic end.
(** The result of a call as a value, for [.ok()], [if let Ok(..)] and [match]. *)
Definition st_try {S A} (m : St S A) : St S (result AppError A) := fun s =>
  match m s with
  | (Done a, s') => (Done (Ok a), s')
  | (Fail e, s') => (Done (Err e), s')
  | (Panic, s') => (Panic, s')
  | (OutOfFuel, s') => (OutOfFuel, s')
  end.

(** [for x in l { f(x)?; }] *)
Fixpoint st_iter {S A} (f : A -> St S unit) (l : list A) : St S unit :=
  match l with
  | [] => mret tt
  | x :: l => _ ← f x; st_iter f l
  end.
(** [for x in l { v.push(f(x)?); }] *)
Fixpoint st_map {S A B} (f : A -> St S B) (l : list A) : St S (list B) :=
  match l with
  | [] => mret []
  | x :: l => y ← f x; ys ← st_map f l; mret (y :: ys)
  end.

Lemma bind_St {S A B} (m : St S A) (f : A -> St S B) s b s' :
  (m ≫= f) s = (Done b, s') <->
  exists a s1, m s = (Done a, s1) /\ f a s1 = (Done b, s').
Proof.
  unfold mbind, St_bind. destruct (m s) as [[a|e| |] s1]; split; naive_solver.
Qed.

Lemma bind_St_run {S A B} (m : St S A) (f : A -> St S B) s a s1 :
  m s = (Done a, s1) -> (m ≫= f) s = f a s1.
Proof. unfold mbind, St_bind. by intros ->. Qed.

Lemma bind_St_fail {S A B} (m : St S A) (f : A -> St S B) s e s1 :
  m s = (Fail e, s1) -> (m ≫= f) s = (Fail e, s1).
Proof. unfold mbind, St_bind. by intros ->. Qed.

Lemma st_try_run {S A} (m : St S A) s a s1 :
  m s = (Done a, s1) -> st_try m s = (Done (Ok a), s1).
Proof. unfold st_try. by intros ->. Qed.

Lemma st_try_fail {S A} (m : St S A) s e s1 :
  m s = (Fail e, s1) -> st_try m s = (Done (Err e), s1).
Proof. unfold st_try. by intros ->. Qed.

Lemma st_gets_bind {S A B} (g : S -> A) (k : A -> St S B) s : (st_gets g ≫= k) s = k (g s) s.
Proof. done. Qed.

Lemma st_modify_bind {S B} (g : S -> S) (k : unit -> St S B) s : (st_modify g ≫= k) s = k tt (g s).
Proof. done. Qed.

Lemma st_ret_bind {S A B} (a : A) (k : A -> St S B) s : (mret a ≫= k) s = k a s.
Proof. done. Qed.

(** Runs the first call of a stateful computation whose result is known. *)
Ltac st_step H := rewrite (bind_St_run _ _ _ _ _ H).

(** A run that ends well, from its result alone. *)
Lemma done_snd {S A} (m : St S A) s a : fst (m s) = Done a -> m s = (Done a, snd (m s)).
Proof. destruct (m s). cbn. by intros ->. Qed.

(** ** [lru_cache::LruCache]

    A bounded cache: a lookup may reorder the entries, an insertion may evict
    any of them.  What callers rely on is that a lookup returns the value last
    inserted under the key, or nothing. *)
Class LruCache (K V : Type) `{Countable K} := {
  lru : Type;
  lru_new : lru;
  lru_get_mut : K -> lru -> option V * lru;
  lru_insert : K -> V -> lru -> lru;
  (** The entries held. *)
  lru_entries : lru -> gmap K V;
  lru_new_empty : lru_entries lru_new = ∅;
  lru_get_lookup : forall k c, (lru_get_mut k c).1 = lru_entries c !! k;
  lru_get_keeps : forall k c, lru_entries (lru_get_mut k c).2 ⊆ lru_entries c;
  lru_insert_sub : forall k v c, lru_entries (lru_insert k v c) ⊆ <[k := v]> (lru_entries c)
}.
Arguments lru K V {_ _ _}.

(** Two caches used to evaluate the definitions: one that never evicts and one
    that holds nothing. *)
Program Definition unbounded_cache K V `{Countable K} : LruCache K V :=
  {| lru := gmap K V; lru_new := ∅;
     lru_get_mut := fun k c => (c !! k, c);
     lru_insert := fun k v c => <[k := v]> c;
     lru_entries := fun c => c |}.
Solve Obligations with done.

Program Definition no_cache K V `{Countable K} : LruCache K V :=
  {| lru := unit; lru_new := tt;
     lru_get_mut := fun _ c => (None, c);
     lru_insert := fun _ _ c => c;
     lru_entries := fun _ => ∅ |}.
Solve Obligations with (intros; try apply map_empty_subseteq; done).

(** ** [i64::to_be_bytes] and [i64::from_be_bytes] *)

Definition is_i64 (z : Z) : Prop := - 2 ^ 63 <= z < 2 ^ 63.

#[global] Instance is_i64_dec z : Decision (is_i64 z).
Proof. unfold is_i64. apply _. Defined.

Definition byte_of_Z (z : Z) : Ascii.ascii := Ascii.ascii_of_N (Z.to_N (z mod 256)).
Definition byte_to_Z (c : Ascii.ascii) : Z := Z.of_N (Ascii.N_of_ascii c).

(** The [n] low bytes of [z], most significant first. *)
Fixpoint be_bytes (n : nat) (z : Z) : string :=
  match n with
  | O => EmptyString
  | S n => be_bytes n (z / 256) +:+ String (byte_of_Z z) EmptyString
  end.
Fixpoint be_value (acc : Z) (s : string) : Z :=
  match s with
  | EmptyString => acc
  | String c s => be_value (acc * 256 + byte_to_Z c) s
  end.

Definition i64_to_be_bytes (z : Z) : string := be_bytes 8 z.
(** [i64_from_bytes]: [None] when the slice has not eight bytes. *)
Definition i64_from_bytes (s : string) : option Z :=
  if Nat.eqb (String.length s) 8 then
    let v := be_value 0 s in Some (if Z.ltb v (2 ^ 63) then v else v - 2 ^ 64)
  else None.

Lemma byte_roundtrip z : byte_to_Z (byte_of_Z z) = z mod 256.
Proof.
  unfold byte_to_Z, byte_of_Z. pose proof (Z.mod_pos_bound z 256 ltac:(lia)).
  rewrite Ascii.N_ascii_embedding; [lia|]. lia.
Qed.

Lemma be_value_app acc s t : be_value acc (s +:+ t) = be_value (be_value acc s) t.
Proof. revert acc. induction s as [|c s IH]; intros acc; simpl; [done|apply IH]. Qed.

Lemma be_value_bytes n z : be_value 0 (be_bytes n z) = z mod 256 ^ Z.of_nat n.
Proof.
  revert z. induction n as [|n IH]; intros z; cbn [be_bytes].
  { simpl. by rewrite Z.mod_1_r. }
  rewrite be_value_app, IH. cbn [be_value]. rewrite byte_roundtrip.
  rewrite Nat2Z.inj_succ, Z.pow_succ_r by lia.
  rewrite (Z.rem_mul_r z 256 (256 ^ Z.of_nat n)) by lia. lia.
Qed.

Lemma string_length_app s t : String.length (s +:+ t) = (String.length s + String.length t)%nat.
Proof. rewrite <- !str_len_length. apply str_len_app. Qed.

Lemma string_app_empty_r s : s +:+ EmptyString = s.
Proof. induction s as [|c s IH]; [done|]. by rewrite append_cons, IH. Qed.

Lemma be_bytes_length n z : String.length (be_bytes n z) = n.
Proof.
  revert z. induction n as [|n IH]; intros z; cbn [be_bytes]; [done|].
  rewrite string_length_app, IH. simpl. lia.
Qed.

Lemma i64_to_be_bytes_len z : str_len (i64_to_be_bytes z) = 8%nat.
Proof. rewrite str_len_length. exact (be_bytes_length 8 z). Qed.

Lemma i64_roundtrip z : is_i64 z -> i64_from_bytes (i64_to_be_bytes z) = Some z.
Proof.
  unfold is_i64, i64_from_bytes, i64_to_be_bytes. intros Hz.
  rewrite be_bytes_length, be_value_bytes. cbn [Nat.eqb]. f_equal.
  change (256 ^ Z.of_nat 8) with (2 ^ 64).
  destruct (decide (0 <= z)) as [Hpos|Hneg].
  - rewrite Z.mod_small by lia. by rewrite (proj2 (Z.ltb_lt _ _)) by lia.
  - rewrite <- (Z.mod_add z 1) by lia. rewrite Z.mod_small by lia.
    rewrite (proj2 (Z.ltb_ge _ _)) by lia. lia.
Qed.

Lemma i64_to_be_bytes_inj x y :
  is_i64 x -> is_i64 y -> i64_to_be_bytes x = i64_to_be_bytes y -> x = y.
Proof.
  intros Hx Hy He. apply i64_roundtrip in Hx, Hy. congruence.
Qed.
