(* ===== verification/Calls.v ===== *)
(** * Call trees

    A handler that calls a given operation at several places, in loops and behind
    conditions, is written as a tree: its nodes are the calls of that operation, between
    which other computations run.  [run] gives the computation the tree stands for, and
    [visits] the calls that a run makes, each with the store in which it is made. *)
From S2P Require Import Prelude Effects.

Section tree.
Context {S V : Type}.

Inductive tree : Type -> Type :=
| Act {A} (m : St S A) : tree A
| Vis (v : V) : tree unit
| Seq {A B} (t : tree A) (k : A -> tree B) : tree B
| Try {A} (t : tree A) : tree (result AppError A).

#[global] Instance tree_ret : MRet tree := fun A a => Act (mret a).
#[global] Instance tree_bind : MBind tree := fun A B k t => Seq t k.

(** [for] loops *)
Fixpoint tree_iter {A} (f : A -> tree unit) (l : list A) : tree unit :=
  match l with [] => mret tt | a :: l => _ ← f a; tree_iter f l end.
Fixpoint tree_map {A B} (f : A -> tree B) (l : list A) : tree (list B) :=
  match l with [] => mret [] | a :: l => b ← f a; bs ← tree_map f l; mret (b :: bs) end.

Context (h : V -> St S unit).

Fixpoint run {A} (t : tree A) : St S A :=
  match t with
  | Act m => m
  | Vis v => h v
  | Seq t k => a ← run t; run (k a)
  | Try t => st_try (run t)
  end.

(** Running the tree in the store [s], the operation is called with [v] in the store
    [s0]. *)
Fixpoint visits {A} (t : tree A) (s : S) (v : V) (s0 : S) : Prop :=
  match t with
  | Act _ => False
  | Vis w => w = v /\ s = s0
  | Seq t k => visits t s v s0 \/ exists a s1, run t s = (Done a, s1) /\ visits (k a) s1 v s0
  | Try t => visits t s v s0
  end.
End tree.
Arguments tree : clear implicits.

(** ** Reasoning about runs *)

Section runs.
Context {S V : Type} (h : V -> St S unit).
Implicit Types (t : tree S V unit).

(** Every computation between the calls has a property. *)
Fixpoint acts (P : forall A, St S A -> Prop) {A} (t : tree S V A) : Prop :=
  match t with
  | Act m => P _ m
  | Vis _ => True
  | Seq t k => acts P t /\ forall a, acts P (k a)
  | Try t => acts P t
  end.
Lemma acts_mono (P Q : forall A, St S A -> Prop) {A} (t : tree S V A) :
  (forall B (m : St S B), P B m -> Q B m) -> acts P t -> acts Q t.
Proof. intros H. induction t; cbn; naive_solver. Qed.

(** Every call made by a run from [s] has a property. *)
Definition calls_ok (P : V -> S -> Prop) {A} (t : tree S V A) (s : S) : Prop := forall v s0, visits h t s v s0 -> P v s0.

Lemma calls_ok_act P {A} (m : St S A) s : calls_ok P (Act m) s.
Proof. intros v s0 []. Qed.
Lemma calls_ok_ret P {A} (a : A) s : calls_ok P (mret a : tree S V A) s.
Proof. intros v s0 []. Qed.
Lemma calls_ok_vis (P : V -> S -> Prop) v s : P v s -> calls_ok P (Vis v) s.
Proof. intros H w s0 [<- <-]. done. Qed.
Lemma calls_ok_try P {A} (t : tree S V A) s : calls_ok P t s -> calls_ok P (Try t) s.
Proof. done. Qed.
Lemma calls_ok_bind P {A B} (t : tree S V A) (k : A -> tree S V B) s :
  calls_ok P t s -> (forall a s1, run h t s = (Done a, s1) -> calls_ok P (k a) s1) -> calls_ok P (t ≫= k) s.
Proof. intros Ht Hk v s0 [H|(a & s1 & Hr & H)]; [by apply Ht|]. by apply (Hk a s1 Hr). Qed.
Lemma calls_ok_iter P {A} (f : A -> tree S V unit) l s :
  (forall a s, calls_ok P (f a) s) -> calls_ok P (tree_iter f l) s.
Proof.
  intros Hf. revert s. induction l as [|a l IH]; intros s; cbn [tree_iter]; [apply calls_ok_ret|].
  apply calls_ok_bind; auto.
Qed.
Lemma calls_ok_map P {A B} (f : A -> tree S V B) l s :
  (forall a s, calls_ok P (f a) s) -> calls_ok P (tree_map f l) s.
Proof.
  intros Hf. revert s. induction l as [|a l IH]; intros s; cbn [tree_map]; [apply calls_ok_ret|].
  apply calls_ok_bind; [done|]. intros b s1 _. apply calls_ok_bind; [apply IH|]. intros ? ? _. apply calls_ok_ret.
Qed.

Lemma acts_iter (P : forall A, St S A -> Prop) {A} (f : A -> tree S V unit) l : P unit (mret tt) -> (forall a, acts P (f a)) -> acts P (tree_iter f l).
Proof. intros Hr Hf. induction l as [|a l IH]; [exact Hr|]. split; [apply Hf|by intros _]. Qed.
Lemma acts_map (P : forall A, St S A -> Prop) {A B} (f : A -> tree S V B) l :
  (forall C (c : C), P C (mret c)) -> (forall a, acts P (f a)) -> acts P (tree_map f l).
Proof.
  intros Hr Hf. induction l as [|a l IH]; [apply Hr|]. split; [apply Hf|]. intros b. split; [exact IH|]. intros bs. apply Hr.
Qed.

(** A predicate on stores that appears in a run in which the computations between the
    calls do not make it appear, appears in a call. *)
Lemma run_appears (Q : S -> Prop) {A} (t : tree S V A) s :
  (forall s, Decision (Q s)) -> acts (fun A m => forall s, Q (snd (m s)) -> Q s) t ->
  Q (snd (run h t s)) -> Q s \/ exists v s0, visits h t s v s0 /\ ~ Q s0 /\ Q (snd (h v s0)).
Proof.
  intros Hdec. revert s. induction t as [A m|v|A B t IH k IHk|A t IH]; intros s; cbn [acts run visits].
  - intros Hm H. left. by apply Hm.
  - intros _ H. destruct (Hdec s); [by left|]. right. by exists v, s.
  - intros [Ht Hk] H. unfold mbind, St_bind in H. specialize (IH s Ht). destruct (run h t s) as [[a|e| |] s1] eqn:E; cbn in *.
    2-4: destruct (IH H) as [?|(v & s0 & ? & ?)]; [by left|right; by exists v, s0; auto].
    destruct (IHk a s1 (Hk a) H) as [H1|(v & s0 & Hv & ?)].
    + destruct (IH H1) as [?|(v & s0 & ? & ?)]; [by left|right; by exists v, s0; auto].
    + right. exists v, s0. split; [right; by exists a, s1|done].
  - intros Ht H. apply IH; [done|]. unfold st_try in H. by destruct (run h t s) as [[] ?].
Qed.
End runs.
