(* ===== verification/StateFrames.v ===== *)
(** * Room state snapshots: [crates/server/src/room/state.rs], [state/diff.rs],
      [state/frame.rs], [state/field.rs] and the tables behind them

    The state of a room at an event is a set of [CompressedEvent]s: a field id
    (standing for a pair of event type and state key) and the sequence number of
    the event that holds the field, sixteen bytes in all.  A state is stored as a
    frame: a full state, or a delta (events appended and disposed) to a parent
    frame.  [FramesDb] holds the tables [room_state_fields],
    [room_state_frames], [room_state_deltas], [rooms] (its [state_frame_id]
    column) and [event_points], and the cache of loaded frames; a [bigserial] id
    is drawn from its sequence even when the insertion then conflicts. *)
From S2P Require Import Prelude RustStr Json Signatures Events Effects.
Open Scope Z_scope.

(** ** Compressed events *)

(** [CompressedEvent]: [ [u8; 16] ]. *)
Abbreviation CompressedEvent := string.
Abbreviation CompressedState := (gset string).

(** [CompressedEvent::new] *)
Definition ce_new (field_id event_sn : Z) : CompressedEvent :=
  i64_to_be_bytes field_id +:+ i64_to_be_bytes event_sn.
Definition ce_field_id (e : CompressedEvent) : option Z := i64_from_bytes (str_take 8 e).
Definition ce_event_sn (e : CompressedEvent) : option Z := i64_from_bytes (str_drop 8 e).

(** [compress_event], [compress_events] *)
Definition compress_event (room_id : string) (field_id event_sn : Z) : CompressedEvent :=
  ce_new field_id event_sn.
Definition compress_events (room_id : string) (events : list (Z * Z)) : CompressedState :=
  foldl (fun compressed '(field_id, event_sn) =>
           {[ compress_event room_id field_id event_sn ]} ∪ compressed) ∅ events.

(** [events.iter().flat_map(|event| event.as_bytes())] *)
Definition state_bytes (s : CompressedState) : string :=
  foldr String.append EmptyString (bset_iter s).
(** [bytes.chunks_exact(16)]: the trailing bytes that do not fill a chunk are
    dropped. *)
Fixpoint chunks_exact (fuel : nat) (n : nat) (s : string) : list string :=
  match fuel with
  | O => []
  | S fuel =>
      if Nat.leb n (str_len s) then str_take n s :: chunks_exact fuel n (str_drop n s) else []
  end.
Definition bytes_state (s : string) : CompressedState :=
  list_to_set (chunks_exact (str_len s) 16 s).

(** [IndexMap::insert]: a key that is present keeps its position. *)
Fixpoint index_insert {V} (k : Z) (v : V) (m : list (Z * V)) : list (Z * V) :=
  match m with
  | [] => [(k, v)]
  | (k', v') :: m => if Z.eqb k k' then (k, v) :: m else (k', v') :: index_insert k v m
  end.

(** ** Tables *)

Record DbRoomStateDelta := {
  dl_room_id : string;
  dl_parent_id : option Z;
  dl_appended : string;
  dl_disposed : string
}.

(** A row of [event_points]. *)
Record EventPoint := {
  ep_event_sn : Z;
  ep_room_id : string;
  ep_frame_id : option Z;
  ep_before_frame_id : option Z
}.

Record FrameInfo := {
  fi_frame_id : Z;
  fi_full_state : CompressedState;
  fi_appended : CompressedState;
  fi_disposed : CompressedState
}.

Record StateDiff := {
  sd_parent_id : option Z;
  sd_appended : CompressedState;
  sd_disposed : CompressedState
}.

Record DeltaInfo := {
  di_frame_id : Z;
  di_appended : CompressedState;
  di_disposed : CompressedState
}.

(** [SnPduEvent] *)
Record SnPduEvent := { pdu : Pdu; event_sn : Z }.

(** ** Encoding of states *)

Definition ce_ok (e : CompressedEvent) : Prop := str_len e = 16%nat.
Definition state_ok (s : CompressedState) : Prop := forall e, e ∈ s -> ce_ok e.

Lemma ce_new_ok f sn : ce_ok (ce_new f sn).
Proof.
  unfold ce_ok, ce_new. by rewrite str_len_app, !i64_to_be_bytes_len.
Qed.

Lemma ce_take f sn : str_take 8 (ce_new f sn) = i64_to_be_bytes f.
Proof.
  unfold ce_new. replace 8%nat with (str_len (i64_to_be_bytes f)); [apply str_take_app|].
  apply i64_to_be_bytes_len.
Qed.

Lemma ce_drop f sn : str_drop 8 (ce_new f sn) = i64_to_be_bytes sn.
Proof.
  unfold ce_new. replace 8%nat with (str_len (i64_to_be_bytes f)); [apply str_drop_app|].
  apply i64_to_be_bytes_len.
Qed.

Lemma ce_field_id_new f sn : is_i64 f -> ce_field_id (ce_new f sn) = Some f.
Proof. intros Hf. unfold ce_field_id. by rewrite ce_take, i64_roundtrip. Qed.

Lemma ce_event_sn_new f sn : is_i64 sn -> ce_event_sn (ce_new f sn) = Some sn.
Proof. intros Hf. unfold ce_event_sn. by rewrite ce_drop, i64_roundtrip. Qed.

Lemma ce_new_inj f sn f' sn' :
  is_i64 f -> is_i64 sn -> is_i64 f' -> is_i64 sn' ->
  ce_new f sn = ce_new f' sn' -> f = f' /\ sn = sn'.
Proof.
  intros Hf Hs Hf' Hs' He.
  assert (ce_field_id (ce_new f sn) = ce_field_id (ce_new f' sn')) by congruence.
  assert (ce_event_sn (ce_new f sn) = ce_event_sn (ce_new f' sn')) by congruence.
  rewrite !ce_field_id_new, !ce_event_sn_new in * by done. naive_solver.
Qed.

Lemma chunks_exact_concat fuel n l :
  (0 < n)%nat -> Forall (fun x => str_len x = n) l ->
  (str_len (foldr String.append EmptyString l) <= fuel)%nat ->
  chunks_exact fuel n (foldr String.append EmptyString l) = l.
Proof.
  intros Hn. revert l. induction fuel as [|fuel IH]; intros l Hl Hf.
  - destruct l as [|x l]; [done|]. apply Forall_cons in Hl as [Hx _]. cbn in Hf.
    rewrite str_len_app in Hf. lia.
  - destruct l as [|x l].
    { cbn. by destruct n; [lia|]. }
    apply Forall_cons in Hl as [Hx Hl]. cbn [foldr] in *. rewrite str_len_app in Hf.
    cbn [chunks_exact]. rewrite str_len_app.
    rewrite (proj2 (Nat.leb_le n _)) by lia.
    rewrite <- Hx, str_take_app, str_drop_app, Hx. f_equal. apply IH; [done|lia].
Qed.

(** What a delta row stores of a state is read back as the state. *)
Lemma bytes_state_bytes s : state_ok s -> bytes_state (state_bytes s) = s.
Proof.
  intros Hs. unfold bytes_state, state_bytes.
  rewrite chunks_exact_concat; [|lia| |lia].
  - apply set_eq. intros x. by rewrite elem_of_list_to_set, elem_of_bset_iter.
  - apply Forall_forall. intros x Hx. apply Hs. by apply elem_of_bset_iter.
Qed.

(** *** A state as a finite map from fields to events *)

Definition encode (m : gmap Z Z) : CompressedState :=
  list_to_set ((fun '(f, sn) => ce_new f sn) <$> map_to_list m).

Definition map_i64 (m : gmap Z Z) : Prop := map_Forall (fun f sn => is_i64 f /\ is_i64 sn) m.

Lemma elem_of_encode m e : e ∈ encode m <-> exists f sn, m !! f = Some sn /\ e = ce_new f sn.
Proof.
  unfold encode. rewrite elem_of_list_to_set, list_elem_of_fmap. split.
  - intros ([f sn] & -> & H). apply elem_of_map_to_list in H. eauto.
  - intros (f & sn & H & ->). exists (f, sn). by rewrite elem_of_map_to_list.
Qed.

Lemma encode_empty : encode ∅ = ∅.
Proof. done. Qed.

Lemma encode_ok m : state_ok (encode m).
Proof. intros e (f & sn & _ & ->)%elem_of_encode. apply ce_new_ok. Qed.

Lemma ce_new_elem m f sn :
  map_i64 m -> is_i64 f -> is_i64 sn -> ce_new f sn ∈ encode m <-> m !! f = Some sn.
Proof.
  intros Hm Hf Hsn. rewrite elem_of_encode. split; [|eauto].
  intros (f' & sn' & Hl & He). destruct (Hm _ _ Hl).
  apply ce_new_inj in He as [-> ->]; done.
Qed.

Lemma encode_insert m f sn old :
  map_i64 m -> is_i64 f -> is_i64 sn -> m !! f = old -> old <> Some sn ->
  encode (<[f := sn]> m) =
  (encode m ∪ {[ ce_new f sn ]}) ∖ match old with Some o => {[ ce_new f o ]} | None => ∅ end.
Proof.
  intros Hm Hf Hsn <- Hold. apply set_eq. intros e.
  rewrite elem_of_difference, elem_of_union, elem_of_singleton, !elem_of_encode.
  split.
  - intros (f' & sn' & [[<- <-]|[Hne Hl]]%lookup_insert_Some & ->).
    + split; [by right|]. destruct (m !! f) as [o|] eqn:Ho; [|set_solver +].
      rewrite elem_of_singleton. destruct (Hm _ _ Ho).
      intros [_ ->]%ce_new_inj; done.
    + split; [by eauto|]. destruct (m !! f) as [o|] eqn:Ho; [|set_solver +].
      rewrite elem_of_singleton. destruct (Hm _ _ Ho), (Hm _ _ Hl).
      intros [-> _]%ce_new_inj; done.
  - intros [[(f' & sn' & Hl & ->)| ->] Hnot].
    + destruct (decide (f = f')) as [<-|Hne].
      * rewrite Hl in Hnot. set_solver +Hnot.
      * exists f', sn'. by rewrite lookup_insert_ne.
    + exists f, sn. by rewrite lookup_insert_eq.
Qed.

Section frames.
Context {C : Crypto} {LC : LruCache Z (list FrameInfo)}.

Record FramesDb := {
  room_state_fields : gmap (string * string) Z;     (* (event_ty, state_key) -> id *)
  next_field_id : Z;
  room_state_frames : gmap (string * string) Z;     (* (room_id, hash_data) -> id *)
  next_frame_id : Z;
  room_state_deltas : gmap Z DbRoomStateDelta;      (* frame_id -> row *)
  rooms : gmap string (option Z);                   (* id -> state_frame_id *)
  event_points : gmap string EventPoint;            (* event_id -> row *)
  state_info_cache : lru Z (list FrameInfo)
}.

Definition set_fields fs n (db : FramesDb) : FramesDb :=
  {| room_state_fields := fs; next_field_id := n;
     room_state_frames := room_state_frames db; next_frame_id := next_frame_id db;
     room_state_deltas := room_state_deltas db; rooms := rooms db;
     event_points := event_points db; state_info_cache := state_info_cache db |}.
Definition set_frames fs n (db : FramesDb) : FramesDb :=
  {| room_state_fields := room_state_fields db; next_field_id := next_field_id db;
     room_state_frames := fs; next_frame_id := n;
     room_state_deltas := room_state_deltas db; rooms := rooms db;
     event_points := event_points db; state_info_cache := state_info_cache db |}.
Definition set_deltas ds (db : FramesDb) : FramesDb :=
  {| room_state_fields := room_state_fields db; next_field_id := next_field_id db;
     room_state_frames := room_state_frames db; next_frame_id := next_frame_id db;
     room_state_deltas := ds; rooms := rooms db;
     event_points := event_points db; state_info_cache := state_info_cache db |}.
Definition set_rooms rs (db : FramesDb) : FramesDb :=
  {| room_state_fields := room_state_fields db; next_field_id := next_field_id db;
     room_state_frames := room_state_frames db; next_frame_id := next_frame_id db;
     room_state_deltas := room_state_deltas db; rooms := rs;
     event_points := event_points db; state_info_cache := state_info_cache db |}.
Definition set_points ps (db : FramesDb) : FramesDb :=
  {| room_state_fields := room_state_fields db; next_field_id := next_field_id db;
     room_state_frames := room_state_frames db; next_frame_id := next_frame_id db;
     room_state_deltas := room_state_deltas db; rooms := rooms db;
     event_points := ps; state_info_cache := state_info_cache db |}.
Definition set_cache c (db : FramesDb) : FramesDb :=
  {| room_state_fields := room_state_fields db; next_field_id := next_field_id db;
     room_state_frames := room_state_frames db; next_frame_id := next_frame_id db;
     room_state_deltas := room_state_deltas db; rooms := rooms db;
     event_points := event_points db; state_info_cache := c |}.

Abbreviation Db := (St FramesDb).

(** *** [crates/data/src/room.rs] *)

Definition get_state_field (field_id : Z) : Db (string * string) := fun db =>
  match filter (fun '(_, id) => id = field_id) (map_to_list (room_state_fields db)) with
  | (k, _) :: _ => (Done k, db)
  | [] => (Fail DbNotFound, db)
  end.
Definition get_state_field_id (event_ty state_key : string) : Db Z := fun db =>
  match room_state_fields db !! (event_ty, state_key) with
  | Some id => (Done id, db)
  | None => (Fail DbNotFound, db)
  end.
Definition ensure_state_field_id (event_ty state_key : string) : Db Z := fun db =>
  let id := next_field_id db in
  match room_state_fields db !! (event_ty, state_key) with
  | Some id' => (Done id', set_fields (room_state_fields db) (id + 1) db)
  | None => (Done id, set_fields (<[(event_ty, state_key) := id]> (room_state_fields db)) (id + 1) db)
  end.

(** The frame of the room's last event at or before [until_sn], or the room's
    current frame. *)
Definition data_get_room_frame_id (room_id : string) (until_sn : option Z) : Db (option Z) :=
  st_gets (fun db =>
    match until_sn with
    | Some until_sn =>
        let rows := filter (fun p => ep_room_id p = room_id /\ ep_event_sn p <= until_sn /\
                                     is_Some (ep_frame_id p))
                           (snd <$> map_to_list (event_points db)) in
        head (sort_by_key (rev_cmp Z.compare) ep_event_sn rows) ≫= ep_frame_id
    | None => mjoin (rooms db !! room_id)
    end).
Definition data_get_pdu_frame_id (event_id : string) : Db (option Z) :=
  st_gets (fun db => event_points db !! event_id ≫= ep_frame_id).
Definition data_get_pdu_before_frame_id (event_id : string) : Db (option Z) :=
  st_gets (fun db => event_points db !! event_id ≫= ep_before_frame_id).

(** The insertion returns no row when it conflicts, which [get_result] reports
    as [NotFound]. *)
Definition ensure_state_frame (room_id hash_data : string) : Db Z := fun db =>
  let id := next_frame_id db in
  match room_state_frames db !! (room_id, hash_data) with
  | Some _ => (Fail DbNotFound, set_frames (room_state_frames db) (id + 1) db)
  | None => (Done id, set_frames (<[(room_id, hash_data) := id]> (room_state_frames db)) (id + 1) db)
  end.
Definition get_state_frame_id (room_id hash_data : string) : Db Z := fun db =>
  match room_state_frames db !! (room_id, hash_data) with
  | Some id => (Done id, db)
  | None => (Fail DbNotFound, db)
  end.
Definition get_state_delta (frame_id : Z) : Db DbRoomStateDelta := fun db =>
  match room_state_deltas db !! frame_id with
  | Some d => (Done d, db)
  | None => (Fail DbNotFound, db)
  end.
Definition data_save_state_delta (frame_id : Z) (delta : DbRoomStateDelta) : Db unit :=
  st_modify (fun db =>
    match room_state_deltas db !! frame_id with
    | Some _ => db
    | None => set_deltas (<[frame_id := delta]> (room_state_deltas db)) db
    end).

(** *** [crates/server/src/event.rs] *)

Definition with_frame (frame_id : Z) (p : EventPoint) : EventPoint :=
  {| ep_event_sn := ep_event_sn p; ep_room_id := ep_room_id p;
     ep_frame_id := Some frame_id; ep_before_frame_id := ep_before_frame_id p |}.
Definition with_before_frame (frame_id : Z) (p : EventPoint) : EventPoint :=
  {| ep_event_sn := ep_event_sn p; ep_room_id := ep_room_id p;
     ep_frame_id := ep_frame_id p; ep_before_frame_id := Some frame_id |}.

Definition update_frame_id (event_id : string) (frame_id : Z) : Db unit :=
  st_modify (fun db => set_points (alter (with_frame frame_id) event_id (event_points db)) db).
Definition update_before_frame_id (event_id : string) (frame_id : Z) : Db unit :=
  st_modify (fun db =>
    set_points (alter (with_before_frame frame_id) event_id (event_points db)) db).
Definition update_frame_id_by_sn (sn : Z) (frame_id : Z) : Db unit :=
  st_modify (fun db => set_points
    ((fun p => if Z.eqb (ep_event_sn p) sn then with_frame frame_id p else p) <$> event_points db)
    db).
Definition get_event_id_by_sn (sn : Z) : Db string := fun db =>
  match filter (fun '(_, p) => ep_event_sn p = sn) (map_to_list (event_points db)) with
  | (id, _) :: _ => (Done id, db)
  | [] => (Fail DbNotFound, db)
  end.

(** ** [state/frame.rs], [state/field.rs] and [state/diff.rs] *)

Definition get_field (field_id : Z) : Db (string * string) := get_state_field field_id.
Definition get_field_id (event_ty state_key : string) : Db Z := get_state_field_id event_ty state_key.
Definition ensure_field_id (event_ty state_key : string) : Db Z :=
  ensure_state_field_id event_ty state_key.

Definition get_room_frame_id (room_id : string) (until_sn : option Z) : Db Z :=
  o ← data_get_room_frame_id room_id until_sn; st_some o MatrixNotFound.
Definition get_pdu_frame_id (event_id : string) : Db Z :=
  o ← data_get_pdu_frame_id event_id; st_some o MatrixNotFound.
Definition get_pdu_before_frame_id (event_id : string) : Db Z :=
  o ← data_get_pdu_before_frame_id event_id; st_some o MatrixNotFound.
Definition ensure_frame (room_id hash_data : string) : Db Z := ensure_state_frame room_id hash_data.
Definition get_frame_id (room_id hash_data : string) : Db Z := get_state_frame_id room_id hash_data.

(** [CompressedEvent::split]: the slices have eight bytes. *)
Definition ce_split (e : CompressedEvent) : Db (Z * string) :=
  field_id ← st_expect (ce_field_id e);
  sn ← st_expect (ce_event_sn e);
  id ← get_event_id_by_sn sn;
  mret (field_id, id).

Definition load_state_diff (frame_id : Z) : Db StateDiff :=
  d ← get_state_delta frame_id;
  mret {| sd_parent_id := dl_parent_id d;
          sd_appended := bytes_state (dl_appended d);
          sd_disposed := bytes_state (dl_disposed d) |}.
Definition save_state_delta (room_id : string) (frame_id : Z) (diff : StateDiff) : Db unit :=
  data_save_state_delta frame_id
    {| dl_room_id := room_id; dl_parent_id := sd_parent_id diff;
       dl_appended := state_bytes (sd_appended diff);
       dl_disposed := state_bytes (sd_disposed diff) |}.

Definition cache_get (frame_id : Z) : Db (option (list FrameInfo)) := fun db =>
  let '(r, c) := lru_get_mut frame_id (state_info_cache db) in (Done r, set_cache c db).
Definition cache_insert (frame_id : Z) (info : list FrameInfo) : Db unit :=
  st_modify (fun db => set_cache (lru_insert frame_id info (state_info_cache db)) db).

(** [load_frame_info]: the frame and the frames it is a delta of, root first;
    [fuel] bounds the parents followed. *)
Fixpoint load_frame_info (fuel : nat) (frame_id : Z) : Db (list FrameInfo) :=
  match fuel with
  | O => st_out_of_fuel
  | S fuel =>
      r ← cache_get frame_id;
      match r with
      | Some r => mret r
      | None =>
          diff ← load_state_diff frame_id;
          match sd_parent_id diff with
          | Some parent_id =>
              info ← load_frame_info fuel parent_id;
              top ← st_expect (last info);
              let full_state := (fi_full_state top ∪ sd_appended diff) ∖ sd_disposed diff in
              let info := (info ++ [{| fi_frame_id := frame_id; fi_full_state := full_state;
                                       fi_appended := sd_appended diff;
                                       fi_disposed := sd_disposed diff |}])%list in
              _ ← cache_insert frame_id info;
              mret info
          | None =>
              let info := [{| fi_frame_id := frame_id; fi_full_state := sd_appended diff;
                              fi_appended := sd_appended diff;
                              fi_disposed := sd_disposed diff |}] in
              _ ← cache_insert frame_id info;
              mret info
          end
      end
  end.

(** The number of frames bounds the parents of any of them. *)
Definition load_frames (frame_id : Z) : Db (list FrameInfo) := fun db =>
  load_frame_info (S (size (room_state_deltas db))) frame_id db.

(** [BTreeSet::remove], reporting whether the element was there. *)
Definition btree_remove (x : CompressedEvent) (s : CompressedState) : bool * CompressedState :=
  (bool_decide (x ∈ s), s ∖ {[ x ]}).

(** The two loops of [calc_and_save_state_delta] that fold a diff into the diff
    of the layer below. *)
Definition merge_disposed (disposed : CompressedState) (acc : CompressedState * CompressedState) :=
  foldl (fun '(parent_appended, parent_disposed) item =>
           match btree_remove item parent_appended with
           | (true, parent_appended) => (parent_appended, parent_disposed)
           | (false, parent_appended) => (parent_appended, {[ item ]} ∪ parent_disposed)
           end) acc (bset_iter disposed).
Definition merge_appended (appended : CompressedState) (acc : CompressedState * CompressedState) :=
  foldl (fun '(parent_appended, parent_disposed) item =>
           match btree_remove item parent_disposed with
           | (true, parent_disposed) => (parent_appended, parent_disposed)
           | (false, parent_disposed) => ({[ item ]} ∪ parent_appended, parent_disposed)
           end) acc (bset_iter appended).
Definition merge_diff (parent : FrameInfo) (appended disposed : CompressedState) :=
  merge_appended appended (merge_disposed disposed (fi_appended parent, fi_disposed parent)).

(** [calc_and_save_state_delta], the stack of parents given top first. *)
Fixpoint calc_and_save_state_delta_top (room_id : string) (frame_id : Z)
    (appended disposed : CompressedState) (diff_to_sibling : Z)
    (parent_states : list FrameInfo) : Db unit :=
  let diff_sum := Z.of_nat (size appended + size disposed) in
  match parent_states with
  | [] => save_state_delta room_id frame_id
            {| sd_parent_id := None; sd_appended := appended; sd_disposed := disposed |}
  | parent :: parent_states' =>
      let parent_diff := Z.of_nat (size (fi_appended parent) + size (fi_disposed parent)) in
      if Nat.ltb 3 (length parent_states)
         || Z.leb (2 * diff_to_sibling * parent_diff) (diff_sum * diff_sum) then
        let '(parent_appended, parent_disposed) := merge_diff parent appended disposed in
        calc_and_save_state_delta_top room_id frame_id parent_appended parent_disposed diff_sum
          parent_states'
      else save_state_delta room_id frame_id
             {| sd_parent_id := Some (fi_frame_id parent);
                sd_appended := appended; sd_disposed := disposed |}
  end.
Definition calc_and_save_state_delta (room_id : string) (frame_id : Z)
    (appended disposed : CompressedState) (diff_to_sibling : Z)
    (parent_states : list FrameInfo) : Db unit :=
  calc_and_save_state_delta_top room_id frame_id appended disposed diff_to_sibling
    (reverse parent_states).

(** ** [room/state.rs] *)

(** [utils::hash_keys] *)
Definition hash_keys (keys : list string) : string :=
  sha256 (foldr String.append EmptyString keys).

Definition set_room_state (room_id : string) (frame_id : Z) : Db unit :=
  st_modify (fun db => set_rooms (alter (fun _ => Some frame_id) room_id (rooms db)) db).

(** The diff from the top of a stack of frames to a new state. *)
Definition diff_from (states_parents : list FrameInfo) (new : CompressedState) :
    CompressedState * CompressedState :=
  match last states_parents with
  | Some parent => (new ∖ fi_full_state parent, fi_full_state parent ∖ new)
  | None => (new, ∅)
  end.

Definition load_parents (prev_frame_id : option Z) : Db (list FrameInfo) :=
  match prev_frame_id with
  | Some prev_frame_id => load_frames prev_frame_id
  | None => mret []
  end.

Definition set_event_state_before (event_id room_id : string) (state_ids_compressed : CompressedState) :
    Db Z :=
  prev ← st_try (get_room_frame_id room_id None);
  let hash_data := hash_keys (bset_iter state_ids_compressed) in
  existing ← st_try (get_frame_id room_id hash_data);
  match existing with
  | Ok frame_id =>
      _ ← update_before_frame_id event_id frame_id;
      mret frame_id
  | Err _ =>
      frame_id ← ensure_frame room_id hash_data;
      states_parents ← load_parents (ok prev);
      let '(appended, disposed) := diff_from states_parents state_ids_compressed in
      _ ← update_before_frame_id event_id frame_id;
      _ ← calc_and_save_state_delta room_id frame_id appended disposed 1000000 states_parents;
      mret frame_id
  end.

(** [bytes.starts_with(&field_id.to_be_bytes())] *)
Definition holds_field (field_id : Z) (e : CompressedEvent) : bool :=
  str_starts_with (i64_to_be_bytes field_id) e.
Definition find_field (field_id : Z) (s : CompressedState) : option CompressedEvent :=
  head (filter (fun e => holds_field field_id e = true) (bset_iter s)).

Definition append_to_state (new_pdu : SnPduEvent) : Db Z :=
  let ev := pdu new_pdu in
  prev ← st_try (get_room_frame_id (room_id ev) None);
  let prev_frame_id := ok prev in
  states_parents ← load_parents prev_frame_id;
  let state_before := default ∅ (fi_full_state <$> last states_parents) in
  before ← st_try (get_pdu_before_frame_id (event_id ev));
  _ ← match before with
      | Ok _ => mret tt
      | Err e =>
          if is_not_found e then
            _ ← set_event_state_before (event_id ev) (room_id ev) state_before; mret tt
          else st_fail e
      end;
  match state_key ev with
  | Some state_key =>
      field_id ← ensure_field_id (event_type ev) state_key;
      let new_compressed_event := ce_new field_id (event_sn new_pdu) in
      let replaces := last states_parents ≫= fun info => find_field field_id (fi_full_state info) in
      if bool_decide (Some new_compressed_event = replaces) then
        st_some prev_frame_id MatrixInvalidParam
      else
        let appended : CompressedState := {[ new_compressed_event ]} in
        let disposed : CompressedState := match replaces with Some r => {[ r ]} | None => ∅ end in
        let hash_data := hash_keys [new_compressed_event] in
        frame_id ← ensure_frame (room_id ev) hash_data;
        _ ← update_frame_id (event_id ev) frame_id;
        _ ← calc_and_save_state_delta (room_id ev) frame_id appended disposed 2 states_parents;
        mret frame_id
  | None =>
      frame_id ← st_some prev_frame_id MatrixInvalidParam;
      _ ← update_frame_id (event_id ev) frame_id;
      mret frame_id
  end.

(** How [timeline::append_pdu] makes an event part of the current state of its
    room. *)
Definition append_pdu_state (p : SnPduEvent) : Db Z :=
  frame_id ← append_to_state p;
  _ ← set_room_state (room_id (pdu p)) frame_id;
  mret frame_id.

Definition save_state (room_id : string) (new_compressed_events : CompressedState) : Db DeltaInfo :=
  prev ← st_try (get_room_frame_id room_id None);
  let prev_frame_id := ok prev in
  let hash_data := hash_keys (bset_iter new_compressed_events) in
  existing ← st_try (get_frame_id room_id hash_data);
  '(new_frame_id, frame_existed) ←
    match existing with
    | Ok frame_id => mret (frame_id, true)
    | Err _ => frame_id ← ensure_frame room_id hash_data; mret (frame_id, false)
    end;
  if bool_decide (Some new_frame_id = prev_frame_id) then
    mret {| di_frame_id := new_frame_id; di_appended := ∅; di_disposed := ∅ |}
  else
    _ ← st_iter (fun e => sn ← st_expect (ce_event_sn e); update_frame_id_by_sn sn new_frame_id)
          (bset_iter new_compressed_events);
    states_parents ← load_parents prev_frame_id;
    let '(appended, disposed) := diff_from states_parents new_compressed_events in
    _ ← (if (frame_existed : bool) then mret tt
         else calc_and_save_state_delta room_id new_frame_id appended disposed 2 states_parents);
    mret {| di_frame_id := new_frame_id; di_appended := appended; di_disposed := disposed |}.

(** The state of the top frame ([pop().expect(..).full_state]). *)
Definition full_state_of (frame_id : Z) : Db CompressedState :=
  info ← load_frames frame_id;
  top ← st_expect (last info);
  mret (fi_full_state top).

Definition get_full_state_ids (frame_id : Z) : Db (list (Z * string)) :=
  full_state ← full_state_of frame_id;
  splits ← st_map ce_split (bset_iter full_state);
  mret (foldl (fun map '(k, v) => index_insert k v map) [] splits).

Definition get_state_event_id (frame_id : Z) (event_type state_key : string) : Db string :=
  state_key_id ← get_field_id event_type state_key;
  full_state ← full_state_of frame_id;
  match find_field state_key_id full_state with
  | Some compressed =>
      r ← st_try (ce_split compressed);
      st_some (snd <$> ok r) MatrixNotFound
  | None => st_fail MatrixNotFound
  end.
End frames.

(** ** Diffs and layers *)

(** A diff [(a, d)] to a state [s]: what it appends is new, what it disposes of
    was there. *)
Definition valid_diff (s a d : CompressedState) : Prop :=
  a ## s /\ d ⊆ s /\ state_ok a /\ state_ok d.
Definition apply_diff (s a d : CompressedState) : CompressedState := (s ∪ a) ∖ d.

Section merge.
Implicit Types s a d pa pd : CompressedState.

(** The loop over the disposed events: an event the parent had appended is
    forgotten, another one is disposed of in the parent too. *)
Lemma merge_disposed_spec d pa pd :
  merge_disposed d (pa, pd) = (pa ∖ d, pd ∪ (d ∖ pa)).
Proof.
  rewrite <- (list_to_set_bset_iter d) at 2 3. unfold merge_disposed.
  generalize (NoDup_bset_iter d). generalize (bset_iter d). intros l. revert pa pd.
  induction l as [|x l IH]; intros pa pd Hl; cbn [foldl list_to_set].
  { f_equal; set_solver +. }
  apply NoDup_cons in Hl as [Hx Hl]. unfold btree_remove at 2.
  destruct (bool_decide_reflect (x ∈ pa)) as [e|e]; rewrite IH by done; f_equal;
    apply set_eq; intros y; destruct (decide (y = x)) as [->|]; set_solver.
Qed.

Lemma merge_appended_spec a pa pd :
  merge_appended a (pa, pd) = (pa ∪ (a ∖ pd), pd ∖ a).
Proof.
  rewrite <- (list_to_set_bset_iter a) at 2 3. unfold merge_appended.
  generalize (NoDup_bset_iter a). generalize (bset_iter a). intros l. revert pa pd.
  induction l as [|x l IH]; intros pa pd Hl; cbn [foldl list_to_set].
  { f_equal; set_solver +. }
  apply NoDup_cons in Hl as [Hx Hl]. unfold btree_remove at 2.
  destruct (bool_decide_reflect (x ∈ pd)) as [e|e]; rewrite IH by done; f_equal;
    apply set_eq; intros y; destruct (decide (y = x)) as [->|]; set_solver.
Qed.

(** Folding a diff into the diff below it composes them. *)
Lemma merge_diff_spec s parent a d pa pd :
  valid_diff s (fi_appended parent) (fi_disposed parent) ->
  valid_diff (apply_diff s (fi_appended parent) (fi_disposed parent)) a d ->
  merge_diff parent a d = (pa, pd) ->
  valid_diff s pa pd /\
  apply_diff s pa pd = apply_diff (apply_diff s (fi_appended parent) (fi_disposed parent)) a d.
Proof.
  unfold merge_diff. rewrite merge_disposed_spec, merge_appended_spec.
  generalize (fi_appended parent), (fi_disposed parent). intros pa0 pd0.
  unfold valid_diff, apply_diff, state_ok. intros (H1 & H2 & H3 & H4) (H5 & H6 & H7 & H8) [= <- <-].
  split_and!.
  - set_solver.
  - set_solver.
  - set_solver.
  - set_solver.
  - apply set_eq. intros x. specialize (H2 x). specialize (H5 x). specialize (H6 x).
    destruct (decide (x ∈ s)), (decide (x ∈ pa0)), (decide (x ∈ pd0)), (decide (x ∈ a)),
      (decide (x ∈ d)); set_solver.
Qed.
End merge.
