(* ===== verification/FrameStore.v ===== *)
(** * The frame store implements the states it is given

    What [load_frame_info] and [calc_and_save_state_delta] of StateFrames.v
    promise together: a frame loads as the state it was saved with, whatever
    layers hold it and whatever is cached, and [append_to_state],
    [set_event_state_before] and [save_state] implement the insertion of an event
    into a finite map from fields to events. *)
From S2P Require Import Prelude RustStr Json Signatures Events Effects StateFrames.
Open Scope Z_scope.

(** ** Loading *)

Section loading.
Context {C : Crypto} {LC : LruCache Z (list FrameInfo)}.

Definition root_info (id : Z) (d : DbRoomStateDelta) : FrameInfo :=
  {| fi_frame_id := id; fi_full_state := bytes_state (dl_appended d);
     fi_appended := bytes_state (dl_appended d); fi_disposed := bytes_state (dl_disposed d) |}.
Definition delta_info (id : Z) (d : DbRoomStateDelta) (below : FrameInfo) : FrameInfo :=
  {| fi_frame_id := id;
     fi_full_state := apply_diff (fi_full_state below) (bytes_state (dl_appended d))
                                 (bytes_state (dl_disposed d));
     fi_appended := bytes_state (dl_appended d); fi_disposed := bytes_state (dl_disposed d) |}.

(** The stack of a frame read from the table alone, top first. *)
Inductive chain (ds : gmap Z DbRoomStateDelta) : Z -> list FrameInfo -> Prop :=
| chain_root id d :
    ds !! id = Some d -> dl_parent_id d = None -> chain ds id [root_info id d]
| chain_delta id d p below st :
    ds !! id = Some d -> dl_parent_id d = Some p -> chain ds p (below :: st) ->
    chain ds id (delta_info id d below :: below :: st).

Lemma chain_unique ds id st st' : chain ds id st -> chain ds id st' -> st = st'.
Proof.
  intros H. revert st'. induction H as [id d Hd Hp|id d p below st Hd Hp Hc IH];
    intros st' H'; inversion H' as [id' d' Hd' Hp'|id' d' p' below' stt' Hd' Hp' Hc']; subst;
    simplify_eq; [done|]. by apply IH in Hc'; simplify_eq.
Qed.

Lemma chain_weaken ds ds' id st : ds ⊆ ds' -> chain ds id st -> chain ds' id st.
Proof.
  intros Hs. induction 1; [eapply chain_root|eapply chain_delta]; eauto using lookup_weaken.
Qed.

Lemma chain_head ds id st : chain ds id st -> exists fi st', st = fi :: st' /\ fi_frame_id fi = id.
Proof. inversion 1; eauto. Qed.

Lemma chain_tail ds id fi below st :
  chain ds id (fi :: below :: st) -> chain ds (fi_frame_id below) (below :: st).
Proof.
  inversion 1 as [|id' d p below' st' Hd Hp Hc]; subst.
  pose proof Hc as Hc'. by apply chain_head in Hc' as (? & ? & [= <- <-] & ->).
Qed.

(** Parents are older frames. *)
Definition parents_older (ds : gmap Z DbRoomStateDelta) : Prop :=
  forall id d p, ds !! id = Some d -> dl_parent_id d = Some p -> p < id.

Lemma chain_ids ds id st :
  parents_older ds -> chain ds id st ->
  NoDup (fi_frame_id <$> st) /\ Forall (fun fi => fi_frame_id fi <= id) st /\
  Forall (fun fi => fi_frame_id fi ∈ dom ds) st.
Proof.
  intros Hp. induction 1 as [id d Hd|id d p below st Hd Hpar Hc (IH1 & IH2 & IH3)].
  - split_and!; [apply NoDup_singleton| |]; apply Forall_singleton; cbn; [lia|].
    by apply elem_of_dom_2 in Hd.
  - specialize (Hp _ _ _ Hd Hpar). split_and!.
    + rewrite fmap_cons. apply NoDup_cons. split; [|done]. cbn [fi_frame_id delta_info].
      rewrite list_elem_of_fmap. intros (fi & -> & Hin).
      rewrite Forall_forall in IH2. apply IH2 in Hin. lia.
    + apply Forall_cons. split; [cbn; lia|]. eapply Forall_impl; [exact IH2|]. intros fi Hfi. cbn in *. lia.
    + apply Forall_cons. split; [|done]. cbn. by apply elem_of_dom_2 in Hd.
Qed.

Lemma chain_length ds id st :
  parents_older ds -> chain ds id st -> (length st <= size ds)%nat.
Proof.
  intros Hp Hc. destruct (chain_ids _ _ _ Hp Hc) as (Hnd & _ & Hdom).
  rewrite <- (length_fmap fi_frame_id), <- (size_list_to_set (C := gset Z)) by done.
  rewrite <- size_dom. apply subseteq_size. intros x.
  rewrite elem_of_list_to_set, list_elem_of_fmap. rewrite Forall_forall in Hdom. naive_solver.
Qed.

(** The cache holds what the tables hold. *)
Definition cache_coherent (ds : gmap Z DbRoomStateDelta) (c : lru Z (list FrameInfo)) : Prop :=
  forall id info, lru_entries c !! id = Some info -> exists st, info = reverse st /\ chain ds id st.

Lemma cache_coherent_weaken ds ds' c :
  ds ⊆ ds' -> cache_coherent ds c -> cache_coherent ds' c.
Proof.
  intros Hs Hc id info H. apply Hc in H as (st & -> & H). eauto using chain_weaken.
Qed.

Lemma cache_coherent_insert ds c id st :
  cache_coherent ds c -> chain ds id st -> cache_coherent ds (lru_insert id (reverse st) c).
Proof.
  intros Hc H id' info Hl. eapply lookup_weaken in Hl; [|apply lru_insert_sub].
  apply lookup_insert_Some in Hl as [[<- <-]|[_ Hl]]; eauto.
Qed.

Lemma set_cache_deltas c (db : FramesDb) :
  room_state_deltas (set_cache c db) = room_state_deltas db.
Proof. done. Qed.

(** [load_frame_info] returns the stack of the tables, whatever is cached, and
    touches the cache only. *)
Lemma load_frame_info_chain fuel id st db :
  cache_coherent (room_state_deltas db) (state_info_cache db) ->
  chain (room_state_deltas db) id st -> (length st <= fuel)%nat ->
  exists c, load_frame_info fuel id db = (Done (reverse st), set_cache c db) /\
            cache_coherent (room_state_deltas db) c.
Proof.
  intros Hco Hc. revert fuel db Hco Hc. remember (length st) as n eqn:Hn. revert id st Hn.
  induction n as [n IH] using lt_wf_ind. intros id st -> fuel db Hco Hc Hf.
  destruct fuel as [|fuel]; [by destruct st; [inversion Hc|cbn in Hf; lia]|].
  cbn [load_frame_info]. unfold cache_get, mbind at 1, St_bind at 1.
  pose proof (lru_get_lookup id (state_info_cache db)) as Hget.
  pose proof (lru_get_keeps id (state_info_cache db)) as Hkeep.
  destruct (lru_get_mut id (state_info_cache db)) as [r c] eqn:Hr. cbn [fst snd] in *.
  assert (cache_coherent (room_state_deltas db) c) as Hco'.
  { intros id' info Hl. eapply lookup_weaken in Hl; [|done]. by apply Hco. }
  destruct r as [info|].
  { symmetry in Hget. apply Hco in Hget as (st' & -> & Hc').
    rewrite (chain_unique _ _ _ _ Hc Hc'). by exists c. }
  inversion Hc as [id' d Hd Hp|id' d p below st' Hd Hp Hc']; subst.
  - unfold load_state_diff, get_state_delta, mbind at 1, St_bind at 1, mbind at 1, St_bind at 1.
    rewrite set_cache_deltas, Hd. cbn. rewrite Hp. eexists. split; [reflexivity|].
    by apply (cache_coherent_insert _ _ id [root_info id d]).
  - unfold load_state_diff, get_state_delta, mbind at 1, St_bind at 1, mbind at 1, St_bind at 1.
    rewrite set_cache_deltas, Hd. cbn [mret St_ret sd_parent_id]. rewrite Hp.
    destruct (IH (length (below :: st')) ltac:(cbn; lia) p (below :: st') eq_refl fuel
                (set_cache c db) Hco' Hc' ltac:(cbn in *; lia)) as (c2 & Hload & Hco2).
    rewrite (bind_St_run _ _ _ _ _ Hload). rewrite !reverse_cons, last_snoc.
    eexists. split; [|apply (cache_coherent_insert _ c2 id _ Hco2 Hc)].
    rewrite !reverse_cons. reflexivity.
Qed.
End loading.

(** ** Saving *)

Section saving.
Context {C : Crypto} {LC : LruCache Z (list FrameInfo)}.

Definition below_state (st : list FrameInfo) : CompressedState :=
  match st with [] => ∅ | fi :: _ => fi_full_state fi end.

(** Every layer of a stack (top first) is a diff to the layer below. *)
Fixpoint stack_ok (st : list FrameInfo) : Prop :=
  match st with
  | [] => True
  | fi :: st =>
      valid_diff (below_state st) (fi_appended fi) (fi_disposed fi) /\
      fi_full_state fi = apply_diff (below_state st) (fi_appended fi) (fi_disposed fi) /\
      stack_ok st
  end.

Definition is_stack (ds : gmap Z DbRoomStateDelta) (st : list FrameInfo) : Prop :=
  match st with [] => True | fi :: _ => chain ds (fi_frame_id fi) st end.

Lemma is_stack_tail ds fi st : is_stack ds (fi :: st) -> is_stack ds st.
Proof. destruct st as [|below st]; [done|]. cbn. apply chain_tail. Qed.

Lemma chain_is_stack ds id st : chain ds id st -> is_stack ds st.
Proof. intros H. pose proof H as (fi & st' & -> & <-)%chain_head. done. Qed.

Definition delta_row (room_id : string) (diff : StateDiff) : DbRoomStateDelta :=
  {| dl_room_id := room_id; dl_parent_id := sd_parent_id diff;
     dl_appended := state_bytes (sd_appended diff);
     dl_disposed := state_bytes (sd_disposed diff) |}.

Lemma save_state_delta_run room_id id diff db :
  room_state_deltas db !! id = None ->
  save_state_delta room_id id diff db =
  (Done tt, set_deltas (<[id := delta_row room_id diff]> (room_state_deltas db)) db).
Proof. intros Hid. unfold save_state_delta, data_save_state_delta, st_modify. by rewrite Hid. Qed.

(** A diff saved over a stack loads as the state it leads to. *)
Lemma saved_diff_chain ds room_id id st a d diff :
  is_stack ds st -> stack_ok st -> ds !! id = None -> valid_diff (below_state st) a d ->
  diff = {| sd_parent_id := fi_frame_id <$> head st; sd_appended := a; sd_disposed := d |} ->
  exists st', chain (<[id := delta_row room_id diff]> ds) id st' /\ stack_ok st' /\
              below_state st' = apply_diff (below_state st) a d /\ length st' = S (length st).
Proof.
  intros Hst Hok Hid Hv ->. pose proof Hv as (_ & Hd & Hoka & Hokd).
  set (ds' := <[id := _]> ds).
  assert (ds ⊆ ds') as Hsub by by apply insert_subseteq.
  assert (ds' !! id = Some (delta_row room_id
    {| sd_parent_id := fi_frame_id <$> head st; sd_appended := a; sd_disposed := d |})) as Hl
    by apply lookup_insert_eq.
  destruct st as [|below st].
  - exists [root_info id (delta_row room_id
              {| sd_parent_id := None; sd_appended := a; sd_disposed := d |})].
    split; [by apply chain_root|].
    unfold root_info, delta_row, below_state in *.
    cbn [dl_appended dl_disposed sd_appended sd_disposed stack_ok fi_appended fi_disposed
         fi_full_state]. rewrite !bytes_state_bytes by done.
    cbn [below_state]. assert (apply_diff ∅ a d = a) as ->.
    { unfold apply_diff. apply set_eq. set_solver +Hd. }
    split_and!; done.
  - eexists (delta_info id _ below :: below :: st). split.
    { eapply chain_delta; [exact Hl|reflexivity|]. eapply chain_weaken; [done|]. exact Hst. }
    unfold delta_info, delta_row.
    cbn [dl_appended dl_disposed sd_appended sd_disposed]. by rewrite !bytes_state_bytes.
Qed.

(** [calc_and_save_state_delta] writes one row; the frame then loads as the
    state the diff leads to, in at most four layers. *)
Lemma calc_and_save_spec room_id id st : forall a d sib db,
  is_stack (room_state_deltas db) st -> stack_ok st ->
  room_state_deltas db !! id = None -> valid_diff (below_state st) a d ->
  exists row st',
    calc_and_save_state_delta_top room_id id a d sib st db =
      (Done tt, set_deltas (<[id := row]> (room_state_deltas db)) db) /\
    chain (<[id := row]> (room_state_deltas db)) id st' /\ stack_ok st' /\
    below_state st' = apply_diff (below_state st) a d /\ (length st' <= 4)%nat /\
    (forall p, dl_parent_id row = Some p -> p ∈ dom (room_state_deltas db)).
Proof.
  induction st as [|parent st IH]; intros a d sib db Hst Hok Hid Hv.
  - destruct (saved_diff_chain _ room_id id [] a d _ Hst Hok Hid Hv eq_refl)
      as (st' & Hc & Hok' & Hb & Hlen).
    eexists _, st'. cbn [calc_and_save_state_delta_top]. rewrite save_state_delta_run by done.
    split_and!; [reflexivity|done|done|done|cbn in Hlen; lia|by intros].
  - cbn [calc_and_save_state_delta_top].
    destruct (Nat.ltb 3 (length (parent :: st)) || _) eqn:Hcond.
    + destruct Hok as (Hpv & Hfull & Hok). cbn [below_state] in Hv. rewrite Hfull in Hv.
      destruct (merge_diff parent a d) as [pa pd] eqn:Hm.
      destruct (merge_diff_spec _ _ _ _ _ _ Hpv Hv Hm) as [Hv' Ha'].
      destruct (IH pa pd (Z.of_nat (size a + size d)) db (is_stack_tail _ _ _ Hst) Hok Hid Hv')
        as (row & st' & -> & Hc & Hok' & Hb & Hlen & Hp).
      exists row, st'. split_and!; try done. by rewrite Hb, Ha', <- Hfull.
    + apply orb_false_iff in Hcond as [Hlen3 _]. apply Nat.ltb_ge in Hlen3.
      destruct (saved_diff_chain _ room_id id (parent :: st) a d _ Hst Hok Hid Hv eq_refl)
        as (st' & Hc & Hok' & Hb & Hlen).
      eexists _, st'. rewrite save_state_delta_run by done.
      split_and!; [reflexivity|done|done|done|lia|]. cbn. intros p [= <-].
      cbn in Hst. inversion Hst; by eapply elem_of_dom_2.
Qed.
End saving.

(** ** The store as a map from frames to room states *)

Section refinement.
Context {C : Crypto} {LC : LruCache Z (list FrameInfo)}.
Implicit Types (db : FramesDb) (abs : gmap Z (gmap Z Z)) (m : gmap Z Z).

(** Every frame of [abs] loads as its state, in at most four layers. *)
Record Loads db abs : Prop := {
  loads_dom : dom abs = dom (room_state_deltas db);
  loads_frame : forall id m, abs !! id = Some m ->
    map_i64 m /\ exists st, chain (room_state_deltas db) id st /\ stack_ok st /\
                            (length st <= 4)%nat /\ below_state st = encode m;
  loads_cache : cache_coherent (room_state_deltas db) (state_info_cache db);
  loads_older : parents_older (room_state_deltas db);
  loads_fresh : forall id, id ∈ dom abs -> id < next_frame_id db
}.

(** The key of a frame: the hash of the state, or, for a frame made by
    [append_to_state], the hash of the event it appended. *)
Definition key_of (m : gmap Z Z) (h : string) : Prop :=
  h = hash_keys (bset_iter (encode m)) \/
  exists f sn, m !! f = Some sn /\ h = hash_keys [ce_new f sn].

(** The fields of a state have been allocated. *)
Definition known_fields db m : Prop := map_Forall (fun f _ => f < next_field_id db) m.

Record Refines db abs : Prop := {
  refines_loads : Loads db abs;
  refines_rooms : forall r id, rooms db !! r = Some (Some id) -> id ∈ dom abs;
  refines_keys : forall r h id, room_state_frames db !! (r, h) = Some id ->
    exists m, abs !! id = Some m /\ key_of m h;
  refines_fields : forall k f, room_state_fields db !! k = Some f ->
    is_i64 f /\ f < next_field_id db;
  refines_fields_inj : forall k k' f, room_state_fields db !! k = Some f ->
    room_state_fields db !! k' = Some f -> k = k';
  refines_known : forall id m, abs !! id = Some m -> known_fields db m
}.

(** The current state of a room. *)
Definition room_state db abs (room_id : string) : gmap Z Z :=
  default ∅ (mjoin (rooms db !! room_id) ≫= fun id => abs !! id).

(** The sequence numbers of the events, which no operation here changes. *)
Definition event_sns db : gmap string Z := ep_event_sn <$> event_points db.

Lemma event_sns_alter db db' (f : EventPoint -> EventPoint) ev :
  (forall p, ep_event_sn (f p) = ep_event_sn p) ->
  event_points db' = alter f ev (event_points db) -> event_sns db' = event_sns db.
Proof.
  intros Hf He. unfold event_sns. rewrite He. apply map_eq. intros k. rewrite !lookup_fmap.
  destruct (decide (ev = k)) as [->|Hne]; [|by rewrite lookup_alter_ne].
  rewrite lookup_alter_eq. destruct (event_points db !! k); cbn; [by rewrite Hf|done].
Qed.

Lemma set_cache_same db : set_cache (state_info_cache db) db = db.
Proof. by destruct db. Qed.

Lemma loads_set_cache db abs c :
  Loads db abs -> cache_coherent (room_state_deltas db) c -> Loads (set_cache c db) abs.
Proof. intros [] Hc. by constructor. Qed.

Lemma load_parents_spec db abs prev :
  Loads db abs -> (forall id, prev = Some id -> id ∈ dom abs) ->
  exists st c, load_parents prev db = (Done (reverse st), set_cache c db) /\
    Loads (set_cache c db) abs /\ is_stack (room_state_deltas db) st /\ stack_ok st /\
    below_state st = encode (default ∅ (prev ≫= fun id => abs !! id)) /\
    (st = [] <-> prev = None).
Proof.
  intros HL Hprev. destruct prev as [id|].
  - destruct (abs !! id) as [m|] eqn:Hm;
      [|by apply not_elem_of_dom in Hm; destruct Hm; apply Hprev].
    destruct (loads_frame _ _ HL _ _ Hm) as (_ & st & Hc & Hok & _ & Hb).
    destruct (load_frame_info_chain (S (size (room_state_deltas db))) id st db)
      as (c & Hl & Hco); [apply HL|done| |].
    { apply chain_length in Hc; [lia|apply HL]. }
    exists st, c. cbn. rewrite Hm. split_and!; eauto using loads_set_cache, chain_is_stack.
    split; [|done]. intros ->. inversion Hc.
  - exists [], (state_info_cache db). rewrite set_cache_same. by split_and!.
Qed.

Lemma diff_from_reverse st new :
  diff_from (reverse st) new = (new ∖ below_state st, below_state st ∖ new).
Proof.
  unfold diff_from. destruct st as [|fi st]; cbn [below_state].
  - cbn. f_equal; apply set_eq; set_solver +.
  - by rewrite reverse_cons, last_snoc.
Qed.

Lemma diff_valid s new :
  state_ok s -> state_ok new ->
  valid_diff s (new ∖ s) (s ∖ new) /\ apply_diff s (new ∖ s) (s ∖ new) = new.
Proof.
  intros Hs Hn. split.
  - unfold valid_diff, state_ok in *. split_and!; set_solver.
  - unfold apply_diff. apply set_eq. intros x. destruct (decide (x ∈ s)), (decide (x ∈ new)); set_solver.
Qed.

(** Saving the diff to a new state makes the state a frame. *)
Lemma loads_calc db abs room_id id st a d sib m :
  Loads db abs -> is_stack (room_state_deltas db) st -> stack_ok st ->
  id < next_frame_id db -> (forall p, p ∈ dom abs -> p < id) ->
  valid_diff (below_state st) a d -> apply_diff (below_state st) a d = encode m -> map_i64 m ->
  exists row,
    calc_and_save_state_delta room_id id a d sib (reverse st) db =
      (Done tt, set_deltas (<[id := row]> (room_state_deltas db)) db) /\
    Loads (set_deltas (<[id := row]> (room_state_deltas db)) db) (<[id := m]> abs).
Proof.
  intros HL Hst Hok Hnext Hnew Hv Happ Hm.
  assert (room_state_deltas db !! id = None) as Hid.
  { apply not_elem_of_dom. rewrite <- (loads_dom _ _ HL). intros H%Hnew. lia. }
  destruct (calc_and_save_spec room_id id st a d sib db Hst Hok Hid Hv)
    as (row & st' & Hrun & Hc & Hok' & Hb & Hlen & Hp).
  exists row. unfold calc_and_save_state_delta. rewrite reverse_involutive. split; [done|].
  assert (room_state_deltas db ⊆ <[id := row]> (room_state_deltas db)) as Hsub
    by by apply insert_subseteq.
  constructor; cbn [room_state_deltas set_deltas state_info_cache next_frame_id].
  - rewrite !dom_insert_L. by rewrite (loads_dom _ _ HL).
  - intros id' m' [[<- <-]|[Hne Hl]]%lookup_insert_Some.
    + split; [done|]. exists st'. rewrite Hb. done.
    + destruct (loads_frame _ _ HL _ _ Hl) as (Hm' & st0 & Hc0 & ?). split; [done|].
      exists st0. split; [by eapply chain_weaken|done].
  - eapply cache_coherent_weaken; [done|apply HL].
  - intros id' d' p [[<- <-]|[Hne Hl]]%lookup_insert_Some Hpar; [|by eapply loads_older].
    apply Hnew. rewrite (loads_dom _ _ HL). by apply Hp.
  - intros id'. rewrite dom_insert_L, elem_of_union, elem_of_singleton.
    intros [->|H]; [done|]. by apply (loads_fresh _ _ HL).
Qed.

Definition room_frame db (room_id : string) : option Z := mjoin (rooms db !! room_id).

Lemma get_room_frame_run db room_id :
  st_try (get_room_frame_id room_id None) db =
  (Done (match room_frame db room_id with Some id => Ok id | None => Err MatrixNotFound end), db).
Proof.
  unfold get_room_frame_id, data_get_room_frame_id, st_gets, mbind, St_bind, st_try, room_frame.
  by destruct (mjoin (rooms db !! room_id)).
Qed.

Lemma ok_room_frame db room_id :
  ok (match room_frame db room_id with
      | Some id => Ok id | None => @Err AppError Z MatrixNotFound end) = room_frame db room_id.
Proof. by destruct (room_frame db room_id). Qed.

Lemma get_frame_id_run db room_id h :
  st_try (get_frame_id room_id h) db =
  (Done (match room_state_frames db !! (room_id, h) with
         | Some id => Ok id | None => Err DbNotFound end), db).
Proof.
  unfold get_frame_id, get_state_frame_id, st_try.
  by destruct (room_state_frames db !! (room_id, h)).
Qed.

Lemma ensure_frame_run db room_id h :
  room_state_frames db !! (room_id, h) = None ->
  ensure_frame room_id h db =
  (Done (next_frame_id db),
   set_frames (<[(room_id, h) := next_frame_id db]> (room_state_frames db))
              (next_frame_id db + 1) db).
Proof. intros H. unfold ensure_frame, ensure_state_frame. by rewrite H. Qed.

Lemma loads_set_frames db abs fs n :
  Loads db abs -> next_frame_id db <= n -> Loads (set_frames fs n db) abs.
Proof.
  intros [] Hn. constructor; try done. cbn. intros id H. specialize (loads_fresh0 _ H). lia.
Qed.

Lemma loads_set_points db abs ps : Loads db abs -> Loads (set_points ps db) abs.
Proof. by intros []; constructor. Qed.

Lemma room_frame_known db abs room_id id :
  Refines db abs -> room_frame db room_id = Some id -> id ∈ dom abs.
Proof.
  intros HR. unfold room_frame. destruct (rooms db !! room_id) as [[id'|]|] eqn:H; [|done..].
  intros [= ->]. by eapply refines_rooms.
Qed.

Lemma room_state_frame db abs room_id :
  room_state db abs room_id = default ∅ (room_frame db room_id ≫= fun id => abs !! id).
Proof. done. Qed.

Lemma room_state_i64 db abs room_id : Refines db abs -> map_i64 (room_state db abs room_id).
Proof.
  intros HR. rewrite room_state_frame. destruct (room_frame db room_id) as [id|]; cbn;
    [|apply map_Forall_empty]. destruct (abs !! id) as [m|] eqn:Hm; cbn; [|apply map_Forall_empty].
  by eapply loads_frame; [apply HR|].
Qed.

Lemma room_state_known db abs room_id :
  Refines db abs -> known_fields db (room_state db abs room_id).
Proof.
  intros HR. rewrite room_state_frame. destruct (room_frame db room_id) as [id|]; cbn;
    [|apply map_Forall_empty]. destruct (abs !! id) as [m|] eqn:Hm; cbn; [|apply map_Forall_empty].
  by eapply refines_known.
Qed.

(** A new frame of a room, made from its key, its diff and its state. *)
Lemma refines_new_frame db abs room_id h m row db' :
  Refines db abs -> room_state_frames db !! (room_id, h) = None -> key_of m h ->
  room_state_frames db' = <[(room_id, h) := next_frame_id db]> (room_state_frames db) ->
  rooms db' = rooms db -> room_state_fields db' = room_state_fields db ->
  next_field_id db' = next_field_id db -> known_fields db m ->
  Loads (set_deltas (<[next_frame_id db := row]> (room_state_deltas db)) db')
        (<[next_frame_id db := m]> abs) ->
  Refines (set_deltas (<[next_frame_id db := row]> (room_state_deltas db)) db')
          (<[next_frame_id db := m]> abs).
Proof.
  intros HR Hkey Hkm Hf Hr Hfl Hnf Hknown HL. constructor; [done|..]; cbn [rooms
    room_state_frames room_state_fields next_field_id set_deltas].
  - intros r id. rewrite Hr, dom_insert_L. intros H%(refines_rooms _ _ HR). set_solver +H.
  - intros r h' id. rewrite Hf. intros [[[= <- <-] <-]|[Hne Hl]]%lookup_insert_Some.
    + exists m. by rewrite lookup_insert_eq.
    + destruct (refines_keys _ _ HR _ _ _ Hl) as (m' & Hm' & Hk). exists m'.
      rewrite lookup_insert_ne; [done|]. intros <-.
      apply elem_of_dom_2, (loads_fresh _ _ (refines_loads _ _ HR)) in Hm'. lia.
  - rewrite Hfl, Hnf. apply HR.
  - rewrite Hfl. apply HR.
  - unfold known_fields. cbn. rewrite Hnf.
    intros id m' [[<- <-]|[_ Hl]]%lookup_insert_Some; [done|]. by eapply refines_known.
Qed.

Lemma fresh_insert db abs m : Loads db abs -> abs ⊆ <[next_frame_id db := m]> abs.
Proof.
  intros HL. apply insert_subseteq. apply not_elem_of_dom. intros H%(loads_fresh _ _ HL). lia.
Qed.

Lemma loads_fresh_delta db abs : Loads db abs -> room_state_deltas db !! next_frame_id db = None.
Proof.
  intros HL. apply not_elem_of_dom. rewrite <- (loads_dom _ _ HL).
  intros H%(loads_fresh _ _ HL). lia.
Qed.

(** [set_event_state_before] returns a frame of the state it is given: the frame
    its hash names, or a new one. *)
Lemma set_event_state_before_spec db abs event_id room_id m :
  Refines db abs -> map_i64 m -> known_fields db m ->
  let h := hash_keys (bset_iter (encode m)) in
  exists id db' abs',
    set_event_state_before event_id room_id (encode m) db = (Done id, db') /\
    Refines db' abs' /\ abs ⊆ abs' /\ rooms db' = rooms db /\
    room_state_fields db' = room_state_fields db /\ next_field_id db' = next_field_id db /\
    room_state_deltas db ⊆ room_state_deltas db' /\ event_sns db' = event_sns db /\
    room_state_frames db' = <[(room_id, h) := id]> (room_state_frames db) /\
    (room_state_frames db !! (room_id, h) = Some id \/ abs' !! id = Some m) /\
    (forall p, event_points db !! event_id = Some p ->
       ep_before_frame_id <$> event_points db' !! event_id = Some (Some id)).
Proof.
  intros HR Hm Hknown h. unfold set_event_state_before.
  st_step (get_room_frame_run db room_id). rewrite ok_room_frame. fold h.
  st_step (get_frame_id_run db room_id h).
  destruct (room_state_frames db !! (room_id, h)) as [id|] eqn:Hh.
  - exists id, (set_points (alter (with_before_frame id) event_id (event_points db)) db), abs.
    split; [reflexivity|]. split; [by destruct HR; constructor; [apply loads_set_points|..]|].
    split_and!; try done; [by apply (event_sns_alter db _ (with_before_frame id) event_id)|by rewrite insert_id|by left|].
    intros p Hp. cbn. by rewrite lookup_alter_eq, Hp.
  - st_step (ensure_frame_run db room_id h Hh).
    set (id := next_frame_id db). set (db1 := set_frames _ _ db).
    assert (Loads db1 abs) as HL1 by (apply loads_set_frames; [apply HR|lia]).
    destruct (load_parents_spec db1 abs (room_frame db room_id) HL1) as
      (st & c & Hload & HL2 & Hst & Hok & Hb & _); [intros id'; by apply room_frame_known|].
    st_step Hload. rewrite diff_from_reverse.
    destruct (diff_valid (below_state st) (encode m)) as [Hv Ha];
      [rewrite Hb; apply encode_ok|apply encode_ok|].
    set (db3 := set_points (alter (with_before_frame id) event_id (event_points db))
                           (set_cache c db1)).
    assert (update_before_frame_id event_id id (set_cache c db1) = (Done tt, db3)) as Hup
      by reflexivity.
    st_step Hup.
    assert (forall p, p ∈ dom abs -> p < id) as Hnew
      by apply (loads_fresh _ _ (refines_loads _ _ HR)).
    destruct (loads_calc db3 abs room_id id st (encode m ∖ below_state st)
                (below_state st ∖ encode m) 1000000 m) as (row & Hcalc & HL3);
      [by apply loads_set_points|done|done|cbn; lia|done|done|done|done|].
    st_step Hcalc. eexists id, _, (<[id := m]> abs). split; [reflexivity|].
    split; [by apply (refines_new_frame db abs room_id h m row db3); try done; left|].
    split_and!; try done.
    + by apply fresh_insert, HR.
    + apply insert_subseteq. exact (loads_fresh_delta db abs (refines_loads _ _ HR)).
    + by apply (event_sns_alter db _ (with_before_frame id) event_id).
    + right. apply lookup_insert_eq.
    + intros p Hp. cbn. by rewrite lookup_alter_eq, Hp.
Qed.

Lemma last_reverse {A} (l : list A) : last (reverse l) = head l.
Proof. destruct l as [|x l]; [done|]. by rewrite reverse_cons, last_snoc. Qed.

Lemma holds_field_new f f' sn :
  is_i64 f -> is_i64 f' -> holds_field f (ce_new f' sn) = bool_decide (f = f').
Proof.
  intros Hf Hf'. unfold holds_field, str_starts_with, ce_new.
  destruct (bool_decide_reflect (f = f')) as [->|Hne].
  - by rewrite str_strip_prefix_app.
  - destruct (str_strip_prefix _ _) as [r|] eqn:H; [|done]. destruct Hne.
    apply str_strip_prefix_Some in H. apply i64_to_be_bytes_inj; [done..|].
    assert (str_take 8 (i64_to_be_bytes f' +:+ i64_to_be_bytes sn) =
            str_take 8 (i64_to_be_bytes f +:+ r)) as He by congruence.
    rewrite <- (i64_to_be_bytes_len f) in He at 2. rewrite <- (i64_to_be_bytes_len f') in He at 1.
    by rewrite !str_take_app in He.
Qed.

Lemma head_filter_unique {A} (P : A -> Prop) `{!forall x, Decision (P x)} (l : list A) x :
  NoDup l -> x ∈ l -> P x -> (forall y, y ∈ l -> P y -> y = x) -> head (filter P l) = Some x.
Proof.
  intros Hnd Hx HPx Hu. destruct (filter P l) as [|y k] eqn:Hf.
  - assert (x ∈ filter P l) as Hin by by apply list_elem_of_filter. rewrite Hf in Hin. set_solver +Hin.
  - assert (y ∈ filter P l) as Hin by (rewrite Hf; left).
    apply list_elem_of_filter in Hin as [HP Hy]. cbn. f_equal. by apply Hu.
Qed.

(** Looking a field up in the encoding of a map. *)
Lemma find_field_encode m f :
  map_i64 m -> is_i64 f -> find_field f (encode m) = ce_new f <$> m !! f.
Proof.
  intros Hm Hf. unfold find_field. destruct (m !! f) as [sn|] eqn:Hl; cbn.
  - destruct (Hm _ _ Hl) as [_ Hsn].
    apply head_filter_unique; [apply NoDup_bset_iter| | |].
    + apply elem_of_bset_iter, elem_of_encode. eauto.
    + rewrite holds_field_new by done. by apply bool_decide_eq_true.
    + intros y Hy%elem_of_bset_iter Hh. apply elem_of_encode in Hy as (f' & sn' & Hl' & ->).
      destruct (Hm _ _ Hl'). rewrite holds_field_new in Hh by done.
      apply bool_decide_eq_true in Hh as <-. congruence.
  - destruct (filter _ _) as [|y k] eqn:Hy; [done|].
    assert (y ∈ filter (fun e => holds_field f e = true) (bset_iter (encode m))) as H
      by (rewrite Hy; left).
    apply list_elem_of_filter in H as [Hh Hin%elem_of_bset_iter].
    apply elem_of_encode in Hin as (f' & sn' & Hl' & ->). destruct (Hm _ _ Hl').
    rewrite holds_field_new in Hh by done. apply bool_decide_eq_true in Hh as <-. congruence.
Qed.

Lemma get_pdu_before_run db ev :
  st_try (get_pdu_before_frame_id ev) db =
  (Done (match event_points db !! ev ≫= ep_before_frame_id with
         | Some id => Ok id | None => Err MatrixNotFound end), db).
Proof.
  unfold st_try, get_pdu_before_frame_id, data_get_pdu_before_frame_id.
  rewrite (bind_St_run (st_gets _) _ db _ db eq_refl).
  by destruct (event_points db !! ev ≫= ep_before_frame_id).
Qed.

(** What [append_to_state] does before it looks at the state key: the stack of
    the room's frame is loaded and the state before the event is recorded. *)
Lemma append_prelude db abs ev room_id :
  Refines db abs ->
  let prev := room_frame db room_id in
  let m := room_state db abs room_id in
  exists st db1 abs1,
    (forall B (k : list FrameInfo -> St FramesDb B),
      (states_parents ← load_parents prev;
       let state_before := default ∅ (fi_full_state <$> last states_parents) in
       before ← st_try (get_pdu_before_frame_id ev);
       _ ← match before with
           | Ok _ => mret tt
           | Err e =>
               if is_not_found e then
                 _ ← set_event_state_before ev room_id state_before; mret tt
               else st_fail e
           end;
       k states_parents) db = k (reverse st) db1) /\
    Refines db1 abs1 /\ abs ⊆ abs1 /\ rooms db1 = rooms db /\
    room_state_fields db1 = room_state_fields db /\ next_field_id db1 = next_field_id db /\
    event_sns db1 = event_sns db /\
    is_stack (room_state_deltas db1) st /\ stack_ok st /\ below_state st = encode m.
Proof.
  intros HR prev m.
  destruct (load_parents_spec db abs prev) as (st & c & Hload & HL & Hst & Hok & Hb & _);
    [apply HR|intros id; by apply room_frame_known|].
  set (db0 := set_cache c db) in *.
  assert (Refines db0 abs) as HR0 by (destruct HR; by constructor).
  fold (room_state db abs room_id) in Hb.
  change (below_state st = encode m) in Hb.
  assert (default ∅ (fi_full_state <$> last (reverse st)) = encode m) as Hsb.
  { rewrite last_reverse, <- Hb. by destruct st. }
  destruct (event_points db0 !! ev ≫= ep_before_frame_id) as [bid|] eqn:Hbid.
  - exists st, db0, abs. split; [|by split_and!]. intros B k. st_step Hload.
    st_step (get_pdu_before_run db0 ev). by rewrite Hbid.
  - destruct (set_event_state_before_spec db0 abs ev room_id m HR0) as
      (id & db1 & abs1 & Hrun & HR1 & Hsub & Hro & Hf & Hn & Hds & Hsns & _);
      [by apply room_state_i64|by apply (room_state_known db0)|].
    exists st, db1, abs1. split.
    + intros B k. st_step Hload. cbn zeta. rewrite Hsb.
      st_step (get_pdu_before_run db0 ev). rewrite Hbid. cbn [is_not_found].
      erewrite bind_St_run; [done|]. by st_step Hrun.
    + split_and!; try done. destruct st as [|fi st]; [done|]. cbn in *.
      by eapply chain_weaken.
Qed.

Lemma replaces_spec st m f :
  map_i64 m -> is_i64 f -> below_state st = encode m ->
  (last (reverse st) ≫= fun info => find_field f (fi_full_state info)) = ce_new f <$> m !! f.
Proof.
  intros Hm Hf Hb. rewrite last_reverse, <- find_field_encode by done. rewrite <- Hb.
  by destruct st.
Qed.

(** Putting an event in a field of a state is a diff. *)
Lemma insert_diff m f sn :
  map_i64 m -> is_i64 f -> is_i64 sn -> m !! f <> Some sn ->
  let d := match ce_new f <$> m !! f with Some r => {[ r ]} | None => ∅ end in
  valid_diff (encode m) {[ ce_new f sn ]} d /\
  apply_diff (encode m) {[ ce_new f sn ]} d = encode (<[f := sn]> m) /\ map_i64 (<[f := sn]> m).
Proof.
  intros Hm Hf Hsn Hne. split_and!.
  - assert (ce_new f sn ∉ encode m) as Hnot by by rewrite ce_new_elem.
    unfold valid_diff, state_ok. split_and!; [set_solver +Hnot| | |].
    + destruct (m !! f) as [o|] eqn:Ho; [|set_solver +]. cbn.
      assert (ce_new f o ∈ encode m) as Hin by (apply elem_of_encode; eauto). set_solver +Hin.
    + intros e ->%elem_of_singleton. apply ce_new_ok.
    + destruct (m !! f) as [o|]; cbn; [|set_solver +].
      intros e ->%elem_of_singleton. apply ce_new_ok.
  - rewrite (encode_insert m f sn (m !! f)) by done. unfold apply_diff. by destruct (m !! f).
  - by apply map_Forall_insert_2.
Qed.

(** The field a pair of event type and state key has, or gets. *)
Definition field_of db (k : string * string) : Z :=
  default (next_field_id db) (room_state_fields db !! k).

Lemma ensure_field_run db ty k :
  let fld := field_of db (ty, k) in
  exists db', ensure_field_id ty k db = (Done fld, db') /\
    (forall abs, is_i64 (next_field_id db) -> Refines db abs -> Refines db' abs /\ is_i64 fld /\ fld < next_field_id db') /\
    rooms db' = rooms db /\ room_state_deltas db' = room_state_deltas db /\
    room_state_frames db' = room_state_frames db /\ event_points db' = event_points db /\
    (room_state_fields db' = room_state_fields db \/
     room_state_fields db' = <[(ty, k) := fld]> (room_state_fields db)) /\
    room_state_fields db' !! (ty, k) = Some fld.
Proof.
  unfold field_of, ensure_field_id, ensure_state_field_id.
  destruct (room_state_fields db !! (ty, k)) as [id|] eqn:Hk; cbn [default]; eexists;
    (split; [reflexivity|]); split.
  - intros abs Hn HR. split; [|destruct (refines_fields _ _ HR _ _ Hk); cbn; split; [done|lia]].
    destruct HR as [[] Hr Hk' Hfl Hinj Hkn]. constructor; [by constructor|done|done| |done|];
      unfold known_fields; cbn.
    + intros k' f [Hi Hlt]%Hfl. split; [done|lia].
    + intros id' m H%Hkn. eapply map_Forall_impl; [exact H|]. cbn. intros. lia.
  - split_and!; try done. by left.
  - intros abs Hn HR. split; [|cbn; split; [done|lia]]. destruct HR as [[] Hr Hk' Hfl Hinj Hkn].
    constructor; [by constructor|done|done|..]; unfold known_fields; cbn.
    + intros k' f [[_ <-]|[_ [Hi Hlt]%Hfl]]%lookup_insert_Some; (split; [done|lia]).
    + intros k1 k2 f [[<- <-]|[Hne1 Hl1]]%lookup_insert_Some
        [[<- Heq]|[Hne2 Hl2]]%lookup_insert_Some; [done|apply Hfl in Hl2; lia| |by eapply Hinj].
      apply Hfl in Hl1. lia.
    + intros id' m H%Hkn. eapply map_Forall_impl; [exact H|]. cbn. intros. lia.
  - split_and!; try done; [by right|apply lookup_insert_eq].
Qed.

(** The part of [append_to_state] that makes the frame of a state event. *)
Lemma append_new_frame db abs room_id ev st m f sn :
  Refines db abs -> is_stack (room_state_deltas db) st -> stack_ok st ->
  below_state st = encode m -> map_i64 m -> is_i64 f -> is_i64 sn -> m !! f <> Some sn ->
  known_fields db (<[f := sn]> m) ->
  let h := hash_keys [ce_new f sn] in
  let d := match ce_new f <$> m !! f with Some r => {[ r ]} | None => ∅ end in
  exists r db' abs',
    (frame_id ← ensure_frame room_id h;
     _ ← update_frame_id ev frame_id;
     _ ← calc_and_save_state_delta room_id frame_id {[ ce_new f sn ]} d 2 (reverse st);
     mret frame_id) db = (r, db') /\
    Refines db' abs' /\ abs ⊆ abs' /\ rooms db' = rooms db /\
    room_state_fields db' = room_state_fields db /\ event_sns db' = event_sns db /\
    match r with
    | Done id => abs' !! id = Some (<[f := sn]> m)
    | Fail e => e = DbNotFound /\ is_Some (room_state_frames db' !! (room_id, h))
    | _ => False
    end.
Proof.
  intros HR Hst Hok Hb Hm Hf Hsn Hne Hkn h d.
  destruct (room_state_frames db !! (room_id, h)) as [id|] eqn:Hh.
  - eexists (Fail DbNotFound), (set_frames (room_state_frames db) (next_frame_id db + 1) db), abs.
    split; [by unfold ensure_frame, ensure_state_frame, mbind, St_bind; rewrite Hh|].
    split_and!; try done.
    destruct HR; constructor; try done. apply loads_set_frames; [done|lia].
  - st_step (ensure_frame_run db room_id h Hh). set (id := next_frame_id db).
    set (db1 := set_points (alter (with_frame id) ev (event_points db))
      (set_frames (<[(room_id, h) := id]> (room_state_frames db)) (id + 1) db)).
    assert (update_frame_id ev id (set_frames (<[(room_id, h) := id]> (room_state_frames db))
              (id + 1) db) = (Done tt, db1)) as Hup by reflexivity.
    st_step Hup. destruct (insert_diff m f sn Hm Hf Hsn Hne) as (Hv & Ha & Hm'). fold d in Hv, Ha.
    destruct (loads_calc db1 abs room_id id st {[ ce_new f sn ]} d 2 (<[f := sn]> m))
      as (row & Hcalc & HL); try (by rewrite ?Hb); [|cbn; lia|..].
    { apply loads_set_points, loads_set_frames; [apply HR|lia]. }
    { apply (loads_fresh _ _ (refines_loads _ _ HR)). }
    st_step Hcalc. eexists (Done id), _, (<[id := <[f := sn]> m]> abs). split; [reflexivity|].
    split_and!; [|by apply fresh_insert, HR|done|done| |apply lookup_insert_eq];
      [|by apply (event_sns_alter db _ (with_frame id) ev)].
    apply (refines_new_frame db abs room_id h _ row db1); try done.
    right. exists f, sn. by rewrite lookup_insert_eq.
Qed.

Lemma append_to_state_spec db abs p :
  Refines db abs -> is_i64 (event_sn p) -> is_i64 (next_field_id db) ->
  let ev := pdu p in
  let m := room_state db abs (room_id ev) in
  exists r db' abs',
    append_to_state p db = (r, db') /\ Refines db' abs' /\ abs ⊆ abs' /\ rooms db' = rooms db /\
    event_sns db' = event_sns db /\
    (match state_key ev with
     | Some k => (room_state_fields db' = room_state_fields db \/
                  room_state_fields db' = <[(event_type ev, k) := field_of db (event_type ev, k)]>
                                            (room_state_fields db)) /\
                 room_state_fields db' !! (event_type ev, k) = Some (field_of db (event_type ev, k))
     | None => room_state_fields db' = room_state_fields db
     end) /\
    match r with
    | Done id => abs' !! id = Some (match state_key ev with
                                    | Some k => <[field_of db (event_type ev, k) := event_sn p]> m
                                    | None => m
                                    end)
    | Fail MatrixInvalidParam => state_key ev = None /\ room_frame db (room_id ev) = None
    | Fail DbNotFound => exists k, state_key ev = Some k /\
        is_Some (room_state_frames db' !!
          (room_id ev, hash_keys [ce_new (field_of db (event_type ev, k)) (event_sn p)]))
    | _ => False
    end.
Proof.
  intros HR Hsn Hnf ev m. unfold append_to_state.
  st_step (get_room_frame_run db (room_id (pdu p))). rewrite ok_room_frame. fold ev.
  destruct (append_prelude db abs (event_id ev) (room_id ev) HR) as
    (st & db1 & abs1 & Hpre & HR1 & Hsub & Hro & Hfl & Hnfl & Hsns & Hst & Hok & Hb). fold m in Hb.
  assert (forall id, room_frame db (room_id ev) = Some id -> abs1 !! id = Some m) as Hprev.
  { intros id Hid. pose proof (room_frame_known _ _ _ _ HR Hid) as [m' Hm']%elem_of_dom.
    eapply lookup_weaken; [|done]. unfold m, room_state. fold (room_frame db (room_id ev)).
    rewrite Hid. cbn. by rewrite Hm'. }
  rewrite Hpre. clear Hpre. destruct (state_key ev) as [k|] eqn:Hk.
  - destruct (ensure_field_run db1 (event_type ev) k) as
      (db2 & Hf & HR2 & Hro2 & Hds2 & Hfr2 & Hep2 & Hins & Hk2).
    assert (field_of db1 (event_type ev, k) = field_of db (event_type ev, k)) as Hfe
      by (unfold field_of; by rewrite Hfl, Hnfl).
    rewrite Hfe in *. set (f := field_of db (event_type ev, k)) in *.
    destruct (HR2 abs1) as (HR2' & Hf64 & Hlt); [by rewrite Hnfl|done|]. clear HR2. st_step Hf.
    cbn zeta. rewrite (replaces_spec st m f) by (try done; by apply room_state_i64).
    assert (map_i64 m) as Hm64 by by apply room_state_i64.
    assert (known_fields db2 m) as Hkn.
    { destruct (room_frame db (room_id ev)) as [id|] eqn:Hid.
      - by eapply refines_known, Hprev.
      - unfold m. rewrite room_state_frame, Hid. apply map_Forall_empty. }
    case_bool_decide as Hsame.
    + destruct (m !! f) as [sn|] eqn:Hmf; [|done]. cbn in Hsame. apply (inj Some) in Hsame.
      destruct (Hm64 _ _ Hmf). apply ce_new_inj in Hsame as [_ <-]; [|done..].
      destruct (room_frame db (room_id ev)) as [id|] eqn:Hid;
        [|by unfold m in Hmf; rewrite room_state_frame, Hid in Hmf; cbn in Hmf;
          rewrite lookup_empty in Hmf].
      eexists (Done id), db2, abs1. split; [reflexivity|]. rewrite (insert_id m) by done.
      split_and!; try done; [congruence|by unfold event_sns; rewrite Hep2|by rewrite <- Hfl|].
      by apply Hprev.
    + destruct (append_new_frame db2 abs1 (room_id ev) (event_id ev) st m f (event_sn p)) as
        (r & db' & abs' & Hrun & HR' & Hsub' & Hro' & Hfl' & Hsns' & Hr); try done.
      { by rewrite Hds2. }
      { intros Hmf. rewrite Hmf in Hsame. done. }
      { by apply map_Forall_insert_2. }
      exists r, db', abs'. split; [exact Hrun|]. split_and!; try done; [by etrans|congruence|..].
      * rewrite Hsns', <- Hsns. unfold event_sns. by rewrite Hep2.
      * rewrite Hfl', <- Hfl. done.
      * by rewrite Hfl'.
      * destruct r as [id|[]| |]; naive_solver.
  - destruct (room_frame db (room_id ev)) as [id|] eqn:Hid.
    + eexists (Done id), _, abs1. split; [reflexivity|].
      split; [by destruct HR1; constructor; [apply loads_set_points|..]|]. split_and!; eauto.
      rewrite <- Hsns. by apply (event_sns_alter db1 _ (with_frame id) (event_id ev)).
    + eexists (Fail MatrixInvalidParam), db1, abs1. by split_and!.
Qed.

(** ** What the server promises of a room's state *)

(** The current state of a room, by event type and state key. *)
Definition room_view db abs (room_id : string) (k : string * string) : option Z :=
  room_state_fields db !! k ≫= fun f => room_state db abs room_id !! f.

Lemma room_state_weaken db db' abs abs' r :
  Refines db abs -> abs ⊆ abs' -> room_frame db' r = room_frame db r ->
  room_state db' abs' r = room_state db abs r.
Proof.
  intros HR Hsub Hr. rewrite !room_state_frame, Hr.
  destruct (room_frame db r) as [id|] eqn:Hid; [|done]. cbn.
  pose proof (room_frame_known _ _ _ _ HR Hid) as [m Hm]%elem_of_dom.
  by rewrite Hm, (lookup_weaken _ _ _ _ Hm Hsub).
Qed.

(** A room whose frame does not move keeps its view when fields are added. *)
Lemma room_view_weaken db db' abs abs' r :
  Refines db abs -> abs ⊆ abs' -> room_frame db' r = room_frame db r ->
  (room_state_fields db' = room_state_fields db \/
   exists k, room_state_fields db' = <[k := field_of db k]> (room_state_fields db)) ->
  forall k, room_view db' abs' r k = room_view db abs r k.
Proof.
  intros HR Hsub Hr Hf k. unfold room_view. rewrite (room_state_weaken db db' abs abs' r) by done.
  destruct Hf as [->|(k0 & ->)]; [done|]. destruct (decide (k0 = k)) as [->|Hne];
    [|by rewrite lookup_insert_ne].
  rewrite lookup_insert_eq. cbn. unfold field_of.
  destruct (room_state_fields db !! k) as [f|] eqn:Hk; [done|]. cbn.
  destruct (room_state db abs r !! next_field_id db) as [sn|] eqn:Hl; [|done].
  pose proof (room_state_known _ _ r HR _ _ Hl) as Hlt. cbn in Hlt. lia.
Qed.

Lemma set_room_state_refines db abs r id :
  Refines db abs -> id ∈ dom abs ->
  Refines (set_rooms (alter (fun _ => Some id) r (rooms db)) db) abs.
Proof.
  intros [[] Hr Hk Hfl Hinj Hkn] Hid. constructor; try done. cbn.
  intros r' id'. destruct (decide (r = r')) as [<-|Hne].
  - rewrite lookup_alter_eq. by destruct (rooms db !! r); intros [= <-].
  - rewrite lookup_alter_ne by done. apply Hr.
Qed.

Lemma set_rooms_lookup db r o id :
  rooms db !! r = Some o ->
  rooms (set_rooms (alter (fun _ => Some id) r (rooms db)) db) !! r = Some (Some id).
Proof. intros H. cbn. by rewrite lookup_alter_eq, H. Qed.

(** C4: [timeline::append_pdu] implements the insertion of an event into the
    state of its room, a map from pairs of event type and state key to events:
    when it succeeds the pair of a state event is mapped to that event and
    nothing else changes, in this room or another; a message leaves every room
    as it was.  Every frame ever made still loads as its state ([abs ⊆ abs']),
    in at most four layers, whatever the cache evicts.  It fails only for a
    message in a room without a frame, or when the key of the new frame (the hash
    of the event alone) is taken, and a failure leaves every room as it was. *)
Theorem append_pdu_state_refines db abs p :
  Refines db abs -> is_i64 (event_sn p) -> is_i64 (next_field_id db) ->
  is_Some (rooms db !! room_id (pdu p)) ->
  let ev := pdu p in
  exists r db' abs',
    append_pdu_state p db = (r, db') /\ Refines db' abs' /\ abs ⊆ abs' /\
    match r with
    | Done id =>
        rooms db' !! room_id ev = Some (Some id) /\
        (forall k, room_view db' abs' (room_id ev) k =
           if decide (Some k = (event_type ev,.) <$> state_key ev) then Some (event_sn p)
           else room_view db abs (room_id ev) k) /\
        (forall r k, r <> room_id ev -> room_view db' abs' r k = room_view db abs r k)
    | Fail e =>
        (forall r k, room_view db' abs' r k = room_view db abs r k) /\
        match e with
        | MatrixInvalidParam => state_key ev = None /\ room_frame db (room_id ev) = None
        | DbNotFound => exists k, state_key ev = Some k /\
            is_Some (room_state_frames db' !!
              (room_id ev, hash_keys [ce_new (field_of db (event_type ev, k)) (event_sn p)]))
        | _ => False
        end
    | _ => False
    end.
Proof.
  intros HR Hsn Hnf [o Hroom] ev.
  destruct (append_to_state_spec db abs p HR Hsn Hnf) as
    (r & db1 & abs1 & Hrun & HR1 & Hsub & Hro & Hsns & Hfl & Hr). fold ev in Hfl, Hr.
  assert (room_state_fields db1 = room_state_fields db \/
    exists k, room_state_fields db1 = <[k := field_of db k]> (room_state_fields db)) as Hfl'
    by (destruct (state_key ev); naive_solver).
  unfold append_pdu_state. destruct r as [id|e| |]; [|..].
  - st_step Hrun. set (db2 := set_rooms (alter (fun _ => Some id) (room_id ev) (rooms db1)) db1).
    eexists (Done id), db2, abs1. split; [reflexivity|].
    split; [apply set_room_state_refines; [done|by eapply elem_of_dom_2]|]. split; [done|].
    assert (rooms db2 !! room_id ev = Some (Some id)) as Hset
      by (apply (set_rooms_lookup _ _ o); by rewrite Hro).
    split; [done|]. split.
    + intros k. unfold room_view at 1. rewrite room_state_frame.
      assert (room_frame db2 (room_id ev) = Some id) as -> by (unfold room_frame; by rewrite Hset).
      cbn. rewrite Hr. cbn. destruct (state_key ev) as [sk|]; cbn.
      * destruct Hfl as [Hfl Hk]. destruct (decide _) as [[= ->]|Hne].
        { rewrite Hk. cbn. by rewrite lookup_insert_eq. }
        rewrite <- (room_view_weaken db db1 abs abs1 (room_id ev)) by (try done;
          unfold room_frame; by rewrite Hro). unfold room_view.
        destruct (room_state_fields db1 !! k) as [f|] eqn:Hf; cbn; [|done].
        rewrite lookup_insert_ne; [by rewrite (room_state_weaken db db1 abs abs1) by
          (try done; unfold room_frame; by rewrite Hro)|].
        intros <-. destruct Hne. f_equal. by eapply refines_fields_inj.
      * rewrite decide_False by done. unfold room_view. by rewrite Hfl.
    + intros r k Hne. apply room_view_weaken; try done. unfold room_frame. cbn.
      by rewrite lookup_alter_ne, Hro.
  - rewrite (bind_St_fail _ _ _ _ _ Hrun). exists (Fail e), db1, abs1. split_and!; try done.
    intros r k. apply room_view_weaken; try done. unfold room_frame. by rewrite Hro.
  - done.
  - done.
Qed.

(** ** Reading a state *)

Lemma full_state_of_spec db abs id m :
  Loads db abs -> abs !! id = Some m ->
  exists c, full_state_of id db = (Done (encode m), set_cache c db) /\ Loads (set_cache c db) abs.
Proof.
  intros HL Hm. destruct (load_parents_spec db abs (Some id) HL) as
    (st & c & Hload & HL' & _ & _ & Hb & Hne); [intros ? [= <-]; by eapply elem_of_dom_2|].
  exists c. split; [|done]. unfold full_state_of. cbn [load_parents] in Hload. st_step Hload.
  rewrite last_reverse. cbn in Hb. rewrite Hm in Hb. cbn in Hb. rewrite <- Hb.
  destruct st as [|fi st]; [by destruct Hne as [Hne _]; discriminate Hne|done].
Qed.

(** An event is found by its sequence number. *)
Lemma get_event_id_by_sn_run db sn eid :
  event_sns db !! eid = Some sn -> (forall e, event_sns db !! e = Some sn -> e = eid) ->
  get_event_id_by_sn sn db = (Done eid, db).
Proof.
  intros He Hu. unfold get_event_id_by_sn. unfold event_sns in *.
  rewrite lookup_fmap in He. destruct (event_points db !! eid) as [p|] eqn:Hp; [|done].
  injection He as He. set (l := filter _ _).
  assert (head l = Some (eid, p)) as Hhead.
  { apply head_filter_unique; [apply NoDup_map_to_list|by apply elem_of_map_to_list|done|].
    intros [e' p'] Hin%elem_of_map_to_list Hsn. cbn in Hsn.
    assert (e' = eid) as -> by (apply Hu; rewrite lookup_fmap, Hin; cbn; by rewrite Hsn). congruence. }
  destruct l as [|[? ?] ?]; [done|]. by injection Hhead as -> ->.
Qed.

Lemma get_state_event_id_run db abs id m ty k f sn eid :
  Refines db abs -> abs !! id = Some m -> room_state_fields db !! (ty, k) = Some f ->
  m !! f = Some sn -> event_sns db !! eid = Some sn ->
  (forall e, event_sns db !! e = Some sn -> e = eid) ->
  exists c, get_state_event_id id ty k db = (Done eid, set_cache c db).
Proof.
  intros HR Hm Hf Hsn He Hu.
  destruct (full_state_of_spec db abs id m) as (c & Hfull & _); [apply HR|done|].
  destruct (loads_frame _ _ (refines_loads _ _ HR) _ _ Hm) as [Hm64 _].
  destruct (Hm64 _ _ Hsn) as [Hf64 Hsn64].
  exists c. unfold get_state_event_id.
  assert (get_field_id ty k db = (Done f, db)) as Hg
    by (unfold get_field_id, get_state_field_id; by rewrite Hf).
  st_step Hg. st_step Hfull. rewrite find_field_encode by done. rewrite Hsn.
  cbn [fmap option_fmap option_map].
  assert (ce_split (ce_new f sn) (set_cache c db) = (Done (f, eid), set_cache c db)) as Hsplit.
  { unfold ce_split. rewrite ce_field_id_new, ce_event_sn_new by done. cbn [st_expect].
    rewrite (bind_St_run _ _ _ f (set_cache c db) eq_refl).
    rewrite (bind_St_run _ _ _ sn (set_cache c db) eq_refl).
    by rewrite (bind_St_run _ _ _ _ _ (get_event_id_by_sn_run (set_cache c db) sn eid He Hu)). }
  by rewrite (bind_St_run _ _ _ _ _ (st_try_run _ _ _ _ Hsplit)).
Qed.

(** A state event that [append_pdu] has made part of the state is the one
    [get_state_event_id] then finds for its type and state key. *)
Theorem append_then_get db abs p k id db' :
  Refines db abs -> is_i64 (event_sn p) -> is_i64 (next_field_id db) ->
  event_sns db !! event_id (pdu p) = Some (event_sn p) ->
  (forall e, event_sns db !! e = Some (event_sn p) -> e = event_id (pdu p)) ->
  state_key (pdu p) = Some k -> append_pdu_state p db = (Done id, db') ->
  exists db'', get_state_event_id id (event_type (pdu p)) k db' = (Done (event_id (pdu p)), db'').
Proof.
  intros HR Hsn Hnf He Hu Hk Happ.
  destruct (append_to_state_spec db abs p HR Hsn Hnf) as
    (r & db1 & abs1 & Hrun & HR1 & Hsub & Hro & Hsns & Hfl & Hr). rewrite Hk in *.
  unfold append_pdu_state in Happ. apply bind_St in Happ as (id' & db1' & Hrun' & Happ).
  rewrite Hrun in Hrun'. injection Hrun' as -> <-. injection Happ as <- <-.
  destruct Hfl as [_ Hf].
  set (f := field_of db (event_type (pdu p), k)) in *.
  set (m := room_state db abs (room_id (pdu p))) in *.
  set (db2 := set_rooms (alter (fun _ => Some id') (room_id (pdu p)) (rooms db1)) db1).
  destruct (get_state_event_id_run db2 abs1 id' (<[f := event_sn p]> m) (event_type (pdu p)) k f
    (event_sn p) (event_id (pdu p))) as (c & Hget);
    [|done|done|by rewrite lookup_insert_eq|..].
  - apply set_room_state_refines; [done|by eapply elem_of_dom_2].
  - change (event_sns db1 !! event_id (pdu p) = Some (event_sn p)). by rewrite Hsns.
  - intros e. change (event_sns db1 !! e = Some (event_sn p) -> e = event_id (pdu p)).
    rewrite Hsns. apply Hu.
  - eauto.
Qed.

(** ** Saving a resolved state *)

Lemma encode_inj m m' : map_i64 m -> map_i64 m' -> encode m = encode m' -> m = m'.
Proof.
  intros Hm Hm' He. apply map_eq. intros f.
  assert (forall m1 m2, map_i64 m1 -> map_i64 m2 -> encode m1 = encode m2 ->
    forall sn, m1 !! f = Some sn -> m2 !! f = Some sn) as Hsub.
  { intros m1 m2 H1 H2 He' sn Hl. destruct (H1 _ _ Hl).
    apply ce_new_elem; [done..|]. rewrite <- He'. apply elem_of_encode. eauto. }
  apply option_eq. intros sn. split; by apply Hsub.
Qed.

Lemma hash_keys_single e : hash_keys [e] = sha256 e.
Proof.
  unfold hash_keys. cbn [foldr]. f_equal. apply string_app_empty_r.
Qed.

Lemma bytes_state_single f sn : bytes_state (ce_new f sn) = {[ ce_new f sn ]}.
Proof.
  assert (bytes_state (state_bytes {[ ce_new f sn ]}) = {[ ce_new f sn ]}) as H.
  { apply bytes_state_bytes. intros e ->%elem_of_singleton. apply ce_new_ok. }
  transitivity (bytes_state (state_bytes {[ ce_new f sn ]})); [|done].
  f_equal. unfold state_bytes, bset_iter. rewrite elements_singleton.
  symmetry. apply string_app_empty_r.
Qed.

(** A frame whose key is the hash of a state holds that state, or was made by
    appending the only event of the state. *)
Lemma key_of_state m m' :
  map_i64 m -> map_i64 m' ->
  (forall x, sha256 x = sha256 (state_bytes (encode m)) -> x = state_bytes (encode m)) ->
  key_of m' (hash_keys (bset_iter (encode m))) ->
  m' = m \/ exists f sn, m = {[ f := sn ]} /\ m' !! f = Some sn.
Proof.
  intros Hm Hm' Hinj [He|(f & sn & Hl & He)].
  - left. change (sha256 (state_bytes (encode m)) = sha256 (state_bytes (encode m'))) in He.
    symmetry in He. apply Hinj in He. apply (f_equal bytes_state) in He.
    rewrite !bytes_state_bytes in He by apply encode_ok. by apply encode_inj.
  - right. exists f, sn. split; [|done]. destruct (Hm' _ _ Hl).
    rewrite hash_keys_single in He. symmetry in He. apply Hinj in He.
    apply (f_equal bytes_state) in He. rewrite bytes_state_single, bytes_state_bytes in He
      by apply encode_ok.
    apply encode_inj; [done|by apply map_Forall_singleton|]. rewrite <- He.
    unfold encode. rewrite map_to_list_singleton. apply set_eq. set_solver +.
Qed.

Lemma update_points_run db l id :
  (forall e, e ∈ l -> is_Some (ce_event_sn e)) ->
  exists ps, st_iter (fun e => sn ← st_expect (ce_event_sn e); update_frame_id_by_sn sn id) l db =
             (Done tt, set_points ps db).
Proof.
  revert db. induction l as [|e l IH]; intros db Hl.
  - exists (event_points db). by destruct db.
  - destruct (Hl e) as [sn Hsn]; [left|].
    destruct (IH (set_points ((fun p => if ep_event_sn p =? sn then with_frame id p else p) <$>
      event_points db) db)) as (ps & Hps); [intros; apply Hl; by right|].
    exists ps. cbn [st_iter]. rewrite Hsn. exact Hps.
Qed.

(** What [save_state] has to find under the hash of a state of one event. *)
Definition single_frame_ok db abs (room_id : string) m : Prop :=
  forall f sn id, m = {[ f := sn ]} ->
    room_state_frames db !! (room_id, hash_keys (bset_iter (encode m))) = Some id ->
    abs !! id = Some m.

Lemma found_frame db abs room_id m id :
  Refines db abs -> map_i64 m -> single_frame_ok db abs room_id m ->
  (forall x, sha256 x = sha256 (state_bytes (encode m)) -> x = state_bytes (encode m)) ->
  room_state_frames db !! (room_id, hash_keys (bset_iter (encode m))) = Some id ->
  abs !! id = Some m.
Proof.
  intros HR Hm Hs Hinj Hid. destruct (refines_keys _ _ HR _ _ _ Hid) as (m' & Hm' & Hk).
  destruct (loads_frame _ _ (refines_loads _ _ HR) _ _ Hm') as [Hm64 _].
  apply key_of_state in Hk as [->|(f & sn & Hsing & _)]; [done|by eapply Hs|done..].
Qed.

Lemma encode_sns m e : map_i64 m -> e ∈ bset_iter (encode m) -> is_Some (ce_event_sn e).
Proof.
  intros Hm (f & sn & Hl & ->)%elem_of_bset_iter%elem_of_encode. destruct (Hm _ _ Hl).
  rewrite ce_event_sn_new by done. done.
Qed.

Lemma refines_set_points db abs ps : Refines db abs -> Refines (set_points ps db) abs.
Proof. intros []. constructor; try done. by apply loads_set_points. Qed.

(** [save_state] once the frame is known not to be the current one. *)
Lemma save_state_new db abs room_id m :
  Refines db abs -> map_i64 m -> known_fields db m ->
  room_state_frames db !! (room_id, hash_keys (bset_iter (encode m))) = None ->
  exists delta db' abs',
    save_state room_id (encode m) db = (Done delta, db') /\ Refines db' abs' /\ abs ⊆ abs' /\
    rooms db' = rooms db /\ abs' !! di_frame_id delta = Some m /\
    encode m = apply_diff (encode (room_state db abs room_id)) (di_appended delta)
                          (di_disposed delta).
Proof.
  intros HR Hm Hkn Hh. unfold save_state.
  st_step (get_room_frame_run db room_id). rewrite ok_room_frame.
  st_step (get_frame_id_run db room_id (hash_keys (bset_iter (encode m)))). rewrite Hh.
  set (h := hash_keys _) in *. set (id := next_frame_id db).
  set (db1 := set_frames (<[(room_id, h) := id]> (room_state_frames db)) (id + 1) db).
  erewrite (bind_St_run _ _ _ (id, false) db1);
    [|by rewrite (bind_St_run _ _ _ _ _ (ensure_frame_run db room_id h Hh))].
  rewrite bool_decide_false; cycle 1.
  { intros Hid. symmetry in Hid.
    apply (room_frame_known _ _ _ _ HR), (loads_fresh _ _ (refines_loads _ _ HR)) in Hid. lia. }
  destruct (update_points_run db1 (bset_iter (encode m)) id) as (ps & Hps);
    [intros e; by apply encode_sns|].
  st_step Hps. set (db2 := set_points ps db1) in *.
  assert (Loads db2 abs) as HL2
    by (apply loads_set_points, loads_set_frames; [apply HR|lia]).
  destruct (load_parents_spec db2 abs (room_frame db room_id) HL2) as
    (st & c & Hload & HL3 & Hst & Hok & Hb & _); [intros id'; by apply room_frame_known|].
  st_step Hload. rewrite diff_from_reverse.
  destruct (diff_valid (below_state st) (encode m)) as [Hv Ha];
    [rewrite Hb; apply encode_ok|apply encode_ok|].
  destruct (loads_calc (set_cache c db2) abs room_id id st (encode m ∖ below_state st)
    (below_state st ∖ encode m) 2 m) as (row & Hcalc & HL4);
    [done|done|done|cbn; lia|by apply (loads_fresh _ _ (refines_loads _ _ HR))|done|done|done|].
  st_step Hcalc. eexists _, _, (<[id := m]> abs). split; [reflexivity|].
  split_and!; cbn [di_frame_id di_appended di_disposed].
  - by apply (refines_new_frame db abs room_id h m row (set_cache c db2)); try done; left.
  - by apply fresh_insert, HR.
  - done.
  - apply lookup_insert_eq.
  - rewrite <- Ha at 1. by rewrite Hb.
Qed.

(** [save_state] returns a frame that loads as the state it is given,
    provided no other byte string is known with the hash of that state: the frame
    that already has this key or a new one.  The delta it returns leads from the
    room's current state to the new one, and every other frame and the current
    frame of every room stay as they were. *)
Theorem save_state_refines db abs room_id m :
  Refines db abs -> map_i64 m -> known_fields db m ->
  (forall x, sha256 x = sha256 (state_bytes (encode m)) -> x = state_bytes (encode m)) ->
  single_frame_ok db abs room_id m ->
  exists delta db' abs',
    save_state room_id (encode m) db = (Done delta, db') /\ Refines db' abs' /\ abs ⊆ abs' /\
    rooms db' = rooms db /\ abs' !! di_frame_id delta = Some m /\
    encode m = apply_diff (encode (room_state db abs room_id)) (di_appended delta)
                          (di_disposed delta).
Proof.
  intros HR Hm Hkn Hinj Hsing.
  destruct (room_state_frames db !! (room_id, hash_keys (bset_iter (encode m)))) as [id|] eqn:Hh;
    [|by apply save_state_new].
  pose proof (found_frame _ _ _ _ _ HR Hm Hsing Hinj Hh) as Hid. unfold save_state.
  st_step (get_room_frame_run db room_id). rewrite ok_room_frame.
  st_step (get_frame_id_run db room_id (hash_keys (bset_iter (encode m)))). rewrite Hh.
  rewrite (bind_St_run _ _ db (id, true) db eq_refl).
  case_bool_decide as Hcur.
  - eexists _, db, abs. split; [reflexivity|]. split_and!; try done. cbn.
    rewrite room_state_frame, <- Hcur. cbn. rewrite Hid. cbn. unfold apply_diff.
    apply set_eq. set_solver +.
  - destruct (update_points_run db (bset_iter (encode m)) id) as (ps & Hps);
      [intros e; by apply encode_sns|].
    st_step Hps. set (db2 := set_points ps db) in *.
    destruct (load_parents_spec db2 abs (room_frame db room_id)) as
      (st & c & Hload & HL3 & Hst & Hok & Hb & _);
      [by apply loads_set_points, HR|intros id'; by apply room_frame_known|].
    st_step Hload. rewrite diff_from_reverse.
    destruct (diff_valid (below_state st) (encode m)) as [Hv Ha];
      [rewrite Hb; apply encode_ok|apply encode_ok|].
    eexists _, (set_cache c db2), abs. split; [reflexivity|]. split_and!; try done.
    + pose proof (refines_set_points db abs ps HR) as HR2. destruct HR2. by constructor.
    + cbn [di_appended di_disposed]. rewrite <- Ha at 1. by rewrite Hb.
Qed.
End refinement.

(** ** Examples *)

#[local] Existing Instance toy_crypto.
#[local] Instance example_cache : LruCache Z (list FrameInfo) := unbounded_cache Z (list FrameInfo).

Definition example_point (sn : Z) : EventPoint :=
  {| ep_event_sn := sn; ep_room_id := "!r:x"; ep_frame_id := None; ep_before_frame_id := None |}.

(** A room that has no state yet, two fields and three events. *)
Definition example_db : FramesDb := {|
  room_state_fields := {[ ("m.room.create", EmptyString) := 1; ("m.room.topic", EmptyString) := 2 ]};
  next_field_id := 3;
  room_state_frames := ∅; next_frame_id := 1; room_state_deltas := ∅;
  rooms := {[ "!r:x" := None ]};
  event_points := {[ "$create:x" := example_point 10; "$topic:x" := example_point 11;
                     "$name:x" := example_point 12 ]};
  state_info_cache := lru_new |}.

Definition example_event (id ty : string) (sn : Z) : SnPduEvent :=
  {| pdu := {| event_id := id; room_id := "!r:x"; sender := "@a:x"; origin_server_ts := 1;
               event_type := ty; content := JObj []; state_key := Some EmptyString;
               prev_events := []; auth_events := []; redacts := None; rejected := false |};
     event_sn := sn |}.

Lemma example_db_refines : Refines example_db ∅.
Proof.
  constructor; [constructor|..].
  - done.
  - intros id m H. by rewrite lookup_empty in H.
  - intros id info H. change ((∅ : gmap Z (list FrameInfo)) !! id = Some info) in H.
    by rewrite lookup_empty in H.
  - intros id d p H. cbn in H. by rewrite lookup_empty in H.
  - intros id. set_solver.
  - intros r id. cbn. rewrite lookup_singleton_Some. by intros [_ H].
  - intros r h id H. cbn in H. by rewrite lookup_empty in H.
  - intros k f. cbn [room_state_fields next_field_id example_db].
    rewrite lookup_insert_Some, lookup_singleton_Some. unfold is_i64. intros [[_ <-]|[_ [_ <-]]]; lia.
  - intros k k' f. cbn [room_state_fields example_db].
    rewrite !lookup_insert_Some, !lookup_singleton_Some. naive_solver lia.
  - intros id m H. by rewrite lookup_empty in H.
Qed.

Lemma append_pdu_state_refines_witness :
  let p := example_event "$create:x" "m.room.create" 10 in
  exists r db' abs',
    append_pdu_state p example_db = (r, db') /\ Refines db' abs' /\ ∅ ⊆ abs' /\
    match r with
    | Done id =>
        rooms db' !! "!r:x" = Some (Some id) /\
        (forall k, room_view db' abs' "!r:x" k =
           if decide (Some k = Some ("m.room.create", EmptyString)) then Some 10
           else room_view example_db ∅ "!r:x" k) /\
        (forall r k, r <> "!r:x" -> room_view db' abs' r k = room_view example_db ∅ r k)
    | Fail e =>
        (forall r k, room_view db' abs' r k = room_view example_db ∅ r k) /\
        match e with
        | MatrixInvalidParam => Some EmptyString = None /\ room_frame example_db "!r:x" = None
        | DbNotFound => exists k, Some EmptyString = Some k /\
            is_Some (room_state_frames db' !!
              ("!r:x", hash_keys [ce_new (field_of example_db ("m.room.create", k)) 10]))
        | _ => False
        end
    | _ => False
    end.
Proof.
  intros p. apply (append_pdu_state_refines example_db ∅ p example_db_refines).
  - unfold is_i64. cbn. lia.
  - unfold is_i64. cbn. lia.
  - by exists None.
Defined.

Lemma append_then_get_witness :
  let p := example_event "$create:x" "m.room.create" 10 in
  let db' := (append_pdu_state p example_db).2 in
  exists db'', get_state_event_id 2 "m.room.create" EmptyString db' = (Done "$create:x", db'').
Proof.
  intros p db'. apply (append_then_get example_db ∅ p EmptyString 2 db' example_db_refines).
  - unfold is_i64. cbn. lia.
  - unfold is_i64. cbn. lia.
  - by vm_compute.
  - intros e. unfold event_sns, example_db. cbn [event_points].
    rewrite !fmap_insert, map_fmap_singleton, !lookup_insert_Some, lookup_singleton_Some. cbn.
    naive_solver.
  - done.
  - exact (done_snd (append_pdu_state p) example_db 2 (ltac:(by_eval))).
Defined.

Lemma save_state_refines_witness :
  let m : gmap Z Z := {[ 1 := 10; 2 := 11 ]} in
  exists delta db' abs',
    save_state "!r:x" (encode m) example_db = (Done delta, db') /\ Refines db' abs' /\ ∅ ⊆ abs' /\
    rooms db' = rooms example_db /\ abs' !! di_frame_id delta = Some m /\
    encode m = apply_diff (encode (room_state example_db ∅ "!r:x")) (di_appended delta)
                          (di_disposed delta).
Proof.
  intros m. apply (save_state_refines example_db ∅ "!r:x" m example_db_refines).
  - unfold m, map_i64, is_i64. apply map_Forall_insert_2; [lia|]. apply map_Forall_singleton. lia.
  - unfold m, known_fields. cbn. apply map_Forall_insert_2; [lia|]. apply map_Forall_singleton. lia.
  - intros x H. exact H.
  - intros f sn id H. apply (f_equal size) in H. rewrite map_size_singleton in H.
    by vm_compute in H.
Defined.

(** The topic replaces the topic, and the state before the third event is still
    there. *)
Example three_events :
  let run p db := (append_pdu_state p db).2 in
  let db := run (example_event "$name:x" "m.room.topic" 12)
    (run (example_event "$topic:x" "m.room.topic" 11)
      (run (example_event "$create:x" "m.room.create" 10) example_db)) in
  (get_full_state_ids 5 db).1 = Done [(1, "$create:x"); (2, "$name:x")] /\
  (get_full_state_ids 3 db).1 = Done [(1, "$create:x"); (2, "$topic:x")].
Proof. vm_compute. done. Qed.
