(* ===== verification/AuthChain.v ===== *)
(** * Auth chains: [crates/server/src/room/auth_chain.rs]

    The auth chain of an event is the set of events reached through
    [auth_events].  It is computed by a breadth-first traversal of the [events]
    and [event_datas] tables, per event; the chains are cached by the sorted
    sequence numbers of the starting events of a bucket, in memory
    ([AUTH_CHAIN_CACHE]) and in the table [event_auth_chains].  Rows are selected
    in an unspecified order, as are the elements of a [HashSet] iterated. *)
From S2P Require Import Prelude RustStr Json Events Membership Effects.
Open Scope Z_scope.

(** ** Tables *)

Record EventTables := {
  events : gmap string Z;                     (* id -> sn *)
  event_datas : gmap string (option Pdu)      (* event_id -> json_data, read as a PDU *)
}.

(** [timeline::get_pdu] *)
Definition get_pdu (db : EventTables) (event_id : string) : comp AppError Pdu :=
  match events db !! event_id, event_datas db !! event_id with
  | Some _, Some (Some p) => Done p
  | Some _, Some None => Fail AppInternal
  | _, _ => Fail DbNotFound
  end.

Section chain.
Context {HO : HashOrder}.

(** The rows of [events] whose id is listed. *)
Definition select_sns (db : EventTables) (ids : list string) : list (string * Z) :=
  filter (fun '(id, _) => id ∈ ids) (iter_map (events db)).

(** The inner loop: an auth event met for the first time is queued. *)
Definition visit_new (acc : list string * gset Z) (row : string * Z) : list string * gset Z :=
  let '(todo, found) := acc in
  let '(auth_event_id, auth_event_sn) := row in
  if decide (auth_event_sn ∈ found) then (todo, found)
  else ((todo ++ [auth_event_id])%list, {[ auth_event_sn ]} ∪ found).

(** The loop of [get_event_auth_chain]; [fuel] bounds its turns. *)
Fixpoint auth_chain_loop (db : EventTables) (room : string) (fuel : nat) (todo : list string)
    (found : gset Z) : comp AppError (gset Z) :=
  match todo with
  | [] => Done found
  | event_id :: todo =>
      match fuel with
      | O => OutOfFuel
      | S fuel =>
          pdu ← get_pdu db event_id;
          if decide (room_id pdu = room) then
            let '(todo, found) := foldl visit_new (todo, found) (select_sns db (auth_events pdu)) in
            auth_chain_loop db room fuel todo found
          else Fail MatrixForbidden
      end
  end.

(** Every turn takes an event off the queue and an event is queued once. *)
Definition get_event_auth_chain (db : EventTables) (room event_id : string) : comp AppError (list Z) :=
  found ← auth_chain_loop db room (S (size (events db))) [event_id] ∅;
  mret (iter_set found).

(** ** Caches *)

Context {LC : LruCache (list Z) (list Z)}.

Record ChainDb := {
  tables : EventTables;
  event_auth_chains : gmap (list Z) (list Z);     (* cache_key -> chain_sns *)
  auth_chain_cache : lru (list Z) (list Z)
}.
Abbreviation Db := (St ChainDb).

Definition get_cached_auth_chain (cache_key : list Z) : Db (option (list Z)) := fun db =>
  match lru_get_mut cache_key (auth_chain_cache db) with
  | (Some result, c) =>
      (Done (Some result), {| tables := tables db; event_auth_chains := event_auth_chains db;
                              auth_chain_cache := c |})
  | (None, c) =>
      match event_auth_chains db !! cache_key with
      | Some chain_sns =>
          (Done (Some chain_sns),
           {| tables := tables db; event_auth_chains := event_auth_chains db;
              auth_chain_cache := lru_insert cache_key chain_sns c |})
      | None => (Done None, {| tables := tables db; event_auth_chains := event_auth_chains db;
                               auth_chain_cache := c |})
      end
  end.

Definition cache_auth_chain (cache_key chain_sns : list Z) : Db unit :=
  st_modify (fun db =>
    {| tables := tables db;
       event_auth_chains := <[cache_key := chain_sns]> (event_auth_chains db);
       auth_chain_cache := lru_insert cache_key chain_sns (auth_chain_cache db) |}).

Definition run_tables {A} (f : EventTables -> comp AppError A) : Db A := fun db => (f (tables db), db).

Definition NUM_BUCKETS : Z := 50.

(** [buckets[index as usize].insert((sn, id))]: [%] keeps the sign of the
    sequence number, and an index outside the array panics. *)
Definition bucket_index (sn : Z) : Z := Z.rem sn NUM_BUCKETS.
(** The bucket of an index, a [BTreeSet] of sequence numbers and ids. *)
Definition bucket (rows : list (string * Z)) (i : Z) : list (Z * string) :=
  sort_by_key (pair_cmp Z.compare String.compare) id
    ((fun '(id, sn) => (sn, id)) <$> filter (fun '(_, sn) => bucket_index sn = i) rows).

(** The loop over the events of a bucket that is not cached. *)
Fixpoint bucket_chain (room : string) (b : list (Z * string)) : Db (list Z) :=
  match b with
  | [] => mret []
  | (event_sn, event_id) :: b =>
      cached ← get_cached_auth_chain [event_sn];
      auth_chain ← match cached with
                   | Some cached => mret cached
                   | None =>
                       auth_chain ← run_tables (fun t => get_event_auth_chain t room event_id);
                       _ ← cache_auth_chain [event_sn] auth_chain;
                       mret auth_chain
                   end;
      rest ← bucket_chain room b;
      mret (auth_chain ++ rest)%list
  end.

(** The body of the loop over the buckets. *)
Definition chain_of_bucket (room : string) (b : list (Z * string)) : Db (list Z) :=
  let bucket_key := fst <$> b in
  match bucket_key with
  | [] => mret []
  | _ =>
      cached ← get_cached_auth_chain bucket_key;
      match cached with
      | Some cached => mret cached
      | None =>
          bucket_cache ← bucket_chain room b;
          _ ← cache_auth_chain bucket_key bucket_cache;
          mret bucket_cache
      end
  end.

(** [Vec::dedup] *)
Fixpoint dedup (l : list Z) : list Z :=
  match l with
  | [] => []
  | x :: l => match dedup l with
              | y :: k => if Z.eqb x y then y :: k else x :: y :: k
              | [] => [x]
              end
  end.

Definition get_auth_chain_sns (room : string) (starting_event_ids : list string) : Db (list Z) :=
  starting_events ← st_gets (fun db => select_sns (tables db) starting_event_ids);
  if forallb (fun '(_, sn) => Z.leb 0 (bucket_index sn)) starting_events then
    chains ← st_map (chain_of_bucket room)
               (bucket starting_events <$> (Z.of_nat <$> seq 0 (Z.to_nat NUM_BUCKETS)));
    mret (dedup (sort_by_key Z.compare id (concat chains)))
  else st_panic.

Definition get_auth_chain_ids (room : string) (starting_event_ids : list string) : Db (list string) :=
  chain_sns ← get_auth_chain_sns room starting_event_ids;
  st_gets (fun db =>
    fst <$> sort_by_key Z.compare snd
      (filter (fun '(_, sn) => sn ∈ chain_sns) (iter_map (events (tables db))))).
End chain.

(** ** The traversal *)

Section traversal.
Context {HO : HashOrder} (db : EventTables).

(** An event refers to a stored event as its auth event. *)
Definition auth_edge (x y : string) : Prop :=
  exists p, event_datas db !! x = Some (Some p) /\ y ∈ auth_events p /\ y ∈ dom (events db).

(** [sn] belongs to an event of the auth chain of [x]. *)
Definition in_chain (x : string) (sn : Z) : Prop :=
  exists y, tc auth_edge x y /\ events db !! y = Some sn.

(** The event can be loaded and is of the room. *)
Definition good (room x : string) : Prop := exists p, get_pdu db x = Done p /\ room_id p = room.

Definition distinct_sns : Prop :=
  forall x y sn, events db !! x = Some sn -> events db !! y = Some sn -> x = y.

Lemma elem_of_select_sns ids x sn :
  (x, sn) ∈ select_sns db ids <-> x ∈ ids /\ events db !! x = Some sn.
Proof. unfold select_sns. rewrite list_elem_of_filter, elem_of_iter_map. done. Qed.

Lemma get_pdu_edge x p y :
  get_pdu db x = Done p -> y ∈ auth_events p -> y ∈ dom (events db) -> auth_edge x y.
Proof.
  unfold get_pdu. intros Hp Hy Hd.
  destruct (events db !! x); [|done]. destruct (event_datas db !! x) as [[q|]|] eqn:Hq; [|done..].
  injection Hp as ->. by exists p.
Qed.

Lemma edge_get_pdu x p y :
  get_pdu db x = Done p -> auth_edge x y -> y ∈ auth_events p /\ y ∈ dom (events db).
Proof.
  unfold get_pdu. intros Hp (q & Hq & Hy & Hd).
  destruct (events db !! x); [|done]. rewrite Hq in Hp. injection Hp as ->. done.
Qed.

(** [found] holds the sequence numbers of the events [V] queued so far. *)
Definition sns_of (V : gset string) (found : gset Z) : Prop :=
  forall sn, sn ∈ found <-> exists y, y ∈ V /\ events db !! y = Some sn.

Lemma push_rows rows : forall todo found V,
  distinct_sns -> sns_of V found -> (forall x sn, (x, sn) ∈ rows -> events db !! x = Some sn) ->
  exists new W, foldl visit_new (todo, found) rows = ((todo ++ new)%list, W) /\
    NoDup new /\ sns_of (V ∪ list_to_set new) W /\ (forall y, y ∈ new -> y ∉ V) /\
    (forall y, y ∈ new -> y ∈ rows.*1) /\ (forall y, y ∈ rows.*1 -> y ∈ V ∪ list_to_set new).
Proof.
  unfold sns_of. induction rows as [|[x sn] rows IH]; intros todo found V Hd Hs Hr.
  - exists [], found. rewrite app_nil_r. split_and!; try done; [constructor| |set_solver +..].
    intros sn. rewrite Hs. set_solver +.
  - cbn [foldl visit_new]. assert (events db !! x = Some sn) as Hx by (apply Hr; left).
    destruct (decide (sn ∈ found)) as [Hin|Hnot].
    + destruct (IH todo found V Hd Hs) as (new & W & Hf & Hnd & Hs' & Hnv & Hsub & Hcov);
        [intros; apply Hr; by right|].
      exists new, W. split_and!; try done; [set_solver +Hsub|].
      intros y. rewrite fmap_cons, elem_of_cons. intros [->|Hy]; [|by apply Hcov].
      apply Hs in Hin as (z & Hz & Hez). rewrite (Hd x z sn) by done. set_solver +Hz.
    + assert (x ∉ V) as HxV by (intros H; apply Hnot, Hs; eauto).
      destruct (IH (todo ++ [x])%list ({[sn]} ∪ found) ({[x]} ∪ V) Hd) as
        (new & W & Hf & Hnd & Hs' & Hnv & Hsub & Hcov).
      { intros sn'. rewrite elem_of_union, elem_of_singleton, Hs. split.
        - intros [->|(y & Hy & Hey)]; [exists x|exists y]; set_solver.
        - intros (y & Hy & Hey). rewrite elem_of_union, elem_of_singleton in Hy.
          destruct Hy as [->|Hy]; [left; congruence|right; eauto]. }
      { intros. apply Hr. by right. }
      exists (x :: new), W. rewrite Hf, <- app_assoc.
      assert (V ∪ list_to_set (x :: new) = {[x]} ∪ V ∪ list_to_set new) as Heq by set_solver +.
      rewrite Heq. split_and!; try done; [constructor; [set_solver +Hnv|done]|..]; set_solver.
Qed.

Lemma tc_edge_r x y z : x = y \/ tc auth_edge x y -> auth_edge y z -> tc auth_edge x z.
Proof. intros [->|H] He; [by apply tc_once|by eapply tc_r]. Qed.

Lemma rtc_tc_edge x y : rtc auth_edge x y <-> y = x \/ tc auth_edge x y.
Proof.
  split.
  - intros H. induction H as [x|x y z Hxy Hyz IH]; [by left|right].
    destruct IH as [->|IH]; [by apply tc_once|by eapply tc_l].
  - intros [->|H]; [done|by apply tc_rtc].
Qed.

Lemma tc_edge_dom x y : tc auth_edge x y -> y ∈ dom (events db).
Proof. induction 1 as [x y (p & _ & _ & H)|]; done. Qed.

(** The visited events are closed when the queue is empty. *)
Lemma closed_reach (start : string) (V : gset string) :
  (forall x, x = start \/ x ∈ V -> forall y, auth_edge x y -> y ∈ V) ->
  forall y, tc auth_edge start y -> y ∈ V.
Proof.
  intros Hc y H. assert (forall x, x = start \/ x ∈ V -> tc auth_edge x y -> y ∈ V) as Hgen.
  { clear H. intros x Hx H. induction H as [x y Hxy|x y z Hxy Hyz IH]; [by eapply Hc|].
    apply IH. right. by eapply Hc. }
  eapply Hgen; [by left|done].
Qed.

Record loop_inv (room start : string) (todo : list string) (found : gset Z)
    (V P : gset string) : Prop := {
  inv_sns : sns_of V found;
  inv_reach : forall y, y ∈ V -> tc auth_edge start y;
  inv_dom : V ⊆ dom (events db);
  inv_split : forall y, y ∈ todo \/ y ∈ P <-> y = start \/ y ∈ V;
  inv_done : forall x, x ∈ P -> good room x /\ forall y, auth_edge x y -> y ∈ V
}.

(** One turn of the loop. *)
Lemma loop_turn room start id todo found V P p :
  distinct_sns -> loop_inv room start (id :: todo) found V P ->
  get_pdu db id = Done p -> room_id p = room ->
  exists new W, foldl visit_new (todo, found) (select_sns db (auth_events p)) = ((todo ++ new)%list, W) /\
    loop_inv room start (todo ++ new) W (V ∪ list_to_set new) ({[ id ]} ∪ P) /\
    size (V ∪ list_to_set new) = (size V + length new)%nat.
Proof.
  intros Hd [Hs Hr Hdom Hsp Hdone] Hp Hroom.
  destruct (push_rows (select_sns db (auth_events p)) todo found V Hd Hs) as
    (new & W & Hf & Hnd & Hs' & Hnv & Hsub & Hcov).
  { intros x sn H%elem_of_select_sns. apply H. }
  assert (forall y, y ∈ (select_sns db (auth_events p)).*1 <-> auth_edge id y) as Hrows.
  { intros y. rewrite list_elem_of_fmap. split.
    - intros ([y' sn] & -> & [Hy Hsn]%elem_of_select_sns). eapply get_pdu_edge; [done..|].
      by eapply elem_of_dom_2.
    - intros [Hy [sn Hsn]%elem_of_dom]%(edge_get_pdu _ p); [|done].
      exists (y, sn). by rewrite elem_of_select_sns. }
  assert (id = start \/ id ∈ V) as Hid by (apply Hsp; left; left).
  exists new, W. split; [done|]. split.
  - constructor; [done|..].
    + intros y. rewrite elem_of_union, elem_of_list_to_set. intros [Hy|Hy]; [by apply Hr|].
      apply (tc_edge_r _ id); [|by apply Hrows, Hsub]. destruct Hid as [->|?]; [by left|right; auto].
    + intros y. rewrite elem_of_union, elem_of_list_to_set. intros [Hy|Hy]; [by apply Hdom|].
      apply Hsub, Hrows in Hy as (q & _ & _ & Hy). done.
    + intros y. rewrite elem_of_app, !elem_of_union, elem_of_singleton, elem_of_list_to_set.
      specialize (Hsp y). rewrite elem_of_cons in Hsp. naive_solver.
    + intros x. rewrite elem_of_union, elem_of_singleton. intros [->|Hx].
      * split; [by exists p|]. intros y Hy%Hrows. by apply Hcov.
      * destruct (Hdone x Hx) as [? He]. split; [done|]. intros y Hy%He. set_solver +Hy.
  - rewrite size_union, size_list_to_set by set_solver. done.
Qed.

Lemma loop_empty room start found V P :
  loop_inv room start [] found V P ->
  (forall sn, sn ∈ found <-> in_chain start sn) /\
  (forall y, rtc auth_edge start y -> good room y).
Proof.
  intros [Hs Hr Hdom Hsp Hdone].
  assert (forall x, x = start \/ x ∈ V -> x ∈ P) as HP by (intros x Hx%Hsp; set_solver +Hx).
  assert (forall y, tc auth_edge start y -> y ∈ V) as Hall.
  { apply closed_reach. intros x Hx%HP. by apply Hdone. }
  split.
  - intros sn. rewrite (Hs sn). unfold in_chain. naive_solver.
  - intros y Hy%rtc_tc_edge. apply Hdone, HP. naive_solver.
Qed.

Lemma auth_chain_loop_spec room start fuel : forall todo found V P,
  distinct_sns -> loop_inv room start todo found V P ->
  (length todo + size (events db) <= fuel + size V)%nat ->
  (exists W, auth_chain_loop db room fuel todo found = Done W /\
     (forall sn, sn ∈ W <-> in_chain start sn) /\
     (forall y, rtc auth_edge start y -> good room y)) \/
  (exists e y, auth_chain_loop db room fuel todo found = Fail e /\
     rtc auth_edge start y /\ ~ good room y).
Proof.
  induction fuel as [|fuel IH]; intros todo found V P Hd Hinv Hf;
    (destruct todo as [|id todo]; [left|]).
  1, 3: by exists found; cbn; split; [|by eapply loop_empty].
  - pose proof (subseteq_size _ _ (inv_dom _ _ _ _ _ _ Hinv)) as Hsz. rewrite size_dom in Hsz.
    cbn in Hf. lia.
  - cbn [auth_chain_loop]. pose proof (inv_split _ _ _ _ _ _ Hinv id) as [Hid _].
    assert (rtc auth_edge start id) as Hrt.
    { apply rtc_tc_edge. destruct Hid as [->|Hid]; [left; left|by left|right].
      by apply (inv_reach _ _ _ _ _ _ Hinv). }
    destruct (get_pdu db id) as [p|e| |] eqn:Hp; cbn [mbind comp_bind].
    + destruct (decide (room_id p = room)) as [Hroom|Hroom].
      * destruct (loop_turn _ _ _ _ _ _ _ _ Hd Hinv Hp Hroom) as (new & W & -> & Hinv' & Hsz).
        eapply IH; [done|exact Hinv'|]. rewrite Hsz, length_app. cbn in Hf. lia.
      * right. exists MatrixForbidden, id. split_and!; try done. intros (q & Hq & ?). congruence.
    + right. exists e, id. split_and!; try done. intros (q & Hq & _). congruence.
    + unfold get_pdu in Hp. by repeat case_match.
    + unfold get_pdu in Hp. by repeat case_match.
Qed.
End traversal.

(** ** Cached chains *)

Section caching.
Context {HO : HashOrder} {LC : LruCache (list Z) (list Z)}.
Implicit Types (db : ChainDb) (t : EventTables).

Lemma get_event_auth_chain_good t room x :
  distinct_sns t -> (forall y, rtc (auth_edge t) x y -> good t room y) ->
  exists l, get_event_auth_chain t room x = Done l /\ forall sn, sn ∈ l <-> in_chain t x sn.
Proof.
  intros Hd Hgood.
  destruct (auth_chain_loop_spec t room x (S (size (events t))) [x] ∅ ∅ ∅) as
    [(W & HW & Hin & _)|(e & y & _ & Hy & Hbad)]; [done| |cbn; lia| |].
  - constructor; try set_solver. intros sn. set_solver.
  - exists (iter_set W). unfold get_event_auth_chain. rewrite HW. split; [done|].
    intros sn. by rewrite elem_of_iter_set.
  - by destruct Hbad; apply Hgood.
Qed.

(** [chain] lists the events in the auth chains of the events numbered in [key]. *)
Definition key_chain t (key chain : list Z) : Prop :=
  forall sn, sn ∈ chain <-> exists k x, k ∈ key /\ events t !! x = Some k /\ in_chain t x sn.

Record Coherent db : Prop := {
  coherent_table : forall key chain, event_auth_chains db !! key = Some chain ->
    key_chain (tables db) key chain;
  coherent_cache : forall key chain, lru_entries (auth_chain_cache db) !! key = Some chain ->
    key_chain (tables db) key chain
}.

Lemma get_cached_spec db key :
  Coherent db ->
  exists r db', get_cached_auth_chain key db = (Done r, db') /\ Coherent db' /\
    tables db' = tables db /\ forall chain, r = Some chain -> key_chain (tables db) key chain.
Proof.
  intros [Ht Hc]. unfold get_cached_auth_chain.
  pose proof (lru_get_lookup key (auth_chain_cache db)) as Hget.
  pose proof (lru_get_keeps key (auth_chain_cache db)) as Hkeep.
  destruct (lru_get_mut key (auth_chain_cache db)) as [r c]. cbn [fst snd] in *.
  assert (forall key chain, lru_entries c !! key = Some chain -> key_chain (tables db) key chain)
    as Hc' by (intros k ch Hl; by eapply Hc, lookup_weaken).
  destruct r as [chain|].
  - eexists _, _. split; [reflexivity|]. split; [by constructor|]. split; [done|].
    intros ? [= <-]. by apply Hc.
  - destruct (event_auth_chains db !! key) as [chain|] eqn:Hk; eexists _, _;
      (split; [reflexivity|]).
    + split; [|split; [done|intros ? [= <-]; by apply Ht]]. constructor; [done|]. cbn.
      intros key' chain' Hl. eapply lookup_weaken in Hl; [|apply lru_insert_sub].
      apply lookup_insert_Some in Hl as [[<- <-]|[_ Hl]]; [by apply Ht|by apply Hc'].
    + split; [by constructor|]. by split.
Qed.

Lemma cache_auth_chain_spec db key chain :
  Coherent db -> key_chain (tables db) key chain ->
  exists db', cache_auth_chain key chain db = (Done tt, db') /\ Coherent db' /\
              tables db' = tables db.
Proof.
  intros [Ht Hc] Hk. eexists. split; [reflexivity|]. split; [|done]. constructor; cbn.
  - intros key' chain' [[<- <-]|[_ Hl]]%lookup_insert_Some; [done|by apply Ht].
  - intros key' chain' Hl. eapply lookup_weaken in Hl; [|apply lru_insert_sub].
    apply lookup_insert_Some in Hl as [[<- <-]|[_ Hl]]; [done|by apply Hc].
Qed.

(** Every row of a bucket is a stored event whose chain can be walked. *)
Definition rows_ok t room (b : list (Z * string)) : Prop :=
  forall sn x, (sn, x) ∈ b ->
    events t !! x = Some sn /\ forall y, rtc (auth_edge t) x y -> good t room y.

Lemma key_chain_single t x sn l :
  distinct_sns t -> events t !! x = Some sn -> (forall s, s ∈ l <-> in_chain t x s) ->
  key_chain t [sn] l.
Proof.
  intros Hd Hx Hl s. rewrite Hl. split.
  - intros H. exists sn, x. set_solver.
  - intros (k & y & ->%list_elem_of_singleton & Hy & H). by rewrite (Hd x y sn).
Qed.

Lemma bucket_chain_spec room b : forall db,
  Coherent db -> distinct_sns (tables db) -> rows_ok (tables db) room b ->
  exists l db', bucket_chain room b db = (Done l, db') /\ Coherent db' /\
    tables db' = tables db /\ key_chain (tables db) (fst <$> b) l.
Proof.
  induction b as [|[sn x] b IH]; intros db Hc Hd Hb.
  { exists [], db. split_and!; try done. intros s. set_solver. }
  destruct (Hb sn x) as [Hx Hgood]; [left|].
  assert (exists a db1,
    (cached ← get_cached_auth_chain [sn];
     match cached with
     | Some cached => mret cached
     | None =>
         auth_chain ← run_tables (fun t => get_event_auth_chain t room x);
         _ ← cache_auth_chain [sn] auth_chain;
         mret auth_chain
     end) db = (Done a, db1) /\ Coherent db1 /\ tables db1 = tables db /\
    key_chain (tables db) [sn] a) as (a & db1 & Hrun & Hc1 & Ht1 & Ha).
  { destruct (get_cached_spec db [sn] Hc) as (r & db1 & Hr & Hc1 & Ht1 & Hk). st_step Hr.
    destruct r as [a|]; [by exists a, db1; split_and!; auto|].
    destruct (get_event_auth_chain_good (tables db) room x Hd Hgood) as (l & Hl & Hin).
    rewrite (bind_St_run _ _ _ l db1) by (unfold run_tables; by rewrite Ht1, Hl).
    assert (key_chain (tables db) [sn] l) as Hkl by by eapply key_chain_single.
    destruct (cache_auth_chain_spec db1 [sn] l Hc1) as (db2 & Hcache & Hc2 & Ht2);
      [by rewrite Ht1|].
    st_step Hcache. exists l, db2. split_and!; try done. congruence. }
  destruct (IH db1 Hc1) as (l & db2 & Hl & Hc2 & Ht2 & Hk);
    [by rewrite Ht1|rewrite Ht1; intros ? ? ?; apply Hb; by right|].
  exists (a ++ l)%list, db2. split_and!; [|done|congruence|].
  - cbn [bucket_chain]. apply bind_St in Hrun as (cached & db0 & Hget & Hrun). st_step Hget.
    st_step Hrun. by st_step Hl.
  - rewrite Ht1 in Hk. intros s. rewrite elem_of_app, (Ha s), (Hk s). rewrite fmap_cons.
    setoid_rewrite elem_of_cons. setoid_rewrite elem_of_nil. naive_solver.
Qed.

Lemma chain_of_bucket_spec room b db :
  Coherent db -> distinct_sns (tables db) -> rows_ok (tables db) room b ->
  exists l db', chain_of_bucket room b db = (Done l, db') /\ Coherent db' /\
    tables db' = tables db /\ key_chain (tables db) (fst <$> b) l.
Proof.
  intros Hc Hd Hb. unfold chain_of_bucket.
  destruct (fst <$> b) as [|k ks] eqn:Hkey.
  { exists [], db. split_and!; try done. intros s. set_solver. }
  rewrite <- Hkey. destruct (get_cached_spec db (fst <$> b) Hc) as (r & db1 & Hr & Hc1 & Ht1 & Hk).
  st_step Hr. destruct r as [a|]; [by exists a, db1; split_and!; auto|].
  destruct (bucket_chain_spec room b db1 Hc1) as (l & db2 & Hl & Hc2 & Ht2 & Hkl);
    [by rewrite Ht1|by rewrite Ht1|].
  st_step Hl. destruct (cache_auth_chain_spec db2 (fst <$> b) l Hc2) as (db3 & Hcache & Hc3 & Ht3);
    [by rewrite Ht2|].
  st_step Hcache. exists l, db3. split_and!; try done; [congruence|by rewrite <- Ht1].
Qed.

Lemma buckets_spec room bs : forall db,
  Coherent db -> distinct_sns (tables db) -> (forall b, b ∈ bs -> rows_ok (tables db) room b) ->
  exists ls db', st_map (chain_of_bucket room) bs db = (Done ls, db') /\ Coherent db' /\
    tables db' = tables db /\
    forall sn, sn ∈ concat ls <->
      exists b k x, b ∈ bs /\ (k, x) ∈ b /\ in_chain (tables db) x sn.
Proof.
  induction bs as [|b bs IH]; intros db Hc Hd Hb.
  { exists [], db. split_and!; try done. intros sn. cbn. set_solver. }
  destruct (chain_of_bucket_spec room b db Hc Hd) as (l & db1 & Hl & Hc1 & Ht1 & Hk);
    [apply Hb; left|].
  destruct (IH db1 Hc1) as (ls & db2 & Hls & Hc2 & Ht2 & Hin);
    [by rewrite Ht1|rewrite Ht1; intros; apply Hb; by right|].
  exists (l :: ls), db2. split_and!; [|done|congruence|].
  - cbn [st_map]. st_step Hl. by st_step Hls.
  - rewrite Ht1 in Hin. intros sn. cbn [concat]. rewrite elem_of_app, (Hk sn), (Hin sn). split.
    + intros [(k & x & [[k' x'] [-> Hkx]]%list_elem_of_fmap & Hx & Hch)|(b' & k & x & Hb' & Hkx & Hch)].
      * exists b, k', x'. split; [left|]. split; [done|].
        destruct (Hb b) with k' x' as [Hx' _]; [left|done|]. by rewrite (Hd x' x k').
      * exists b', k, x. split; [by right|done].
    + intros (b' & k & x & [->|Hb']%elem_of_cons & Hkx & Hch); [left|right; eauto 7].
      exists k, x. split; [apply list_elem_of_fmap; by exists (k, x)|].
      split; [|done]. by destruct (Hb b) with k x as [Hx _]; [left|done|].
Qed.

Lemma elem_of_bucket rows i sn x :
  (sn, x) ∈ bucket rows i <-> (x, sn) ∈ rows /\ bucket_index sn = i.
Proof.
  unfold bucket. rewrite sort_by_key_Permutation, list_elem_of_fmap. split.
  - intros ([x' sn'] & [= -> ->] & [Hi H]%list_elem_of_filter). done.
  - intros [H Hi]. exists (x, sn). split; [done|]. by apply list_elem_of_filter.
Qed.

Lemma elem_of_dedup l x : x ∈ dedup l <-> x ∈ l.
Proof.
  induction l as [|y l IH]; cbn [dedup]; [done|]. rewrite elem_of_cons, <- IH.
  destruct (dedup l) as [|z k]; [set_solver +|].
  destruct (Z.eqb_spec y z) as [->|]; rewrite ?elem_of_cons; naive_solver.
Qed.

(** The chain is returned as a set. *)
Lemma get_auth_chain_sns_spec room ids db :
  Coherent db -> distinct_sns (tables db) ->
  (forall x sn, events (tables db) !! x = Some sn -> 0 <= sn) ->
  (forall x y, x ∈ ids -> x ∈ dom (events (tables db)) -> rtc (auth_edge (tables db)) x y ->
     good (tables db) room y) ->
  exists l db', get_auth_chain_sns room ids db = (Done l, db') /\ Coherent db' /\
    tables db' = tables db /\
    forall sn, sn ∈ l <-> exists x, x ∈ ids /\ x ∈ dom (events (tables db)) /\
                                    in_chain (tables db) x sn.
Proof.
  intros Hc Hd Hpos Hgood. unfold get_auth_chain_sns. rewrite st_gets_bind.
  set (rows := select_sns (tables db) ids).
  assert (forall x sn, (x, sn) ∈ rows -> x ∈ ids /\ events (tables db) !! x = Some sn /\
    0 <= bucket_index sn < NUM_BUCKETS) as Hrows.
  { intros x sn [Hx Hsn]%elem_of_select_sns. apply Hpos in Hsn as H0.
    pose proof (Z.rem_bound_pos sn NUM_BUCKETS H0 eq_refl).
    unfold bucket_index. split_and!; done || lia. }
  rewrite (proj2 (forallb_forall _ rows)); cycle 1.
  { intros [x sn] H%list_elem_of_In. apply Hrows in H. apply Z.leb_le. lia. }
  destruct (buckets_spec room (bucket rows <$> (Z.of_nat <$> seq 0 (Z.to_nat NUM_BUCKETS))) db
    Hc Hd) as (ls & db' & Hls & Hc' & Ht' & Hin).
  { intros b (i & -> & _)%list_elem_of_fmap sn x [Hx _]%elem_of_bucket.
    destruct (Hrows _ _ Hx) as (Hids & Hsn & _). split; [done|]. intros y.
    apply Hgood; [done|by eapply elem_of_dom_2]. }
  st_step Hls. eexists _, db'. split; [reflexivity|]. split_and!; try done.
  intros sn. rewrite elem_of_dedup, sort_by_key_Permutation, (Hin sn). split.
  - intros (b & k & x & (i & -> & _)%list_elem_of_fmap & [Hx _]%elem_of_bucket & Hch).
    destruct (Hrows _ _ Hx) as (Hids & Hsn & _). exists x. split_and!; try done.
    by eapply elem_of_dom_2.
  - intros (x & Hids & [k Hk]%elem_of_dom & Hch).
    assert ((x, k) ∈ rows) as Hx by by apply elem_of_select_sns.
    destruct (Hrows _ _ Hx) as (_ & _ & Hi).
    exists (bucket rows (bucket_index k)), k, x. split_and!; [|by apply elem_of_bucket|done].
    apply list_elem_of_fmap_2. apply list_elem_of_fmap.
    exists (Z.to_nat (bucket_index k)). split; [lia|]. apply elem_of_seq. lia.
Qed.

Lemma sorted_rows_ids t (l : list (string * Z)) :
  distinct_sns t -> NoDup l -> (forall x sn, (x, sn) ∈ l -> events t !! x = Some sn) ->
  StronglySorted (fun a b => cmp_le Z.compare a.2 b.2) l ->
  StronglySorted (fun a b => exists i j, events t !! a = Some i /\ events t !! b = Some j /\ i < j)
    (fst <$> l).
Proof.
  intros Hd. induction l as [|[x i] l IH]; intros Hnd Hl Hs; [constructor|].
  apply NoDup_cons in Hnd as [Hx Hnd]. apply StronglySorted_inv in Hs as [Hs Hall].
  rewrite fmap_cons. constructor; [apply IH; [done| |done]; intros; apply Hl; by right|].
  apply Forall_fmap. apply Forall_forall. intros [y j] Hy.
  rewrite Forall_forall in Hall. specialize (Hall _ Hy). unfold cmp_le in Hall. cbn in Hall.
  exists i, j. split_and!; [apply Hl; left|apply Hl; by right|].
  change (i <= j) in Hall. assert (i <> j) as Hne; [|lia]. intros <-. destruct Hx.
  rewrite (Hd x y i); [done|apply Hl; left|apply Hl; by right].
Qed.

(** C28: [get_auth_chain_ids] returns, by increasing sequence number and without
    repetition, the stored events reached from the starting events through one or
    more [auth_events] references: whatever is in the caches, as long as what is
    there was computed from the same events, and in whatever order rows are
    returned.  The traversal ends, and the caches stay coherent. *)
Theorem get_auth_chain_ids_spec room ids db :
  Coherent db -> distinct_sns (tables db) ->
  (forall x sn, events (tables db) !! x = Some sn -> 0 <= sn) ->
  (forall x y, x ∈ ids -> x ∈ dom (events (tables db)) -> rtc (auth_edge (tables db)) x y ->
     good (tables db) room y) ->
  exists l db', get_auth_chain_ids room ids db = (Done l, db') /\ Coherent db' /\
    tables db' = tables db /\
    StronglySorted (fun a b => exists i j, events (tables db) !! a = Some i /\
                      events (tables db) !! b = Some j /\ i < j) l /\
    forall y, y ∈ l <-> exists x, x ∈ ids /\ x ∈ dom (events (tables db)) /\
                                  tc (auth_edge (tables db)) x y.
Proof.
  intros Hc Hd Hpos Hgood.
  destruct (get_auth_chain_sns_spec room ids db Hc Hd Hpos Hgood) as
    (sns & db' & Hsns & Hc' & Ht' & Hin).
  unfold get_auth_chain_ids. st_step Hsns. eexists _, db'. split; [reflexivity|].
  rewrite Ht'. set (rows := filter _ (iter_map (events (tables db)))).
  assert (forall x sn, (x, sn) ∈ rows <-> sn ∈ sns /\ events (tables db) !! x = Some sn) as Hrows.
  { intros x sn. unfold rows. by rewrite list_elem_of_filter, elem_of_iter_map. }
  split_and!; try done.
  - apply sorted_rows_ids; [done| | |].
    + rewrite sort_by_key_Permutation. apply NoDup_filter. unfold iter_map.
      rewrite hash_perm_ok. apply NoDup_map_to_list.
    + intros x sn. rewrite sort_by_key_Permutation. apply Hrows.
    + apply (sort_by_key_sorted Z.compare snd).
  - intros y. rewrite list_elem_of_fmap. setoid_rewrite sort_by_key_Permutation. split.
    + intros ([y' sn] & -> & [(x & Hx & Hdx & z & Hz & Hez)%Hin Hy]%Hrows).
      rewrite (Hd y' z sn) by done. eauto.
    + intros (x & Hx & Hdx & Hy). pose proof (tc_edge_dom _ _ _ Hy) as [sn Hsn]%elem_of_dom.
      exists (y, sn). split; [done|]. apply Hrows. split; [|done]. apply Hin.
      exists x. split_and!; try done. by exists y.
Qed.

(** [get_event_auth_chain] returns every sequence number of the event's auth
    chain once, and only when every event it meets, the event itself included, is
    stored and of the room; otherwise it returns an error.  The traversal always
    ends, also when the stored [auth_events] form a cycle. *)
Theorem get_event_auth_chain_spec t room x :
  distinct_sns t ->
  match get_event_auth_chain t room x with
  | Done l => NoDup l /\ (forall sn, sn ∈ l <-> in_chain t x sn) /\
              (forall y, rtc (auth_edge t) x y -> good t room y)
  | Fail _ => exists y, rtc (auth_edge t) x y /\ ~ good t room y
  | Panic | OutOfFuel => False
  end.
Proof.
  intros Hd. unfold get_event_auth_chain.
  destruct (auth_chain_loop_spec t room x (S (size (events t))) [x] ∅ ∅ ∅) as
    [(W & -> & Hin & Hall)|(e & y & -> & Hy & Hbad)]; [done| |cbn; lia| |].
  - constructor; try set_solver. intros sn. set_solver.
  - cbn. split_and!; [apply NoDup_iter_set| |done]. intros sn. by rewrite elem_of_iter_set.
  - by exists y.
Qed.
End caching.

(** ** Examples *)

#[local] Existing Instance forward_order.
#[local] Instance example_cache : LruCache (list Z) (list Z) := unbounded_cache (list Z) (list Z).

(** The first three events of a room. *)
Definition example_tables : EventTables :=
  {| events := {[ "$create:x" := 1; "$alice:x" := 2; "$levels:x" := 3 ]};
     event_datas := {[ "$create:x" := Some ex_create; "$alice:x" := Some ex_alice;
                       "$levels:x" := Some ex_levels ]} |}.
Definition example_chain_db : ChainDb :=
  {| tables := example_tables; event_auth_chains := ∅; auth_chain_cache := lru_new |}.

Lemma example_distinct : distinct_sns example_tables.
Proof.
  intros x y sn. cbn [events example_tables].
  rewrite !lookup_insert_Some, !lookup_singleton_Some. naive_solver lia.
Qed.

Lemma example_good y : y ∈ dom (events example_tables) -> good example_tables "!r:x" y.
Proof.
  intros [sn H]%elem_of_dom. cbn [events example_tables] in H.
  rewrite !lookup_insert_Some, lookup_singleton_Some in H.
  destruct H as [[<- _]|[_ [[<- _]|[_ [<- _]]]]]; eexists; split; by vm_compute.
Qed.

Lemma example_reach_dom x y :
  x ∈ dom (events example_tables) -> rtc (auth_edge example_tables) x y ->
  y ∈ dom (events example_tables).
Proof. intros Hx [->|Hy]%rtc_tc_edge; [done|by eapply tc_edge_dom]. Qed.

Lemma get_auth_chain_ids_spec_witness :
  exists l db', get_auth_chain_ids "!r:x" ["$levels:x"; "$gone:x"] example_chain_db = (Done l, db') /\
    Coherent db' /\ tables db' = example_tables /\
    StronglySorted (fun a b => exists i j, events example_tables !! a = Some i /\
                      events example_tables !! b = Some j /\ i < j) l /\
    forall y, y ∈ l <-> exists x, x ∈ ["$levels:x"; "$gone:x"] /\ x ∈ dom (events example_tables) /\
                                  tc (auth_edge example_tables) x y.
Proof.
  apply (get_auth_chain_ids_spec "!r:x" ["$levels:x"; "$gone:x"] example_chain_db).
  - constructor; intros key chain H.
    + cbn in H. by rewrite lookup_empty in H.
    + change ((∅ : gmap (list Z) (list Z)) !! key = Some chain) in H. by rewrite lookup_empty in H.
  - exact example_distinct.
  - intros x sn. cbn [tables events example_tables example_chain_db].
    rewrite !lookup_insert_Some, !lookup_singleton_Some. naive_solver lia.
  - intros x y _ Hx Hy. apply example_good. by eapply example_reach_dom.
Defined.

Lemma get_event_auth_chain_spec_witness :
  match get_event_auth_chain example_tables "!r:x" "$levels:x" with
  | Done l => NoDup l /\ (forall sn, sn ∈ l <-> in_chain example_tables "$levels:x" sn) /\
              (forall y, rtc (auth_edge example_tables) "$levels:x" y ->
                         good example_tables "!r:x" y)
  | Fail _ => exists y, rtc (auth_edge example_tables) "$levels:x" y /\
                        ~ good example_tables "!r:x" y
  | Panic | OutOfFuel => False
  end.
Proof. apply (get_event_auth_chain_spec example_tables "!r:x" "$levels:x" example_distinct). Defined.

Example chain_evaluates :
  (get_auth_chain_ids "!r:x" ["$levels:x"; "$gone:x"] example_chain_db).1
  = Done ["$create:x"; "$alice:x"].
Proof. vm_compute. done. Qed.
