(* ===== verification/Sending.v ===== *)
(** * Outgoing requests: [crates/server/src/sending.rs] (the queue),
      [crates/server/src/sending/guard.rs] (the worker) and
      [crates/data/src/sending.rs]

    Events for other servers, appservices and push gateways are rows of
    [outgoing_requests] before anything is sent.  The worker claims the rows of a
    destination (their state becomes ["pending"]), sends them in one transaction
    and deletes them once the transaction succeeded.  [SendDb] holds the tables;
    every operation on them makes one connection, for one statement or transaction,
    and [db_calls] tells which of the next ones succeed, so that every error path of
    the worker can be taken, also in the middle of a turn.  [Guard] is the local state
    of [process]: the status of every destination, the EDU windows of the
    transactions in flight and the futures being polled; the wakeup channel is part
    of it.  What a transaction sends over the network, and what [select_edus] reads
    of other tables, is a parameter.  A turn can also be one in which another
    process on the same database changes the rows. *)
From S2P Require Import Prelude RustStr Effects.
Open Scope Z_scope.

(** ** Destinations and events *)

Inductive OutgoingKind : Type :=
| Appservice (id : string)
| Push (user_id pushkey : string)
| Normal (server : string).

#[global] Instance OutgoingKind_eq_dec : EqDecision OutgoingKind.
Proof. solve_decision. Defined.
#[global] Instance OutgoingKind_countable : Countable OutgoingKind.
Proof.
  refine (inj_countable'
    (fun k => match k with
              | Appservice id => inl (inl id)
              | Push u p => inl (inr (u, p))
              | Normal s => inr s end)
    (fun x => match x with
              | inl (inl id) => Appservice id
              | inl (inr (u, p)) => Push u p
              | inr s => Normal s end) _).
  by intros [].
Defined.

(** [OutgoingKind::name] *)
Definition kind_name (k : OutgoingKind) : string :=
  match k with Appservice _ => "appservice" | Push _ _ => "push" | Normal _ => "normal" end.

Inductive SendingEventType : Type :=
| SePdu (id : string)
| SeEdu (buf : string)
| SeFlush.

#[global] Instance SendingEventType_eq_dec : EqDecision SendingEventType.
Proof. solve_decision. Defined.

(** A row of [outgoing_requests]; a new row is ["created"]. *)
Record DbOutgoingRequest := {
  rq_kind : string;
  rq_appservice_id : option string;
  rq_user_id : option string;
  rq_pushkey : option string;
  rq_server_id : option string;
  rq_pdu_id : option string;
  rq_edu_json : option string;
  rq_state : string;
  rq_data : option string;
  rq_retry_count : Z;
  rq_last_failed_at : option Z
}.

Record SendDb := {
  outgoing_requests : gmap Z DbOutgoingRequest;
  next_request_id : Z;
  outgoing_edu_cursors : gmap string Z;
  curr_sn : Z;
  db_calls : list bool        (* whether the next connections succeed; later ones do *)
}.

Definition set_requests m (db : SendDb) : SendDb :=
  {| outgoing_requests := m; next_request_id := next_request_id db;
     outgoing_edu_cursors := outgoing_edu_cursors db; curr_sn := curr_sn db; db_calls := db_calls db |}.

Definition set_calls l (db : SendDb) : SendDb :=
  {| outgoing_requests := outgoing_requests db; next_request_id := next_request_id db;
     outgoing_edu_cursors := outgoing_edu_cursors db; curr_sn := curr_sn db; db_calls := l |}.

(** Whether the [n]th of the next connections succeeds, the database after one of
    them, and whether all of them succeed. *)
Definition call_up (n : nat) (db : SendDb) : bool := default true (db_calls db !! n).
Definition after_call (db : SendDb) : SendDb := set_calls (tail (db_calls db)) db.
Definition db_up (db : SendDb) : bool := forallb id (db_calls db).

(** [connect().await?] *)
Definition connect : St SendDb unit := fun db =>
  (if call_up 0 db then Done tt else Fail AppInternal, after_call db).

(** ** The queue *)

(** The conversion of a row's columns in [active_requests] and [queued_kinds]. *)
Definition row_destination (r : DbOutgoingRequest) : option OutgoingKind :=
  if decide (rq_kind r = "appservice") then Appservice <$> rq_appservice_id r
  else if decide (rq_kind r = "push") then
    u ← rq_user_id r; p ← rq_pushkey r; Some (Push u p)
  else if decide (rq_kind r = "normal") then Normal <$> rq_server_id r
  else None.
Definition row_event (r : DbOutgoingRequest) : option SendingEventType :=
  match rq_edu_json r with
  | Some value => Some (SeEdu value)
  | None => SePdu <$> rq_pdu_id r
  end.
(** The filters of a query for a destination. *)
Definition for_destination (k : OutgoingKind) (r : DbOutgoingRequest) : Prop :=
  rq_kind r = kind_name k /\
  match k with
  | Appservice id => rq_appservice_id r = Some id
  | Normal server => rq_server_id r = Some server
  | Push user pushkey => rq_user_id r = Some user /\ rq_pushkey r = Some pushkey
  end.
#[global] Instance for_destination_dec k r : Decision (for_destination k r).
Proof. destruct k; cbn; apply _. Defined.

Definition pending (r : DbOutgoingRequest) : Prop := rq_state r = "pending".
#[global] Instance pending_dec r : Decision (pending r).
Proof. unfold pending. apply _. Defined.

Definition new_request (k : OutgoingKind) (event : SendingEventType) : DbOutgoingRequest := {|
  rq_kind := kind_name k;
  rq_appservice_id := match k with Appservice id => Some id | _ => None end;
  rq_user_id := match k with Push u _ => Some u | _ => None end;
  rq_pushkey := match k with Push _ p => Some p | _ => None end;
  rq_server_id := match k with Normal s => Some s | _ => None end;
  rq_pdu_id := match event with SePdu id => Some id | _ => None end;
  rq_edu_json := match event with SeEdu buf => Some buf | _ => None end;
  rq_state := "created"; rq_data := None; rq_retry_count := 0; rq_last_failed_at := None |}.

Definition queue_request (k : OutgoingKind) (event : SendingEventType) : St SendDb Z :=
  _ ← connect;
  st_do (fun db =>
    let id := next_request_id db in
    (Done id, {| outgoing_requests := <[id := new_request k event]> (outgoing_requests db);
                 next_request_id := id + 1; outgoing_edu_cursors := outgoing_edu_cursors db;
                 curr_sn := curr_sn db; db_calls := db_calls db |})).
Definition queue_requests (requests : list (OutgoingKind * SendingEventType)) : St SendDb (list Z) :=
  st_map (fun '(k, event) => queue_request k event) requests.

Definition delete_request (id : Z) : St SendDb unit :=
  _ ← connect; st_modify (fun db => set_requests (delete id (outgoing_requests db)) db).
Definition delete_all_active_requests_for (k : OutgoingKind) : St SendDb unit :=
  _ ← connect;
  st_modify (fun db => set_requests
    (filter (fun '(_, r) => ~ (for_destination k r /\ pending r)) (outgoing_requests db)) db).

Section rows.
Context {HO : HashOrder}.

Definition active_requests : St SendDb (list (Z * OutgoingKind * SendingEventType)) :=
  _ ← connect;
  st_gets (fun db => omap (fun '(id, r) =>
    k ← row_destination r; e ← row_event r; Some (id, k, e))
    (filter (fun '(_, r) => pending r) (iter_map (outgoing_requests db)))).

Definition active_requests_for (k : OutgoingKind) : St SendDb (list (Z * SendingEventType)) :=
  _ ← connect;
  st_gets (fun db => omap (fun '(id, r) => e ← row_event r; Some (id, e))
    (filter (fun '(_, r) => for_destination k r /\ pending r) (iter_map (outgoing_requests db)))).

(** Destinations with rows not yet claimed, each once. *)
Definition queued_kinds : St SendDb (list OutgoingKind) :=
  _ ← connect;
  st_gets (fun db => remove_dups (omap (fun '(_, r) => row_destination r)
    (filter (fun '(_, r) => ~ pending r) (iter_map (outgoing_requests db))))).

(** The first [limit] rows of a destination not yet claimed, by id; the limit is
    applied before the rows without an event are dropped. *)
Definition queued_rows (k : OutgoingKind) (db : SendDb) : list (Z * DbOutgoingRequest) :=
  sort_by_key Z.compare fst
    (filter (fun '(_, r) => for_destination k r /\ ~ pending r) (iter_map (outgoing_requests db))).
Definition queued_requests (k : OutgoingKind) (limit : nat) : St SendDb (list (Z * SendingEventType)) :=
  _ ← connect;
  st_gets (fun db => omap (fun '(id, r) => e ← row_event r; Some (id, e))
                          (take limit (queued_rows k db))).

Definition claim_row (event : SendingEventType) (r : DbOutgoingRequest) : DbOutgoingRequest :=
  {| rq_kind := rq_kind r; rq_appservice_id := rq_appservice_id r; rq_user_id := rq_user_id r;
     rq_pushkey := rq_pushkey r; rq_server_id := rq_server_id r; rq_pdu_id := rq_pdu_id r;
     rq_edu_json := rq_edu_json r; rq_state := "pending";
     rq_data := Some (match event with SeEdu value => value | _ => EmptyString end);
     rq_retry_count := rq_retry_count r; rq_last_failed_at := rq_last_failed_at r |}.

(** One update of the transaction of [claim_queued_requests]: a row that is gone
    or already claimed is not returned. *)
Definition claim_one (acc : list SendingEventType * gmap Z DbOutgoingRequest)
    (ev : Z * SendingEventType) : list SendingEventType * gmap Z DbOutgoingRequest :=
  let '(claimed, m) := acc in
  let '(id, event) := ev in
  match m !! id with
  | Some r => if decide (pending r) then (claimed, m)
              else ((claimed ++ [event])%list, <[id := claim_row event r]> m)
  | None => (claimed, m)
  end.
Definition claim_queued_requests (events : list (Z * SendingEventType)) : St SendDb (list SendingEventType) :=
  _ ← connect;
  st_do (fun db => let '(claimed, m) := foldl claim_one ([], outgoing_requests db) events in
                   (Done claimed, set_requests m db)).

(** ** [crates/data/src/sending.rs] *)

Definition get_edu_cursor (server : string) : St SendDb (option Z) :=
  _ ← connect; st_gets (fun db => outgoing_edu_cursors db !! server).
Definition advance_edu_cursor (server : string) (edu_sn : Z) : St SendDb unit :=
  _ ← connect;
  st_modify (fun db =>
    {| outgoing_requests := outgoing_requests db; next_request_id := next_request_id db;
       outgoing_edu_cursors :=
         <[server := match outgoing_edu_cursors db !! server with
                     | Some c => Z.max c edu_sn | None => edu_sn end]> (outgoing_edu_cursors db);
       curr_sn := curr_sn db; db_calls := db_calls db |}).

Definition with_retry (tries now : Z) (r : DbOutgoingRequest) : DbOutgoingRequest :=
  {| rq_kind := rq_kind r; rq_appservice_id := rq_appservice_id r; rq_user_id := rq_user_id r;
     rq_pushkey := rq_pushkey r; rq_server_id := rq_server_id r; rq_pdu_id := rq_pdu_id r;
     rq_edu_json := rq_edu_json r; rq_state := rq_state r; rq_data := rq_data r;
     rq_retry_count := tries; rq_last_failed_at := Some now |}.
(** The rows a retry state is written to: those in state ["active"]. *)
Definition persist_retry_state (k : OutgoingKind) (tries now : Z) : St SendDb unit :=
  _ ← connect;
  st_modify (fun db => set_requests
    ((fun r => if decide (for_destination k r /\ rq_state r = "active") then with_retry tries now r
               else r) <$> outgoing_requests db) db).
End rows.

(** ** The worker *)

Inductive TransactionStatus : Type :=
| Running
| Failed (tries : Z) (time : Z)       (* number of failures, time of the last one *)
| Retrying (tries : Z).

(** Seconds; times are seconds too. *)
Definition retry_backoff (tries : Z) : Z := Z.min (30 * tries * tries) (60 * 60 * 24).

Definition QUEUED_REQUEST_LIMIT : nat := 30.
Definition WAKEUP_QUEUE_CAPACITY : nat := Z.to_nat 4096.

(** [edu_since_sn] *)
Definition edu_since_sn (cursor : option Z) (max_edu_sn : Z) : Z :=
  match cursor with Some c => c + 1 | None => max_edu_sn end.

Record Guard := {
  db : SendDb;
  status : gmap OutgoingKind TransactionStatus;         (* current_transaction_status *)
  edu_cursors : gmap OutgoingKind Z;                    (* pending_edu_cursors *)
  futures : list (OutgoingKind * list SendingEventType);
  wakeups : list OutgoingKind                           (* the channel *)
}.

Definition set_db d (g : Guard) : Guard :=
  {| db := d; status := status g; edu_cursors := edu_cursors g; futures := futures g;
     wakeups := wakeups g |}.
Definition set_status m (g : Guard) : Guard :=
  {| db := db g; status := m; edu_cursors := edu_cursors g; futures := futures g;
     wakeups := wakeups g |}.
Definition set_edu_cursors m (g : Guard) : Guard :=
  {| db := db g; status := status g; edu_cursors := m; futures := futures g;
     wakeups := wakeups g |}.
Definition set_futures l (g : Guard) : Guard :=
  {| db := db g; status := status g; edu_cursors := edu_cursors g; futures := l;
     wakeups := wakeups g |}.
Definition set_wakeups l (g : Guard) : Guard :=
  {| db := db g; status := status g; edu_cursors := edu_cursors g; futures := futures g;
     wakeups := l |}.

Definition on_db {A} (m : St SendDb A) : St Guard A := fun g =>
  let '(r, d) := m (db g) in (r, set_db d g).

Definition push_future (k : OutgoingKind) (events : list SendingEventType) : St Guard unit :=
  st_modify (fun g => set_futures (futures g ++ [(k, events)])%list g).
Definition set_kind_status (k : OutgoingKind) (s : TransactionStatus) : St Guard unit :=
  st_modify (fun g => set_status (<[k := s]> (status g)) g).
Definition remove_kind_status (k : OutgoingKind) : St Guard unit :=
  st_modify (fun g => set_status (delete k (status g)) g).
Definition set_edu_cursor (k : OutgoingKind) (sn : Z) : St Guard unit :=
  st_modify (fun g => set_edu_cursors (<[k := sn]> (edu_cursors g)) g).

Section guard.
Context {HO : HashOrder}.
(** What [select_edus_device_changes], [select_edus_receipts] and
    [select_edus_presence] return for a server and a first sequence number, and
    whether the configuration lets receipts and presence out. *)
Context (device_changes : SendDb -> string -> Z -> result AppError (list string))
        (receipts presence : SendDb -> string -> Z -> result AppError (option string))
        (receipts_allowed presence_allowed : bool).

Definition select_edus (server : string) : St SendDb (list string * Z) :=
  _ ← connect;
  max_edu_sn ← st_gets curr_sn;
  cursor ← get_edu_cursor server;
  let since_sn := edu_since_sn cursor max_edu_sn in
  st_do (fun db =>
    match device_changes db server since_sn,
          (if receipts_allowed then receipts db server since_sn else Ok None),
          (if presence_allowed then presence db server since_sn else Ok None) with
    | Ok events, Ok r, Ok p => (Done ((events ++ option_list r ++ option_list p)%list, max_edu_sn), db)
    | Err e, _, _ | Ok _, Err e, _ | Ok _, Ok _, Err e => (Fail e, db)
    end).

(** EDUs go with the other events of a server's transaction: the events extended
    and the window remembered, when the selection succeeds. *)
Definition piggyback_edus (k : OutgoingKind) (events : list SendingEventType) :
    St Guard (list SendingEventType) :=
  match k with
  | Normal server =>
      r ← st_try (on_db (select_edus server));
      match r with
      | Ok (edus, last_sn) =>
          _ ← set_edu_cursor k last_sn;
          mret (events ++ (SeEdu <$> edus))%list
      | Err _ => mret events
      end
  | _ => mret events
  end.
(** The same, only when there are EDUs. *)
Definition edus_alone (k : OutgoingKind) (events : list SendingEventType) :
    St Guard (list SendingEventType) :=
  match k with
  | Normal server =>
      r ← st_try (on_db (select_edus server));
      match r with
      | Ok ((_ :: _) as edus, last_sn) =>
          _ ← set_edu_cursor k last_sn;
          mret (events ++ (SeEdu <$> edus))%list
      | _ => mret events
      end
  | _ => mret events
  end.

(** What follows the response of a transaction that succeeded: the next batch, or
    EDUs alone, or nothing. *)
Definition next_transaction (k : OutgoingKind) : St Guard unit :=
  new_events ← st_try (on_db (queued_requests k QUEUED_REQUEST_LIMIT));
  events ← match default [] (ok new_events) with
           | [] => mret []
           | new_events => on_db (claim_queued_requests new_events)
           end;
  match events with
  | _ :: _ => events ← piggyback_edus k events; push_future k events
  | [] =>
      events ← edus_alone k [];
      match events with
      | [] => remove_kind_status k
      | _ => push_future k events
      end
  end.

(** The response of a transaction that succeeded. *)
Definition on_success (k : OutgoingKind) : St Guard unit :=
  _ ← on_db (delete_all_active_requests_for k);
  edu_sn ← st_gets (fun g => edu_cursors g !! k);
  _ ← st_modify (fun g => set_edu_cursors (delete k (edu_cursors g)) g);
  _ ← match edu_sn, k with
      | Some edu_sn, Normal server =>
          _ ← st_try (on_db (advance_edu_cursor server edu_sn)); mret tt
      | _, _ => mret tt
      end;
  next_transaction k.

(** The response of a transaction that failed at time [now]; the number of
    failures is a [u32]. *)
Definition on_failure (k : OutgoingKind) (now : Z) : St Guard unit :=
  _ ← st_modify (fun g => set_edu_cursors (delete k (edu_cursors g)) g);
  _ ← st_modify (fun g => set_status
        (alter (fun e => match e with
                         | Running => Failed 1 now
                         | Retrying n => Failed (Z.min (n + 1) (2 ^ 32 - 1)) now
                         | Failed _ _ => e
                         end) k (status g)) g);
  s ← st_gets (fun g => status g !! k);
  match s with
  | Some (Failed tries _) => _ ← st_try (on_db (persist_retry_state k tries now)); mret tt
  | _ => mret tt
  end.

(** [select_events], called at time [now]. *)
Definition select_events (k : OutgoingKind) (new_events : list (Z * SendingEventType)) (now : Z) :
    St Guard (option (list SendingEventType)) :=
  s ← st_gets (fun g => status g !! k);
  let '(allow, retry, s') :=
    match s with
    | Some Running => (false, false, Running)
    | Some (Retrying n) => (false, false, Retrying n)
    | Some (Failed tries time) =>
        if decide (now - time < retry_backoff tries) then (false, false, Failed tries time)
        else (true, true, Retrying tries)
    | None => (true, false, Running)
    end in
  _ ← set_kind_status k s';
  if negb (allow : bool) then mret None
  else
    events ←
      (if (retry : bool) then
         active ← on_db (active_requests_for k); mret (Some (snd <$> active))
       else
         r ← st_try (on_db (claim_queued_requests new_events));
         match r with
         | Ok [] => _ ← remove_kind_status k; mret None
         | Ok events => mret (Some events)
         | Err e => _ ← remove_kind_status k; st_fail e
         end);
    match events with
    | Some events => events ← piggyback_edus k events; mret (Some events)
    | None => mret None
    end.

(** Starting a transaction for a destination with queued rows: the body shared by
    a wakeup and a turn of the sweep. *)
Definition start_transaction (k : OutgoingKind) (now : Z) : St Guard unit :=
  s ← st_gets (fun g => status g !! k);
  match s with
  | Some _ => mret tt
  | None =>
      r ← st_try (on_db (queued_requests k QUEUED_REQUEST_LIMIT));
      match r with
      | Err _ | Ok [] => mret tt
      | Ok new_events =>
          sel ← st_try (select_events k new_events now);
          match sel with
          | Ok (Some events) => push_future k events
          | Ok None | Err _ => mret tt
          end
      end
  end.

Definition on_wakeup (now : Z) : St Guard unit := fun g =>
  match wakeups g with
  | k :: ks => start_transaction k now (set_wakeups ks g)
  | [] => (Done tt, g)
  end.

Definition on_sweep (now : Z) : St Guard unit :=
  kinds ← st_try (on_db queued_kinds);
  match kinds with
  | Ok kinds => st_iter (fun k => start_transaction k now) kinds
  | Err _ => mret tt
  end.

(** Retrying one destination whose backoff is over. *)
Definition retry_one (now : Z) (kt : OutgoingKind * Z) : St Guard unit :=
  let '(k, tries) := kt in
  r ← st_try (on_db (active_requests_for k));
  match r with
  | Err _ => set_kind_status k (Failed tries now)
  | Ok active =>
      events ← edus_alone k (snd <$> active);
      match events with
      | [] => remove_kind_status k
      | _ =>
          _ ← set_kind_status k (Retrying tries);
          push_future k events
      end
  end.
Definition retry_ready (now : Z) (g : Guard) : list (OutgoingKind * Z) :=
  omap (fun '(k, s) => match s with
                       | Failed tries time =>
                           if decide (retry_backoff tries <= now - time) then Some (k, tries) else None
                       | _ => None
                       end) (iter_map (status g)).
Definition on_retry (now : Z) : St Guard unit :=
  ready ← st_gets (retry_ready now);
  st_iter (retry_one now) ready.

(** [next_retry_delay] at time [now]. *)
Definition next_retry_delay (now : Z) (g : Guard) : option Z :=
  head (sort_by_key Z.compare id
    (omap (fun '(_, s) => match s with
                          | Failed tries time => Some (Z.max 0 (retry_backoff tries - (now - time)))
                          | _ => None
                          end) (iter_map (status g)))).

(** ** Turns

    What happens in an order the worker does not choose: a request is queued (and
    the worker woken, unless the channel is full), a transaction in flight
    returns, a wakeup is received, the sweep ticks, the retry timer fires, the
    availability of the database changes: [calls] tells which of the next
    connections succeed, in the turns that follow; or another process on the same
    database leaves other rows behind. *)
Inductive Turn : Type :=
| Enqueue (k : OutgoingKind) (event : SendingEventType)
| Returned (k : OutgoingKind) (success : bool) (now : Z)
| Wakeup (now : Z)
| Sweep (now : Z)
| Retry (now : Z)
| DbCalls (calls : list bool)
| Elsewhere (rows : gmap Z DbOutgoingRequest).

(** [queue_request] and [notify]. *)
Definition enqueue (k : OutgoingKind) (event : SendingEventType) : St Guard unit :=
  r ← st_try (on_db (queue_request k event));
  match r with
  | Ok _ => st_modify (fun g =>
      if Nat.ltb (length (wakeups g)) WAKEUP_QUEUE_CAPACITY
      then set_wakeups (wakeups g ++ [k])%list g else g)
  | Err _ => mret tt
  end.

(** The future that resolved leaves the set. *)
Fixpoint take_future (k : OutgoingKind) (l : list (OutgoingKind * list SendingEventType)) :=
  match l with
  | [] => []
  | f :: l => if decide (f.1 = k) then l else f :: take_future k l
  end.
Definition remove_future (k : OutgoingKind) (g : Guard) : Guard :=
  set_futures (take_future k (futures g)) g.

Definition turn (t : Turn) : St Guard unit :=
  match t with
  | Enqueue k event => enqueue k event
  | Returned k success now => fun g =>
      if existsb (fun f => bool_decide (f.1 = k)) (futures g) then
        (if success then on_success k else on_failure k now) (remove_future k g)
      else (Done tt, g)
  | Wakeup now => on_wakeup now
  | Sweep now => on_sweep now
  | Retry now => on_retry now
  | DbCalls calls => st_modify (fun g => set_db (set_calls calls (db g)) g)
  | Elsewhere rows => st_modify (fun g => set_db (set_requests rows (db g)) g)
  end.

Definition run (ts : list Turn) : St Guard unit := st_iter turn ts.

(** The requests left by a previous process: one transaction per destination, at
    most 513 events each, the others deleted. *)
Definition startup_one (acc : gmap OutgoingKind (list SendingEventType))
    (req : Z * OutgoingKind * SendingEventType) :
    St Guard (gmap OutgoingKind (list SendingEventType)) :=
  let '(id, k, event) := req in
  let entry := default [] (acc !! k) in
  if Nat.ltb (Z.to_nat 512) (length entry) then
    _ ← on_db (delete_request id); mret (<[k := entry]> acc)
  else mret (<[k := (entry ++ [event])%list]> acc).
Fixpoint startup_all (acc : gmap OutgoingKind (list SendingEventType))
    (reqs : list (Z * OutgoingKind * SendingEventType)) :
    St Guard (gmap OutgoingKind (list SendingEventType)) :=
  match reqs with
  | [] => mret acc
  | req :: reqs => acc ← startup_one acc req; startup_all acc reqs
  end.
Definition startup : St Guard unit :=
  reqs ← on_db active_requests;
  initial ← startup_all ∅ reqs;
  st_iter (fun '(k, events) => _ ← set_kind_status k Running; push_future k events)
    (iter_map initial).
End guard.
