(* ===== verification/SendingChannels.v ===== *)
(** * The sending worker as one channel per destination

    The contract of the worker of Sending.v ([chan_step]), the abstraction from its
    tables and bookkeeping to a channel for every destination ([channel]), the
    invariant [Inv] that ties both together, and that every handler of the worker
    is a step of the contract ([turn_moves]).  SendingLive.v draws the
    consequences for whole runs. *)
From S2P Require Import Prelude RustStr Effects Sending.
Open Scope Z_scope.

(** ** The contract: a channel per destination

    What the worker promises to a destination, without tables, claims or timers:
    requests wait in the order they were queued, the first ones are taken together,
    stay taken until a transaction that contains all of them succeeds, and only one
    transaction is in flight. *)

Inductive Mode : Type :=
| Idle
| InFlight (events : list SendingEventType)
| Backoff.

Record Channel := Chan {
  ch_queued : list (Z * SendingEventType);
  ch_claimed : list (Z * SendingEventType);
  ch_mode : Mode
}.

(** A step queues a request, or is the end of a transaction, or neither; [Unread] is
    a success after which the queue could not be read. *)
Inductive Label : Type := Quiet | Queued (id : Z) | Success | Unread | Failure.
#[global] Instance Label_eq_dec : EqDecision Label.
Proof. solve_decision. Defined.

(** Nothing, or a transaction of EDUs alone. *)
Definition edus_only (extra : list SendingEventType) : Mode :=
  match extra with [] => Idle | _ => InFlight extra end.

Inductive chan_step : Label -> Channel -> Channel -> Prop :=
| chan_stay c : chan_step Quiet c c
| chan_enqueue q c m id ev :
    (forall x, x ∈ (q ++ c)%list -> x.1 < id) ->
    chan_step (Queued id) (Chan q c m) (Chan (q ++ [(id, ev)])%list c m)
| chan_start q extra :
    q <> [] ->
    chan_step Quiet (Chan q [] Idle)
      (Chan (drop QUEUED_REQUEST_LIMIT q) (take QUEUED_REQUEST_LIMIT q)
            (InFlight ((take QUEUED_REQUEST_LIMIT q).*2 ++ extra)%list))
| chan_fail q c events :
    chan_step Failure (Chan q c (InFlight events)) (Chan q c Backoff)
| chan_retry q c events :
    c.*2 ⊆ events -> events <> [] ->
    chan_step Quiet (Chan q c Backoff) (Chan q c (InFlight events))
| chan_give_up q :
    chan_step Quiet (Chan q [] Backoff) (Chan q [] Idle)
| chan_success q c events extra :
    c.*2 ⊆ events -> q <> [] \/ extra <> [] ->
    chan_step Success (Chan q c (InFlight events))
      (Chan (drop QUEUED_REQUEST_LIMIT q) (take QUEUED_REQUEST_LIMIT q)
            (InFlight ((take QUEUED_REQUEST_LIMIT q).*2 ++ extra)%list))
| chan_drained c events :
    c.*2 ⊆ events ->
    chan_step Success (Chan [] c (InFlight events)) (Chan [] [] Idle)
| chan_unread q c events extra :
    c.*2 ⊆ events ->
    chan_step Unread (Chan q c (InFlight events)) (Chan q [] (edus_only extra)).

(** What is taken is in flight, or waits for a retry. *)
Definition chan_ok (c : Channel) : Prop :=
  match ch_mode c with
  | Idle => ch_claimed c = []
  | InFlight events => (ch_claimed c).*2 ⊆ events
  | Backoff => True
  end.

Lemma chan_step_ok b c c' : chan_step b c c' -> chan_ok c -> chan_ok c'.
Proof. destruct 1 as [| | | | | | | |q c events [] Hc]; cbn; try done; intros _; set_solver. Qed.

(** A request is deleted within [n] successful transactions: one if it is taken,
    and one more for every batch that is taken before. *)
Definition within (n : nat) (id : Z) (c : Channel) : Prop :=
  (id ∈ (ch_claimed c).*1 -> (1 <= n)%nat) /\
  (forall i ev, ch_queued c !! i = Some (id, ev) -> (i / QUEUED_REQUEST_LIMIT + 2 <= n)%nat).

Lemma within_0 id c : within 0 id c <-> (id ∉ (ch_claimed c).*1) /\ id ∉ (ch_queued c).*1.
Proof.
  unfold within. split.
  - intros [H1 H2]. split; [intros H; specialize (H1 H); lia|].
    intros ([? ev] & -> & [i Hi]%list_elem_of_lookup)%list_elem_of_fmap.
    specialize (H2 _ _ Hi). lia.
  - intros [H1 H2]. split; [done|]. intros i ev Hi. destruct H2.
    by apply list_elem_of_lookup_2, (list_elem_of_fmap_2 fst) in Hi.
Qed.

Lemma div_limit i :
  ((QUEUED_REQUEST_LIMIT + i) / QUEUED_REQUEST_LIMIT = i / QUEUED_REQUEST_LIMIT + 1)%nat.
Proof.
  replace (QUEUED_REQUEST_LIMIT + i)%nat with (i + 1 * QUEUED_REQUEST_LIMIT)%nat by lia.
  by apply Nat.div_add.
Qed.

(** Taking a batch brings everything one transaction nearer. *)
Lemma within_batch n id q c' m m' :
  within n id (Chan q c' m) ->
  within (n - 1) id (Chan (drop QUEUED_REQUEST_LIMIT q) (take QUEUED_REQUEST_LIMIT q) m').
Proof.
  intros [_ H]. split; cbn [ch_claimed ch_queued] in *.
  - intros ([? ev] & -> & [i Hi]%list_elem_of_lookup)%list_elem_of_fmap.
    apply lookup_take_Some in Hi as [Hi _].
    specialize (H _ _ Hi). lia.
  - intros i ev Hi. rewrite lookup_drop in Hi. specialize (H _ _ Hi).
    rewrite div_limit in H. lia.
Qed.

Lemma within_mono n n' id c : (n <= n')%nat -> within n id c -> within n' id c.
Proof. intros Hn [H1 H2]. split; [intros H; specialize (H1 H)|intros i ev Hi; specialize (H2 i ev Hi)]; lia. Qed.

Lemma chan_step_within l c c' n id :
  chan_step l c c' -> l <> Queued id -> within n id c ->
  within (if decide (l = Success) then n - 1 else n) id c'.
Proof.
  destruct 1 as [c|q c m id' ev Hid|q extra Hq|q c events|q c events Hc He|q|q c events extra Hc _
                |c events Hc|q c events extra Hc]; intros Hl H;
    rewrite ?decide_True, ?decide_False by done; try exact H.
  - destruct H as [H1 H2]. split; [done|]. cbn in *. intros i e [Hi|[_ Hi]]%lookup_app_Some; [eauto|].
    apply list_lookup_singleton_Some in Hi as [_ [= -> ->]]. done.
  - apply (within_mono (n - 1)); [lia|]. by eapply within_batch.
  - by eapply within_batch.
  - split; cbn; [by intros ?%elem_of_nil|done].
  - destruct H as [_ H]. split; cbn; [by intros ?%elem_of_nil|done].
Qed.

(** A request leaves a channel only with a transaction that contained it. *)
Lemma chan_step_kept l c c' id ev :
  chan_step l c c' -> (id, ev) ∈ (ch_claimed c ++ ch_queued c)%list ->
  (id, ev) ∈ (ch_claimed c' ++ ch_queued c')%list \/
  (l = Success \/ l = Unread) /\ exists events, ch_mode c = InFlight events /\ ev ∈ events.
Proof.
  destruct 1 as [c|q c m id' ev' Hid|q extra Hq|q c events|q c events Hc He|q|q c events extra Hc _
                |c events Hc|q c events extra Hc]; cbn [ch_claimed ch_queued ch_mode]; rewrite ?app_nil_l; try tauto.
  - rewrite !elem_of_app. tauto.
  - rewrite take_drop. tauto.
  - rewrite take_drop, elem_of_app. intros [Hin|Hin]; [right|by left]. split; [by left|]. exists events.
    split; [done|]. apply Hc. by apply (list_elem_of_fmap_2 snd) in Hin.
  - rewrite app_nil_r. intros Hin. right. split; [by left|]. exists events. split; [done|].
    apply Hc. by apply (list_elem_of_fmap_2 snd) in Hin.
  - rewrite elem_of_app. intros [Hin|Hin]; [right|by left]. split; [by right|]. exists events. split; [done|].
    apply Hc. by apply (list_elem_of_fmap_2 snd) in Hin.
Qed.

(** ** Rows *)

(** A row made by [queue_request] for [k] and [ev], claimed or not. *)
Record is_row (k : OutgoingKind) (ev : SendingEventType) (r : DbOutgoingRequest) : Prop := {
  row_dest : row_destination r = Some k;
  row_for : forall k', for_destination k' r <-> k' = k;
  row_ev : row_event r = Some ev;
  row_state : rq_state r = "created" \/ rq_state r = "pending"
}.

Lemma new_request_row k ev : ev <> SeFlush -> is_row k ev (new_request k ev).
Proof.
  intros Hev. constructor.
  - by destruct k.
  - intros k'. unfold for_destination, new_request; cbn. destruct k, k'; cbn; naive_solver.
  - by destruct ev.
  - by left.
Qed.

Lemma claim_row_row k ev ev' r : is_row k ev r -> is_row k ev (claim_row ev' r).
Proof.
  intros [Hd Hf He _]. constructor; [done| |done|by right].
  intros k'. rewrite <- Hf. done.
Qed.

Lemma claim_row_pending ev r : pending (claim_row ev r).
Proof. done. Qed.

(** Every row of a table is such a row. *)
Definition table_ok (m : gmap Z DbOutgoingRequest) : Prop :=
  forall id r, m !! id = Some r -> exists k ev, is_row k ev r.

Lemma is_row_kind k k' ev r : is_row k ev r -> for_destination k' r -> k' = k.
Proof. intros H. apply H. Qed.

Lemma is_row_unique k k' ev ev' r : is_row k ev r -> is_row k' ev' r -> k = k' /\ ev = ev'.
Proof. intros [] []. naive_solver. Qed.

(** ** Lanes

    The requests of a destination in one state, by id. *)

Definition id_lt {A} (x y : Z * A) : Prop := x.1 < y.1.

Lemma sorted_ids {A} (l : list (Z * A)) : StronglySorted id_lt l -> NoDup l.*1.
Proof.
  induction 1 as [|x l _ IH Hx]; cbn; constructor; [|done].
  intros (y & Hy & Hin)%list_elem_of_fmap. rewrite Forall_forall in Hx.
  specialize (Hx y Hin). unfold id_lt in Hx. lia.
Qed.

Lemma sorted_once {A} (l : list (Z * A)) i a b :
  StronglySorted id_lt l -> (i, a) ∈ l -> (i, b) ∈ l -> a = b.
Proof.
  induction 1 as [|x l _ IH Hx]; [by intros ?%elem_of_nil|].
  rewrite Forall_forall in Hx. rewrite !elem_of_cons. unfold id_lt in Hx.
  intros [<-|Ha] [Hb|Hb]; [congruence| | |auto].
  - specialize (Hx _ Hb). cbn in Hx. lia.
  - subst x. specialize (Hx _ Ha). cbn in Hx. lia.
Qed.

Lemma sorted_ext {A} (l l' : list (Z * A)) :
  StronglySorted id_lt l -> StronglySorted id_lt l' -> (forall x, x ∈ l <-> x ∈ l') -> l = l'.
Proof.
  intros H H' Hx. apply (StronglySorted_unique_strong id_lt); [|done|done|].
  - intros x y _ _. unfold id_lt. lia.
  - apply NoDup_Permutation; [| |done]; eapply NoDup_fmap_1, sorted_ids; done.
Qed.

Lemma sorted_take {A} n (l : list (Z * A)) : StronglySorted id_lt l -> StronglySorted id_lt (take n l).
Proof. rewrite <- (take_drop n l) at 1. apply StronglySorted_app_1_l. Qed.

Lemma sorted_drop {A} n (l : list (Z * A)) : StronglySorted id_lt l -> StronglySorted id_lt (drop n l).
Proof. rewrite <- (take_drop n l) at 1. apply StronglySorted_app_1_r. Qed.

Lemma elem_of_drop_take {A} n (l : list (Z * A)) x :
  NoDup l.*1 -> x ∈ drop n l <-> x ∈ l /\ x.1 ∉ (take n l).*1.
Proof.
  intros Hnd. rewrite <- (take_drop n l) in Hnd at 1. rewrite fmap_app in Hnd.
  apply NoDup_app in Hnd as (_ & Hnd & _).
  rewrite <- (take_drop n l) at 2. rewrite elem_of_app. split.
  - intros H. split; [tauto|]. intros Ht. apply (Hnd _ Ht). by apply list_elem_of_fmap_2.
  - intros [[H|H] Hn]; [|done]. destruct Hn. by apply list_elem_of_fmap_2.
Qed.

(** The requests of some rows, as the queries return them. *)
Definition with_events (l : list (Z * DbOutgoingRequest)) : list (Z * SendingEventType) :=
  omap (fun '(id, r) => e ← row_event r; Some (id, e)) l.

Lemma elem_of_with_events l id ev :
  (id, ev) ∈ with_events l <-> exists r, (id, r) ∈ l /\ row_event r = Some ev.
Proof.
  unfold with_events. rewrite list_elem_of_omap. split.
  - intros ([id' r] & Hin & H). destruct (row_event r) eqn:He; [|done]. cbn in H.
    injection H as -> ->. eauto.
  - intros (r & Hin & He). exists (id, r). by rewrite He.
Qed.

Lemma with_events_sorted l : StronglySorted id_lt l -> StronglySorted id_lt (with_events l).
Proof.
  induction 1 as [|[id r] l _ IH Hx]; cbn; [constructor|].
  destruct (row_event r) as [ev|]; cbn; [|done]. constructor; [done|].
  rewrite Forall_forall in Hx. apply Forall_forall. intros [id' ev'] (r' & Hin & _)%elem_of_with_events.
  apply (Hx _ Hin).
Qed.

(** Every row has an event, so the limit of a query is a limit on requests. *)
Lemma with_events_take m n l :
  table_ok m -> (forall id r, (id, r) ∈ l -> m !! id = Some r) ->
  with_events (take n l) = take n (with_events l).
Proof.
  intros Hm. revert n. induction l as [|[id r] l IH]; intros n Hl; [by destruct n|].
  destruct n as [|n]; [done|]. destruct (Hm id r) as (k & ev & Hr); [apply Hl; left|].
  cbn. rewrite (row_ev _ _ _ Hr). cbn. f_equal. apply IH. intros. apply Hl. by right.
Qed.

Section proofs.
Context {HO : HashOrder}.

(** The requests waiting to be claimed, and those claimed. *)
Definition queued (k : OutgoingKind) (m : gmap Z DbOutgoingRequest) : list (Z * SendingEventType) :=
  with_events (sort_by_key Z.compare fst
    (filter (fun '(_, r) => for_destination k r /\ ~ pending r) (iter_map m))).
Definition claimed (k : OutgoingKind) (m : gmap Z DbOutgoingRequest) : list (Z * SendingEventType) :=
  with_events (sort_by_key Z.compare fst
    (filter (fun '(_, r) => for_destination k r /\ pending r) (iter_map m))).

Lemma sorted_rows (P : Z * DbOutgoingRequest -> Prop) `{!forall x, Decision (P x)} m :
  StronglySorted id_lt (sort_by_key Z.compare fst (filter P (iter_map m))).
Proof.
  set (l := sort_by_key _ _ _).
  assert (NoDup l.*1) as Hnd.
  { unfold l. rewrite sort_by_key_Permutation. apply NoDup_fmap_fst.
    - intros id r r'. rewrite !list_elem_of_filter, !elem_of_iter_map. intros [_ E1] [_ E2]. congruence.
    - apply NoDup_filter. unfold iter_map. rewrite hash_perm_ok. apply NoDup_map_to_list. }
  pose proof (sort_by_key_sorted Z.compare fst (filter P (iter_map m))) as Hs. fold l in Hs.
  clearbody l. induction Hs as [|x l _ IH Hx]; [constructor|].
  apply NoDup_cons in Hnd as [Hn Hnd]. constructor; [by apply IH|].
  rewrite Forall_forall in Hx. apply Forall_forall. intros y Hy. specialize (Hx y Hy). unfold cmp_le in Hx.
  assert (x.1 <> y.1) as Hne by (intros E; apply Hn; rewrite E; by apply list_elem_of_fmap_2).
  unfold id_lt. destruct (Z.compare_spec x.1 y.1); congruence || lia.
Qed.

Lemma elem_of_queued k m id ev :
  (id, ev) ∈ queued k m <->
  exists r, m !! id = Some r /\ for_destination k r /\ ~ pending r /\ row_event r = Some ev.
Proof.
  unfold queued. rewrite elem_of_with_events. f_equiv. intros r.
  rewrite sort_by_key_Permutation, list_elem_of_filter, elem_of_iter_map. tauto.
Qed.

Lemma elem_of_claimed k m id ev :
  (id, ev) ∈ claimed k m <->
  exists r, m !! id = Some r /\ for_destination k r /\ pending r /\ row_event r = Some ev.
Proof.
  unfold claimed. rewrite elem_of_with_events. f_equiv. intros r.
  rewrite sort_by_key_Permutation, list_elem_of_filter, elem_of_iter_map. tauto.
Qed.

Lemma queued_sorted k m : StronglySorted id_lt (queued k m).
Proof. apply with_events_sorted, sorted_rows. Qed.
Lemma claimed_sorted k m : StronglySorted id_lt (claimed k m).
Proof. apply with_events_sorted, sorted_rows. Qed.

(** Two tables with the same rows of a destination have the same lanes of it. *)
Lemma lanes_ext k m m' :
  (forall id r, for_destination k r -> m' !! id = Some r <-> m !! id = Some r) ->
  queued k m' = queued k m /\ claimed k m' = claimed k m.
Proof.
  intros H. split; apply sorted_ext; auto using queued_sorted, claimed_sorted; intros [id ev].
  - rewrite !elem_of_queued. f_equiv. intros r. specialize (H id r). naive_solver.
  - rewrite !elem_of_claimed. f_equiv. intros r. specialize (H id r). naive_solver.
Qed.

(** *** A new request *)
Lemma enqueue_lanes k ev m id :
  ev <> SeFlush -> (forall i, i ∈ dom m -> i < id) ->
  let m' := <[id := new_request k ev]> m in
  queued k m' = (queued k m ++ [(id, ev)])%list /\ claimed k m' = claimed k m /\
  (forall k', k' <> k -> queued k' m' = queued k' m /\ claimed k' m' = claimed k' m).
Proof.
  intros Hev Hid m'. destruct (new_request_row k ev Hev) as [_ Hfor Hrow _].
  assert (m !! id = None) as Hnew.
  { apply not_elem_of_dom. intros Hin. specialize (Hid id Hin). lia. }
  assert (forall id' r, m' !! id' = Some r <->
            id' = id /\ r = new_request k ev \/ m !! id' = Some r) as Hm'.
  { intros id' r. unfold m'. rewrite lookup_insert_Some. naive_solver. }
  clearbody m'. split_and!.
  - apply sorted_ext; [apply queued_sorted| |].
    + apply StronglySorted_app_2; [|apply queued_sorted|repeat constructor].
      intros [i e] y (r & Hi & _)%elem_of_queued ->%list_elem_of_singleton.
      apply Hid. by apply elem_of_dom.
    + intros [i e]. rewrite elem_of_app, list_elem_of_singleton, !elem_of_queued.
      setoid_rewrite Hm'. assert (~ pending (new_request k ev)) by done. split.
      * intros (r & [[-> ->]|Hr] & ?); [right; naive_solver|left; eauto].
      * intros [(r & ? & ?)|[= -> ->]]; [naive_solver|].
        exists (new_request k ev). rewrite Hfor. naive_solver.
  - apply sorted_ext; auto using claimed_sorted. intros [i e]. rewrite !elem_of_claimed.
    f_equiv. intros r. rewrite Hm'. split; [|tauto]. intros ([[-> ->]|?] & ?); naive_solver.
  - intros k' Hk. apply lanes_ext. intros id' r Hr. rewrite Hm'. split; [|tauto].
    intros [[-> ->]|?]; [|done]. by apply Hfor in Hr.
Qed.

(** *** Deleting the claimed requests *)
Lemma delete_lanes k m :
  table_ok m ->
  let m' := filter (fun '(_, r) => ~ (for_destination k r /\ pending r)) m in
  queued k m' = queued k m /\ claimed k m' = [] /\
  (forall k', k' <> k -> queued k' m' = queued k' m /\ claimed k' m' = claimed k' m).
Proof.
  intros Hok m'.
  assert (forall id r, m' !! id = Some r <->
            m !! id = Some r /\ ~ (for_destination k r /\ pending r)) as Hm'.
  { intros id r. unfold m'. rewrite map_lookup_filter_Some. done. }
  clearbody m'. split_and!.
  - apply sorted_ext; auto using queued_sorted. intros [i e]. rewrite !elem_of_queued.
    f_equiv. intros r. rewrite Hm'. tauto.
  - apply elem_of_nil_inv. intros [i e]. rewrite elem_of_claimed. intros (r & Hr & ?).
    apply Hm' in Hr. tauto.
  - intros k' Hk. apply lanes_ext. intros id r Hr. rewrite Hm'. split; [tauto|].
    intros Hid. split; [done|]. intros [Hr' _].
    destruct (Hok _ _ Hid) as (k0 & ev & H0). apply Hk.
    by rewrite (is_row_kind _ _ _ _ H0 Hr), (is_row_kind _ _ _ _ H0 Hr').
Qed.

(** *** Claiming *)

(** Claiming rows that are there and not claimed yet. *)
Lemma claim_all (evs : list (Z * SendingEventType)) : forall done m,
  NoDup evs.*1 ->
  (forall id ev, (id, ev) ∈ evs -> exists r, m !! id = Some r /\ ~ pending r) ->
  exists m', foldl claim_one (done, m) evs = ((done ++ evs.*2)%list, m') /\
    (forall id, id ∉ evs.*1 -> m' !! id = m !! id) /\
    (forall id ev, (id, ev) ∈ evs -> m' !! id = claim_row ev <$> m !! id).
Proof.
  induction evs as [|[id ev] evs IH]; intros don m Hnd Hall.
  { exists m. rewrite app_nil_r. split_and!; [done|done|set_solver +]. }
  rewrite fmap_cons in Hnd. apply NoDup_cons in Hnd as [Hid Hnd]. cbn in Hid.
  assert (forall ev', (id, ev') ∉ evs) as Hid'.
  { intros ev' H. apply Hid. by apply (list_elem_of_fmap_2 fst) in H. }
  destruct (Hall id ev) as (r & Hr & Hp); [left|].
  cbn [foldl claim_one]. rewrite Hr, decide_False by done.
  destruct (IH (don ++ [ev])%list (<[id := claim_row ev r]> m) Hnd) as (m' & Hm' & Hout & Hin).
  { intros id' ev' H. rewrite lookup_insert_ne by (intros <-; by apply (Hid' ev')).
    apply (Hall id' ev'). by right. }
  exists m'. split_and!.
  - by rewrite Hm', fmap_cons, <- app_assoc.
  - intros id'. rewrite fmap_cons, elem_of_cons. intros Hne. rewrite Hout by tauto.
    apply lookup_insert_ne. cbn in Hne. naive_solver.
  - intros id' ev' [[= -> ->]|H]%elem_of_cons.
    + rewrite Hout by done. by rewrite lookup_insert_eq, Hr.
    + rewrite (Hin _ _ H), lookup_insert_ne; [done|]. intros <-. by apply (Hid' ev').
Qed.

(** Claiming the first requests of a destination. *)
Lemma claim_batch k n m :
  table_ok m ->
  let b := take n (queued k m) in
  exists m', foldl claim_one ([], m) b = (b.*2, m') /\
    (forall id, id ∉ b.*1 -> m' !! id = m !! id) /\
    (forall id, id ∈ b.*1 -> exists ev r, (id, ev) ∈ b /\ m !! id = Some r /\
       m' !! id = Some (claim_row ev r) /\ is_row k ev r /\ ~ pending r).
Proof.
  intros Hok b.
  assert (forall id ev, (id, ev) ∈ b -> exists r, m !! id = Some r /\ for_destination k r /\
            ~ pending r /\ row_event r = Some ev) as Hb.
  { intros id ev H. apply elem_of_queued. rewrite <- (take_drop n (queued k m)). apply elem_of_app.
    by left. }
  destruct (claim_all b [] m) as (m' & Hf & Hout & Hin).
  { apply sorted_ids, sorted_take, queued_sorted. }
  { intros id ev H. destruct (Hb id ev H) as (r & ? & ? & ? & ?). eauto. }
  exists m'. split_and!; [done|done|].
  intros id ([? ev] & -> & H)%list_elem_of_fmap. destruct (Hb _ _ H) as (r & Hr & Hk & Hp & He).
  cbn [fst]. exists ev, r. destruct (Hok _ _ Hr) as (k0 & ev0 & H0).
  pose proof (is_row_kind _ _ _ _ H0 Hk). subst k0. pose proof (row_ev _ _ _ H0).
  rewrite (Hin _ _ H), Hr. naive_solver.
Qed.

(** What it does to the lanes, [claimed] being empty for that destination. *)
Record Claims (k : OutgoingKind) (n : nat) (m m' : gmap Z DbOutgoingRequest) : Prop := {
  claims_ok : table_ok m';
  claims_dom : dom m' = dom m;
  claims_queued : queued k m' = drop n (queued k m);
  claims_claimed : claimed k m = [] -> claimed k m' = take n (queued k m);
  claims_other : forall k', k' <> k -> queued k' m' = queued k' m /\ claimed k' m' = claimed k' m
}.

Lemma claim_lanes k n m :
  table_ok m ->
  exists m', foldl claim_one ([], m) (take n (queued k m)) = ((take n (queued k m)).*2, m') /\
    Claims k n m m'.
Proof.
  intros Hok. destruct (claim_batch k n m Hok) as (m' & Hf & Hout & Hc). exists m'.
  split; [done|]. clear Hf. pose proof (sorted_ids _ (queued_sorted k m)) as Hnd.
  revert Hout Hc. set (b := take n (queued k m)). intros Hout Hc. split.
  - intros id r Hr. destruct (decide (id ∈ b.*1)) as [H|H].
    + destruct (Hc _ H) as (ev & r0 & _ & _ & Hr0 & Hrow & _). rewrite Hr in Hr0. injection Hr0 as ->.
      eauto using claim_row_row.
    + rewrite (Hout _ H) in Hr. eauto.
  - apply set_eq. intros id. rewrite !elem_of_dom. destruct (decide (id ∈ b.*1)) as [H|H].
    + destruct (Hc _ H) as (ev & r0 & _ & -> & -> & _). by split.
    + by rewrite (Hout _ H).
  - apply sorted_ext; [apply queued_sorted|apply sorted_drop, queued_sorted|].
    intros [id ev]. rewrite elem_of_drop_take by done. rewrite !elem_of_queued. fold b. cbn [fst].
    destruct (decide (id ∈ b.*1)) as [H|H]; [|rewrite (Hout _ H); tauto].
    split; [|tauto]. destruct (Hc _ H) as (ev' & r0 & _ & _ & -> & _).
    intros (r & [= <-] & _ & Hp & _). by destruct Hp.
  - intros Hnil. apply sorted_ext; [apply claimed_sorted|apply sorted_take, queued_sorted|].
    fold b. intros [id ev]. rewrite elem_of_claimed. destruct (decide (id ∈ b.*1)) as [H|H].
    + destruct (Hc _ H) as (ev' & r0 & Hin & Hr0 & -> & Hrow & _). split.
      * intros (r & [= <-] & _ & _ & He). rewrite (row_ev _ _ _ (claim_row_row _ _ ev' _ Hrow)) in He.
        congruence.
      * intros Hin'. assert (ev = ev') as ->.
        { eapply sorted_once; [apply sorted_take, queued_sorted|done|done]. }
        exists (claim_row ev' r0). pose proof (claim_row_row _ _ ev' _ Hrow) as [_ Hf Hev _].
        by rewrite Hf.
    + rewrite (Hout _ H). split.
      * intros Hr. assert ((id, ev) ∈ claimed k m) as Hcl by (apply elem_of_claimed; naive_solver).
        rewrite Hnil in Hcl. by apply elem_of_nil in Hcl.
      * intros Hin. destruct H. by apply (list_elem_of_fmap_2 fst) in Hin.
  - intros k' Hk. apply lanes_ext. intros id r Hr. destruct (decide (id ∈ b.*1)) as [H|H];
      [|by rewrite (Hout _ H)].
    destruct (Hc _ H) as (ev' & r0 & _ & -> & -> & Hrow & _). split; intros [= <-]; destruct Hk.
    + by apply (is_row_kind _ _ _ _ (claim_row_row _ _ ev' _ Hrow)).
    + by apply (is_row_kind _ _ _ _ Hrow).
Qed.

(** ** The worker's channels *)

Abbreviation reqs g := (outgoing_requests (db g)).

Definition in_flight (k : OutgoingKind) (g : Guard) : option (list SendingEventType) :=
  (list_to_map (futures g) : gmap OutgoingKind _) !! k.
Definition mode (k : OutgoingKind) (g : Guard) : Mode :=
  match in_flight k g, status g !! k with
  | Some events, _ => InFlight events
  | None, None => Idle
  | None, Some _ => Backoff
  end.
Definition channel (k : OutgoingKind) (g : Guard) : Channel :=
  Chan (queued k (reqs g)) (claimed k (reqs g)) (mode k g).

Definition flying (s : option TransactionStatus) : Prop :=
  match s with Some Running | Some (Retrying _) => True | _ => False end.

(** Tables and bookkeeping agree. *)
Record Bookkeeping (g : Guard) : Prop := {
  bk_table : table_ok (reqs g);
  bk_fresh : forall id, id ∈ dom (reqs g) -> id < next_request_id (db g);
  bk_once : NoDup (futures g).*1;
  bk_flight : forall k, is_Some (in_flight k g) <-> flying (status g !! k)
}.
Record Inv (g : Guard) : Prop := {
  inv_book : Bookkeeping g;
  inv_chan : forall k, chan_ok (channel k g)
}.

(** One destination makes a step and the others do not notice. *)
Record Moves (k : OutgoingKind) (l : Label) (g g' : Guard) : Prop := {
  mv_book : Bookkeeping g';
  mv_step : chan_step l (channel k g) (channel k g');
  mv_other : forall k', k' <> k -> channel k' g' = channel k' g;
  mv_status : forall k', k' <> k -> status g' !! k' = status g !! k';
  mv_next : next_request_id (db g) <= next_request_id (db g');
  mv_up : db_up (db g) = true -> db_up (db g') = true
}.

Lemma moves_inv k l g g' : Inv g -> Moves k l g g' -> Inv g'.
Proof.
  intros [Hb Hc] [Hb' Hs Ho _ _ _]. split; [done|]. intros k'. destruct (decide (k' = k)) as [->|Hk].
  - eapply chan_step_ok; eauto.
  - rewrite Ho by done. auto.
Qed.

Lemma moves_stay k g : Bookkeeping g -> Moves k Quiet g g.
Proof. intros. split; try done. constructor. Qed.

(** EDUs, their cursors and wakeups are not part of a channel. *)
Record same_core (g g' : Guard) : Prop := {
  sc_requests : reqs g' = reqs g;
  sc_next : next_request_id (db g') = next_request_id (db g);
  sc_up : db_up (db g) = true -> db_up (db g') = true;
  sc_status : status g' = status g;
  sc_futures : futures g' = futures g
}.

Lemma same_core_refl g : same_core g g.
Proof. done. Qed.
Lemma same_core_trans g1 g2 g3 : same_core g1 g2 -> same_core g2 g3 -> same_core g1 g3.
Proof. intros [] []. split; try congruence. auto. Qed.

Lemma same_core_channel g g' k : same_core g g' -> channel k g' = channel k g.
Proof. intros [H1 _ _ H2 H3]. unfold channel, mode, in_flight. by rewrite H1, H2, H3. Qed.

Lemma same_core_book g g' : same_core g g' -> Bookkeeping g -> Bookkeeping g'.
Proof.
  intros [H1 H2 _ H3 H4] []. split; unfold in_flight in *; rewrite ?H1, ?H2, ?H3, ?H4; auto.
Qed.

Lemma moves_core_l k l g0 g g' : same_core g0 g -> Moves k l g g' -> Moves k l g0 g'.
Proof.
  intros Hc [H1 H2 H3 H4 H5 H6]. pose proof (same_core_channel _ _ k Hc) as Hk. split; [done| | | | |].
  - by rewrite <- Hk.
  - intros k' ?. rewrite H3 by done. by apply same_core_channel.
  - intros k' ?. rewrite H4 by done. by rewrite (sc_status _ _ Hc).
  - by rewrite <- (sc_next _ _ Hc).
  - intros ?. by apply H6, (sc_up _ _ Hc).
Qed.

Lemma moves_core_r k l g g' g1 : Moves k l g g' -> same_core g' g1 -> Moves k l g g1.
Proof.
  intros [H1 H2 H3 H4 H5 H6] Hc. pose proof (fun k => same_core_channel _ _ k Hc) as Hk.
  split; [by eapply same_core_book| | | | |].
  - by rewrite Hk.
  - intros k' ?. rewrite Hk. auto.
  - intros k' ?. rewrite (sc_status _ _ Hc). auto.
  - by rewrite (sc_next _ _ Hc).
  - intros ?. by apply (sc_up _ _ Hc), H6.
Qed.

(** ** Database operations of a turn *)

Lemma connect_up {B} (f : unit -> St SendDb B) d :
  call_up 0 d = true -> (connect ≫= f) d = f tt (after_call d).
Proof. unfold connect, mbind, St_bind. by intros ->. Qed.
Lemma connect_down {B} (f : unit -> St SendDb B) d :
  call_up 0 d = false -> (connect ≫= f) d = (Fail AppInternal, after_call d).
Proof. unfold connect, mbind, St_bind. by intros ->. Qed.

Lemma call_up_after n d : call_up n (after_call d) = call_up (S n) d.
Proof. unfold call_up. cbn. by destruct (db_calls d). Qed.
Lemma db_up_call n d : db_up d = true -> call_up n d = true.
Proof.
  unfold db_up, call_up. rewrite forallb_forall. intros H. destruct (db_calls d !! n) as [b|] eqn:E; [|done].
  apply (H b), list_elem_of_In, (list_elem_of_lookup_2 _ _ _ E).
Qed.
Lemma db_up_after d : db_up d = true -> db_up (after_call d) = true.
Proof. unfold db_up, after_call. destruct d as [? ? ? ? [|[] l]]; cbn; done. Qed.

Lemma set_db_same g : set_db (db g) g = g.
Proof. by destruct g. Qed.

Lemma after_call_core g : same_core g (set_db (after_call (db g)) g).
Proof. split; try done. apply db_up_after. Qed.

Lemma on_db_run {A} (m : St SendDb A) g r d : m (db g) = (r, d) -> on_db m g = (r, set_db d g).
Proof. unfold on_db. by intros ->. Qed.

Lemma try_down {B} (f : unit -> St SendDb B) g :
  call_up 0 (db g) = false ->
  st_try (on_db (connect ≫= f)) g = (Done (Err AppInternal), set_db (after_call (db g)) g).
Proof. intros H. apply st_try_fail, on_db_run. by apply connect_down. Qed.

Lemma queued_requests_up k d :
  call_up 0 d = true -> table_ok (outgoing_requests d) ->
  queued_requests k QUEUED_REQUEST_LIMIT d =
  (Done (take QUEUED_REQUEST_LIMIT (queued k (outgoing_requests d))), after_call d).
Proof.
  intros Hup Hok. unfold queued_requests. rewrite connect_up by done. unfold st_gets. f_equal. f_equal.
  apply (with_events_take (outgoing_requests d)); [done|].
  intros id r. unfold queued_rows. rewrite sort_by_key_Permutation, list_elem_of_filter, elem_of_iter_map. tauto.
Qed.

Lemma claim_queued_requests_up k d :
  call_up 0 d = true -> table_ok (outgoing_requests d) ->
  let b := take QUEUED_REQUEST_LIMIT (queued k (outgoing_requests d)) in
  exists m, claim_queued_requests b d = (Done b.*2, set_requests m (after_call d)) /\
    Claims k QUEUED_REQUEST_LIMIT (outgoing_requests d) m.
Proof.
  intros Hup Hok b. destruct (claim_lanes k QUEUED_REQUEST_LIMIT _ Hok) as (m & Hm & Hc).
  exists m. split; [|done]. unfold claim_queued_requests. rewrite connect_up by done.
  unfold st_do. cbn [outgoing_requests after_call set_calls]. fold b in Hm. by rewrite Hm.
Qed.

Lemma active_requests_for_up k d :
  call_up 0 d = true ->
  exists l, active_requests_for k d = (Done l, after_call d) /\ l ≡ₚ claimed k (outgoing_requests d).
Proof.
  intros Hup. unfold active_requests_for. rewrite connect_up by done. eexists. split; [done|].
  unfold claimed, with_events. by rewrite sort_by_key_Permutation.
Qed.

(** No row is ever in the state [persist_retry_state] looks for. *)
Lemma persist_retry_state_table k tries now d :
  table_ok (outgoing_requests d) ->
  persist_retry_state k tries now d = (if call_up 0 d then Done tt else Fail AppInternal, after_call d).
Proof.
  intros Hok. unfold persist_retry_state. destruct (call_up 0 d) eqn:Hup; [|by rewrite connect_down].
  rewrite connect_up by done. unfold st_modify. f_equal.
  transitivity (set_requests (outgoing_requests d) (after_call d)); [f_equal|done].
  apply map_eq. intros id. change (outgoing_requests (after_call d)) with (outgoing_requests d). rewrite lookup_fmap. destruct (outgoing_requests d !! id) eqn:Hr; [|done].
  cbn. rewrite decide_False; [done|]. destruct (Hok _ _ Hr) as (k' & ev & Hrow).
  destruct (row_state _ _ _ Hrow) as [E|E]; rewrite E; by intros [_ ?].
Qed.

Section edus.
Context (device_changes : SendDb -> string -> Z -> result AppError (list string))
        (receipts presence : SendDb -> string -> Z -> result AppError (option string))
        (receipts_allowed presence_allowed : bool).
Abbreviation select_edus' := (select_edus device_changes receipts presence receipts_allowed presence_allowed).
Abbreviation piggyback_edus' := (piggyback_edus device_changes receipts presence receipts_allowed presence_allowed).
Abbreviation edus_alone' := (edus_alone device_changes receipts presence receipts_allowed presence_allowed).

Lemma try_select_edus_run server g :
  exists r g', st_try (on_db (select_edus' server)) g = (Done r, g') /\ same_core g g'.
Proof.
  unfold select_edus. destruct (call_up 0 (db g)) eqn:Hup.
  2: { rewrite try_down by done. eexists _, _. split; [done|]. apply after_call_core. }
  set (g1 := set_db (after_call (db g)) g). destruct (call_up 0 (db g1)) eqn:Hup1.
  - assert (same_core g (set_db (after_call (db g1)) g1)) as Hc.
    { eapply same_core_trans; apply after_call_core. }
    cut (exists r, st_try (on_db (select_edus' server)) g = (Done r, set_db (after_call (db g1)) g1)).
    { intros [r Hr]. by exists r, (set_db (after_call (db g1)) g1). }
    unfold st_try, on_db, select_edus.
    rewrite connect_up, st_gets_bind by done. erewrite (bind_St_run _ _ (after_call (db g))).
    2: { unfold get_edu_cursor. rewrite connect_up by done. reflexivity. }
    unfold st_do. repeat case_match; simplify_eq; eexists; reflexivity.
  - exists (Err AppInternal), (set_db (after_call (db g1)) g1).
    split; [|eapply same_core_trans; apply after_call_core].
    change (set_db (after_call (db g1)) g1) with (set_db (after_call (after_call (db g))) g).
    apply st_try_fail, on_db_run.
    rewrite connect_up, st_gets_bind by done. apply bind_St_fail. unfold get_edu_cursor. by rewrite connect_down.
Qed.

Lemma piggyback_run k events g :
  exists extra g', piggyback_edus' k events g = (Done (events ++ extra)%list, g') /\ same_core g g'.
Proof.
  destruct k as [i|u p|server]; cbn [piggyback_edus].
  1,2: exists [], g; by rewrite app_nil_r.
  destruct (try_select_edus_run server g) as (r & g1 & Hr & Hc). st_step Hr.
  destruct r as [[edus sn]|e]; cbv beta iota; [|exists [], g1; by rewrite app_nil_r].
  unfold set_edu_cursor. rewrite st_modify_bind. eexists _, _. split; [done|]. by destruct Hc.
Qed.

Lemma edus_alone_run k events g :
  exists extra g', edus_alone' k events g = (Done (events ++ extra)%list, g') /\ same_core g g'.
Proof.
  destruct k as [i|u p|server]; cbn [edus_alone].
  1,2: exists [], g; by rewrite app_nil_r.
  destruct (try_select_edus_run server g) as (r & g1 & Hr & Hc). st_step Hr.
  destruct r as [[[|edu edus] sn]|e]; cbv beta iota; [exists [], g1; by rewrite app_nil_r| |exists [], g1; by rewrite app_nil_r].
  unfold set_edu_cursor. rewrite st_modify_bind. eexists _, _. split; [done|]. by destruct Hc.
Qed.
End edus.

(** ** Bookkeeping of a turn *)

(** The bookkeeping while the transaction of [k] is being decided on: nothing of
    [k] is in flight, whatever its status. *)
Record Deciding (k : OutgoingKind) (g : Guard) : Prop := {
  dc_table : table_ok (reqs g);
  dc_fresh : forall id, id ∈ dom (reqs g) -> id < next_request_id (db g);
  dc_once : NoDup (futures g).*1;
  dc_none : in_flight k g = None;
  dc_flight : forall k', k' <> k -> is_Some (in_flight k' g) <-> flying (status g !! k')
}.

Lemma deciding_idle k g : Bookkeeping g -> ~ flying (status g !! k) -> Deciding k g.
Proof.
  intros [H1 H2 H3 H4] Hk. split; [done|done|done| |auto].
  apply eq_None_not_Some. by rewrite H4.
Qed.

Lemma deciding_core k g g' : same_core g g' -> Deciding k g -> Deciding k g'.
Proof.
  intros [H1 H2 _ H3 H4] []. split; unfold in_flight in *; rewrite ?H1, ?H2, ?H3, ?H4; auto.
Qed.

Lemma take_future_ids k l k' : k' ∈ (take_future k l).*1 -> k' ∈ l.*1.
Proof. induction l as [|[k0 e] l IH]; cbn; [done|]. case_decide; set_solver. Qed.

Lemma take_future_spec k (l : list (OutgoingKind * list SendingEventType)) :
  NoDup l.*1 ->
  NoDup (take_future k l).*1 /\
  (list_to_map (take_future k l) : gmap OutgoingKind _) = delete k (list_to_map l).
Proof.
  induction l as [|[k0 e] l IH]; cbn; [by rewrite delete_empty|].
  intros [Hn Hnd]%NoDup_cons. destruct (IH Hnd) as [IH1 IH2]. case_decide as Hk; cbn in Hk.
  - subst k0. split; [done|]. rewrite delete_insert_eq, delete_id; [done|].
    by apply not_elem_of_list_to_map_1.
  - cbn. split; [constructor; [|done]; by intros ?%take_future_ids|].
    by rewrite IH2, delete_insert_ne.
Qed.

Lemma deciding_returned k g : Bookkeeping g -> Deciding k (remove_future k g).
Proof.
  intros [H1 H2 H3 H4]. destruct (take_future_spec k _ H3) as [Hn Hm].
  split; cbn; try done; unfold in_flight; cbn; rewrite Hm.
  - apply lookup_delete_eq.
  - intros k' Hk. rewrite lookup_delete_ne by done. apply H4.
Qed.

Lemma returned_other k g k' :
  Bookkeeping g -> k' <> k -> channel k' (remove_future k g) = channel k' g.
Proof.
  intros [_ _ H3 _] Hk. destruct (take_future_spec k _ H3) as [_ Hm].
  unfold channel, mode, in_flight. cbn. by rewrite Hm, lookup_delete_ne.
Qed.

(** The decision is taken: the status of [k] is set, with a transaction in flight
    or without. *)
Record Decided (k : OutgoingKind) (o : option (list SendingEventType)) (g g' : Guard) : Prop := {
  dd_book : Bookkeeping g';
  dd_flight : in_flight k g' = o;
  dd_other : forall k', k' <> k -> channel k' g' = channel k' g;
  dd_status : forall k', k' <> k -> status g' !! k' = status g !! k';
  dd_next : next_request_id (db g') = next_request_id (db g);
  dd_up : db_up (db g) = true -> db_up (db g') = true
}.

Lemma decide_on k o g g' :
  Deciding k g ->
  (reqs g' = reqs g \/ exists n, Claims k n (reqs g) (reqs g')) ->
  next_request_id (db g') = next_request_id (db g) -> (db_up (db g) = true -> db_up (db g') = true) ->
  (forall k', k' <> k -> status g' !! k' = status g !! k') ->
  futures g' = (futures g ++ match o with Some events => [(k, events)] | None => [] end)%list ->
  is_Some o <-> flying (status g' !! k) ->
  Decided k o g g'.
Proof.
  intros [H1 H2 H3 H4 H5] Hr Hn Hup Hs Hf Hk.
  assert (table_ok (reqs g') /\ dom (reqs g') = dom (reqs g) /\ forall k', k' <> k ->
            queued k' (reqs g') = queued k' (reqs g) /\ claimed k' (reqs g') = claimed k' (reqs g))
    as (Ht & Hd & Hl) by (destruct Hr as [->|[n []]]; auto).
  assert (k ∉ (futures g).*1) as Hnot by by apply not_elem_of_list_to_map.
  assert ((list_to_map (futures g') : gmap OutgoingKind _) =
          match o with Some events => <[k := events]> (list_to_map (futures g))
                     | None => list_to_map (futures g) end) as Hm.
  { rewrite Hf. destruct o; [|by rewrite app_nil_r]. by apply list_to_map_snoc. }
  assert (in_flight k g' = o) as Ho.
  { unfold in_flight. rewrite Hm. destruct o; [apply lookup_insert_eq|done]. }
  assert (forall k', k' <> k -> in_flight k' g' = in_flight k' g) as Hother.
  { intros k' ?. unfold in_flight. rewrite Hm. destruct o; [|done]. by apply lookup_insert_ne. }
  split; [|done| |done|done|done].
  - split; [done|by rewrite Hd, Hn| |].
    + rewrite Hf, fmap_app. apply NoDup_app. destruct o; cbn; split_and!; try done; [set_solver| |set_solver|].
      * apply NoDup_singleton.
      * constructor.
    + intros k'. destruct (decide (k' = k)) as [->|Hk']; [by rewrite Ho|].
      rewrite Hother, Hs by done. auto.
  - intros k' Hk'. unfold channel, mode. destruct (Hl k' Hk') as [-> ->]. by rewrite Hother, Hs.
Qed.

Lemma decided_core_l k o g0 g g' : same_core g0 g -> Decided k o g g' -> Decided k o g0 g'.
Proof.
  intros Hc [H1 H2 H3 H4 H5 H6]. split; [done|done| | | |].
  - intros k' ?. rewrite H3 by done. by apply same_core_channel.
  - intros k' ?. rewrite H4 by done. by rewrite (sc_status _ _ Hc).
  - by rewrite H5, (sc_next _ _ Hc).
  - intros ?. by apply H6, (sc_up _ _ Hc).
Qed.

Lemma decided_channel k o g g' :
  Decided k o g g' ->
  channel k g' = Chan (queued k (reqs g')) (claimed k (reqs g'))
    match o, status g' !! k with Some events, _ => InFlight events
                               | None, None => Idle | None, Some _ => Backoff end.
Proof. intros H. unfold channel, mode. by rewrite (dd_flight _ _ _ _ H). Qed.

(** ** The handlers *)

Section handlers.
Context (device_changes : SendDb -> string -> Z -> result AppError (list string))
        (receipts presence : SendDb -> string -> Z -> result AppError (option string))
        (receipts_allowed presence_allowed : bool).
Abbreviation handler f := (f device_changes receipts presence receipts_allowed presence_allowed).

(** Launching the transaction of a decided destination. *)
Lemma push_future_decided k events g :
  Deciding k g -> flying (status g !! k) ->
  exists g', push_future k events g = (Done tt, g') /\ Decided k (Some events) g g' /\
    reqs g' = reqs g.
Proof.
  intros Hd Hs. eexists. split; [done|]. split; [|done].
  apply decide_on; try done; by left.
Qed.

Lemma remove_status_decided k g :
  Deciding k g ->
  exists g', remove_kind_status k g = (Done tt, g') /\ Decided k None g g' /\
    reqs g' = reqs g /\ status g' !! k = None.
Proof.
  intros Hd. eexists. split; [done|]. cbn. rewrite lookup_delete_eq. split_and!; [|done|done].
  apply decide_on; try done; cbn; [by left| |by rewrite app_nil_r|].
  - intros k' ?. by apply lookup_delete_ne.
  - rewrite lookup_delete_eq. by split; [intros []|].
Qed.

(** Claiming the first requests of a destination and launching them. *)
Lemma claim_then_send k g :
  Deciding k g -> call_up 0 (db g) = true -> flying (status g !! k) -> claimed k (reqs g) = [] ->
  let b := take QUEUED_REQUEST_LIMIT (queued k (reqs g)) in
  exists g1, on_db (claim_queued_requests b) g = (Done b.*2, g1) /\
    forall extra g2, same_core g1 g2 ->
    exists g3, push_future k (b.*2 ++ extra)%list g2 = (Done tt, g3) /\
      Decided k (Some (b.*2 ++ extra)%list) g g3 /\
      channel k g3 = Chan (drop QUEUED_REQUEST_LIMIT (queued k (reqs g))) b
                          (InFlight (b.*2 ++ extra)%list).
Proof.
  intros Hd Hup Hs Hcl b.
  destruct (claim_queued_requests_up k (db g) Hup (dc_table _ _ Hd)) as (m & Hm & Hc). fold b in Hm.
  apply on_db_run in Hm. eexists. split; [exact Hm|]. intros extra g2 [Hr Hn Hu Hst Hf].
  cbn in Hr, Hn, Hst, Hf. eexists. split; [done|].
  assert (Decided k (Some (b.*2 ++ extra)%list) g
            (set_futures (futures g2 ++ [(k, b.*2 ++ extra)])%list g2)) as Hdec.
  { apply decide_on; cbn; rewrite ?Hr, ?Hn, ?Hst, ?Hf; try done; [right; by eauto|].
    intros H. apply Hu. by apply db_up_after in H. }
  split; [done|]. rewrite (decided_channel _ _ _ _ Hdec). cbn. rewrite Hr.
  by rewrite (claims_queued _ _ _ _ Hc), (claims_claimed _ _ _ _ Hc).
Qed.

(** With no request to send, EDUs are sent, or the destination is idle again. *)
Lemma edus_only_spec k g :
  Deciding k g -> flying (status g !! k) ->
  exists extra o g',
    (events ← handler edus_alone k [];
     match events with [] => remove_kind_status k | _ => push_future k events end) g = (Done tt, g') /\
    Decided k o g g' /\
    channel k g' = Chan (queued k (reqs g)) (claimed k (reqs g)) (edus_only extra).
Proof.
  intros Hd Hs.
  destruct (edus_alone_run device_changes receipts presence receipts_allowed presence_allowed k [] g)
    as (extra & g1 & H1 & Hc1). st_step H1. cbn [app].
  apply (deciding_core _ _ _ Hc1) in Hd as Hd1. exists extra. destruct extra as [|e extra].
  - destruct (remove_status_decided k g1 Hd1) as (g2 & H2 & Hd2 & Hr2 & Hs2).
    exists None, g2. rewrite H2. split_and!; [done|by eapply decided_core_l|].
    by rewrite (decided_channel _ _ _ _ Hd2), Hr2, Hs2, (sc_requests _ _ Hc1).
  - destruct (push_future_decided k (e :: extra) g1 Hd1) as (g2 & H2 & Hd2 & Hr2).
    { by rewrite (sc_status _ _ Hc1). }
    exists (Some (e :: extra)), g2. rewrite H2. split_and!; [done|by eapply decided_core_l|].
    by rewrite (decided_channel _ _ _ _ Hd2), Hr2, (sc_requests _ _ Hc1).
Qed.

(** After a success the next batch leaves, with EDUs or alone, or EDUs do, or the
    destination is idle again. *)
Lemma next_transaction_spec k g :
  Deciding k g -> flying (status g !! k) -> claimed k (reqs g) = [] ->
  let q := queued k (reqs g) in
  (call_up 0 (db g) = true -> q <> [] -> call_up 1 (db g) = true) ->
  exists o g', handler next_transaction k g = (Done tt, g') /\ Decided k o g g' /\
    forall c events, c.*2 ⊆ events ->
      chan_step (if call_up 0 (db g) then Success else Unread) (Chan q c (InFlight events)) (channel k g').
Proof.
  intros Hd Hs Hcl q Hclaim. unfold next_transaction.
  pose proof (after_call_core g) as Hsc. set (g0 := set_db (after_call (db g)) g) in Hsc.
  pose proof (deciding_core _ _ _ Hsc Hd) as Hd0.
  destruct (edus_only_spec k g0 Hd0 Hs) as (extra & o & g' & H' & Hdec' & Hch').
  change (reqs g0) with (reqs g) in Hch'. rewrite Hcl in Hch'. fold q in Hch'.
  pose proof (decided_core_l _ _ _ _ _ Hsc Hdec') as Hdec.
  destruct (call_up 0 (db g)) eqn:Hup.
  2: { unfold queued_requests. rewrite (bind_St_run _ _ _ _ _ (try_down _ g Hup)). cbn [ok default from_option id]. rewrite st_ret_bind. fold g0. cbv beta iota.
       exists o, g'. split_and!; [done|done|]. intros c events Hc. rewrite Hch'. by constructor. }
  pose proof (queued_requests_up k (db g) Hup (dc_table _ _ Hd)) as Hq.
  apply on_db_run, st_try_run in Hq. fold q g0 in Hq. st_step Hq. cbn [ok default from_option id].
  destruct q as [|x q'] eqn:Eq.
  - rewrite take_nil, st_ret_bind. cbv beta iota. exists o, g'. split_and!; [done|done|].
    intros c events Hc. rewrite Hch'. destruct extra as [|e extra]; [by constructor|].
    apply (chan_success [] c events (e :: extra)); auto.
  - rewrite <- Eq in *. destruct (claim_then_send k g0 Hd0) as (g1 & H1 & Hsend); [|done|done|].
    { unfold g0. cbn. rewrite call_up_after. apply Hclaim; [done|by rewrite Eq]. }
    change (reqs g0) with (reqs g) in H1, Hsend. fold q in H1, Hsend. set (b := take QUEUED_REQUEST_LIMIT q) in *.
    assert (exists y b', b = y :: b') as (y & b' & Eb).
    { unfold b. rewrite Eq. cbn. eauto. }
    rewrite Eb in H1 |- *. st_step H1. cbn [fmap list_fmap]. cbv beta iota.
    destruct (piggyback_run device_changes receipts presence receipts_allowed presence_allowed k
                (y :: b').*2 g1) as (extra' & g2 & H2 & Hc2). cbn [fmap list_fmap] in H2. st_step H2.
    rewrite <- Eb in *. destruct (Hsend extra' g2 Hc2) as (g3 & H3 & Hd3 & Hch).
    change (y.2 :: (snd <$> b')) with (y :: b').*2. rewrite <- Eb.
    eexists _, g3. rewrite H3. split_and!; [done|by eapply decided_core_l|].
    intros c events Hc. rewrite Hch. apply chan_success; [done|left]. by rewrite Eq.
Qed.

Lemma next_transaction_stops k g :
  Deciding k g -> queued k (reqs g) <> [] -> call_up 0 (db g) = true -> call_up 1 (db g) = false ->
  exists g', handler next_transaction k g = (Fail AppInternal, g') /\ reqs g' = reqs g.
Proof.
  intros Hd Hne Hup Hup1. unfold next_transaction.
  pose proof (queued_requests_up k (db g) Hup (dc_table _ _ Hd)) as Hq.
  apply on_db_run, st_try_run in Hq. st_step Hq. cbn [ok default from_option id].
  destruct (queued k (reqs g)) as [|x q]; [done|]. cbn [take QUEUED_REQUEST_LIMIT].
  eexists. split; [apply bind_St_fail, on_db_run, connect_down; cbn; by rewrite call_up_after|done].
Qed.

Lemma in_flight_chan k g events : in_flight k g = Some events ->
  channel k g = Chan (queued k (reqs g)) (claimed k (reqs g)) (InFlight events).
Proof. intros H. unfold channel, mode. by rewrite H. Qed.

(** The table without the claimed requests of a destination. *)
Definition deletes (k : OutgoingKind) (m m' : gmap Z DbOutgoingRequest) : Prop :=
  forall id r, m !! id = Some r -> ~ (for_destination k r /\ pending r) -> m' !! id = Some r.

Lemma delete_deciding k g :
  Deciding k g -> call_up 0 (db g) = true ->
  exists g', on_db (delete_all_active_requests_for k) g = (Done tt, g') /\ Deciding k g' /\
    db_calls (db g') = tail (db_calls (db g)) /\ edu_cursors g' = edu_cursors g /\
    status g' = status g /\ next_request_id (db g') = next_request_id (db g) /\
    queued k (reqs g') = queued k (reqs g) /\ claimed k (reqs g') = [] /\
    (forall k', k' <> k -> channel k' g' = channel k' g) /\ deletes k (reqs g) (reqs g').
Proof.
  intros [H1 H2 H3 H4 H5] Hup. eexists. split.
  { apply on_db_run. unfold delete_all_active_requests_for. by rewrite connect_up. }
  destruct (delete_lanes k (reqs g) H1) as (Hq & Hc & Ho). cbn.
  split_and!; try done.
  - split; try done; cbn.
    + intros id r [Hr _]%map_lookup_filter_Some. eauto.
    + intros id Hid. apply H2. eapply dom_filter_subseteq; eauto.
  - intros k' Hk. unfold channel, mode. cbn. by destruct (Ho k' Hk) as [-> ->].
  - intros id r Hr Hk. by apply map_lookup_filter_Some.
Qed.

(** Remembering how far the EDUs of a transaction went. *)
Lemma advance_core k (sn : option Z) g :
  exists g', match sn, k with
             | Some edu_sn, Normal server =>
                 _ ← st_try (on_db (advance_edu_cursor server edu_sn)); mret tt
             | _, _ => mret tt
             end g = (Done tt, g') /\ same_core g g' /\
    db_calls (db g') = match sn, k with Some _, Normal _ => tail (db_calls (db g)) | _, _ => db_calls (db g) end.
Proof.
  destruct sn as [sn|]; [|by exists g]. destruct k as [| |server]; [by exists g..|].
  destruct (call_up 0 (db g)) eqn:Hup.
  - eexists. split.
    { erewrite bind_St_run; [done|]. apply st_try_run, on_db_run. unfold advance_edu_cursor.
      by rewrite connect_up. }
    split; [|done]. split; try done. apply (db_up_after (db g)).
  - eexists. split.
    { erewrite bind_St_run; [done|]. by apply try_down. }
    split; [apply after_call_core|done].
Qed.

(** The connection of [on_success] that reads the queue. *)
Definition read_call (k : OutgoingKind) (g : Guard) : nat :=
  match edu_cursors g !! k, k with Some _, Normal _ => 2 | _, _ => 1 end.

(** [on_success] up to the next transaction. *)
Lemma on_success_run k g :
  Deciding k g -> call_up 0 (db g) = true ->
  exists g', handler on_success k g = handler next_transaction k g' /\ Deciding k g' /\
    (forall n, call_up n (db g') = call_up (read_call k g + n) (db g)) /\
    (db_up (db g) = true -> db_up (db g') = true) /\
    status g' = status g /\ next_request_id (db g') = next_request_id (db g) /\
    queued k (reqs g') = queued k (reqs g) /\ claimed k (reqs g') = [] /\
    (forall k', k' <> k -> channel k' g' = channel k' g) /\ deletes k (reqs g) (reqs g').
Proof.
  intros Hd Hup. unfold on_success.
  destruct (delete_deciding k g Hd Hup) as (g1 & H1 & Hd1 & Hcalls1 & He1 & Hs1 & Hn1 & Hq1 & Hc1 & Ho1 & Hx1).
  st_step H1. rewrite st_gets_bind, st_modify_bind. rewrite He1.
  set (g2 := set_edu_cursors _ g1). assert (same_core g1 g2) as Hsc by done.
  assert (db g2 = db g1) as Hdb by done. clearbody g2.
  destruct (advance_core k (edu_cursors g !! k) g2) as (g3 & H3 & Hsc3 & Hcalls3). st_step H3.
  pose proof (same_core_trans _ _ _ Hsc Hsc3) as Hsc'. rewrite Hdb, Hcalls1 in Hcalls3.
  assert (db_up (db g) = true -> db_up (db g1) = true) as Hup1.
  { unfold db_up. rewrite Hcalls1. apply db_up_after. }
  exists g3. split_and!; [done|by eapply deciding_core| |intros ?; by apply (sc_up _ _ Hsc'), Hup1| | | | | |].
  - intros n. unfold call_up, read_call. rewrite Hcalls3.
    destruct (edu_cursors g !! k), k; destruct (db_calls (db g)) as [|? [|? ?]]; cbn; by rewrite ?lookup_nil.
  - by rewrite (sc_status _ _ Hsc').
  - by rewrite (sc_next _ _ Hsc').
  - by rewrite (sc_requests _ _ Hsc').
  - by rewrite (sc_requests _ _ Hsc').
  - intros k' Hk'. rewrite (same_core_channel _ _ _ Hsc'). auto.
  - by rewrite (sc_requests _ _ Hsc').
Qed.

Lemma on_success_moves k g events :
  Inv g -> in_flight k g = Some events -> call_up 0 (db g) = true ->
  (call_up (read_call k g) (db g) = true -> queued k (reqs g) <> [] ->
   call_up (S (read_call k g)) (db g) = true) ->
  exists g', handler on_success k (remove_future k g) = (Done tt, g') /\
    Moves k (if call_up (read_call k g) (db g) then Success else Unread) g g'.
Proof.
  intros [Hb Hc] Hk Hup Hclaim. pose proof (deciding_returned k g Hb) as Hd.
  destruct (on_success_run k _ Hd Hup) as (g1 & H1 & Hd1 & Hcall & Hup1 & Hs1 & Hn1 & Hq1 & Hc1 & Ho1 & _).
  change (read_call k (remove_future k g)) with (read_call k g) in Hcall.
  change (db (remove_future k g)) with (db g) in *. change (status (remove_future k g)) with (status g) in Hs1.
  rewrite H1. pose proof (Hcall 0%nat) as E0. pose proof (Hcall 1%nat) as E1. rewrite Nat.add_0_r in E0.
  rewrite Nat.add_1_r in E1.
  destruct (next_transaction_spec k g1) as (o & g2 & H2 & [D1 D2 D3 D4 D5 D6] & Hch); [done| |done| |].
  { rewrite Hs1. apply Hb. eauto. }
  { rewrite E0, E1, Hq1. done. }
  exists g2. split; [done|]. split.
  - done.
  - specialize (Hc k). rewrite (in_flight_chan _ _ _ Hk) in Hc |- *. cbn in Hc.
    rewrite E0, Hq1 in Hch. by apply Hch.
  - intros k' Hk'. rewrite D3, Ho1 by done. by apply returned_other.
  - intros k' Hk'. by rewrite D4, Hs1.
  - by rewrite D5, Hn1.
  - auto.
Qed.

Lemma on_failure_moves k g events now :
  Inv g -> in_flight k g = Some events ->
  exists g', on_failure k now (remove_future k g) = (Done tt, g') /\ Moves k Failure g g'.
Proof.
  intros [Hb Hc] Hk. unfold on_failure. pose proof (deciding_returned k g Hb) as Hd.
  rewrite !st_modify_bind, st_gets_bind. cbn [status set_status set_edu_cursors remove_future set_futures].
  rewrite lookup_alter_eq.
  assert (flying (status g !! k)) as Hs by (apply Hb; eauto).
  assert (exists tries, (fun e => match e with
            | Running => Failed 1 now
            | Retrying n => Failed (Z.min (n + 1) (2 ^ 32 - 1)) now
            | Failed _ _ => e end) <$> status g !! k = Some (Failed tries now)) as [tries Ht].
  { destruct (status g !! k) as [[| |n]|]; cbn in *; by eauto. }
  rewrite Ht. cbv beta iota. set (g1 := set_status _ _).
  assert (exists r, st_try (on_db (persist_retry_state k tries now)) g1 =
                    (Done r, set_db (after_call (db g1)) g1)) as [r Hr].
  { pose proof (persist_retry_state_table k tries now (db g1) (dc_table _ _ Hd)) as E.
    apply on_db_run in E. destruct (call_up 0 (db g1)); eexists; [by apply st_try_run|by apply st_try_fail]. }
  st_step Hr. eexists. split; [done|].
  assert (Decided k None (remove_future k g) g1) as Hdec.
  { apply decide_on; try done; cbn; [by left| |by rewrite app_nil_r|].
    - intros k' ?. by apply lookup_alter_ne.
    - rewrite lookup_alter_eq, Ht. by split; [intros []|]. }
  apply (moves_core_r _ _ _ g1); [|apply after_call_core]. destruct Hdec as [D1 D2 D3 D4 D5 D6].
  split; [done| | |by intros; rewrite D4|by rewrite D5|done].
  - rewrite (in_flight_chan _ _ _ Hk). unfold channel, mode. rewrite D2. cbn.
    rewrite lookup_alter_eq, Ht. constructor.
  - intros k' Hk'. rewrite D3 by done. by apply returned_other.
Qed.

Lemma idle_chan k g :
  Inv g -> status g !! k = None -> Deciding k g /\ channel k g = Chan (queued k (reqs g)) [] Idle.
Proof.
  intros [Hb Hc] Hs. assert (Deciding k g) as Hd by (apply deciding_idle; [done|rewrite Hs; by intros []]).
  split; [done|]. specialize (Hc k). unfold channel, mode in *. rewrite (dc_none _ _ Hd), Hs in *.
  by cbn in Hc; rewrite Hc.
Qed.

(** [select_events] for an idle destination with requests queued, and the launch. *)
Lemma select_events_idle k now g :
  Inv g -> status g !! k = None -> call_up 0 (db g) = true -> queued k (reqs g) <> [] ->
  exists events g1 g2,
    handler select_events k (take QUEUED_REQUEST_LIMIT (queued k (reqs g))) now g =
      (Done (Some events), g1) /\
    push_future k events g1 = (Done tt, g2) /\ Moves k Quiet g g2 /\ is_Some (in_flight k g2).
Proof.
  intros Hinv Hs Hup Hq. destruct (idle_chan k g Hinv Hs) as [Hd Hch].
  unfold select_events. rewrite st_gets_bind, Hs. cbv beta iota.
  unfold set_kind_status. rewrite st_modify_bind. cbn [negb].
  set (g0 := set_status (<[k:=Running]> (status g)) g).
  assert (Deciding k g0) as Hd0.
  { destruct Hd as [D1 D2 D3 D4 D5]. split; try done. intros k' Hk'. cbn.
    rewrite lookup_insert_ne by done. by apply D5. }
  destruct (claim_then_send k g0 Hd0) as (g1 & H1 & Hsend); [done| | |].
  { cbn. by rewrite lookup_insert_eq. }
  { cbn. by injection Hch. }
  change (reqs g0) with (reqs g) in H1, Hsend. set (b := take QUEUED_REQUEST_LIMIT (queued k (reqs g))) in *.
  assert (exists y b', b = y :: b') as (y & b' & Eb).
  { unfold b. destruct (queued k (reqs g)) as [|y q]; [done|]. cbn. eauto. }
  apply st_try_run in H1. rewrite (bind_St_run _ _ g0 (Some b.*2) g1).
  2: { st_step H1. by rewrite Eb. }
  cbv beta iota.
  destruct (piggyback_run device_changes receipts presence receipts_allowed presence_allowed k b.*2 g1)
    as (extra & g2 & H2 & Hc2). st_step H2.
  destruct (Hsend extra g2 Hc2) as (g3 & H3 & [D1 D2 D3 D4 D5 D6] & Hch3).
  eexists _, g2, g3. split_and!; [done|done| |by rewrite D2]. split; [done| | | |by rewrite D5|done].
  - rewrite Hch, Hch3. by apply chan_start.
  - intros k' Hk'. rewrite D3 by done. unfold channel, mode. cbn. by rewrite lookup_insert_ne.
  - intros k' Hk'. rewrite D4 by done. cbn. by apply lookup_insert_ne.
Qed.

(** When the requests cannot be claimed, the destination stays idle. *)
Lemma select_events_down k new_events now g :
  status g !! k = None -> call_up 0 (db g) = false ->
  exists g1, handler select_events k new_events now g = (Fail AppInternal, g1) /\ same_core g g1.
Proof.
  intros Hs Hup. unfold select_events. rewrite st_gets_bind, Hs. cbv beta iota.
  unfold set_kind_status. rewrite st_modify_bind. cbn [negb].
  set (g0 := set_status (<[k:=Running]> (status g)) g).
  exists (set_status (delete k (<[k:=Running]> (status g))) (set_db (after_call (db g)) g0)). split.
  - apply bind_St_fail. unfold claim_queued_requests. by rewrite (bind_St_run _ _ _ _ _ (try_down _ g0 Hup)).
  - destruct (after_call_core g) as [S1 S2 S3 S4 S5]. split; try done. cbn. by apply delete_insert_id.
Qed.

Lemma inv_core g g' : same_core g g' -> Inv g -> Inv g'.
Proof.
  intros Hc [Hb Hk]. split; [by eapply same_core_book|]. intros k. by rewrite (same_core_channel _ _ k Hc).
Qed.
Lemma moves_core k g g' : Inv g -> same_core g g' -> Moves k Quiet g g'.
Proof. intros Hg Hc. eapply moves_core_r; [apply moves_stay, Hg|done]. Qed.

Lemma start_moves k now g :
  Inv g ->
  exists g', handler start_transaction k now g = (Done tt, g') /\ Moves k Quiet g g' /\
    (db_up (db g) = true -> queued k (reqs g) <> [] -> is_Some (in_flight k g') \/ status g' = status g /\ is_Some (status g !! k)).
Proof.
  intros Hinv. unfold start_transaction. rewrite st_gets_bind.
  destruct (status g !! k) eqn:Hs; [exists g; split_and!; eauto using moves_stay, inv_book|].
  pose proof (after_call_core g) as Hsc. set (g0 := set_db (after_call (db g)) g) in Hsc.
  destruct (call_up 0 (db g)) eqn:Hup.
  - pose proof (queued_requests_up k (db g) Hup (bk_table _ (inv_book _ Hinv))) as Hq.
    apply on_db_run, st_try_run in Hq. fold g0 in Hq. st_step Hq.
    destruct (decide (queued k (reqs g) = [])) as [E|E].
    { rewrite E, take_nil. exists g0. split_and!; [done|by apply moves_core|done]. }
    assert (exists y b', take QUEUED_REQUEST_LIMIT (queued k (reqs g)) = y :: b') as (y & b' & Eb).
    { destruct (queued k (reqs g)) as [|y q]; [done|]. cbn. eauto. }
    destruct (call_up 0 (db g0)) eqn:Hup0.
    + destruct (select_events_idle k now g0 (inv_core _ _ Hsc Hinv) Hs Hup0 E) as (events & g1 & g2 & H1 & H2 & H3 & H4).
      change (reqs g0) with (reqs g) in H1. rewrite Eb in H1 |- *. apply st_try_run in H1. st_step H1. rewrite H2.
      exists g2. split_and!; [done|by eapply moves_core_l|auto].
    + destruct (select_events_down k (y :: b') now g0 Hs Hup0) as (g1 & H1 & Hc1).
      rewrite Eb. apply st_try_fail in H1. st_step H1. exists g1.
      split_and!; [done|apply moves_core; [done|by eapply same_core_trans]|].
      intros H%(db_up_call 1). cbn in Hup0. rewrite call_up_after in Hup0. congruence.
  - unfold queued_requests. rewrite (bind_St_run _ _ _ _ _ (try_down _ g Hup)). exists g0. split_and!; [done|by apply moves_core|].
    intros H%(db_up_call 0). congruence.
Qed.

(** ** Queueing *)
Lemma enqueue_moves k ev g :
  Inv g -> ev <> SeFlush ->
  exists g', enqueue k ev g = (Done tt, g') /\
    Moves k (if call_up 0 (db g) then Queued (next_request_id (db g)) else Quiet) g g'.
Proof.
  intros Hinv Hev. unfold enqueue. destruct (call_up 0 (db g)) eqn:Hup.
  - assert (exists d, queue_request k ev (db g) = (Done (next_request_id (db g)), d) /\
              outgoing_requests d = <[next_request_id (db g) := new_request k ev]> (reqs g) /\
              next_request_id d = next_request_id (db g) + 1 /\ (db_up (db g) = true -> db_up d = true))
      as (d & Hd & Hr & Hn & Hu).
    { unfold queue_request. rewrite connect_up by done. eexists. split_and!; try done. apply (db_up_after (db g)). }
    apply on_db_run, st_try_run in Hd. st_step Hd. eexists. split; [done|].
    destruct Hinv as [[H1 H2 H3 H4] Hc].
    destruct (enqueue_lanes k ev (reqs g) (next_request_id (db g)) Hev H2) as (Hq & Hcl & Ho).
    set (g1 := set_db d g).
    assert (forall k', in_flight k' g1 = in_flight k' g) as Hfl by done.
    apply (moves_core_r _ _ _ g1).
    2: { by case_match. }
    split; [| | |done|cbn; lia|done].
    + split; [| |done|done]; cbn; rewrite ?Hr, ?Hn.
      * intros id r [[<- <-]|[_ ?]]%lookup_insert_Some; eauto using new_request_row.
      * intros id. rewrite dom_insert. intros [->%elem_of_singleton|Hid]%elem_of_union; [lia|].
        specialize (H2 id Hid). lia.
    + unfold channel, mode. rewrite Hfl. cbn. rewrite Hr, Hq, Hcl. constructor.
      intros [id e] [Hx|Hx]%elem_of_app; [apply elem_of_queued in Hx|apply elem_of_claimed in Hx];
        destruct Hx as (r & Hx & _); apply H2, elem_of_dom; eauto.
    + intros k' Hk'. unfold channel, mode. rewrite Hfl. cbn. rewrite Hr. by destruct (Ho k' Hk') as [-> ->].
  - unfold queue_request. rewrite (bind_St_run _ _ _ _ _ (try_down _ g Hup)). eexists. split; [done|].
    apply moves_core, after_call_core. done.
Qed.

(** ** Retrying *)

Lemma backoff_chan k g tries time :
  Inv g -> status g !! k = Some (Failed tries time) ->
  Deciding k g /\ channel k g = Chan (queued k (reqs g)) (claimed k (reqs g)) Backoff.
Proof.
  intros [Hb Hc] Hs. assert (Deciding k g) as Hd by (apply deciding_idle; [done|rewrite Hs; by intros []]).
  split; [done|]. unfold channel, mode. by rewrite (dc_none _ _ Hd), Hs.
Qed.

(** A decision about a destination that is not in flight is a step of it. *)
Lemma decided_moves k o g g' :
  Deciding k g -> Decided k o g g' -> chan_step Quiet (channel k g) (channel k g') ->
  Moves k Quiet g g'.
Proof. intros _ [D1 D2 D3 D4 D5 D6] Hs. split; auto. by rewrite D5. Qed.

Lemma set_status_decided k s g :
  Deciding k g -> ~ flying (Some s) ->
  exists g', set_kind_status k s g = (Done tt, g') /\ Decided k None g g' /\ reqs g' = reqs g /\
    status g' !! k = Some s.
Proof.
  intros Hd Hs. eexists. split; [done|]. cbn. rewrite lookup_insert_eq. split_and!; [|done|done].
  apply decide_on; try done; cbn; [by left| |by rewrite app_nil_r|].
  - intros k' ?. by apply lookup_insert_ne.
  - rewrite lookup_insert_eq. by split; [intros []|].
Qed.

Lemma set_status_deciding k s g :
  Deciding k g ->
  exists g', set_kind_status k s g = (Done tt, g') /\ Deciding k g' /\ reqs g' = reqs g /\
    status g' = <[k := s]> (status g) /\ futures g' = futures g /\ db g' = db g.
Proof.
  intros [D1 D2 D3 D4 D5]. eexists. split; [done|]. split_and!; try done. split; try done.
  intros k' Hk'. cbn. rewrite lookup_insert_ne by done. by apply D5.
Qed.

Lemma retry_one_moves k tries time now g :
  Inv g -> status g !! k = Some (Failed tries time) ->
  exists g', handler retry_one now (k, tries) g = (Done tt, g') /\ Moves k Quiet g g' /\
    (db_up (db g) = true -> is_Some (in_flight k g') \/ status g' !! k = None).
Proof.
  intros Hinv Hs. destruct (backoff_chan k g tries time Hinv Hs) as [Hd Hch]. unfold retry_one.
  pose proof (after_call_core g) as Hsc. set (g0 := set_db (after_call (db g)) g) in Hsc.
  pose proof (deciding_core _ _ _ Hsc Hd) as Hd0. destruct (call_up 0 (db g)) eqn:Hup.
  - destruct (active_requests_for_up k (db g) Hup) as (l & Hl & Hp).
    apply on_db_run, st_try_run in Hl. st_step Hl. cbv beta iota. fold g0.
    destruct (edus_alone_run device_changes receipts presence receipts_allowed presence_allowed k l.*2 g0)
      as (extra & g1 & H1 & Hc0). st_step H1. pose proof (same_core_trans _ _ _ Hsc Hc0) as Hc1.
    apply (deciding_core _ _ _ Hc1) in Hd as Hd1.
    assert ((claimed k (reqs g)).*2 ⊆ (l.*2 ++ extra)%list) as Hsub.
    { rewrite <- Hp. intros e He. apply elem_of_app. by left. }
    destruct (l.*2 ++ extra)%list as [|e events].
    + destruct (remove_status_decided k g1 Hd1) as (g2 & H2 & Hd2 & Hr2 & Hs2). exists g2. rewrite H2.
      split_and!; [done| |auto]. apply (moves_core_l _ _ _ g1); [done|].
      apply (decided_moves _ _ _ _ Hd1 Hd2).
      rewrite (same_core_channel _ _ _ Hc1), Hch, (decided_channel _ _ _ _ Hd2), Hs2, Hr2, (sc_requests _ _ Hc1).
      assert (claimed k (reqs g) = []) as ->; [|constructor].
      by apply list_nil_subseteq, fmap_nil_inv in Hsub.
    + destruct (set_status_deciding k (Retrying tries) g1 Hd1) as (g2 & H2 & Hd2 & Hr2 & Hs2 & Hf2 & Hdb2).
      st_step H2. destruct (push_future_decided k (e :: events) g2 Hd2) as (g3 & H3 & Hd3 & Hr3).
      { by rewrite Hs2, lookup_insert_eq. }
      exists g3. rewrite H3. split_and!; [done| |intros _; left; by rewrite (dd_flight _ _ _ _ Hd3)].
      apply (moves_core_l _ _ _ g1); [done|]. destruct Hd3 as [D1 D2 D3 D4 D5 D6] eqn:E.
      split; [done| | | |by rewrite D5, Hdb2|by rewrite <- Hdb2].
      * rewrite (same_core_channel _ _ _ Hc1), Hch, (decided_channel _ _ _ _ Hd3), Hr3, Hr2, (sc_requests _ _ Hc1).
        by constructor.
      * intros k' Hk'. rewrite D3 by done. unfold channel, mode, in_flight.
        by rewrite Hr2, Hf2, Hs2, lookup_insert_ne.
      * intros k' Hk'. rewrite D4 by done. by rewrite Hs2, lookup_insert_ne.
  - unfold active_requests_for. rewrite (bind_St_run _ _ _ _ _ (try_down _ g Hup)). fold g0. cbv beta iota.
    destruct (set_status_decided k (Failed tries now) g0 Hd0) as (g2 & H2 & Hd2 & Hr2 & Hs2);
      [by intros []|].
    exists g2. rewrite H2. split_and!; [done| |intros H%(db_up_call 0); congruence].
    apply (moves_core_l _ _ _ g0); [done|]. apply (decided_moves _ _ _ _ Hd0 Hd2).
    rewrite (same_core_channel _ _ _ Hsc), Hch, (decided_channel _ _ _ _ Hd2), Hs2, Hr2. constructor.
Qed.

(** ** Loops over destinations *)

Definition untouched (k : OutgoingKind) (g g' : Guard) : Prop :=
  channel k g' = channel k g /\ status g' !! k = status g !! k.

Lemma moves_untouched k l g g' k' : Moves k l g g' -> k' <> k -> untouched k' g g'.
Proof. intros [] ?. split; auto. Qed.
Lemma untouched_trans k g1 g2 g3 : untouched k g1 g2 -> untouched k g2 g3 -> untouched k g1 g3.
Proof. intros [] []. split; congruence. Qed.

(** Each destination makes its own step, once. *)
Lemma iter_moves {A} (f : A -> St Guard unit) (key : A -> OutgoingKind)
    (P : A -> Guard -> Prop) (R : A -> Guard -> Guard -> Prop) l :
  NoDup (key <$> l) ->
  (forall a g, Inv g -> P a g -> exists g', f a g = (Done tt, g') /\ Moves (key a) Quiet g g' /\ R a g g') ->
  (forall a g g', untouched (key a) g g' -> P a g -> P a g') ->
  forall g, Inv g -> (forall a, a ∈ l -> P a g) ->
  exists g', st_iter f l g = (Done tt, g') /\ Inv g' /\
    next_request_id (db g) <= next_request_id (db g') /\ (db_up (db g) = true -> db_up (db g') = true) /\
    (forall k, k ∉ key <$> l -> untouched k g g') /\
    (forall a, a ∈ l -> exists g1 g2, untouched (key a) g g1 /\ (db_up (db g) = true -> db_up (db g1) = true) /\
       Moves (key a) Quiet g1 g2 /\ R a g1 g2 /\ untouched (key a) g2 g').
Proof.
  intros Hnd Hf HP. induction l as [|a l IH]; intros g Hg Hall.
  { exists g. split_and!; try done. by intros a ?%elem_of_nil. }
  rewrite fmap_cons in Hnd. apply NoDup_cons in Hnd as [Ha Hnd].
  destruct (Hf a g Hg) as (g1 & H1 & Hm & HR); [apply Hall; left|].
  assert (forall b, b ∈ l -> key b <> key a) as Hne.
  { intros b Hb E. apply Ha. rewrite <- E. by apply list_elem_of_fmap_2. }
  destruct (IH Hnd g1) as (g' & H2 & Hg' & Hn & Hu & Hout & Hin).
  { by eapply moves_inv. }
  { intros b Hb. eapply HP; [eapply moves_untouched; eauto|]. apply Hall. by right. }
  exists g'. cbn [st_iter]. st_step H1. pose proof (mv_next _ _ _ _ Hm). pose proof (mv_up _ _ _ _ Hm).
  split_and!; [done|done|lia|auto| |].
  - intros k. rewrite fmap_cons, elem_of_cons. intros Hk.
    eapply untouched_trans; [eapply moves_untouched; [done|tauto]|]. apply Hout. tauto.
  - intros b [->|Hb]%elem_of_cons.
    + exists g, g1. split_and!; [by split|done|done|done|]. by apply Hout.
    + destruct (Hin b Hb) as (h1 & h2 & U1 & E1 & M & HRb & U2). exists h1, h2.
      split_and!; [|auto|done|done|done].
      eapply untouched_trans; [eapply moves_untouched; [done|by apply Hne]|done].
Qed.

(** So each destination makes at most one step. *)
Lemma steps_of_moves {A} (key : A -> OutgoingKind) (R : A -> Guard -> Guard -> Prop) (l : list A) g g' :
  (forall k, k ∉ key <$> l -> untouched k g g') ->
  (forall a, a ∈ l -> exists g1 g2, untouched (key a) g g1 /\ (db_up (db g) = true -> db_up (db g1) = true) /\
     Moves (key a) Quiet g1 g2 /\ R a g1 g2 /\ untouched (key a) g2 g') ->
  forall k, chan_step Quiet (channel k g) (channel k g').
Proof.
  intros Hout Hin k. destruct (decide (k ∈ key <$> l)) as [Hk|Hk].
  - apply list_elem_of_fmap in Hk as (a & -> & Ha).
    destruct (Hin a Ha) as (g1 & g2 & [<- _] & _ & Hm & _ & [-> _]). apply Hm.
  - destruct (Hout k Hk) as [-> _]. constructor.
Qed.

Lemma elem_of_retry_ready now g k tries :
  (k, tries) ∈ retry_ready now g <->
  exists time, status g !! k = Some (Failed tries time) /\ retry_backoff tries <= now - time.
Proof.
  unfold retry_ready. rewrite list_elem_of_omap. split.
  - intros ([k' s] & Hin%elem_of_iter_map & H). destruct s as [|t time|]; try done.
    case_decide; [|done]. injection H as -> ->. eauto.
  - intros (time & Hs & Ht). exists (k, Failed tries time). rewrite elem_of_iter_map.
    split; [done|]. by rewrite decide_True.
Qed.

Lemma retry_ready_kinds now g : NoDup (retry_ready now g).*1.
Proof.
  unfold retry_ready. assert (NoDup (iter_map (status g)).*1) as Hnd.
  { unfold iter_map. rewrite hash_perm_ok. apply NoDup_fst_map_to_list. }
  induction (iter_map (status g)) as [|[k s] l IH]; [constructor|].
  rewrite fmap_cons in Hnd. apply NoDup_cons in Hnd as [Hk Hnd]. cbn in Hk |- *.
  destruct s as [|tries time|]; [by apply IH| |by apply IH]. case_decide; [|by apply IH].
  rewrite fmap_cons. constructor; [|by apply IH]. cbn.
  intros ([k' t] & E & Hin)%list_elem_of_fmap. cbn in E. subst k'. apply Hk.
  apply list_elem_of_omap in Hin as ([k' s] & Hin & Ho). apply list_elem_of_fmap. exists (k', s).
  split; [|done]. cbn. destruct s; try done. case_decide; [|done]. by injection Ho.
Qed.

(** ** Turns *)

Abbreviation turn' := (handler turn).
Abbreviation run' := (handler run).

(** What a turn is for a destination. *)
Definition label (k : OutgoingKind) (t : Turn) (g : Guard) : Label :=
  match t with
  | Enqueue k' _ =>
      if decide (k' = k /\ call_up 0 (db g) = true) then Queued (next_request_id (db g)) else Quiet
  | Returned k' success _ =>
      if decide (k' = k /\ is_Some (in_flight k g)) then
        if success then (if call_up (read_call k g) (db g) then Success else Unread) else Failure
      else Quiet
  | _ => Quiet
  end.

(** Only requests with content are queued, and only by this process. *)
Definition queueable (t : Turn) : Prop :=
  match t with Enqueue _ SeFlush | Elsewhere _ => False | _ => True end.
(** The one turn that ends the worker: a transaction succeeded, and its requests
    cannot be deleted, or there are more requests and they cannot be claimed. *)
Definition stops (t : Turn) (g : Guard) : Prop :=
  match t with
  | Returned k true _ => is_Some (in_flight k g) /\
      (call_up 0 (db g) = false \/
       call_up (read_call k g) (db g) = true /\ queued k (reqs g) <> [] /\
       call_up (S (read_call k g)) (db g) = false)
  | _ => False
  end.

Lemma in_flight_elem k g : is_Some (in_flight k g) <-> k ∈ (futures g).*1.
Proof.
  unfold in_flight. pose proof (not_elem_of_list_to_map (M := gmap OutgoingKind) (futures g) k) as H.
  destruct (list_to_map (futures g) !! k) eqn:E; split; intros Hk; try done; try (by destruct Hk).
  - destruct (decide (k ∈ (futures g).*1)) as [|Hn]; [done|]. by apply H in Hn.
  - by apply H in Hk.
Qed.

Lemma in_flight_exists k g :
  existsb (fun f => bool_decide (f.1 = k)) (futures g) = true <-> is_Some (in_flight k g).
Proof.
  rewrite existsb_exists, in_flight_elem, list_elem_of_fmap. f_equiv. intros [k' e].
  rewrite <- list_elem_of_In, bool_decide_eq_true. cbn. naive_solver.
Qed.

Lemma moves_labels t k l g g' :
  Inv g -> Moves k l g g' -> label k t g = l -> (forall k', k' <> k -> label k' t g = Quiet) ->
  Inv g' /\ next_request_id (db g) <= next_request_id (db g') /\
  forall k', chan_step (label k' t g) (channel k' g) (channel k' g').
Proof.
  intros Hg Hm Hl Ho. split_and!; [by eapply moves_inv|apply Hm|]. intros k'.
  destruct (decide (k' = k)) as [->|Hk]; [rewrite Hl; apply Hm|].
  rewrite Ho, (mv_other _ _ _ _ Hm) by done. constructor.
Qed.

Lemma quiet_stay t g g' :
  Inv g -> same_core g g' -> (forall k, label k t g = Quiet) ->
  Inv g' /\ next_request_id (db g) <= next_request_id (db g') /\
  forall k', chan_step (label k' t g) (channel k' g) (channel k' g').
Proof.
  intros [Hb Hc] Hsc Hl. pose proof (fun k => same_core_channel _ _ k Hsc) as E. split_and!.
  - split; [by eapply same_core_book|]. intros k. by rewrite E.
  - by rewrite (sc_next _ _ Hsc).
  - intros k. rewrite Hl, E. constructor.
Qed.

Lemma sweep_moves now g :
  Inv g ->
  exists g', turn' (Sweep now) g = (Done tt, g') /\ Inv g' /\
    next_request_id (db g) <= next_request_id (db g') /\ (db_up (db g) = true -> db_up (db g') = true) /\
    (forall k, chan_step Quiet (channel k g) (channel k g')) /\
    (db_up (db g) = true -> forall k, queued k (reqs g) <> [] ->
       is_Some (in_flight k g') \/ is_Some (status g !! k)).
Proof.
  intros Hg. cbn [turn]. unfold on_sweep.
  pose proof (after_call_core g) as Hsc. set (g0 := set_db (after_call (db g)) g) in Hsc.
  pose proof (inv_core _ _ Hsc Hg) as Hg0. destruct (call_up 0 (db g)) eqn:Hup.
  - set (kinds := remove_dups (omap (fun '(_, r) => row_destination r)
      (filter (fun '(_, r) => ~ pending r) (iter_map (reqs g))))).
    assert (st_try (on_db queued_kinds) g = (Done (Ok kinds), g0)) as Hk.
    { apply st_try_run, on_db_run. unfold queued_kinds. by rewrite connect_up. }
    st_step Hk.
    destruct (iter_moves (fun k => handler start_transaction k now) id (fun _ _ => True)
      (fun k g1 g2 => db_up (db g1) = true -> queued k (reqs g1) <> [] ->
         is_Some (in_flight k g2) \/ status g2 = status g1 /\ is_Some (status g1 !! k)) kinds)
      with (g := g0) as (g' & H1 & H2 & H3 & H4 & H5 & H6); try done.
    { rewrite list_fmap_id. apply NoDup_remove_dups. }
    { intros k g1 Hg1 _. by apply start_moves. }
    exists g'. split_and!; [done|done|done|intros H; by apply H4, (sc_up _ _ Hsc)| |].
    { intros k. rewrite <- (same_core_channel _ _ k Hsc). by apply (steps_of_moves id _ kinds g0 g' H5 H6). }
    intros H k Hq. apply (sc_up _ _ Hsc) in H. destruct (H6 k) as (g1 & g2 & [U1 U1'] & E1 & _ & HR & [U2 U2']).
    + unfold kinds. apply elem_of_remove_dups, list_elem_of_omap.
      destruct (queued k (reqs g)) as [|[id ev] q] eqn:E; [done|].
      assert ((id, ev) ∈ queued k (reqs g)) as Hin by (rewrite E; left).
      apply elem_of_queued in Hin as (r & Hr & Hk' & Hp & _). exists (id, r).
      rewrite list_elem_of_filter, elem_of_iter_map. split_and!; [done|done|].
      destruct (bk_table _ (inv_book _ Hg) _ _ Hr) as (k0 & ev0 & Hrow).
      by rewrite (row_dest _ _ _ Hrow), (is_row_kind _ _ _ _ Hrow Hk').
    + cbn [id] in *. unfold channel in U1, U2. injection U1 as Q1 _ _. injection U2 as _ _ M2.
      destruct HR as [[e He]|[_ Hs]]; [auto|by rewrite Q1| |right; by rewrite U1' in Hs].
      left. unfold mode in M2. rewrite He in M2. destruct (in_flight k g'); [eauto|].
      by destruct (status g' !! k).
  - unfold queued_kinds. rewrite (bind_St_run _ _ _ _ _ (try_down _ g Hup)). fold g0. cbv beta iota.
    exists g0. split_and!; [done|done|done|apply Hsc| |intros H%(db_up_call 0); congruence].
    intros k. rewrite (same_core_channel _ _ k Hsc). constructor.
Qed.

Lemma retry_moves now g :
  Inv g ->
  exists g', turn' (Retry now) g = (Done tt, g') /\ Inv g' /\
    next_request_id (db g) <= next_request_id (db g') /\ (db_up (db g) = true -> db_up (db g') = true) /\
    (forall k, chan_step Quiet (channel k g) (channel k g')) /\
    (db_up (db g) = true -> forall k tries time, status g !! k = Some (Failed tries time) ->
       retry_backoff tries <= now - time -> is_Some (in_flight k g') \/ status g' !! k = None).
Proof.
  intros Hg. cbn [turn]. unfold on_retry. rewrite st_gets_bind.
  destruct (iter_moves (handler retry_one now) fst
    (fun '(k, tries) g1 => exists time, status g1 !! k = Some (Failed tries time))
    (fun '(k, tries) g1 g2 => db_up (db g1) = true -> is_Some (in_flight k g2) \/ status g2 !! k = None)
    (retry_ready now g)) with (g := g) as (g' & H1 & H2 & H3 & H4 & H5 & H6); try done.
  { apply retry_ready_kinds. }
  { intros [k tries] g0 Hg0 [time Hs]. by eapply retry_one_moves. }
  { intros [k tries] g1 g2 [_ E] [time Hs]. exists time. cbn in E. by rewrite E. }
  { intros [k tries] (time & Hs & _)%elem_of_retry_ready. eauto. }
  exists g'. split_and!; [done|done|done|done|exact (steps_of_moves fst _ _ g g' H5 H6)|].
  - intros Hup k tries time Hs Ht.
    destruct (H6 (k, tries)) as (g1 & g2 & _ & E1 & _ & HR & [U2 U2']); [apply elem_of_retry_ready; eauto|].
    cbn in U2, U2', HR. unfold channel in U2. injection U2 as _ _ M2.
    destruct HR as [[e He]|Hn]; [auto| |right; congruence].
    left. unfold mode in M2. rewrite He in M2. destruct (in_flight k g'); [eauto|].
    by destruct (status g' !! k).
Qed.

Lemma turn_moves t g :
  Inv g -> queueable t -> ~ stops t g ->
  exists g', turn' t g = (Done tt, g') /\ Inv g' /\
    next_request_id (db g) <= next_request_id (db g') /\
    forall k, chan_step (label k t g) (channel k g) (channel k g').
Proof.
  intros Hg Hq Hst. destruct t as [k ev|k success now|now|now|now|calls|rows]; [..|done].
  - destruct (enqueue_moves k ev g Hg) as (g' & H & Hm); [by destruct ev|]. exists g'. split; [done|].
    eapply moves_labels; [done|done| |].
    + cbn. destruct (call_up 0 (db g)); [rewrite decide_True by done|rewrite decide_False by naive_solver]; done.
    + intros k' Hk. cbn. apply decide_False. naive_solver.
  - cbn [turn]. destruct (existsb _ _) eqn:E.
    + apply in_flight_exists in E. destruct (in_flight k g) as [events|] eqn:Hf; [|by destruct E].
      assert (exists g', (if success then handler on_success k else on_failure k now) (remove_future k g) =
                (Done tt, g') /\
                Moves k (if success then if call_up (read_call k g) (db g) then Success else Unread
                         else Failure) g g') as (g' & H & Hm).
      { destruct success; [|by eapply on_failure_moves]. cbn in Hst. rewrite Hf in Hst.
        apply (on_success_moves k g events); [done|done| |].
        - apply not_false_iff_true. intros H. apply Hst. eauto.
        - intros Hr Hq'. apply not_false_iff_true. intros H. apply Hst. eauto 6. }
      exists g'. split; [done|]. eapply moves_labels; [done|done| |].
      * cbn. by rewrite Hf, decide_True by eauto.
      * intros k' Hk. cbn. apply decide_False. naive_solver.
    + exists g. split; [done|]. apply (quiet_stay (Returned k success now)); [done|done|].
      intros k'. cbn. rewrite decide_False; [done|]. rewrite <- in_flight_exists. intros [<- E']. congruence.
  - cbn [turn on_wakeup]. unfold on_wakeup. destruct (wakeups g) as [|k ks] eqn:E.
    + exists g. split; [done|]. by apply (quiet_stay (Wakeup now)).
    + assert (same_core g (set_wakeups ks g)) as Hsc by done.
      destruct (quiet_stay (Wakeup now) _ _ Hg Hsc ltac:(done)) as (Hg1 & _).
      destruct (start_moves k now _ Hg1) as (g' & H & Hm & _). exists g'. split; [done|].
      eapply moves_labels; [done|by eapply moves_core_l|done|done].
  - destruct (sweep_moves now g Hg) as (g' & ? & ? & ? & _ & ? & _). eauto.
  - destruct (retry_moves now g Hg) as (g' & ? & ? & ? & _ & ? & _). eauto.
  - eexists. split; [done|]. destruct Hg as [[] Hc]. split_and!; [|cbn; lia|intros; constructor].
    split; [by split|exact Hc].
Qed.

Lemma turn_stops t g :
  Inv g -> stops t g ->
  exists k now g', t = Returned k true now /\ is_Some (in_flight k g) /\
    turn' t g = (Fail AppInternal, g') /\ deletes k (reqs g) (reqs g').
Proof.
  intros Hg. destruct t as [|k [] now| | | | |]; try done. intros [Hf Hup]. exists k, now. cbn [turn].
  pose proof Hf as Hf'%in_flight_exists. rewrite Hf'.
  destruct (call_up 0 (db g)) eqn:H0.
  - destruct Hup as [|(Hr & Hq & Hc)]; [done|].
    destruct (on_success_run k _ (deciding_returned k g (inv_book _ Hg)) H0)
      as (g1 & H1 & Hd1 & Hcall & _ & _ & _ & Hq1 & _ & _ & Hx). rewrite H1.
    destruct (next_transaction_stops k g1 Hd1) as (g2 & H2 & Hr2).
    + by rewrite Hq1.
    + rewrite (Hcall 0%nat), Nat.add_0_r. exact Hr.
    + rewrite (Hcall 1%nat), Nat.add_1_r. exact Hc.
    + exists g2. rewrite Hr2. split_and!; done.
  - eexists. split_and!; [done|done| |].
    + unfold on_success. apply bind_St_fail, on_db_run. unfold delete_all_active_requests_for.
      by apply connect_down.
    + by intros id r Hr _.
Qed.

#[export] Instance stops_dec t g : Decision (stops t g).
Proof. destruct t as [|k [] now| | | | |]; cbn; apply _. Defined.

End handlers.
End proofs.
