(* ===== verification/SendingLive.v ===== *)
(** * The sending worker delivers what is queued

    For whole runs of the worker of Sending.v, in any order of its turns: each
    destination sees a channel of SendingChannels.v, a request is deleted only after
    a transaction that contained it succeeded, every queued request is deleted
    after a number of successful transactions of its destination bounded by the
    requests queued before it, and no destination is stranded.  The requests a
    previous process left behind put the worker into such a state.  All of it is
    about runs in which no other process works on the table ([queueable]);
    [another_process_loses] shows what a second one breaks. *)
From S2P Require Import Prelude RustStr Effects Sending SendingChannels.
Open Scope Z_scope.

Section runs.
Context {HO : HashOrder}.
Context (device_changes : SendDb -> string -> Z -> result AppError (list string))
        (receipts presence : SendDb -> string -> Z -> result AppError (option string))
        (receipts_allowed presence_allowed : bool).
Abbreviation turn' := (turn device_changes receipts presence receipts_allowed presence_allowed).
Abbreviation run' := (run device_changes receipts presence receipts_allowed presence_allowed).
Abbreviation reqs g := (outgoing_requests (db g)).

(** ** Runs *)

Fixpoint labels (k : OutgoingKind) (ts : list Turn) (g : Guard) : list Label :=
  match ts with
  | [] => []
  | t :: ts => label k t g :: labels k ts (snd (turn' t g))
  end.

Lemma run_cons t ts g g' :
  Inv g -> queueable t -> run' (t :: ts) g = (Done tt, g') ->
  exists g1, turn' t g = (Done tt, g1) /\ run' ts g1 = (Done tt, g') /\ Inv g1 /\
    next_request_id (db g) <= next_request_id (db g1) /\
    forall k, chan_step (label k t g) (channel k g) (channel k g1).
Proof.
  intros Hg Hq Hr. unfold run in Hr. cbn [st_iter] in Hr. destruct (decide (stops t g)) as [Hs|Hs].
  - destruct (turn_stops device_changes receipts presence receipts_allowed presence_allowed t g Hg Hs)
      as (k & now & g1 & _ & _ & Et & _).
    by rewrite (bind_St_fail _ _ _ _ _ Et) in Hr.
  - destruct (turn_moves device_changes receipts presence receipts_allowed presence_allowed t g Hg Hq Hs) as (g1 & H1 & ? & ? & ?). rewrite (bind_St_run _ _ _ _ _ H1) in Hr.
    eauto 10.
Qed.

Inductive chan_run : list Label -> Channel -> Channel -> Prop :=
| chan_nil c : chan_run [] c c
| chan_cons l ls c c1 c2 : chan_step l c c1 -> chan_run ls c1 c2 -> chan_run (l :: ls) c c2.

Lemma run_channels ts : forall g g',
  Inv g -> Forall queueable ts -> run' ts g = (Done tt, g') ->
  Inv g' /\ forall k, chan_run (labels k ts g) (channel k g) (channel k g').
Proof.
  induction ts as [|t ts IH]; intros g g' Hg Hq Hr.
  { injection Hr as <-. split; [done|constructor]. }
  apply Forall_cons in Hq as [Hq Hqs].
  destruct (run_cons _ _ _ _ Hg Hq Hr) as (g1 & Ht & Hr1 & Hg1 & _ & Hs).
  destruct (IH _ _ Hg1 Hqs Hr1) as [Hg' Hrun]. split; [done|]. intros k. cbn [labels].
  rewrite Ht. cbn [snd]. econstructor; eauto.
Qed.

(** The successful transactions of a destination in a run, after which its queue
    could be read. *)
Definition successes (k : OutgoingKind) (ts : list Turn) (g : Guard) : nat :=
  length (filter (fun l => l = Success) (labels k ts g)).

Lemma successes_cons k t ts g :
  successes k (t :: ts) g =
  ((if decide (label k t g = Success) then 1 else 0) + successes k ts (snd (turn' t g)))%nat.
Proof. unfold successes. cbn [labels]. rewrite filter_cons. by case_decide. Qed.

Lemma label_queued k t g id :
  label k t g = Queued id -> id = next_request_id (db g).
Proof.
  destruct t as [k' ev|k' [] now| | | | |]; cbn; try done; case_decide; try done; [by intros [= <-]|].
  by destruct (call_up _ _).
Qed.

Lemma within_run k id ts : forall n g g',
  Inv g -> Forall queueable ts -> run' ts g = (Done tt, g') ->
  id < next_request_id (db g) -> within n id (channel k g) ->
  id < next_request_id (db g') /\ within (n - successes k ts g) id (channel k g').
Proof.
  induction ts as [|t ts IH]; intros n g g' Hg Hq Hr Hid Hw.
  { injection Hr as <-. split; [done|]. cbn. by rewrite Nat.sub_0_r. }
  apply Forall_cons in Hq as [Hq Hqs].
  destruct (run_cons _ _ _ _ Hg Hq Hr) as (g1 & Ht & Hr1 & Hg1 & Hn & Hs).
  rewrite successes_cons, Ht. cbn [snd].
  assert (label k t g <> Queued id) as Hl by (intros E%label_queued; lia).
  pose proof (chan_step_within _ _ _ n id (Hs k) Hl Hw) as Hw1.
  destruct (IH _ _ _ Hg1 Hqs Hr1 ltac:(lia) Hw1) as [? Hw2]. split; [done|].
  eapply within_mono; [|exact Hw2]. case_decide; lia.
Qed.

(** A request that is in no lane of its destination is gone. *)
Lemma not_in_lanes k g id :
  Inv g -> (id ∉ (ch_claimed (channel k g)).*1) -> (id ∉ (ch_queued (channel k g)).*1) ->
  forall r, reqs g !! id = Some r -> ~ for_destination k r.
Proof.
  intros [Hb _] Hc Hq r Hr Hk. cbn in Hc, Hq. destruct (bk_table _ Hb _ _ Hr) as (k' & ev & Hrow).
  pose proof (row_ev _ _ _ Hrow) as He. destruct (decide (pending r)).
  - apply Hc. apply list_elem_of_fmap. exists (id, ev). split; [done|]. apply elem_of_claimed. eauto.
  - apply Hq. apply list_elem_of_fmap. exists (id, ev). split; [done|]. apply elem_of_queued. eauto.
Qed.

Lemma within_other k k' g id ev r :
  Inv g -> reqs g !! id = Some r -> is_row k ev r -> k' <> k -> within 0 id (channel k' g).
Proof.
  intros Hg Hr Hrow Hk. apply within_0. cbn. split;
    intros ([id' ev'] & -> & H)%list_elem_of_fmap;
    [apply elem_of_claimed in H|apply elem_of_queued in H]; destruct H as (r' & Hr' & Hf & _);
    cbn in Hr; rewrite Hr in Hr'; injection Hr' as <-; apply Hk; by apply (is_row_kind _ _ _ _ Hrow).
Qed.

Lemma queued_row k g i id ev :
  Inv g -> queued k (reqs g) !! i = Some (id, ev) ->
  exists r, reqs g !! id = Some r /\ is_row k ev r /\ id < next_request_id (db g) /\
    within (i / QUEUED_REQUEST_LIMIT + 2) id (channel k g).
Proof.
  intros [Hb _] Hi. apply list_elem_of_lookup_2 in Hi as Hin.
  apply elem_of_queued in Hin as (r & Hr & Hk & Hp & He). exists r.
  destruct (bk_table _ Hb _ _ Hr) as (k' & ev' & Hrow).
  pose proof (is_row_kind _ _ _ _ Hrow Hk). subst k'.
  pose proof (row_ev _ _ _ Hrow) as E. rewrite He in E. injection E as <-.
  split_and!; [done|done|apply (bk_fresh _ Hb), elem_of_dom; eauto|]. split; cbn [ch_claimed ch_queued channel].
  - intros ([id' e] & -> & (r' & Hr' & _ & Hp' & _)%elem_of_claimed)%list_elem_of_fmap.
    cbn in Hr. congruence.
  - intros j e Hj. assert (i = j) as ->; [|done].
    pose proof (sorted_ids _ (queued_sorted k (reqs g))) as Hnd. eapply NoDup_lookup; [exact Hnd| |];
      rewrite list_lookup_fmap; [by rewrite Hi|by rewrite Hj].
Qed.

Lemma gone_within k g g' ts n id ev r :
  Inv g -> Forall queueable ts -> run' ts g = (Done tt, g') ->
  reqs g !! id = Some r -> is_row k ev r -> within n id (channel k g) -> (n <= successes k ts g)%nat ->
  reqs g' !! id = None.
Proof.
  intros Hg Hq Hr Hid Hrow Hw Hn.
  assert (id < next_request_id (db g)) as Hlt.
  { apply (bk_fresh _ (inv_book _ Hg)), elem_of_dom. eauto. }
  destruct (run_channels _ _ _ Hg Hq Hr) as [Hg' _].
  destruct (reqs g' !! id) as [r'|] eqn:E; [|done]. exfalso.
  destruct (bk_table _ (inv_book _ Hg') _ _ E) as (k' & ev' & Hrow').
  assert (within 0 id (channel k' g')) as [H1 H2]%within_0.
  { destruct (decide (k' = k)) as [->|Hk].
    - destruct (within_run k id ts n g g' Hg Hq Hr Hlt Hw) as [_ H].
      by replace (n - successes k ts g)%nat with 0%nat in H by lia.
    - by destruct (within_run k' id ts 0 g g' Hg Hq Hr Hlt (within_other _ _ _ _ _ _ Hg Hid Hrow Hk)). }
  eapply (not_in_lanes k' g' id); eauto. by apply (row_for _ _ _ Hrow').
Qed.

(** A destination with requests queued gets a transaction into flight by a retry and
    a sweep, once its backoff is over. *)
Lemma quiet_keeps_flight k g g' :
  chan_step Quiet (channel k g) (channel k g') -> is_Some (in_flight k g) -> is_Some (in_flight k g').
Proof.
  unfold channel, mode. intros H [e He]. rewrite He in H. inversion H; subst; try done;
    destruct (in_flight k g'), (status g' !! k); by eauto.
Qed.

Lemma retry_then_sweep k now g :
  Inv g -> db_up (db g) = true -> queued k (reqs g) <> [] ->
  (forall tries time, status g !! k = Some (Failed tries time) -> retry_backoff tries <= now - time) ->
  exists g', run' [Retry now; Sweep now] g = (Done tt, g') /\ is_Some (in_flight k g').
Proof.
  intros Hg Hup Hq Hb. unfold run. cbn [st_iter].
  destruct (retry_moves device_changes receipts presence receipts_allowed presence_allowed now g Hg)
    as (g1 & H1 & Hg1 & _ & Hup1 & Hs1 & Hready).
  destruct (sweep_moves device_changes receipts presence receipts_allowed presence_allowed now g1 Hg1)
    as (g2 & H2 & Hg2 & _ & Hup2 & Hs2 & Hstart).
  st_step H1. st_step H2. exists g2. split; [done|].
  destruct (in_flight k g1) as [events|] eqn:E1; [by apply (quiet_keeps_flight _ _ _ (Hs2 k)); rewrite E1|].
  assert (in_flight k g = None) as E.
  { destruct (in_flight k g) eqn:E; [|done]. pose proof (quiet_keeps_flight k g g1 (Hs1 k)) as H.
    rewrite E, E1 in H. destruct H; by eauto. }
  assert (status g1 !! k = None /\ queued k (reqs g1) = queued k (reqs g)) as [Hst Hq1].
  { specialize (Hs1 k). unfold channel, mode in Hs1. rewrite E, E1 in Hs1.
    destruct (status g !! k) as [[|tries time|tries]|] eqn:Es.
    - assert (is_Some (in_flight k g)) as [? ?] by (apply (bk_flight _ (inv_book _ Hg)); by rewrite Es).
      congruence.
    - destruct (Hready Hup k tries time Es (Hb tries time eq_refl)) as [[? ?]|Hn]; [congruence|].
      split; [done|]. rewrite Hn in Hs1. by inversion Hs1.
    - assert (is_Some (in_flight k g)) as [? ?] by (apply (bk_flight _ (inv_book _ Hg)); by rewrite Es).
      congruence.
    - destruct (status g1 !! k) eqn:Es1; inversion Hs1; auto. }
  destruct (Hstart ltac:(auto) k) as [|[? Hs]]; [congruence|done|congruence].
Qed.

(** ** The requests a previous process left behind *)

(** [initial_transactions] while the claimed requests are read: every request read
    so far and not deleted is in the transaction of its destination. *)
Record Restored (reqs0 : gmap Z DbOutgoingRequest) (read : list (Z * OutgoingKind * SendingEventType))
    (acc : gmap OutgoingKind (list SendingEventType)) (g : Guard) : Prop := {
  rs_sub : reqs g ⊆ reqs0;
  rs_queued : forall id r, reqs0 !! id = Some r -> ~ pending r -> reqs g !! id = Some r;
  rs_in : forall id k ev, (id, k, ev) ∈ read -> is_Some (acc !! k) /\
    (id ∈ dom (reqs g) -> ev ∈ default [] (acc !! k))
}.

Lemma restored_delete reqs0 read acc g id :
  Restored reqs0 read acc g -> (forall r, reqs0 !! id = Some r -> pending r) ->
  Restored reqs0 read acc (set_db (set_requests (delete id (reqs g)) (db g)) g).
Proof.
  intros [H1 H2 H3] Hid. split; cbn.
  - etrans; [apply delete_subseteq|done].
  - intros id' r Hr Hp. rewrite lookup_delete_ne; [auto|]. intros <-. by apply Hid in Hr.
  - intros id' k ev Hin. destruct (H3 _ _ _ Hin) as [? Hev]. split; [done|]. rewrite dom_delete.
    intros [Hd _]%elem_of_difference. auto.
Qed.

Lemma restored_insert reqs0 read acc g k l :
  Restored reqs0 read acc g -> (default [] (acc !! k)) ⊆ l ->
  Restored reqs0 read (<[k := l]> acc) g.
Proof.
  intros [H1 H2 H3] Hl. split; [done|done|]. intros id k' ev Hin. destruct (H3 _ _ _ Hin) as [Hs Hev].
  destruct (decide (k' = k)) as [->|Hk].
  - rewrite lookup_insert_eq. split; [eauto|]. cbn. auto.
  - by rewrite lookup_insert_ne.
Qed.

Lemma startup_all_restored reqs0 todo : forall read acc g,
  db_up (db g) = true -> Restored reqs0 read acc g ->
  (forall id k ev, (id, k, ev) ∈ todo -> forall r, reqs0 !! id = Some r -> pending r) ->
  exists acc' g', startup_all acc todo g = (Done acc', g') /\
    Restored reqs0 (read ++ todo)%list acc' g' /\
    (forall k, is_Some (acc' !! k) -> is_Some (acc !! k) \/ exists id ev, (id, k, ev) ∈ todo) /\
    status g' = status g /\ futures g' = futures g /\ db_up (db g') = true /\
    next_request_id (db g') = next_request_id (db g).
Proof.
  induction todo as [|[[id k] ev] todo IH]; intros read acc g Hup Hr Hp.
  { exists acc, g. rewrite app_nil_r. split_and!; auto. }
  assert (exists l g1, startup_one acc (id, k, ev) g = (Done (<[k := l]> acc), g1) /\
            Restored reqs0 (read ++ [(id, k, ev)])%list (<[k := l]> acc) g1 /\ status g1 = status g /\
            futures g1 = futures g /\ db_up (db g1) = true /\
            next_request_id (db g1) = next_request_id (db g))
    as (l & g1 & H1 & Hr1 & Hs1 & Hf1 & Hup1 & Hn1).
  { unfold startup_one. destruct (Nat.ltb _ _).
    - eexists _, _. split.
      { erewrite bind_St_run; [reflexivity|]. apply on_db_run. unfold delete_request.
        rewrite connect_up by (by apply db_up_call). reflexivity. }
      split_and!; try done; [|by apply (db_up_after (db g))]. apply (restored_insert _ _ _ _ k (default [] (acc !! k))) in Hr; [|done].
      apply (restored_delete _ _ _ _ id) in Hr; [|intros r; eapply Hp; left]. destruct Hr as [R1 R2 R3].
      split; [done|done|]. intros id' k' ev' [Hin|[= -> -> ->]%list_elem_of_singleton]%elem_of_app; [auto|].
      split; [rewrite lookup_insert_eq; eauto|]. cbn. rewrite dom_delete. set_solver.
    - eexists _, g. split; [done|]. split_and!; try done.
      apply (restored_insert _ _ _ _ k (default [] (acc !! k) ++ [ev])%list) in Hr;
        [|intros e He; apply elem_of_app; by left]. destruct Hr as [R1 R2 R3].
      split; [done|done|]. intros id' k' ev' [Hin|[= -> -> ->]%list_elem_of_singleton]%elem_of_app; [auto|].
      rewrite lookup_insert_eq. split; [eauto|]. intros _. cbn. apply elem_of_app. right. left. }
  cbn [startup_all]. st_step H1.
  destruct (IH _ _ _ Hup1 Hr1) as (acc' & g' & H2 & Hr2 & Hk2 & Hs2 & Hf2 & Hup2 & Hn2).
  { intros id' k' ev' Hin. eapply Hp. right. exact Hin. }
  exists acc', g'. rewrite H2, <- app_assoc in *. split_and!; try done; try congruence.
  intros k' [Hk|(id' & ev' & Hin)]%Hk2.
  - destruct (decide (k' = k)) as [->|Hne]; [right; eexists _, _; left|].
    rewrite lookup_insert_ne in Hk by done. by left.
  - right. eexists _, _. right. exact Hin.
Qed.

Lemma launch_all (l : list (OutgoingKind * list SendingEventType)) : forall g,
  exists g', st_iter (fun '(k, events) => _ ← set_kind_status k Running; push_future k events) l g =
      (Done tt, g') /\ db g' = db g /\ futures g' = (futures g ++ l)%list /\
    (forall k, k ∈ l.*1 -> status g' !! k = Some Running) /\
    (forall k, k ∉ l.*1 -> status g' !! k = status g !! k).
Proof.
  induction l as [|[k events] l IH]; intros g; cbn [st_iter].
  { exists g. rewrite app_nil_r. split_and!; try done. by intros k ?%elem_of_nil. }
  set (g1 := set_futures (futures g ++ [(k, events)])%list (set_status (<[k := Running]> (status g)) g)).
  destruct (IH g1) as (g' & H & Hd & Hf & Hin & Hout). exists g'.
  rewrite (bind_St_run _ _ g tt g1) by done. split_and!; [done|done| | |].
  - rewrite Hf. cbn. by rewrite <- app_assoc.
  - intros k'. rewrite fmap_cons, elem_of_cons. destruct (decide (k' ∈ l.*1)); [auto|].
    intros [->|?]; [|done]. rewrite Hout by done. apply lookup_insert_eq.
  - intros k'. rewrite fmap_cons, elem_of_cons. intros Hk. rewrite Hout by tauto. cbn.
    apply lookup_insert_ne. naive_solver.
Qed.

(** A worker that has just been started: no status, nothing in flight. *)
Definition fresh_worker (g : Guard) : Prop :=
  db_up (db g) = true /\ status g = ∅ /\ futures g = [] /\ table_ok (reqs g) /\
  forall id, id ∈ dom (reqs g) -> id < next_request_id (db g).

Lemma elem_of_active k ev id m :
  table_ok m ->
  (id, k, ev) ∈ omap (fun '(id, r) => k ← row_destination r; e ← row_event r; Some (id, k, e))
    (filter (fun '(_, r) => pending r) (iter_map m)) <->
  exists r, m !! id = Some r /\ pending r /\ is_row k ev r.
Proof.
  intros Hm. rewrite list_elem_of_omap. split.
  - intros ([id' r] & [Hp Hr%elem_of_iter_map]%list_elem_of_filter & H).
    destruct (Hm _ _ Hr) as (k' & ev' & Hrow). rewrite (row_dest _ _ _ Hrow) in H. cbn in H.
    rewrite (row_ev _ _ _ Hrow) in H. injection H as -> -> ->. eauto.
  - intros (r & Hr & Hp & Hrow). exists (id, r). rewrite list_elem_of_filter, elem_of_iter_map.
    split; [done|]. rewrite (row_dest _ _ _ Hrow). cbn. by rewrite (row_ev _ _ _ Hrow).
Qed.

Lemma startup_run g :
  fresh_worker g ->
  exists read acc g', startup g = (Done tt, g') /\ Restored (reqs g) read acc g' /\
    (forall k ev id, (id, k, ev) ∈ read <-> exists r, reqs g !! id = Some r /\ pending r /\ is_row k ev r) /\
    (forall k, is_Some (acc !! k) -> exists id ev, (id, k, ev) ∈ read) /\
    futures g' = iter_map acc /\ (forall k, status g' !! k = (fun _ => Running) <$> acc !! k) /\
    next_request_id (db g') = next_request_id (db g).
Proof.
  intros (Hup & Hs & Hf & Hok & Hfr). unfold startup.
  set (read := omap (fun '(id, r) => k ← row_destination r; e ← row_event r; Some (id, k, e))
    (filter (fun '(_, r) => pending r) (iter_map (reqs g)))).
  set (g0 := set_db (after_call (db g)) g).
  assert (on_db active_requests g = (Done read, g0)) as Ha.
  { apply on_db_run. unfold active_requests. by rewrite connect_up by (by apply db_up_call). }
  st_step Ha.
  assert (forall k ev id, (id, k, ev) ∈ read <->
            exists r, reqs g !! id = Some r /\ pending r /\ is_row k ev r) as Hread.
  { intros k ev id. by apply elem_of_active. }
  clearbody read.
  destruct (startup_all_restored (reqs g) read [] ∅ g0 (db_up_after _ Hup)) as (acc & g1 & H1 & Hr1 & Hk1 & Hs1 & Hf1 & Hup1 & Hn1).
  { split; [done|done|]. by intros id k ev ?%elem_of_nil. }
  { intros id k ev (r & Hr & Hp & _)%Hread r' Hr'. congruence. }
  st_step H1. destruct (launch_all (iter_map acc) g1) as (g2 & H2 & Hd2 & Hf2 & Hin2 & Hout2).
  exists read, acc, g2. split_and!; [done| |done| | | |by rewrite Hd2].
  - destruct Hr1 as [R1 R2 R3]. by split; rewrite ?Hd2.
  - intros k [Hk|?]%Hk1; [by apply is_Some_None in Hk|done].
  - rewrite Hf2, Hf1. change (futures g0) with (futures g). by rewrite Hf.
  - intros k. pose proof (elem_of_iter_keys acc k) as E. unfold iter_keys in E. rewrite elem_of_dom in E.
    destruct (decide (k ∈ (iter_map acc).*1)) as [Hk|Hk].
    + rewrite Hin2 by done. apply E in Hk as [? ->]. done.
    + rewrite Hout2, Hs1 by done. change (status g0) with (status g). rewrite Hs, lookup_empty. rewrite E in Hk.
      by apply eq_None_not_Some in Hk as ->.
Qed.

Lemma startup_inv g :
  fresh_worker g ->
  exists g', startup g = (Done tt, g') /\ Inv g' /\
    (forall id r, reqs g !! id = Some r -> ~ pending r -> reqs g' !! id = Some r).
Proof.
  intros Hg. destruct (startup_run g Hg) as (read & acc & g' & H & [R1 R2 R3] & Hread & Hk & Hf & Hs & Hn).
  destruct Hg as (_ & _ & _ & Hok & Hfr).
  assert (NoDup (futures g').*1) as Hnd by (rewrite Hf; apply NoDup_iter_keys).
  assert (forall k, in_flight k g' = acc !! k) as Hfl.
  { intros k. unfold in_flight. rewrite Hf. destruct (acc !! k) as [e|] eqn:E.
    - apply elem_of_list_to_map; [by rewrite <- Hf|]. by apply elem_of_iter_map.
    - apply not_elem_of_list_to_map. pose proof (elem_of_iter_keys acc k) as Hi. unfold iter_keys in Hi.
      rewrite Hi, elem_of_dom, E. by intros ?%is_Some_None. }
  exists g'. split_and!; [done| |done]. split; [split|].
  - intros id r Hr. eapply Hok, lookup_weaken; eauto.
  - intros id Hid. rewrite Hn. apply Hfr. revert Hid. apply subseteq_dom, R1.
  - done.
  - intros k. rewrite Hfl, Hs. destruct (acc !! k); cbn; [by split; eauto|].
    by split; [intros ?%is_Some_None|intros []].
  - intros k. unfold chan_ok, channel, mode. cbn. rewrite Hfl, Hs.
    assert (forall id ev, (id, ev) ∈ claimed k (reqs g') -> is_Some (acc !! k) /\ ev ∈ default [] (acc !! k)) as Hc.
    { intros id ev (r & Hr & Hkr & Hp & He)%elem_of_claimed.
      pose proof (lookup_weaken _ _ _ _ Hr R1) as Hr0. destruct (Hok _ _ Hr0) as (k' & ev' & Hrow).
      pose proof (is_row_kind _ _ _ _ Hrow Hkr). subst k'. pose proof (row_ev _ _ _ Hrow) as E.
      rewrite He in E. injection E as <-. destruct (R3 id k ev) as [? Hin]; [apply Hread; eauto|].
      split; [done|]. apply Hin, elem_of_dom. eauto. }
    destruct (acc !! k) as [e|]; cbn.
    + intros ev ([id ev'] & -> & Hin)%list_elem_of_fmap. by apply (Hc id).
    + apply elem_of_nil_inv. intros [id ev] [Hx _]%Hc. by apply is_Some_None in Hx.
Qed.

(** ** Guarantees *)

(** The states a worker gets into. *)
Inductive reachable : Guard -> Prop :=
| reach_startup g g' : fresh_worker g -> startup g = (Done tt, g') -> reachable g'
| reach_turn t g g' : reachable g -> queueable t -> turn' t g = (Done tt, g') -> reachable g'.

Lemma reachable_inv g : reachable g -> Inv g.
Proof.
  induction 1 as [g g' Hg Hs|t g g' _ IH Hq Ht].
  - destruct (startup_inv g Hg) as (g1 & H1 & Hinv & _). congruence.
  - destruct (run_cons t [] g g' IH Hq) as (g1 & H1 & _ & Hinv & _); [|congruence].
    unfold run. cbn [st_iter]. by st_step Ht.
Qed.

Lemma reachable_run ts : forall g g',
  reachable g -> Forall queueable ts -> run' ts g = (Done tt, g') -> reachable g'.
Proof.
  induction ts as [|t ts IH]; intros g g' Hg Hq Hr; [by injection Hr as <-|].
  apply Forall_cons in Hq as [Hq Hqs].
  destruct (run_cons _ _ _ _ (reachable_inv g Hg) Hq Hr) as (g1 & Ht & Hr1 & _).
  eapply IH; [|done|exact Hr1]. by eapply reach_turn.
Qed.

Lemma claimed_in_flight k g events id r ev :
  Inv g -> in_flight k g = Some events -> reqs g !! id = Some r -> for_destination k r -> pending r ->
  row_event r = Some ev -> ev ∈ events.
Proof.
  intros Hg He Hr Hk Hp Hev. pose proof (inv_chan _ Hg k) as Hc. unfold chan_ok, channel, mode in Hc. cbn in Hc.
  rewrite He in Hc. apply Hc, list_elem_of_fmap. exists (id, ev). split; [done|]. apply elem_of_claimed. eauto.
Qed.

(** C11: every run of the worker, in any interleaving of queueing, responses,
    wakeups, sweeps, retries and failing database connections (also in the middle
    of a turn) but without another process on the table, is for each destination a run of
    the abstract channel [chan_step] with the labels of its turns, and at most one
    transaction per destination is in flight at its end. *)
Theorem worker_refines_channels g ts g' :
  reachable g -> Forall queueable ts -> run' ts g = (Done tt, g') ->
  (forall k, chan_run (labels k ts g) (channel k g) (channel k g')) /\ NoDup (futures g').*1.
Proof.
  intros Hg Hq Hr. destruct (run_channels ts g g' (reachable_inv g Hg) Hq Hr) as [Hinv H].
  split; [done|]. apply Hinv.
Qed.

(** C12: with no other process on the table, a request disappears from it only in the turn that handles the
    success of a transaction of its destination, and that transaction contained its
    event; whatever else happens it is still there, also when the turn fails halfway
    and the worker ends. *)
Theorem nothing_lost t g res g' id r :
  reachable g -> queueable t -> turn' t g = (res, g') ->
  reqs g !! id = Some r -> reqs g' !! id = None ->
  exists k now events ev, t = Returned k true now /\ in_flight k g = Some events /\
    row_destination r = Some k /\ row_event r = Some ev /\ ev ∈ events.
Proof.
  intros Hg%reachable_inv Hq Ht Hr Hn.
  destruct (bk_table _ (inv_book _ Hg) _ _ Hr) as (k & ev & Hrow).
  destruct (decide (stops t g)) as [Hst|Hst].
  - destruct (turn_stops device_changes receipts presence receipts_allowed presence_allowed t g Hg Hst)
      as (k' & now & g1 & -> & [events He] & Et & Hx).
    rewrite Ht in Et. injection Et as -> ->.
    destruct (decide (for_destination k' r /\ pending r)) as [[Hk Hp]|Hk];
      [|by rewrite (Hx _ _ Hr Hk) in Hn].
    pose proof (is_row_kind _ _ _ _ Hrow Hk). subst k'. exists k, now, events, ev.
    split_and!; [done|done|apply Hrow|apply Hrow|]. eapply (claimed_in_flight k g); eauto. apply Hrow.
  - destruct (turn_moves device_changes receipts presence receipts_allowed presence_allowed t g Hg Hq Hst)
      as (g1 & H1 & _ & _ & Hs). rewrite Ht in H1. injection H1 as -> ->. specialize (Hs k).
    assert ((id, ev) ∈ (claimed k (reqs g) ++ queued k (reqs g))%list) as Hin.
    { apply elem_of_app. rewrite elem_of_claimed, elem_of_queued. destruct Hrow as [_ Hf He _].
      destruct (decide (pending r)); [left|right]; exists r; rewrite Hf; auto. }
    destruct (chan_step_kept _ _ _ _ _ Hs Hin) as [Hk|(Hl & events & Hm & Hev)].
    + exfalso. cbn in Hk. apply elem_of_app in Hk as [Hk|Hk];
        [apply elem_of_claimed in Hk|apply elem_of_queued in Hk]; destruct Hk as (r' & Hr' & _); congruence.
    + destruct t as [k' ev'|k' [] now| | | | |]; cbn in Hl;
        try (by destruct Hl); case_decide as Hd; try (by destruct Hl).
      destruct Hd as [-> [events' He]]. exists k, now, events, ev. split; [done|].
      cbn in Hm. unfold mode in Hm. rewrite He in Hm. injection Hm as <-.
      split_and!; [done|apply Hrow|apply Hrow|done].
Qed.

(** C13: whatever the order of turns and whichever database connections fail, with
    no other process on the table, a request with [i] requests of its destination queued before it is deleted after
    [i / 30 + 2] successful transactions of the destination, not counting those
    after which the queue could not be read: the queue of a destination is served in order and none of it
    starves. *)
Theorem delivered_within g ts g' k i id ev :
  reachable g -> Forall queueable ts -> run' ts g = (Done tt, g') ->
  queued k (reqs g) !! i = Some (id, ev) ->
  (i / QUEUED_REQUEST_LIMIT + 2 <= successes k ts g)%nat ->
  reqs g' !! id = None.
Proof.
  intros Hg%reachable_inv Hq Hr Hi Hn. destruct (queued_row k g i id ev Hg Hi) as (r & Hid & Hrow & _ & Hw).
  eapply gone_within; eauto.
Qed.

(** C37: no destination is stranded: with the database reachable and a request
    queued, a retry and a sweep at a time when its backoff is over leave a
    transaction of the destination in flight. *)
Theorem never_stranded k now g :
  reachable g -> db_up (db g) = true -> queued k (reqs g) <> [] ->
  (forall tries time, status g !! k = Some (Failed tries time) -> retry_backoff tries <= now - time) ->
  exists g', run' [Retry now; Sweep now] g = (Done tt, g') /\ is_Some (in_flight k g').
Proof. intros Hg. apply retry_then_sweep, reachable_inv, Hg. Qed.

(** A turn of the worker ends it exactly when a transaction succeeded and then its
    requests cannot be deleted or the next ones cannot be claimed; every other error
    is handled and the worker goes on. *)
Theorem turn_ends_worker_iff t g :
  reachable g -> queueable t ->
  (fst (turn' t g) <> Done tt <-> stops t g) /\ (stops t g -> fst (turn' t g) = Fail AppInternal).
Proof.
  intros Hg%reachable_inv Hq.
  assert (stops t g -> fst (turn' t g) = Fail AppInternal) as Hstop.
  { intros Hs. destruct (turn_stops device_changes receipts presence receipts_allowed presence_allowed t g Hg Hs)
      as (k & now & g1 & _ & _ & Et & _). by rewrite Et. }
  split; [|done]. split; [|by intros Hs; rewrite (Hstop Hs)].
  intros Hne. destruct (decide (stops t g)) as [|Hs]; [done|]. exfalso.
  destruct (turn_moves device_changes receipts presence receipts_allowed presence_allowed t g Hg Hq Hs)
    as (g' & H & _). by rewrite H in Hne.
Qed.

(** [persist_retry_state] never writes anything: it looks for rows in a state
    that no row of a reachable table has. *)
Theorem retry_state_never_written k tries now g :
  reachable g -> snd (persist_retry_state k tries now (db g)) = after_call (db g).
Proof. intros Hg%reachable_inv. by rewrite persist_retry_state_table by apply Hg. Qed.
End runs.

(** ** A worker at work *)

Section example.
#[local] Existing Instance forward_order.

Definition no_changes (_ : SendDb) (_ : string) (_ : Z) : result AppError (list string) := Ok [].
Definition no_edu (_ : SendDb) (_ : string) (_ : Z) : result AppError (option string) := Ok None.
Abbreviation turn0 := (turn no_changes no_edu no_edu true true).
Abbreviation run0 := (run no_changes no_edu no_edu true true).

(** A claimed request left by a previous process. *)
Definition left_behind : Guard :=
  {| db := {| outgoing_requests :=
                {[ 1 := claim_row (SePdu "$a") (new_request (Normal "b.org") (SePdu "$a")) ]};
              next_request_id := 2; outgoing_edu_cursors := ∅; curr_sn := 5; db_calls := [] |};
     status := ∅; edu_cursors := ∅; futures := []; wakeups := [] |}.
Definition started : Guard := snd (startup left_behind).
Definition queue_two : list Turn :=
  [Enqueue (Normal "b.org") (SePdu "$b"); Enqueue (Normal "c.org") (SePdu "$c"); Wakeup 0].
Definition two_queued : Guard := snd (run0 queue_two started).
(** The transaction left behind fails and is retried; then two succeed. *)
Definition deliver : list Turn :=
  [Returned (Normal "b.org") false 10; Sweep 20; Retry 40; Returned (Normal "b.org") true 41;
   Returned (Normal "b.org") true 42].

Lemma left_behind_fresh : fresh_worker left_behind.
Proof.
  split_and!; try done; cbn.
  - intros id r [<- <-]%lookup_singleton_Some. eexists _, _. apply claim_row_row, new_request_row. done.
  - intros id. rewrite dom_singleton, elem_of_singleton. lia.
Qed.

Lemma started_reachable : reachable no_changes no_edu no_edu true true started.
Proof.
  eapply reach_startup; [apply left_behind_fresh|]. apply done_snd. by_eval.
Qed.

Lemma two_queued_reachable : reachable no_changes no_edu no_edu true true two_queued.
Proof.
  eapply (reachable_run _ _ _ _ _ queue_two); [apply started_reachable|by repeat constructor|].
  apply done_snd. by_eval.
Qed.

Lemma worker_refines_channels_witness :
  let k := Normal "b.org" in
  chan_run (labels no_changes no_edu no_edu true true k deliver two_queued)
    (channel k two_queued) (channel k (snd (run0 deliver two_queued))).
Proof.
  apply (worker_refines_channels no_changes no_edu no_edu true true two_queued deliver).
  - apply two_queued_reachable.
  - by repeat constructor.
  - apply done_snd. by_eval.
Defined.

Lemma nothing_lost_witness :
  exists k now events ev, Returned (Normal "b.org") true 7 = Returned k true now /\
    in_flight k started = Some events /\ Some (Normal "b.org") = Some k /\
    Some (SePdu "$a") = Some ev /\ ev ∈ events.
Proof.
  apply (nothing_lost no_changes no_edu no_edu true true (Returned (Normal "b.org") true 7) started (Done tt)
    (snd (turn0 (Returned (Normal "b.org") true 7) started)) 1
    (claim_row (SePdu "$a") (new_request (Normal "b.org") (SePdu "$a")))).
  - apply started_reachable.
  - done.
  - apply done_snd. by_eval.
  - by_eval.
  - by_eval.
Defined.

Lemma delivered_within_witness :
  outgoing_requests (db (snd (run0 deliver two_queued))) !! 2 = None.
Proof.
  apply (delivered_within no_changes no_edu no_edu true true two_queued deliver _
    (Normal "b.org") 0 2 (SePdu "$b")).
  - apply two_queued_reachable.
  - by repeat constructor.
  - apply done_snd. by_eval.
  - by_eval.
  - apply Nat.leb_le. by_eval.
Defined.

Lemma never_stranded_witness :
  exists g', run0 [Retry 3; Sweep 3] two_queued = (Done tt, g') /\ is_Some (in_flight (Normal "c.org") g').
Proof.
  apply (never_stranded no_changes no_edu no_edu true true (Normal "c.org") 3 two_queued).
  - apply two_queued_reachable.
  - by_eval.
  - assert (bool_decide (queued (Normal "c.org") (outgoing_requests (db two_queued)) = []) = false) as H by by_eval.
    by apply bool_decide_eq_false in H.
  - assert (status two_queued !! Normal "c.org" = None) as -> by by_eval. done.
Defined.

Definition down : Guard := snd (turn0 (DbCalls [false]) started).

Lemma turn_ends_worker_iff_witness :
  stops (Returned (Normal "b.org") true 7) down /\
  fst (turn0 (Returned (Normal "b.org") true 7) down) = Fail AppInternal.
Proof.
  assert (stops (Returned (Normal "b.org") true 7) down) as Hs.
  { split; [|left; by_eval]. exists [SePdu "$a"]. by_eval. }
  split; [done|].
  apply (turn_ends_worker_iff no_changes no_edu no_edu true true (Returned (Normal "b.org") true 7) down); [|done|done].
  apply (reach_turn no_changes no_edu no_edu true true (DbCalls [false]) started); [apply started_reachable|done|done].
Defined.

Lemma retry_state_never_written_witness :
  snd (persist_retry_state (Normal "b.org") 1 10 (db two_queued)) = after_call (db two_queued).
Proof.
  apply (retry_state_never_written no_changes no_edu no_edu true true (Normal "b.org") 1 10 two_queued).
  apply two_queued_reachable.
Defined.

(** With the database down the success of a transaction stops the worker. *)
Example success_while_down :
  fst (run0 [DbCalls [false]; Returned (Normal "b.org") true 7] started) = Fail AppInternal.
Proof. by_eval. Qed.

(** So it does when the database goes down after the requests of the transaction
    have been deleted and the queue has been read. *)
Example claim_while_down :
  let r := run0 [DbCalls [true; true; false]; Returned (Normal "b.org") true 7] two_queued in
  fst r = Fail AppInternal /\ dom (outgoing_requests (db (snd r))) = {[ 2; 3 ]}.
Proof. split; by_eval. Qed.

(** When only the queue cannot be read, the requests wait for the next sweep. *)
Example read_while_down :
  let k := Normal "b.org" in
  let g := snd (run0 [DbCalls [true; false]; Returned k true 7] two_queued) in
  labels no_changes no_edu no_edu true true k [DbCalls [true; false]; Returned k true 7] two_queued =
    [Quiet; Unread] /\
  channel k g = Chan [(2, SePdu "$b")] [] Idle /\
  in_flight k (snd (run0 [Sweep 8] g)) = Some [SePdu "$b"].
Proof. split_and!; by_eval. Qed.

(** Another worker on the same database claims the second request of a destination
    while the first is in flight here; the success of the first deletes both, and the
    request that only the other worker has in flight is in no table any more. *)
Example another_process_loses :
  let k := Normal "b.org" in
  let rows := (foldl claim_one ([], outgoing_requests (db two_queued)) [(2, SePdu "$b")]).2 in
  let g := snd (turn0 (Elsewhere rows) two_queued) in
  let g' := snd (turn0 (Returned k true 7) g) in
  in_flight k g = Some [SePdu "$a"] /\
  outgoing_requests (db g) !! 2 = Some (claim_row (SePdu "$b") (new_request k (SePdu "$b"))) /\
  outgoing_requests (db g') !! 2 = None.
Proof. split_and!; by_eval. Qed.
End example.
