(* ===== verification/Decimal.v ===== *)
(** * Decimal integers: printing and parsing them back

    [u64]'s [Display] prints the digits ([pretty]); [RustStr.parse_u64] reads them. *)
From Stdlib Require Import Ascii.
From stdpp Require Import pretty.
From S2P Require Import Prelude RustStr.
Open Scope Z_scope.

(** [u64::to_string] *)
Definition u64_to_string (n : Z) : string := pretty (Z.to_N n).

Lemma digit_val_pretty x : (x < 10)%N -> digit_val (pretty_N_char x) = Some (Z.of_N x).
Proof.
  intros Hx. assert (x = 0 \/ x = 1 \/ x = 2 \/ x = 3 \/ x = 4 \/ x = 5 \/ x = 6 \/ x = 7 \/ x = 8 \/ x = 9)%N
    as [->|[->|[->|[->|[->|[->|[->|[->|[->| ->]]]]]]]]] by lia; done.
Qed.

Lemma parse_pretty_go x : forall s, parse_digits_acc 0 (pretty_N_go x s) = parse_digits_acc (Z.of_N x) s.
Proof.
  induction (N.lt_wf_0 x) as [x _ IH]. intros s.
  assert (x = 0 \/ 0 < x)%N as [->|Hx] by lia; [by rewrite pretty_N_go_0|].
  rewrite pretty_N_go_step, IH by (try apply N.div_lt; lia). cbn [parse_digits_acc].
  rewrite digit_val_pretty by (apply N.mod_lt; lia). cbn [mbind option_bind]. f_equal.
  pose proof (N.div_mod x 10). lia.
Qed.

(** The first character of a number is a digit. *)
Definition starts_with_digit (s : string) : Prop :=
  exists c r, s = String c r /\ is_ascii_digit c = true.

Lemma pretty_go_digit x : forall s, (0 < x)%N \/ starts_with_digit s -> starts_with_digit (pretty_N_go x s).
Proof.
  induction (N.lt_wf_0 x) as [x _ IH]. intros s Hs.
  assert (x = 0 \/ 0 < x)%N as [->|Hx] by lia.
  { rewrite pretty_N_go_0. destruct Hs; [lia|done]. }
  rewrite pretty_N_go_step by done. apply IH; [apply N.div_lt; lia|]. right. eexists _, _. split; [done|].
  pose proof (digit_val_pretty (x mod 10) ltac:(apply N.mod_lt; lia)) as H. unfold digit_val in H.
  by destruct (is_ascii_digit _).
Qed.

Lemma u64_to_string_digit n : starts_with_digit (u64_to_string n).
Proof.
  unfold u64_to_string, pretty, pretty_N. case_decide as H; [by exists "0"%char, EmptyString|].
  apply pretty_go_digit. left. lia.
Qed.

Lemma parse_u64_to_string n : 0 <= n <= U64_MAX -> parse_u64 (u64_to_string n) = Some n.
Proof.
  intros Hn. destruct (u64_to_string_digit n) as (c & r & E & Hc).
  assert (parse_digits (u64_to_string n) = Some n) as Hp.
  { unfold parse_digits. rewrite E. cbn [str_is_empty]. rewrite <- E. unfold u64_to_string, pretty, pretty_N.
    case_decide as H; [change (Some 0 = Some n); f_equal; lia|]. rewrite parse_pretty_go. cbn. f_equal. lia. }
  unfold parse_u64, parse_unsigned. rewrite E in Hp |- *.
  destruct (decide (c = "+"%char)) as [->|Hne]; [done|].
  transitivity (in_range 0 U64_MAX (parse_digits (String c r))).
  { f_equal. destruct c as [[] [] [] [] [] [] [] []]; try done. }
  rewrite Hp. cbn. by rewrite (proj2 (Z.leb_le 0 n)), (proj2 (Z.leb_le n U64_MAX)) by lia.
Qed.
