(* ===== verification/PushMatch.v ===== *)
(** * Glob matching of push conditions: the string functions of
      [crates/core/src/push/condition.rs]

    A condition matches a value against a glob: with [WildMatch] as a whole, or
    word by word when the value is a message body.  A value is the list of its
    bytes here: only ASCII characters are word characters and no byte of a longer
    character is ASCII, so the byte at a character boundary tells whether a
    character is one.  [wildmatch] and [regex] are libraries and parameters. *)
From stdpp Require Import pretty.
From Stdlib Require Import Ascii.
From S2P Require Import Prelude RustStr.

Abbreviation bytes_of := String.list_ascii_of_string.

(** [char::is_word_char] *)
Definition is_word_char (c : ascii) : bool := is_ascii_alphanumeric c || Ascii.eqb c "_".

(** The libraries: [WildMatch::new(pattern).matches(value)], [regex::escape],
    [Regex::new] and [Regex::is_match], and the Unicode tables of
    [str::to_lowercase]. *)
Class MatchLib := {
  wild_matches : string -> string -> bool;
  regex : Type;
  regex_escape : string -> string;
  regex_new : string -> option regex;
  regex_is_match : regex -> string -> bool;
  to_lowercase : string -> string
}.

(** ** [matches_word] with wildcards: building the regular expression *)

Definition is_wildcard (c : ascii) : bool := Ascii.eqb c "?" || Ascii.eqb c "*".

(** A piece of the pattern and how it goes into the regular expression. *)
Inductive chunk : Type :=
| Escaped (s : list ascii)
| Wildcards (s : list ascii).

Definition slice {A} (from to : nat) (l : list A) : list A := take (to - from) (drop from l).

(** The loop over [pattern.char_indices()], at index [i] of the pattern with [rest]
    to go. *)
Fixpoint chunk_loop (pattern rest : list ascii) (i chunk_start : nat) (prev_wildcard : bool)
    (chunks : list chunk) : nat * bool * list chunk :=
  match rest with
  | [] => (chunk_start, prev_wildcard, chunks)
  | c :: rest =>
      if is_wildcard c && negb prev_wildcard then
        if decide (i = 0%nat) then chunk_loop pattern rest (S i) chunk_start true chunks
        else chunk_loop pattern rest (S i) i true
               (chunks ++ [Escaped (slice chunk_start i pattern)])
      else if prev_wildcard then
        chunk_loop pattern rest (S i) i false
          (chunks ++ [Wildcards (slice chunk_start i pattern)])
      else chunk_loop pattern rest (S i) chunk_start prev_wildcard chunks
  end.
Definition word_chunks (pattern : list ascii) : list chunk :=
  let '(chunk_start, prev_wildcard, chunks) := chunk_loop pattern pattern 0 0 false [] in
  let chunk := slice chunk_start (length pattern) pattern in
  chunks ++ [if prev_wildcard then Wildcards chunk else Escaped chunk].

(** [usize::to_string] *)
Definition nat_to_string (n : nat) : string := pretty (N.of_nat n).

Definition wildcards_to_regex (self : list ascii) : string :=
  let question_marks := length (filter (fun c => c = "?"%char) self) in
  if existsb (Ascii.eqb "*") self then ".{" +:+ nat_to_string question_marks +:+ ",}"
  else ".{" +:+ nat_to_string question_marks +:+ "}".

Section word.
Context {ML : MatchLib}.

Definition chunk_regex (c : chunk) : string :=
  match c with
  | Escaped s => regex_escape (String.string_of_list_ascii s)
  | Wildcards s => wildcards_to_regex s
  end.
Definition word_regex (pattern : list ascii) : string :=
  "(?-u:^|\W|\b)" +:+ String.concat EmptyString (chunk_regex <$> word_chunks pattern)
  +:+ "(?-u:\b|\W|$)".

(** ** [matches_word] *)

(** [str::find] with a string and with a predicate. *)
Fixpoint find_sub (pattern self : list ascii) : option nat :=
  if decide (pattern `prefix_of` self) then Some 0%nat
  else match self with [] => None | _ :: self => S <$> find_sub pattern self end.
Fixpoint find_char (f : ascii -> bool) (self : list ascii) : option nat :=
  match self with
  | [] => None
  | c :: self => if f c then Some 0%nat else S <$> find_char f self
  end.

(** [self.char_at(i).is_word_char()] *)
Definition word_at (self : list ascii) (i : nat) : bool :=
  match self !! i with Some c => is_word_char c | None => false end.
(** [self.find_prev_char(i).is_some_and(|c| c.is_word_char())] *)
Definition word_before (self : list ascii) (i : nat) : bool :=
  match i with 0%nat => false | S i => word_at self i end.

(** Whether the match at [start] has word boundaries. *)
Definition word_boundaries (self : list ascii) (start len : nat) : bool :=
  let end_ := (start + len)%nat in
  (negb (word_at self start) || negb (word_before self start)) &&
  (bool_decide (end_ = length self) || negb (word_before self end_) || negb (word_at self end_)).

Fixpoint matches_word_fuel (fuel : nat) (self pattern : list ascii) : comp False bool :=
  match fuel with
  | 0%nat => OutOfFuel
  | S fuel =>
      if decide (self = pattern) then Done true
      else if decide (pattern = []) then Done false
      else if existsb is_wildcard pattern then
        match regex_new (word_regex pattern) with
        | Some re => Done (regex_is_match re (String.string_of_list_ascii self))
        | None => Panic
        end
      else
        match find_sub pattern self with
        | None => Done false
        | Some start =>
            if word_boundaries self start (length pattern) then Done true
            else
              let non_word_str := drop start self in
              match find_char (fun c => negb (is_word_char c)) non_word_str with
              | None => Done false
              | Some non_word =>
                  let word_str := drop non_word non_word_str in
                  match find_char is_word_char word_str with
                  | None => Done false
                  | Some word => matches_word_fuel fuel (drop word word_str) pattern
                  end
              end
        end
  end.
(** Every call is on a shorter string. *)
Definition matches_word (self pattern : list ascii) : comp False bool :=
  matches_word_fuel (S (length self)) self pattern.

(** [matches_pattern] *)
Definition matches_pattern (self pattern : string) (match_words : bool) : comp False bool :=
  let value := to_lowercase self in
  let pattern := to_lowercase pattern in
  if match_words then matches_word (bytes_of value) (bytes_of pattern)
  else Done (wild_matches pattern value).

(** ** What a word match is *)

(** [pattern] occurs at [i] as a word: before it and after it is the end of the
    value, or one of the two characters there is not a word character. *)
Definition occurs (self pattern : list ascii) (i : nat) : Prop := pattern `prefix_of` drop i self.
Definition word_match (self pattern : list ascii) (i : nat) : Prop :=
  occurs self pattern i /\
  (word_at self i = false \/ word_before self i = false) /\
  (word_before self (i + length pattern) = false \/ word_at self (i + length pattern) = false).

Lemma find_sub_Some p s i :
  find_sub p s = Some i -> occurs s p i /\ forall j, (j < i)%nat -> ~ occurs s p j.
Proof.
  revert i. induction s as [|c s IH]; intros i; cbn.
  - case_decide as H; [intros [= <-]|done]. split; [done|lia].
  - case_decide as H; [intros [= <-]; split; [done|lia]|].
    destruct (find_sub p s) as [k|]; [|done]. intros [= <-]. destruct (IH k eq_refl) as [H1 H2].
    split; [done|]. intros [|j] Hj; [done|]. apply H2. lia.
Qed.

Lemma find_sub_None p s i : find_sub p s = None -> ~ occurs s p i.
Proof.
  revert i. induction s as [|c s IH]; intros i; cbn; case_decide as H; try done.
  - intros _. unfold occurs. by rewrite drop_nil.
  - destruct (find_sub p s); [done|]. intros _. destruct i; [done|]. by apply IH.
Qed.

Lemma find_char_Some f s i :
  find_char f s = Some i ->
  (exists c, s !! i = Some c /\ f c = true) /\ forall j c, (j < i)%nat -> s !! j = Some c -> f c = false.
Proof.
  revert i. induction s as [|c s IH]; intros i; cbn; [done|].
  destruct (f c) eqn:E; [intros [= <-]; split; [eauto|lia]|].
  destruct (find_char f s) as [k|]; [|done]. intros [= <-]. destruct (IH k eq_refl) as [H1 H2].
  split; [done|]. intros [|j] c' Hj; cbn; [naive_solver|]. apply H2. lia.
Qed.

Lemma find_char_None f s j c : find_char f s = None -> s !! j = Some c -> f c = false.
Proof.
  revert j. induction s as [|c' s IH]; intros j; [done|]. cbn.
  destruct (f c') eqn:E; [done|]. destruct (find_char f s); [done|]. intros _.
  destruct j; cbn; [naive_solver|by apply IH].
Qed.

(** The characters of an occurrence. *)
Lemma occurs_lookup s p i j c :
  occurs s p i -> p !! j = Some c -> s !! (i + j)%nat = Some c.
Proof. intros [k Hk] Hj. rewrite <- lookup_drop, Hk. by apply lookup_app_l_Some. Qed.

Lemma occurs_length s p i : occurs s p i -> p <> [] -> (i + length p <= length s)%nat.
Proof.
  intros [k Hk] Hp. apply (f_equal length) in Hk. rewrite length_drop, length_app in Hk.
  destruct p; [done|]. cbn in *. lia.
Qed.

Lemma word_at_lookup s i c : s !! i = Some c -> word_at s i = is_word_char c.
Proof. unfold word_at. by intros ->. Qed.
Lemma word_at_true s i : word_at s i = true -> exists c, s !! i = Some c /\ is_word_char c = true.
Proof. unfold word_at. destruct (s !! i); [eauto|done]. Qed.

Lemma word_boundaries_iff s p i :
  occurs s p i -> p <> [] -> word_boundaries s i (length p) = true <-> word_match s p i.
Proof.
  intros Ho Hp. unfold word_boundaries, word_match.
  rewrite andb_true_iff, !orb_true_iff, !negb_true_iff, bool_decide_eq_true.
  split; [|tauto]. intros [H1 [[H2|H2]|H2]]; split_and!; auto.
  right. unfold word_at. rewrite H2. by rewrite lookup_ge_None_2.
Qed.

(** Between a first occurrence that is not a word match and the next word (or the
    end) there is none: word characters up to [n], others up to [m]. *)
Lemma no_match_between s p start n m :
  p <> [] -> occurs s p start -> ~ word_match s p start ->
  (forall j, (j < n)%nat -> word_at s (start + j) = true) ->
  (forall j, (n <= j < m)%nat -> word_at s (start + j) = false) ->
  word_at s (start + m) = true \/ (start + m = length s)%nat ->
  forall i, (start < i < start + m)%nat -> ~ word_match s p i.
Proof.
  intros Hp Ho Hstart Hw Hnw Hend i Hi (Hoi & Hb & He).
  destruct (decide (i < start + n)%nat) as [Hin|Hin].
  { destruct i as [|i]; [lia|]. cbn in Hb.
    pose proof (Hw (S i - start)%nat ltac:(lia)) as H1. pose proof (Hw (i - start)%nat ltac:(lia)) as H2.
    replace (start + (S i - start))%nat with (S i) in H1 by lia.
    replace (start + (i - start))%nat with i in H2 by lia. destruct Hb; congruence. }
  assert (word_at s i = false) as Hi0.
  { replace i with (start + (i - start))%nat by lia. apply Hnw. lia. }
  destruct p as [|c p']; [done|]. set (p := c :: p') in *.
  assert (n = 0)%nat as ->.
  { destruct n as [|n]; [done|]. pose proof (Hw 0%nat ltac:(lia)) as H0.
    rewrite Nat.add_0_r in H0. rewrite <- (Nat.add_0_r start) in H0. rewrite <- (Nat.add_0_r i) in Hi0.
    rewrite (word_at_lookup s _ c) in H0 by by apply (occurs_lookup s p _ 0).
    rewrite (word_at_lookup s _ c) in Hi0 by by apply (occurs_lookup s p _ 0). congruence. }
  destruct (decide (length p <= m)%nat) as [Hlen|Hlen].
  - apply Hstart. split_and!; [done| |].
    + left. rewrite <- (Nat.add_0_r start). apply Hnw. lia.
    + left. replace (start + length p)%nat with (S (start + (length p - 1)))%nat by (cbn; lia).
      cbn [word_before]. apply Hnw. cbn in *. lia.
  - destruct Hend as [Hend|Hend]; [|pose proof (occurs_length _ _ _ Ho ltac:(done)); lia].
    destruct (lookup_lt_is_Some_2 p (m - (i - start))) as [c1 Hc1]; [lia|].
    pose proof (Hnw (m - (i - start))%nat ltac:(lia)) as H1.
    rewrite (word_at_lookup s _ c1) in H1 by by apply (occurs_lookup s p).
    pose proof (occurs_lookup _ _ _ _ _ Hoi Hc1) as H2.
    replace (i + (m - (i - start)))%nat with (start + m)%nat in H2 by lia.
    rewrite (word_at_lookup _ _ _ H2) in Hend. congruence.
Qed.

(** Word matches of a suffix that starts at a word boundary are word matches. *)
Lemma word_match_drop s p k i :
  word_before s k = false -> p <> [] ->
  word_match (drop k s) p i <-> word_match s p (k + i).
Proof.
  intros Hk Hp. unfold word_match, occurs. rewrite drop_drop.
  assert (forall j, word_at (drop k s) j = word_at s (k + j)) as Hw.
  { intros j. unfold word_at. by rewrite lookup_drop. }
  assert (forall j, word_before (drop k s) j = word_before s (k + j)) as Hb.
  { intros [|j]; cbn; [by rewrite Nat.add_0_r, Hk|]. rewrite Hw.
    by replace (k + S j)%nat with (S (k + j)) by lia. }
  by rewrite !Hw, !Hb, Nat.add_assoc.
Qed.

Lemma whole_match p : p <> [] -> word_match p p 0.
Proof.
  intros Hp. split_and!; [exists []; by rewrite app_nil_r|by right|]. right. unfold word_at.
  by rewrite lookup_ge_None_2.
Qed.

Lemma find_char_between s start n m :
  find_char (fun c => negb (is_word_char c)) (drop start s) = Some n ->
  find_char is_word_char (drop n (drop start s)) = Some m ->
  (forall j, (j < n)%nat -> word_at s (start + j) = true) /\
  (forall j, (n <= j < n + m)%nat -> word_at s (start + j) = false) /\
  word_at s (start + (n + m)) = true /\ (0 < m)%nat.
Proof.
  intros [(c & Hc & Hcw) H1]%find_char_Some [(c2 & Hc2 & Hc2w) H2]%find_char_Some.
  rewrite drop_drop, lookup_drop in Hc2. apply lookup_lt_Some in Hc2 as Hlen.
  split_and!.
  - intros j Hj. destruct (lookup_lt_is_Some_2 s (start + j)) as [c' Hc']; [lia|].
    rewrite (word_at_lookup _ _ _ Hc'). specialize (H1 j c' Hj). rewrite lookup_drop in H1.
    by apply negb_false_iff, H1.
  - intros j Hj. destruct (lookup_lt_is_Some_2 s (start + j)) as [c' Hc']; [lia|].
    rewrite (word_at_lookup _ _ _ Hc'). apply (H2 (j - n)%nat); [lia|].
    rewrite drop_drop, lookup_drop. by replace (start + n + (j - n))%nat with (start + j)%nat by lia.
  - replace (start + (n + m))%nat with (start + n + m)%nat by lia. by rewrite (word_at_lookup _ _ _ Hc2).
  - destruct m; [|lia]. rewrite Nat.add_0_r, <- lookup_drop in Hc2. rewrite Hc in Hc2.
    injection Hc2 as <-. by rewrite Hc2w in Hcw.
Qed.

(** A first occurrence that is not a word match, and nothing after it to go on with. *)
Lemma no_match_after s p start :
  p <> [] -> occurs s p start -> (forall j, (j < start)%nat -> ~ occurs s p j) -> ~ word_match s p start ->
  (find_char (fun c => negb (is_word_char c)) (drop start s) = None \/
   exists n, find_char (fun c => negb (is_word_char c)) (drop start s) = Some n /\
             find_char is_word_char (drop n (drop start s)) = None) ->
  forall i, ~ word_match s p i.
Proof.
  intros Hp Ho Hfirst Hn Hend i Hi.
  assert (i < length s)%nat as Hlen.
  { pose proof (occurs_length _ _ _ (proj1 Hi) Hp). destruct p; [done|]. cbn in *. lia. }
  destruct (decide (i = start)) as [->|Hne]; [done|].
  destruct (decide (i < start)%nat) as [Hlt|Hge]; [by apply (Hfirst i Hlt), Hi|].
  revert Hi. destruct Hend as [Hend|(n & [(c & Hc & _) Hw]%find_char_Some & Hend)].
  - apply (no_match_between s p start (length s - start) (length s - start)); try done; try lia.
    intros j Hj. destruct (lookup_lt_is_Some_2 s (start + j)) as [c Hc]; [lia|].
    rewrite (word_at_lookup _ _ _ Hc). rewrite <- lookup_drop in Hc.
    pose proof (find_char_None _ _ _ _ Hend Hc) as E. by apply negb_false_iff.
  - rewrite lookup_drop in Hc. apply lookup_lt_Some in Hc.
    apply (no_match_between s p start n (length s - start)); try done; try lia.
    + intros j Hj. destruct (lookup_lt_is_Some_2 s (start + j)) as [c' Hc']; [lia|].
      rewrite (word_at_lookup _ _ _ Hc'). rewrite <- lookup_drop in Hc'. apply negb_false_iff. eauto.
    + intros j Hj. destruct (lookup_lt_is_Some_2 s (start + j)) as [c' Hc']; [lia|].
      rewrite (word_at_lookup _ _ _ Hc'). apply (find_char_None _ _ (j - n) _ Hend).
      rewrite drop_drop, lookup_drop. by replace (start + n + (j - n))%nat with (start + j)%nat by lia.
Qed.

Lemma matches_word_fuel_spec fuel : forall self pattern,
  (length self < fuel)%nat -> pattern <> [] -> existsb is_wildcard pattern = false ->
  exists b, matches_word_fuel fuel self pattern = Done b /\
    (b = true <-> exists i, word_match self pattern i).
Proof.
  induction fuel as [|fuel IH]; intros s p Hf Hp Hw; [lia|]. cbn [matches_word_fuel].
  destruct (decide (s = p)) as [->|Hne].
  { exists true. split; [done|]. split; [|done]. intros _. exists 0%nat. by apply whole_match. }
  rewrite decide_False, Hw by done.
  destruct (find_sub p s) as [start|] eqn:Hfind.
  2: { exists false. split; [done|]. split; [done|]. intros (i & Hi & _). by apply (find_sub_None _ _ i) in Hi. }
  apply find_sub_Some in Hfind as [Ho Hfirst].
  destruct (word_boundaries s start (length p)) eqn:Hb.
  { exists true. split; [done|]. split; [|done]. intros _. exists start. by apply word_boundaries_iff. }
  assert (~ word_match s p start) as Hn.
  { intros H. apply word_boundaries_iff in H; [congruence|done|done]. }
  destruct (find_char (fun c => negb (is_word_char c)) (drop start s)) as [n|] eqn:Hnw.
  2: { exists false. split; [done|]. split; [done|]. intros [i Hi]. exfalso. revert i Hi.
       by apply (no_match_after s p start); auto. }
  destruct (find_char is_word_char (drop n (drop start s))) as [m|] eqn:Hword.
  2: { exists false. split; [done|]. split; [done|]. intros [i Hi]. exfalso. revert i Hi.
       apply (no_match_after s p start); eauto. }
  destruct (find_char_between _ _ _ _ Hnw Hword) as (H1 & H2 & H3 & Hm).
  rewrite !drop_drop. replace (start + n + m)%nat with (start + (n + m))%nat by lia.
  destruct (IH (drop (start + (n + m)) s) p) as (b & Hb' & Hiff); [|done|done|].
  { apply word_at_true in H3 as (c & Hc & _). apply lookup_lt_Some in Hc. rewrite length_drop. lia. }
  exists b. split; [done|]. rewrite Hiff.
  assert (word_before s (start + (n + m)) = false) as Hbd.
  { replace (start + (n + m))%nat with (S (start + (n + (m - 1))))%nat by lia. cbn. apply H2. lia. }
  split; intros [i Hi]; [exists (start + (n + m) + i)%nat; by apply word_match_drop|].
  destruct (decide (i < start + (n + m))%nat) as [Hlt|Hge].
  - exfalso. destruct (decide (i <= start)%nat).
    + destruct (decide (i = start)) as [->|]; [done|]. apply (Hfirst i); [lia|apply Hi].
    + revert Hi. apply (no_match_between s p start n (n + m)); auto. lia.
  - exists (i - (start + (n + m)))%nat. apply word_match_drop; [done|done|].
    by replace (start + (n + m) + (i - (start + (n + m))))%nat with i by lia.
Qed.

(** [matches_word] with a pattern without wildcards always returns, and says
    whether the pattern occurs in the value at word boundaries: searching on from the
    next word after an occurrence without boundaries, as the code does, misses none. *)
Theorem matches_word_iff self pattern :
  pattern <> [] -> existsb is_wildcard pattern = false ->
  exists b, matches_word self pattern = Done b /\
    (b = true <-> exists i, word_match self pattern i).
Proof. apply matches_word_fuel_spec. lia. Qed.
End word.

(** ** The chunks of a pattern with wildcards *)

Definition chunk_text (c : chunk) : list ascii := match c with Escaped s | Wildcards s => s end.
(** Only wildcards become repetitions, and they all do. *)
Definition chunk_ok (c : chunk) : bool :=
  match c with
  | Escaped s => forallb (fun c => negb (is_wildcard c)) s
  | Wildcards s => forallb is_wildcard s
  end.
Fixpoint adjacent_wildcards (l : list ascii) : bool :=
  match l with
  | a :: (b :: _) as l => is_wildcard a && is_wildcard b || adjacent_wildcards l
  | _ => false
  end.

Definition last_wild (l : list ascii) : bool :=
  match last l with Some a => is_wildcard a | None => false end.

Lemma adjacent_snoc l c :
  adjacent_wildcards (l ++ [c]) = adjacent_wildcards l || last_wild l && is_wildcard c.
Proof.
  unfold last_wild. induction l as [|a [|b l] IH]; [done|by cbn; rewrite orb_false_r|].
  change (adjacent_wildcards ((a :: b :: l) ++ [c])) with
    (is_wildcard a && is_wildcard b || adjacent_wildcards ((b :: l) ++ [c])).
  rewrite IH. change (last (a :: b :: l)) with (last (b :: l)). cbn [adjacent_wildcards].
  by rewrite orb_assoc.
Qed.

Lemma last_wild_forallb l : forallb (fun c => negb (is_wildcard c)) l = true -> last_wild l = false.
Proof.
  unfold last_wild. induction l as [|a [|b l] IH]; [done| |].
  - cbn. rewrite andb_true_r. by intros ->%negb_true_iff.
  - change (last (a :: b :: l)) with (last (b :: l)). intros [_ H]%andb_true_iff. by apply IH.
Qed.

Lemma slice_snoc {A} (l : list A) from i c :
  (from <= i)%nat -> l !! i = Some c -> slice from (S i) l = (slice from i l ++ [c])%list.
Proof.
  intros Hle Hc. unfold slice. replace (S i - from)%nat with (S (i - from)) by lia.
  apply take_S_r. rewrite lookup_drop. by replace (from + (i - from))%nat with i by lia.
Qed.
Lemma slice_empty {A} (l : list A) i : slice i i l = [].
Proof. unfold slice. by rewrite Nat.sub_diag. Qed.

(** The state of the loop at index [i]. *)
Record loop_ok (pattern : list ascii) (i chunk_start : nat) (prev : bool) (chunks : list chunk) : Prop := {
  lo_lt : (chunk_start < i)%nat \/ i = 0%nat /\ chunk_start = 0%nat /\ prev = false;
  lo_text : (mjoin (chunk_text <$> chunks) ++ slice chunk_start i pattern)%list = take i pattern;
  lo_prev : prev = true -> exists c, slice chunk_start i pattern = [c] /\ is_wildcard c = true;
  lo_bad : forallb chunk_ok chunks &&
           chunk_ok (if prev then Wildcards (slice chunk_start i pattern)
                     else Escaped (slice chunk_start i pattern)) =
           negb (adjacent_wildcards (take i pattern))
}.

Lemma last_wild_app l l' : l' <> [] -> last_wild (l ++ l') = last_wild l'.
Proof. intros H. unfold last_wild. rewrite last_app. destruct (last l') eqn:E; [done|]. by apply last_None in E. Qed.

(** The last character read is a wildcard when the current chunk says so. *)
Lemma loop_last pattern i cs prev chunks :
  pattern !! i <> None -> loop_ok pattern i cs prev chunks -> adjacent_wildcards (take i pattern) = false ->
  last_wild (take i pattern) = prev.
Proof.
  intros Hi [Hlt Ht Hp Hb] Ha. rewrite Ha in Hb. apply andb_true_iff in Hb as [_ Hb].
  destruct Hlt as [Hlt|(-> & -> & ->)]; [|done]. rewrite <- Ht, last_wild_app.
  - destruct prev; [|by apply last_wild_forallb]. destruct (Hp eq_refl) as (c & -> & Hc). done.
  - intros E. apply (f_equal length) in E. unfold slice in E. rewrite length_take, length_drop in E.
    destruct (pattern !! i) eqn:Hc; [|done]. apply lookup_lt_Some in Hc. cbn in E. lia.
Qed.

Lemma loop_step pattern i c cs prev chunks :
  pattern !! i = Some c -> loop_ok pattern i cs prev chunks ->
  if is_wildcard c && negb prev then
    if decide (i = 0%nat) then loop_ok pattern (S i) cs true chunks
    else loop_ok pattern (S i) i true (chunks ++ [Escaped (slice cs i pattern)])
  else if prev then loop_ok pattern (S i) i false (chunks ++ [Wildcards (slice cs i pattern)])
  else loop_ok pattern (S i) cs prev chunks.
Proof.
  intros Hc Hlo. pose proof (loop_last _ _ _ _ _ ltac:(by rewrite Hc) Hlo) as Hlast.
  destruct Hlo as [Hlt Ht Hp Hb]. pose proof (take_S_r _ _ _ Hc) as Htake.
  assert (slice i (S i) pattern = [c]) as Hone by by rewrite (slice_snoc _ _ _ _ (le_n i) Hc), slice_empty.
  assert (forall ck, chunk_text ck = slice cs i pattern ->
    mjoin (chunk_text <$> (chunks ++ [ck])) ++ [c] = take (S i) pattern)%list as Hpush.
  { intros ck E. rewrite fmap_app, join_app, Htake, <- Ht. cbn. by rewrite E, app_nil_r. }
  assert (adjacent_wildcards (take (S i) pattern) =
          adjacent_wildcards (take i pattern) || prev && is_wildcard c) as Hadj.
  { rewrite Htake, adjacent_snoc. destruct (adjacent_wildcards (take i pattern)); [done|]. by rewrite Hlast. }
  destruct (is_wildcard c) eqn:Ew, prev; cbn [andb negb] in *; rewrite ?orb_true_r, ?orb_false_r in Hadj;
    try case_decide as Hi.
  - split; [lia|rewrite Hone; by apply Hpush|done|]. rewrite Hone, Hadj, forallb_app. cbn. rewrite Ew.
    by rewrite andb_false_r.
  - subst i. assert (cs = 0)%nat as -> by lia. rewrite slice_empty, app_nil_r in Ht.
    split; [lia|by rewrite Hone, Ht, Htake|rewrite Hone; eauto|]. rewrite Hone, Hadj, <- Hb. cbn. by rewrite Ew.
  - split; [lia|rewrite Hone; by apply Hpush|rewrite Hone; eauto|]. rewrite Hone, Hadj, <- Hb, forallb_app.
    cbn. by rewrite Ew, !andb_true_r.
  - split; [lia|rewrite Hone; by apply Hpush|done|]. rewrite Hone, Hadj, <- Hb, forallb_app. cbn.
    by rewrite Ew, !andb_true_r.
  - assert (cs <= i)%nat as Hle by lia. split; [lia| |done|]; rewrite (slice_snoc _ _ _ _ Hle Hc).
    + by rewrite app_assoc, Ht, Htake.
    + rewrite Hadj, <- Hb. cbn. rewrite forallb_app. cbn. by rewrite Ew, !andb_true_r.
Qed.

Lemma loop_spec pattern rest : forall i cs prev chunks,
  pattern = (take i pattern ++ rest)%list -> (i + length rest = length pattern)%nat ->
  loop_ok pattern i cs prev chunks ->
  let '(cs', prev', chunks') := chunk_loop pattern rest i cs prev chunks in
  loop_ok pattern (length pattern) cs' prev' chunks'.
Proof.
  induction rest as [|c rest IH]; intros i cs prev chunks Hp Hlen Hlo; cbn [chunk_loop].
  { cbn in Hlen. by replace (length pattern) with i by lia. }
  assert (pattern !! i = Some c) as Hc.
  { rewrite Hp, lookup_app_r; rewrite length_take; cbn in Hlen; [|lia].
    by replace (i - i `min` length pattern)%nat with 0%nat by lia. }
  pose proof (loop_step _ _ _ _ _ _ Hc Hlo) as Hs.
  assert (pattern = (take (S i) pattern ++ rest)%list) as Hp'.
  { rewrite (take_S_r _ _ _ Hc), <- app_assoc. done. }
  cbn in Hlen. destruct (is_wildcard c && negb prev), prev; try case_decide; apply IH; auto; lia.
Qed.

(** The chunks [matches_word] cuts a pattern into make up the pattern, and they
    are right (only wildcards become repetitions, and all of them do) exactly when no
    two wildcards are adjacent; the second of two adjacent wildcards is searched for
    literally. *)
Theorem word_chunks_spec pattern :
  mjoin (chunk_text <$> word_chunks pattern) = pattern /\
  forallb chunk_ok (word_chunks pattern) = negb (adjacent_wildcards pattern).
Proof.
  unfold word_chunks. pose proof (loop_spec pattern pattern 0 0 false [] eq_refl eq_refl) as H.
  destruct (chunk_loop pattern pattern 0 0 false []) as [[cs prev] chunks].
  destruct H as [Hlt Ht Hp Hb]; [by split; auto|]. rewrite take_ge in Ht, Hb by done. split.
  - rewrite fmap_app, join_app. etrans; [|exact Ht]. f_equal. cbn. rewrite app_nil_r. by destruct prev.
  - rewrite forallb_app, <- Hb. cbn. rewrite andb_true_r. by destruct prev.
Qed.
