(* ===== verification/FlatJson.v ===== *)
(** * Flattened events: [crates/core/src/push/condition/flattened_json.rs]

    Push conditions name a property of an event by its path: the keys from the root,
    dots and backslashes in them escaped, joined with dots.  [from_raw] turns an
    event into the map from paths to values; the theorem at the end says that looking
    a path up in the map is walking the keys. *)
From Stdlib Require Import Ascii.
From S2P Require Import Prelude RustStr BTree Identifiers Json Canonical.
Open Scope string_scope.

Inductive ScalarJsonValue : Type :=
| SNull
| SBool (b : bool)
| SInteger (i : Z)
| SString (s : string).
#[global] Instance ScalarJsonValue_eq_dec : EqDecision ScalarJsonValue.
Proof. solve_decision. Defined.

Inductive FlattenedJsonValue : Type :=
| FNull
| FBool (b : bool)
| FInteger (i : Z)
| FString (s : string)
| FArray (l : list ScalarJsonValue)
| FEmptyObject.
#[global] Instance FlattenedJsonValue_eq_dec : EqDecision FlattenedJsonValue.
Proof. solve_decision. Defined.

(** [serde_json::Number::as_i64] *)
Definition number_as_i64 (n : number) : option Z :=
  match n with
  | NumInt z => if decide (I64_MIN <= z <= I64_MAX)%Z then Some z else None
  | NumFloat _ => None
  end.

(** [ScalarJsonValue::try_from_json_value]; its errors are dropped by the callers here. *)
Definition scalar_try_from (val : json) : option ScalarJsonValue :=
  match val with
  | JBool b => Some (SBool b)
  | JNum num => SInteger <$> number_as_i64 num
  | JStr s => Some (SString s)
  | JNull => Some SNull
  | JArr _ | JObj _ => None
  end.
Definition from_json_value (val : json) : option FlattenedJsonValue :=
  match val with
  | JBool b => Some (FBool b)
  | JNum num => FInteger <$> number_as_i64 num
  | JStr s => Some (FString s)
  | JNull => Some FNull
  | JArr l => Some (FArray (omap scalar_try_from l))
  | JObj _ => None
  end.

Definition as_bool (v : FlattenedJsonValue) : option bool :=
  match v with FBool b => Some b | _ => None end.
Definition as_integer (v : FlattenedJsonValue) : option Z :=
  match v with FInteger i => Some i | _ => None end.
Definition flat_as_str (v : FlattenedJsonValue) : option string :=
  match v with FString s => Some s | _ => None end.
Definition as_array (v : FlattenedJsonValue) : option (list ScalarJsonValue) :=
  match v with FArray l => Some l | _ => None end.
(** [FlattenedJsonValue == ScalarJsonValue] *)
Definition flat_eq_scalar (v : FlattenedJsonValue) (other : ScalarJsonValue) : bool :=
  match v, other with
  | FNull, SNull => true
  | FBool b, SBool b' => bool_decide (b = b')
  | FInteger i, SInteger i' => bool_decide (i = i')
  | FString s, SString s' => bool_decide (s = s')
  | _, _ => false
  end.

(** [str::replace] with a character. *)
Fixpoint replace_char (c : ascii) (by_ : string) (s : string) : string :=
  match s with
  | EmptyString => EmptyString
  | String c' s => if Ascii.eqb c' c then by_ ++ replace_char c by_ s
                   else String c' (replace_char c by_ s)
  end.
Definition escape_key (key : string) : string :=
  replace_char "." "\." (replace_char "\" "\\" key).

Definition child_path (path key : string) : string :=
  let key := escape_key key in
  if str_is_empty path then key else path ++ "." ++ key.

Abbreviation FlattenedJson := (gmap string FlattenedJsonValue).

Fixpoint flatten_value (value : json) (path : string) (m : FlattenedJson) : FlattenedJson :=
  match value with
  | JObj [] => <[path := FEmptyObject]> m
  | JObj fields =>
      (fix go l m := match l with
                     | [] => m
                     | (key, value) :: l => go l (flatten_value value (child_path path key) m)
                     end) fields m
  | value => match from_json_value value with Some v => <[path := v]> m | None => m end
  end.

(** [to_json_value(raw)]: a [serde_json::Value], its objects maps. *)
Fixpoint to_json_value (j : json) : json :=
  match j with
  | JObj members => JObj (json_map (map (fun kv => (kv.1, to_json_value kv.2)) members))
  | JArr l => JArr (map to_json_value l)
  | j => j
  end.
Definition from_raw (raw : json) : FlattenedJson := flatten_value (to_json_value raw) EmptyString ∅.

Definition flat_get (m : FlattenedJson) (path : string) : option FlattenedJsonValue := m !! path.
Definition get_str (m : FlattenedJson) (path : string) : option string := v ← m !! path; flat_as_str v.
Definition contains_mentions (m : FlattenedJson) : bool :=
  existsb (fun '(s, _) => bool_decide (s = "content.m\.mentions")
                          || str_starts_with "content.m\.mentions." s) (map_to_list m).

(** ** Paths *)

(** The path of some keys. *)
Fixpoint path_of (keys : list string) : string :=
  match keys with
  | [] => EmptyString
  | [k] => escape_key k
  | k :: keys => escape_key k ++ "." ++ path_of keys
  end.

(** Reading the keys of a path back. *)
Fixpoint keys_of_aux (s : string) (escaped : bool) (cur : string) : list string :=
  match s with
  | EmptyString => [str_rev cur]
  | String c s =>
      if escaped then keys_of_aux s false (String c cur)
      else if Ascii.eqb c "\" then keys_of_aux s true cur
      else if Ascii.eqb c "." then str_rev cur :: keys_of_aux s false EmptyString
      else keys_of_aux s false (String c cur)
  end.
Definition keys_of (path : string) : list string := keys_of_aux path false EmptyString.

(** *** The keys of a path *)

Definition escape_char (c : ascii) : string :=
  if Ascii.eqb c "\" then "\\" else if Ascii.eqb c "." then "\." else String c EmptyString.

Lemma escape_key_cons c s : escape_key (String c s) = escape_char c ++ escape_key s.
Proof.
  unfold escape_key, escape_char. cbn. destruct (Ascii.eqb c "\") eqn:E; [done|]. cbn.
  by destruct (Ascii.eqb c ".").
Qed.

Lemma str_rev_app_app a b c : str_rev_app (str_rev_app a b) c = str_rev_app b (a ++ c).
Proof. revert b c. induction a as [|x a IH]; intros b c; [done|]. cbn [str_rev_app]. by rewrite IH, append_cons. Qed.
Lemma string_app_nil_r s : s ++ EmptyString = s.
Proof. induction s as [|c s IH]; [done|]. by rewrite append_cons, IH. Qed.

Lemma keys_of_escaped k : forall rest cur,
  keys_of_aux (escape_key k ++ rest) false cur = keys_of_aux rest false (str_rev_app k cur).
Proof.
  induction k as [|c k IH]; intros rest cur; [done|]. rewrite escape_key_cons, append_assoc_str.
  unfold escape_char. destruct (Ascii.eqb c "\") eqn:E1; [|destruct (Ascii.eqb c ".") eqn:E2].
  - apply Ascii.eqb_eq in E1 as ->. apply IH.
  - apply Ascii.eqb_eq in E2 as ->. apply IH.
  - rewrite append_cons. cbn [keys_of_aux]. rewrite E1, E2. apply IH.
Qed.

Lemma keys_of_path keys : keys <> [] -> keys_of (path_of keys) = keys.
Proof.
  induction keys as [|k [|k' keys] IH]; [done| |].
  - intros _. unfold keys_of. cbn [path_of]. rewrite <- (string_app_nil_r (escape_key k)), keys_of_escaped.
    cbn [keys_of_aux]. unfold str_rev. rewrite str_rev_app_app. cbn [str_rev_app]. by rewrite string_app_nil_r.
  - intros _. change (path_of (k :: k' :: keys)) with (escape_key k ++ "." ++ path_of (k' :: keys)).
    unfold keys_of. rewrite keys_of_escaped. rewrite append_cons.
    change (keys_of_aux (String "." (EmptyString ++ path_of (k' :: keys))) false (str_rev_app k EmptyString))
      with (str_rev (str_rev_app k EmptyString) :: keys_of (path_of (k' :: keys))).
    unfold str_rev. rewrite str_rev_app_app. cbn [str_rev_app]. rewrite string_app_nil_r, IH; done.
Qed.

Lemma path_of_inj ks ks' : ks <> [] -> ks' <> [] -> path_of ks = path_of ks' -> ks = ks'.
Proof. intros H H' E. rewrite <- (keys_of_path ks H), <- (keys_of_path ks' H'). by rewrite E. Qed.

Lemma path_of_snoc P k : P <> [] -> path_of (P ++ [k])%list = path_of P ++ "." ++ escape_key k.
Proof.
  induction P as [|k' [|k2 P] IH]; [done|done|]. intros _.
  change (path_of ((k' :: k2 :: P) ++ [k])%list) with (escape_key k' ++ "." ++ path_of ((k2 :: P) ++ [k])%list).
  rewrite IH by done. change (path_of (k' :: k2 :: P)) with (escape_key k' ++ "." ++ path_of (k2 :: P)).
  by rewrite !append_assoc_str.
Qed.

Lemma path_of_empty P : path_of P = EmptyString -> P = [] \/ P = [EmptyString].
Proof.
  intros H. destruct P as [|k P]; [by left|right]. apply (path_of_inj (k :: P) [EmptyString]); done.
Qed.

Lemma child_path_of P k :
  P <> [EmptyString] -> child_path (path_of P) k = path_of (P ++ [k])%list.
Proof.
  intros HP. unfold child_path. destruct (path_of P) as [|c s] eqn:E; cbn [str_is_empty].
  - apply path_of_empty in E as [->|?]; done.
  - rewrite path_of_snoc, E; [done|]. by intros ->.
Qed.

(** *** The values of an event *)

(** [leaf v keys x]: walking [keys] from [v] leads to [x]. *)
Inductive leaf : json -> list string -> FlattenedJsonValue -> Prop :=
| leaf_empty : leaf (JObj []) [] FEmptyObject
| leaf_value v x : from_json_value v = Some x -> leaf v [] x
| leaf_field fields k v ks x : (k, v) ∈ fields -> leaf v ks x -> leaf (JObj fields) (k :: ks) x.

Fixpoint value_wf (v : json) : Prop :=
  match v with
  | JObj fields => NoDup fields.*1 /\ foldr (fun kv P => value_wf kv.2 /\ P) True fields
  | _ => True
  end.

(** Not an object with fields. *)
Definition no_fields (v : json) : Prop := match v with JObj (_ :: _) => False | _ => True end.
(** The one key that makes two paths alike: the empty one at the root. *)
Definition root_ok (P : list string) (v : json) : Prop :=
  (P = [EmptyString] -> no_fields v) /\
  (P = [] -> forall fields w, v = JObj fields -> (EmptyString, w) ∈ fields -> no_fields w).

Definition flatten_ok (v : json) : Prop := forall P m, root_ok P v ->
  (forall ks x, leaf v ks x -> flatten_value v (path_of P) m !! path_of (P ++ ks)%list = Some x) /\
  (forall p, (forall ks x, leaf v ks x -> p <> path_of (P ++ ks)%list) ->
     flatten_value v (path_of P) m !! p = m !! p) /\
  (forall p x, flatten_value v (path_of P) m !! p = Some x ->
     m !! p = Some x \/ exists ks, leaf v ks x /\ p = path_of (P ++ ks)%list).

Definition flatten_fields (path : string) : list (string * json) -> FlattenedJson -> FlattenedJson :=
  fix go l m := match l with
                | [] => m
                | (key, value) :: l => go l (flatten_value value (child_path path key) m)
                end.

Lemma flatten_fields_spec P fields :
  P <> [EmptyString] -> NoDup fields.*1 ->
  Forall (fun kv => flatten_ok kv.2) fields ->
  (P = [] -> forall w, (EmptyString, w) ∈ fields -> no_fields w) ->
  forall m,
  (forall k v ks x, (k, v) ∈ fields -> leaf v ks x ->
     flatten_fields (path_of P) fields m !! path_of (P ++ k :: ks)%list = Some x) /\
  (forall p, (forall k v ks x, (k, v) ∈ fields -> leaf v ks x -> p <> path_of (P ++ k :: ks)%list) ->
     flatten_fields (path_of P) fields m !! p = m !! p) /\
  (forall p x, flatten_fields (path_of P) fields m !! p = Some x ->
     m !! p = Some x \/ exists k v ks, (k, v) ∈ fields /\ leaf v ks x /\ p = path_of (P ++ k :: ks)%list).
Proof.
  intros HP. induction fields as [|[k0 v0] fields IH]; intros Hnd Hall Hroot m.
  { split_and!; [by intros ? ? ? ? ?%elem_of_nil|done|by left]. }
  rewrite fmap_cons in Hnd. apply NoDup_cons in Hnd as [Hk0 Hnd]. apply Forall_cons in Hall as [H0 Hall].
  cbn [flatten_fields]. rewrite child_path_of by done.
  assert (forall ks, (P ++ k0 :: ks = (P ++ [k0]) ++ ks)%list) as Happ by (intros; by rewrite <- app_assoc).
  destruct (H0 (P ++ [k0])%list m) as (Ha & Hb & Hc).
  { split.
    - intros E. apply (Hroot ltac:(destruct P as [|? [|]]; done)). destruct P as [|? [|]]; [|done..].
      injection E as ->. left.
    - intros E. by destruct P. }
  destruct (IH Hnd Hall ltac:(intros; apply Hroot; [done|by right])
              (flatten_value v0 (path_of (P ++ [k0])%list) m)) as (IHa & IHb & IHc). clear IH. split_and!.
  - intros k v ks x [[= -> ->]|Hin]%elem_of_cons Hl; [|by apply (IHa k v)].
    rewrite IHb; [rewrite Happ; by apply Ha|]. intros k' v' ks' x' Hin' _ E.
    apply path_of_inj in E; [|by destruct P..]. apply app_inv_head in E. injection E as <- <-.
    apply Hk0. by apply (list_elem_of_fmap_2 fst) in Hin'.
  - intros p Hp. rewrite IHb.
    + apply Hb. intros ks x Hl. rewrite <- Happ. eapply Hp; [left|done].
    + intros k v ks x Hin. apply Hp. by right.
  - intros p x [[Hm|(ks & Hl & ->)]%Hc|(k & v & ks & Hin & Hl & ->)]%IHc; [by left| |];
      right; [exists k0, v0, ks; rewrite (Happ ks)|exists k, v, ks]; (split; [set_solver|done]).
Qed.

Lemma flatten_value_ok v : value_wf v -> flatten_ok v.
Proof.
  induction v as [|b|n|s|l IH|fields IH] using json_ind'; intros Hwf P m Hroot;
    try (cbn [flatten_value]; split_and!;
         [intros ks x Hl; inversion Hl as [|? ? Hx|]; subst; rewrite Hx, app_nil_r; apply lookup_insert_eq
         |intros p Hp; destruct (from_json_value _) eqn:E; [|done]; apply lookup_insert_ne;
          pose proof (Hp [] _ (leaf_value _ _ E)) as Hne; rewrite app_nil_r in Hne; congruence
         |intros p x; destruct (from_json_value _) eqn:E; [|by left];
          intros [[<- <-]|[_ ?]]%lookup_insert_Some; [right; exists []; rewrite app_nil_r; split; [by apply leaf_value|done]|by left]]).
  destruct fields as [|kv fields].
  { cbn [flatten_value]. split_and!.
    - intros ks x Hl. inversion Hl as [|? ? Hx|? ? ? ? ? Hin]; subst; [|done|by apply elem_of_nil in Hin].
      rewrite app_nil_r. apply lookup_insert_eq.
    - intros p Hp. apply lookup_insert_ne. pose proof (Hp _ _ leaf_empty) as E. rewrite app_nil_r in E.
      congruence.
    - intros p x [[<- <-]|[_ ?]]%lookup_insert_Some; [right|by left]. exists []. rewrite app_nil_r. split; [constructor|done]. }
  destruct Hroot as [Hr1 Hr2].
  assert (P <> [EmptyString]) as HP by (intros E; by apply Hr1 in E).
  set (fs := kv :: fields) in *. destruct Hwf as [Hnd Hwf].
  change (flatten_value (JObj fs) (path_of P) m) with (flatten_fields (path_of P) fs m).
  destruct (flatten_fields_spec P fs HP Hnd) with (m := m) as (Ha & Hb & Hc).
  - clear -IH Hwf. clearbody fs. induction fs as [|x fs IHl]; [constructor|]. destruct Hwf as [H Hwf].
    apply Forall_cons in IH as [Hx IH]. constructor; [by apply Hx|by apply IHl].
  - intros E w. by apply (Hr2 E fs).
  - split_and!.
    + intros ks x Hl. inversion Hl; subst; [done|by eapply Ha].
    + intros p Hp. apply Hb. intros k v ks x Hin Hl. apply (Hp (k :: ks) x). by econstructor.
    + intros p x [?|(k & v & ks & Hin & Hl & ->)]%Hc; [by left|]. right. exists (k :: ks).
      split; [by econstructor|done].
Qed.

Lemma bt_from_list_elem {V} (l : list (string * V)) x : x ∈ bt_from_list l -> x ∈ l.
Proof.
  unfold bt_from_list. assert (forall m, x ∈ foldl (fun m kv => bt_insert kv.1 kv.2 m) m l -> x ∈ m \/ x ∈ l) as H.
  { induction l as [|[k v] l IH]; intros m; cbn; [by left|].
    intros [[->|?]%bt_insert_elem|?]%IH; set_solver. }
  intros [?%elem_of_nil|?]%H; done.
Qed.

Lemma to_json_value_wf j : value_wf (to_json_value j).
Proof.
  induction j as [|b|n|s|l IH|fields IH] using json_ind'; try done. cbn [to_json_value value_wf].
  set (l := map _ fields). assert (Forall (fun kv => value_wf kv.2) l) as Hl.
  { unfold l. induction IH as [|[k v] fields Hv _ IHf]; cbn; [constructor|]. by constructor. }
  clearbody l. pose proof (bt_from_list_wf l) as Hwf. split.
  - unfold json_map. induction Hwf as [|x m Hwf IHm Hx]; [constructor|]. rewrite fmap_cons. constructor; [|done].
    intros ([k v] & E & Hin)%list_elem_of_fmap. cbn in E. rewrite Forall_forall in Hx. specialize (Hx _ Hin).
    unfold key_lt in Hx. cbn in Hx. rewrite E in Hx. by rewrite string_compare_refl in Hx.
  - assert (Forall (fun kv => value_wf kv.2) (json_map l)) as H.
    { apply Forall_forall. intros x Hx. rewrite Forall_forall in Hl. apply Hl. by apply bt_from_list_elem. }
    induction H; cbn; auto.
Qed.

(** Looking a path up in a flattened event is walking its keys: [from_raw] maps the
    path of [ks] to [x] exactly when the event has the scalar, array or empty object [x]
    at [ks].  The one exception is an object under the empty key at the root, whose
    fields get the paths of the root's own fields. *)
Theorem from_raw_get raw fields :
  to_json_value raw = JObj fields -> fields <> [] ->
  (forall v, (EmptyString, v) ∈ fields -> no_fields v) ->
  forall ks x, ks <> [] -> from_raw raw !! path_of ks = Some x <-> leaf (JObj fields) ks x.
Proof.
  intros Hraw Hne Hroot ks x Hks. unfold from_raw. pose proof (to_json_value_wf raw) as Hwf. rewrite Hraw in *.
  destruct (flatten_value_ok (JObj fields) Hwf [] ∅) as (Ha & Hb & Hc).
  { split; [done|]. intros _ fs w [= <-]. apply Hroot. }
  split; [|intros Hl; by apply Ha].
  intros [Hx|(ks' & Hl & E)]%Hc; [done|]. cbn in E.
  destruct ks' as [|k' ks']; [by inversion Hl|]. by apply path_of_inj in E as ->.
Qed.

Definition thread_reply : json :=
  JObj [("type", JStr "m.room.message");
        ("content", JObj [("body", JStr "hi");
                          ("m.relates_to", JObj [("rel_type", JStr "m.thread"); ("is_falling_back", JBool true)])])].

Lemma from_raw_get_witness :
  from_raw thread_reply !! "content.m\.relates_to.rel_type" = Some (FString "m.thread").
Proof.
  apply (from_raw_get thread_reply
    [("content", JObj [("body", JStr "hi");
       ("m.relates_to", JObj [("is_falling_back", JBool true); ("rel_type", JStr "m.thread")])]);
     ("type", JStr "m.room.message")]) with (ks := ["content"; "m.relates_to"; "rel_type"]).
  - by_eval.
  - done.
  - intros v [[= _]|[[= _]|?%elem_of_nil]%elem_of_cons]%elem_of_cons; done.
  - done.
  - econstructor; [left|]. econstructor; [right; left|]. econstructor; [right; left|]. by constructor.
Defined.

(** Below the empty key at the root a property passes for one of the root. *)
Example empty_root_key :
  get_str (from_raw (JObj [("type", JStr "m.room.message"); (EmptyString, JObj [("state_key", JStr "x")])]))
    "state_key" = Some "x".
Proof. by_eval. Qed.
