(* ===== verification/Push.v ===== *)
(** * Push conditions and push rules: [crates/core/src/push/]
      ([action.rs], [condition.rs], [condition/room_member_count_is.rs],
      [conditional_push_rule.rs], [patterned_push_rule.rs], [simple_push_rule.rs],
      [iter.rs])

    Whether a rule applies to an event for a user.  The server is built with all
    the unstable push features, so their conditions are part of the model; what the
    thread subscription of a user is, is part of the context.  Matching may panic
    where a regular expression cannot be built, so [applies] is a computation. *)
From Stdlib Require Import Ascii.
From S2P Require Import Prelude RustStr Decimal BTree Identifiers Json Canonical RoomVersion PushMatch FlatJson.
Open Scope string_scope.

(** ** Actions *)

Inductive SoundTweakValue : Type := SoundDefault | SoundCustom (s : string).
Inductive HighlightTweakValue : Type := HighlightYes | HighlightNo.
Inductive Tweak : Type :=
| Sound (s : SoundTweakValue)
| Highlight (h : HighlightTweakValue)
| CustomTweak (set_tweak : string) (value : option json).
Inductive CustomActionData : Type :=
| ActionString (s : string)
| ActionObject (o : list (string * json)).
Inductive Action : Type :=
| Notify
| SetTweak (t : Tweak)
| CustomAction (data : CustomActionData).

Definition is_highlight (a : Action) : bool :=
  match a with SetTweak (Highlight HighlightYes) => true | _ => false end.
Definition should_notify (a : Action) : bool := match a with Notify => true | _ => false end.
Definition sound (a : Action) : option SoundTweakValue :=
  match a with SetTweak (Sound s) => Some s | _ => None end.

(** ** [RoomMemberCountIs] *)

Inductive ComparisonOperator : Type := OpEq | OpLt | OpGt | OpGe | OpLe.
Record RoomMemberCountIs := { mc_prefix : ComparisonOperator; mc_count : Z }.

Definition op_prefix (op : ComparisonOperator) : string :=
  match op with OpEq => EmptyString | OpLt => "<" | OpGt => ">" | OpGe => ">=" | OpLe => "<=" end.
(** [Display]; a count is a [u64]. *)
Definition member_count_to_string (is_ : RoomMemberCountIs) : string :=
  op_prefix (mc_prefix is_) ++ u64_to_string (mc_count is_).
Definition member_count_from_str (s : string) : option RoomMemberCountIs :=
  let '(prefix, count_str) :=
    if str_starts_with "<=" s then (OpLe, str_drop 2 s)
    else if str_starts_with "<" s then (OpLt, str_drop 1 s)
    else if str_starts_with ">=" s then (OpGe, str_drop 2 s)
    else if str_starts_with ">" s then (OpGt, str_drop 1 s)
    else if str_starts_with "==" s then (OpEq, str_drop 2 s)
    else (OpEq, s) in
  count ← parse_u64 count_str;
  Some {| mc_prefix := prefix; mc_count := count |}.

Lemma member_count_roundtrip is_ :
  (0 <= mc_count is_ <= U64_MAX)%Z -> member_count_from_str (member_count_to_string is_) = Some is_.
Proof.
  destruct is_ as [op n]. cbn [mc_count]. intros Hn. unfold member_count_from_str, member_count_to_string.
  cbn [mc_prefix mc_count]. pose proof (parse_u64_to_string n Hn) as Hp.
  destruct (u64_to_string_digit n) as (c & r & E & Hc). rewrite E in Hp |- *.
  assert (forall x p, is_ascii_digit x = false -> str_starts_with (String x p) (String c r) = false) as Hd.
  { intros x p Hx. unfold str_starts_with. cbn. destruct (ascii_dec x c) as [->|]; [congruence|done]. }
  destruct op; cbn [op_prefix].
  - rewrite !Hd by done. change (EmptyString ++ String c r) with (String c r). by rewrite Hp.
  - change ("<" ++ String c r) with (String "<" (String c r)).
    assert (str_starts_with "<=" (String "<" (String c r)) = false) as ->; [by apply (Hd "="%char)|].
    transitivity (count ← parse_u64 (String c r); Some {| mc_prefix := OpLt; mc_count := count |}); [reflexivity|].
    by rewrite Hp.
  - change (">" ++ String c r) with (String ">" (String c r)).
    assert (str_starts_with ">=" (String ">" (String c r)) = false) as ->; [by apply (Hd "="%char)|].
    transitivity (count ← parse_u64 (String c r); Some {| mc_prefix := OpGt; mc_count := count |}); [reflexivity|].
    by rewrite Hp.
  - change (">=" ++ String c r) with (String ">" (String "=" (String c r))). transitivity (count ← parse_u64 (String c r); Some {| mc_prefix := OpGe; mc_count := count |}); [reflexivity|].
    by rewrite Hp.
  - change ("<=" ++ String c r) with (String "<" (String "=" (String c r))). transitivity (count ← parse_u64 (String c r); Some {| mc_prefix := OpLe; mc_count := count |}); [reflexivity|].
    by rewrite Hp.
Qed.

(** [RangeBounds] *)
Inductive Bound : Type := Included (n : Z) | Excluded (n : Z) | Unbounded.
Definition start_bound (is_ : RoomMemberCountIs) : Bound :=
  match mc_prefix is_ with
  | OpEq | OpGe => Included (mc_count is_)
  | OpLt | OpLe => Unbounded
  | OpGt => Excluded (mc_count is_)
  end.
Definition end_bound (is_ : RoomMemberCountIs) : Bound :=
  match mc_prefix is_ with
  | OpEq | OpLe => Included (mc_count is_)
  | OpGt | OpGe => Unbounded
  | OpLt => Excluded (mc_count is_)
  end.
(** [RangeBounds::contains] *)
Definition range_contains (is_ : RoomMemberCountIs) (item : Z) : bool :=
  (match start_bound is_ with
   | Included start => start <=? item | Excluded start => start <? item | Unbounded => true end
   && match end_bound is_ with
      | Included end_ => item <=? end_ | Excluded end_ => item <? end_ | Unbounded => true end)%Z.

(** ** Conditions *)

Inductive RoomVersionFeature : Type := ExtensibleEvents | FeatureCustom (s : string).
#[global] Instance RoomVersionFeature_eq_dec : EqDecision RoomVersionFeature.
Proof. solve_decision. Defined.

Inductive PushCondition : Type :=
| EventMatch (key pattern : string)
| ContainsDisplayName
| RoomMemberCount (is_ : RoomMemberCountIs)
| SenderNotificationPermission (key : string)
| RoomVersionSupports (feature : RoomVersionFeature)
| EventPropertyIs (key : string) (value : ScalarJsonValue)
| EventPropertyContains (key : string) (value : ScalarJsonValue)
| ThreadSubscription (subscribed : bool)
| CustomCondition (kind : string) (data : list (string * json)).

(** [NotificationPowerLevels] *)
Record NotificationPowerLevels := { notify_room : Z }.
Definition notification_level (n : NotificationPowerLevels) (key : string) : option Z :=
  if decide (key = "room") then Some (notify_room n) else None.

(** [RoomPowerLevelsRules]: the creators with infinite power, in room versions that
    have them. *)
Record RoomPowerLevelsRules := { privileged_creators : option (gset string) }.

Record PushConditionPowerLevelsCtx := {
  pc_users : gmap string Z;
  pc_users_default : Z;
  pc_notifications : NotificationPowerLevels;
  pc_rules : RoomPowerLevelsRules
}.
Record PushConditionRoomCtx := {
  cx_room_id : string;
  cx_member_count : Z;
  cx_user_id : string;
  cx_user_display_name : string;
  cx_power_levels : option PushConditionPowerLevelsCtx;
  cx_supported_features : list RoomVersionFeature;
  cx_has_thread_subscription : option (string -> bool)
}.

(** [event.get_str("sender").is_some_and(|sender| sender == context.user_id)] *)
Definition sent_by_user (event : FlattenedJson) (context : PushConditionRoomCtx) : bool :=
  match get_str event "sender" with
  | Some sender => bool_decide (sender = cx_user_id context)
  | None => false
  end.

Section applies.
Context {ML : MatchLib}.

Definition check_event_match (event : FlattenedJson) (key pattern : string)
    (context : PushConditionRoomCtx) : comp False bool :=
  match (if decide (key = "room_id") then Some (cx_room_id context) else get_str event key) with
  | Some value => matches_pattern value pattern (bool_decide (key = "content.body"))
  | None => Done false
  end.

Definition sender_notification_permission_applies (key : string) (event : FlattenedJson)
    (context : PushConditionRoomCtx) : bool :=
  match cx_power_levels context with
  | None => false
  | Some power_levels =>
      match (v ← get_str event "sender"; if is_ok (user_id_validate v) then Some v else None) with
      | None => false
      | Some sender_id =>
          let sender_level := default (pc_users_default power_levels) (pc_users power_levels !! sender_id) in
          match notification_level (pc_notifications power_levels) key with
          | Some level => (level <=? sender_level)%Z
          | None => false
          end
      end
  end.

Definition room_version_supports_applies (feature : RoomVersionFeature)
    (context : PushConditionRoomCtx) : bool :=
  match feature with
  | ExtensibleEvents => bool_decide (ExtensibleEvents ∈ cx_supported_features context)
  | FeatureCustom _ => false
  end.

Definition thread_subscription_applies (subscribed : bool) (event : FlattenedJson)
    (context : PushConditionRoomCtx) : bool :=
  match cx_has_thread_subscription context with
  | None => false
  | Some has_thread_subscription_fn =>
      if decide (get_str event "content.m\.relates_to.rel_type" = Some "m.thread") then
        match get_str event "content.m\.relates_to.event_id" with
        | Some thread_root =>
            if is_ok (event_id_validate thread_root)
            then bool_decide (subscribed = has_thread_subscription_fn thread_root) else false
        | None => false
        end
      else false
  end.

(** [PushCondition::applies] *)
Definition condition_applies (c : PushCondition) (event : FlattenedJson)
    (context : PushConditionRoomCtx) : comp False bool :=
  if sent_by_user event context then Done false
  else
    match c with
    | EventMatch key pattern => check_event_match event key pattern context
    | ContainsDisplayName =>
        match get_str event "content.body" with
        | Some value => matches_pattern value (cx_user_display_name context) true
        | None => Done false
        end
    | RoomMemberCount is_ => Done (range_contains is_ (cx_member_count context))
    | SenderNotificationPermission key =>
        Done (sender_notification_permission_applies key event context)
    | RoomVersionSupports feature => Done (room_version_supports_applies feature context)
    | EventPropertyIs key value =>
        Done (match flat_get event key with Some v => flat_eq_scalar v value | None => false end)
    | EventPropertyContains key value =>
        Done (match flat_get event key ≫= as_array with
              | Some array => bool_decide (value ∈ array)
              | None => false
              end)
    | ThreadSubscription subscribed => Done (thread_subscription_applies subscribed event context)
    | CustomCondition _ _ => Done false
    end.

(** ** Rules *)

Record ConditionalPushRule := {
  cr_actions : list Action; cr_default : bool; cr_enabled : bool; cr_rule_id : string;
  cr_conditions : list PushCondition
}.
Record PatternedPushRule := {
  pr_actions : list Action; pr_default : bool; pr_enabled : bool; pr_rule_id : string;
  pr_pattern : string
}.
Record SimplePushRule := {
  sr_actions : list Action; sr_default : bool; sr_enabled : bool; sr_rule_id : string
}.

Fixpoint all_apply (conditions : list PushCondition) (event : FlattenedJson)
    (context : PushConditionRoomCtx) : comp False bool :=
  match conditions with
  | [] => Done true
  | cond :: conditions =>
      applies ← condition_applies cond event context;
      if (applies : bool) then all_apply conditions event context else Done false
  end.

(** [ConditionalPushRule::applies] *)
Definition conditional_applies (rule : ConditionalPushRule) (event : FlattenedJson)
    (context : PushConditionRoomCtx) : comp False bool :=
  let id := cr_rule_id rule in
  if negb (cr_enabled rule) then Done false
  else if bool_decide (id <> ".m.rule.master") && bool_decide (id <> ".m.rule.is_user_mention")
          && bool_decide (id <> ".m.rule.is_room_mention")
          && bool_decide (ExtensibleEvents ∈ cx_supported_features context)
          && negb (existsb (fun c => match c with RoomVersionSupports _ => true | _ => false end)
                           (cr_conditions rule))
  then Done false
  else if (bool_decide (id = ".m.rule.roomnotif") || bool_decide (id = ".m.rule.contains_display_name"))
          && contains_mentions event
  then Done false
  else all_apply (cr_conditions rule) event context.

(** [PatternedPushRule::applies_to] *)
Definition patterned_applies_to (rule : PatternedPushRule) (key : string) (event : FlattenedJson)
    (context : PushConditionRoomCtx) : comp False bool :=
  if bool_decide (pr_rule_id rule = ".m.rule.contains_user_name") && contains_mentions event
  then Done false
  else if sent_by_user event context then Done false
  else if pr_enabled rule then check_event_match event key (pr_pattern rule) context
  else Done false.

Inductive AnyPushRule : Type :=
| AnyOverride (r : ConditionalPushRule)
| AnyContent (r : PatternedPushRule)
| AnyPostContent (r : ConditionalPushRule)
| AnyRoom (r : SimplePushRule)
| AnySender (r : SimplePushRule)
| AnyUnderride (r : ConditionalPushRule).

Definition any_enabled (r : AnyPushRule) : bool :=
  match r with
  | AnyOverride r | AnyPostContent r | AnyUnderride r => cr_enabled r
  | AnyContent r => pr_enabled r
  | AnyRoom r | AnySender r => sr_enabled r
  end.
Definition any_actions (r : AnyPushRule) : list Action :=
  match r with
  | AnyOverride r | AnyPostContent r | AnyUnderride r => cr_actions r
  | AnyContent r => pr_actions r
  | AnyRoom r | AnySender r => sr_actions r
  end.
Definition any_rule_id (r : AnyPushRule) : string :=
  match r with
  | AnyOverride r | AnyPostContent r | AnyUnderride r => cr_rule_id r
  | AnyContent r => pr_rule_id r
  | AnyRoom r | AnySender r => sr_rule_id r
  end.
Definition is_server_default (r : AnyPushRule) : bool :=
  match r with
  | AnyOverride r | AnyPostContent r | AnyUnderride r => cr_default r
  | AnyContent r => pr_default r
  | AnyRoom r | AnySender r => sr_default r
  end.

Definition triggers_highlight (r : AnyPushRule) : bool := existsb is_highlight (any_actions r).
Definition triggers_notification (r : AnyPushRule) : bool := existsb should_notify (any_actions r).
Definition triggers_sound (r : AnyPushRule) : option SoundTweakValue := head (omap sound (any_actions r)).

(** [AnyPushRuleRef::applies] *)
Definition any_applies (r : AnyPushRule) (event : FlattenedJson) (context : PushConditionRoomCtx) :
    comp False bool :=
  if sent_by_user event context then Done false
  else
    match r with
    | AnyOverride rule | AnyUnderride rule | AnyPostContent rule => conditional_applies rule event context
    | AnyContent rule => patterned_applies_to rule "content.body" event context
    | AnyRoom rule =>
        if sr_enabled rule then check_event_match event "room_id" (sr_rule_id rule) context else Done false
    | AnySender rule =>
        if sr_enabled rule then check_event_match event "sender" (sr_rule_id rule) context else Done false
    end.

(** The loop of [Ruleset::get_match]. *)
Fixpoint first_match (rules : list AnyPushRule) (event : FlattenedJson) (context : PushConditionRoomCtx) :
    comp False (option AnyPushRule) :=
  match rules with
  | [] => Done None
  | rule :: rules =>
      applies ← any_applies rule event context;
      if (applies : bool) then Done (Some rule) else first_match rules event context
  end.

(** ** Facts *)

Lemma disabled_never_applies r event context b :
  any_enabled r = false -> any_applies r event context = Done b -> b = false.
Proof.
  intros He. unfold any_applies. destruct (sent_by_user event context) eqn:Es; [congruence|].
  destruct r; cbn in He; unfold conditional_applies, patterned_applies_to; rewrite ?He; cbn;
    repeat case_match; congruence.
Qed.

Lemma first_match_spec rules event context o :
  first_match rules event context = Done o ->
  match o with
  | Some r => exists before after, rules = (before ++ r :: after)%list /\
      any_applies r event context = Done true /\
      Forall (fun r => any_applies r event context = Done false) before
  | None => Forall (fun r => any_applies r event context = Done false) rules
  end.
Proof.
  induction rules as [|r rules IH]; cbn; [by intros [= <-]|].
  destruct (any_applies r event context) as [[]|e| |] eqn:E; try done; cbn.
  - intros [= <-]. exists [], rules. auto.
  - intros H. specialize (IH H). destruct o as [r'|]; [|by constructor].
    destruct IH as (before & after & -> & Hr & Hb). exists (r :: before), after. by repeat constructor.
Qed.
End applies.
