(* ===== verification/Ruleset.v ===== *)
(** * Push rulesets: [crates/core/src/push/ruleset.rs],
      [crates/core/src/push.rs] ([insert_and_move_rule]) and
      [crates/core/src/push/predefined.rs]

    A ruleset holds the rules of every kind in sets that keep an order, the order
    of their priority.  The set type is [indexmap::IndexSet], a library: what the
    code uses of it is the class [IndexSetLib], whose laws are the documentation of
    its operations on the list of its entries. *)
From Stdlib Require Import Ascii.
From S2P Require Import Prelude RustStr Decimal Identifiers Json PushMatch FlatJson Push.
Open Scope string_scope.

(** ** Rules in a set

    Rules are equal for a set when their ids are. *)
Class Rule (T : Type) := {
  rule_id : T -> string;
  rule_default : T -> bool;
  rule_enabled : T -> bool;
  rule_actions : T -> list Action;
  with_enabled : bool -> T -> T;
  with_actions : list Action -> T -> T;
  with_enabled_id b r : rule_id (with_enabled b r) = rule_id r;
  with_actions_id a r : rule_id (with_actions a r) = rule_id r;
  with_enabled_default b r : rule_default (with_enabled b r) = rule_default r;
  with_actions_default a r : rule_default (with_actions a r) = rule_default r;
  with_enabled_enabled b r : rule_enabled (with_enabled b r) = b;
  with_enabled_actions b r : rule_actions (with_enabled b r) = rule_actions r;
  with_actions_enabled a r : rule_enabled (with_actions a r) = rule_enabled r;
  with_actions_actions a r : rule_actions (with_actions a r) = a
}.

#[global] Instance conditional_rule : Rule ConditionalPushRule.
Proof.
  refine {| rule_id := cr_rule_id; rule_default := cr_default; rule_enabled := cr_enabled;
    rule_actions := cr_actions;
    with_enabled b r := {| cr_actions := cr_actions r; cr_default := cr_default r; cr_enabled := b;
                           cr_rule_id := cr_rule_id r; cr_conditions := cr_conditions r |};
    with_actions a r := {| cr_actions := a; cr_default := cr_default r; cr_enabled := cr_enabled r;
                           cr_rule_id := cr_rule_id r; cr_conditions := cr_conditions r |} |}; done.
Defined.
#[global] Instance patterned_rule : Rule PatternedPushRule.
Proof.
  refine {| rule_id := pr_rule_id; rule_default := pr_default; rule_enabled := pr_enabled;
    rule_actions := pr_actions;
    with_enabled b r := {| pr_actions := pr_actions r; pr_default := pr_default r; pr_enabled := b;
                           pr_rule_id := pr_rule_id r; pr_pattern := pr_pattern r |};
    with_actions a r := {| pr_actions := a; pr_default := pr_default r; pr_enabled := pr_enabled r;
                           pr_rule_id := pr_rule_id r; pr_pattern := pr_pattern r |} |}; done.
Defined.
#[global] Instance simple_rule : Rule SimplePushRule.
Proof.
  refine {| rule_id := sr_rule_id; rule_default := sr_default; rule_enabled := sr_enabled;
    rule_actions := sr_actions;
    with_enabled b r := {| sr_actions := sr_actions r; sr_default := sr_default r; sr_enabled := b;
                           sr_rule_id := sr_rule_id r |};
    with_actions a r := {| sr_actions := a; sr_default := sr_default r; sr_enabled := sr_enabled r;
                           sr_rule_id := sr_rule_id r |} |}; done.
Defined.

Section lists.
Context {T : Type} {R : Rule T}.

(** The entries of a set as a list, and what its operations do to them. *)
Definition position (id : string) (l : list T) : option nat := fst <$> list_find (fun r => rule_id r = id) l.
Definition entry (id : string) (l : list T) : option T := snd <$> list_find (fun r => rule_id r = id) l.
(** The entry replaced in place, or appended. *)
Definition replaced (r : T) (l : list T) : list T :=
  match position (rule_id r) l with Some i => <[i := r]> l | None => (l ++ [r])%list end.
(** An entry moved, those in between shifted. *)
Definition moved (from to : nat) (l : list T) : list T :=
  match l !! from with
  | Some r => let l' := delete from l in (take to l' ++ r :: drop to l')%list
  | None => l
  end.
(** The entry at a position removed, the last one put in its place. *)
Definition swap_removed (i : nat) (l : list T) : list T :=
  let l' := take (length l - 1) l in
  match last l with
  | Some r => if decide (i = length l - 1)%nat then l' else <[i := r]> l'
  | None => l
  end.
End lists.

(** [indexmap::IndexSet]; an operation that panics is [None]. *)
Class IndexSetLib := {
  iset : forall T, Rule T -> Type;
  entries {T} {R : Rule T} : iset T R -> list T;
  iset_new {T} {R : Rule T} : iset T R;
  iset_get {T} {R : Rule T} : iset T R -> string -> option T;
  get_index_of {T} {R : Rule T} : iset T R -> string -> option nat;
  (** the index of the rule and the rule it replaced *)
  replace_full {T} {R : Rule T} : iset T R -> T -> nat * option T * iset T R;
  insert_full {T} {R : Rule T} : iset T R -> T -> nat * iset T R;
  move_index {T} {R : Rule T} : iset T R -> nat -> nat -> option (iset T R);
  swap_take {T} {R : Rule T} : iset T R -> string -> option T * iset T R;
  shift_take {T} {R : Rule T} : iset T R -> string -> option T * iset T R;
  retain {T} {R : Rule T} : (T -> bool) -> iset T R -> iset T R;

  entries_NoDup {T} {R : Rule T} (s : iset T R) : NoDup (rule_id <$> entries s);
  entries_new {T} {R : Rule T} : entries (iset_new : iset T R) = [];
  iset_get_spec {T} {R : Rule T} (s : iset T R) id : iset_get s id = entry id (entries s);
  get_index_of_spec {T} {R : Rule T} (s : iset T R) id : get_index_of s id = position id (entries s);
  replace_full_spec {T} {R : Rule T} (s : iset T R) r :
    let '(i, old, s') := replace_full s r in
    entries s' = replaced r (entries s) /\ old = entry (rule_id r) (entries s) /\
    i = default (length (entries s)) (position (rule_id r) (entries s));
  insert_full_spec {T} {R : Rule T} (s : iset T R) r :
    let '(i, s') := insert_full s r in
    entries s' = match position (rule_id r) (entries s) with
                 | Some _ => entries s | None => (entries s ++ [r])%list end /\
    i = default (length (entries s)) (position (rule_id r) (entries s));
  move_index_spec {T} {R : Rule T} (s : iset T R) from to :
    entries <$> move_index s from to =
    if decide (from < length (entries s) /\ to < length (entries s))%nat
    then Some (moved from to (entries s)) else None;
  swap_take_spec {T} {R : Rule T} (s : iset T R) id :
    let '(r, s') := swap_take s id in
    r = entry id (entries s) /\
    entries s' = match position id (entries s) with
                 | Some i => swap_removed i (entries s) | None => entries s end;
  shift_take_spec {T} {R : Rule T} (s : iset T R) id :
    let '(r, s') := shift_take s id in
    r = entry id (entries s) /\
    entries s' = match position id (entries s) with
                 | Some i => delete i (entries s) | None => entries s end;
  retain_spec {T} {R : Rule T} f (s : iset T R) :
    entries (retain f s) = filter (fun r => f r = true) (entries s)
}.
Arguments iset {_} T {_}.

(** ** Rulesets *)

Inductive RuleKind : Type :=
| KOverride | KUnderride | KSender | KRoom | KContent | KPostContent | KCustom (s : string).

Inductive NewPushRule : Type :=
| NewOverride (rule_id : string) (conditions : list PushCondition) (actions : list Action)
| NewContent (rule_id pattern : string) (actions : list Action)
| NewPostContent (rule_id : string) (conditions : list PushCondition) (actions : list Action)
| NewRoom (rule_id : string) (actions : list Action)
| NewSender (rule_id : string) (actions : list Action)
| NewUnderride (rule_id : string) (conditions : list PushCondition) (actions : list Action).

Definition new_rule_id (r : NewPushRule) : string :=
  match r with
  | NewOverride i _ _ | NewContent i _ _ | NewPostContent i _ _ | NewRoom i _ | NewSender i _
  | NewUnderride i _ _ => i
  end.
Definition new_rule_kind (r : NewPushRule) : RuleKind :=
  match r with
  | NewOverride _ _ _ => KOverride | NewContent _ _ _ => KContent | NewPostContent _ _ _ => KPostContent
  | NewRoom _ _ => KRoom | NewSender _ _ => KSender | NewUnderride _ _ _ => KUnderride
  end.

(** [From<NewConditionalPushRule>] and the like: a user's rule, enabled. *)
Definition from_new_conditional (id : string) conditions actions : ConditionalPushRule :=
  {| cr_actions := actions; cr_default := false; cr_enabled := true; cr_rule_id := id;
     cr_conditions := conditions |}.
Definition from_new_patterned (id pattern : string) actions : PatternedPushRule :=
  {| pr_actions := actions; pr_default := false; pr_enabled := true; pr_rule_id := id;
     pr_pattern := pattern |}.
Definition from_new_simple (id : string) actions : SimplePushRule :=
  {| sr_actions := actions; sr_default := false; sr_enabled := true; sr_rule_id := id |}.

Inductive InsertPushRuleError : Type :=
| ServerDefaultRuleId | InvalidRuleId | RelativeToServerDefaultRule | UnknownRuleId
| BeforeHigherThanAfter.
Inductive RuleNotFoundError : Type := RuleNotFound.
Inductive RemovePushRuleError : Type := RemoveServerDefault | RemoveNotFound.

Section ruleset.
Context {IS : IndexSetLib}.

Record Ruleset := {
  rs_content : iset PatternedPushRule;
  rs_postcontent : iset ConditionalPushRule;
  rs_override : iset ConditionalPushRule;
  rs_room : iset SimplePushRule;
  rs_sender : iset SimplePushRule;
  rs_underride : iset ConditionalPushRule;
  rs_extra : list (string * json)
}.

Definition set_content s rs := {| rs_content := s; rs_postcontent := rs_postcontent rs;
  rs_override := rs_override rs; rs_room := rs_room rs; rs_sender := rs_sender rs; rs_underride := rs_underride rs;
  rs_extra := rs_extra rs |}.
Definition set_postcontent s rs := {| rs_content := rs_content rs; rs_postcontent := s;
  rs_override := rs_override rs; rs_room := rs_room rs; rs_sender := rs_sender rs; rs_underride := rs_underride rs;
  rs_extra := rs_extra rs |}.
Definition set_override s rs := {| rs_content := rs_content rs; rs_postcontent := rs_postcontent rs;
  rs_override := s; rs_room := rs_room rs; rs_sender := rs_sender rs; rs_underride := rs_underride rs;
  rs_extra := rs_extra rs |}.
Definition set_room s rs := {| rs_content := rs_content rs; rs_postcontent := rs_postcontent rs;
  rs_override := rs_override rs; rs_room := s; rs_sender := rs_sender rs; rs_underride := rs_underride rs;
  rs_extra := rs_extra rs |}.
Definition set_sender s rs := {| rs_content := rs_content rs; rs_postcontent := rs_postcontent rs;
  rs_override := rs_override rs; rs_room := rs_room rs; rs_sender := s; rs_underride := rs_underride rs;
  rs_extra := rs_extra rs |}.
Definition set_underride s rs := {| rs_content := rs_content rs; rs_postcontent := rs_postcontent rs;
  rs_override := rs_override rs; rs_room := rs_room rs; rs_sender := rs_sender rs; rs_underride := s;
  rs_extra := rs_extra rs |}.

(** [RulesetIter]: overrides, content, post-content, room, sender, underrides. *)
Definition ruleset_iter (rs : Ruleset) : list AnyPushRule :=
  (map AnyOverride (entries (rs_override rs)) ++ map AnyContent (entries (rs_content rs))
   ++ map AnyPostContent (entries (rs_postcontent rs)) ++ map AnyRoom (entries (rs_room rs))
   ++ map AnySender (entries (rs_sender rs)) ++ map AnyUnderride (entries (rs_underride rs)))%list.

(** [Extend] and [FromIterator]: an equal rule that is already there stays. *)
Definition extend {T} {R : Rule T} (s : iset T) (l : list T) : iset T :=
  foldl (fun s r => snd (insert_full s r)) s l.
Definition collect {T} {R : Rule T} (l : list T) : iset T := extend iset_new l.

(** *** Inserting *)

Definition insert_and_move_rule {T} {R : Rule T} (set_ : iset T) (rule : T) (default_position : nat)
    (after before : option string) : comp InsertPushRuleError unit * iset T :=
  let '(from, replaced, set_) := replace_full set_ rule in
  let to_after :=
    match after with
    | Some rule_id => idx ← ok_or (get_index_of set_ rule_id) UnknownRuleId; Ok (idx + 1)%nat
    | None => Ok default_position
    end in
  let to :=
    to ← to_after;
    match before with
    | Some rule_id =>
        idx ← ok_or (get_index_of set_ rule_id) UnknownRuleId;
        if Nat.ltb idx to then Err BeforeHigherThanAfter else Ok idx
    | None => Ok to
    end in
  match to with
  | Err e => (Fail e, set_)
  | Ok to =>
      if negb (bool_decide (is_Some replaced)) || bool_decide (is_Some after) || bool_decide (is_Some before)
      then match move_index set_ from to with
           | Some set_' => (Done tt, set_')
           | None => (Panic, set_)
           end
      else (Done tt, set_)
  end.

(** A rule that replaces another keeps its [enabled] flag. *)
Definition keep_enabled {T} {R : Rule T} (set_ : iset T) (rule : T) : T :=
  match iset_get set_ (rule_id rule) with
  | Some prev_rule => with_enabled (rule_enabled prev_rule) rule
  | None => rule
  end.

Definition insert (rule : NewPushRule) (after before : option string) (rs : Ruleset) :
    comp InsertPushRuleError unit * Ruleset :=
  let id := new_rule_id rule in
  let dotted o := match o with Some s => str_starts_with "." s | None => false end in
  if str_starts_with "." id then (Fail ServerDefaultRuleId, rs)
  else if str_contains "/" id then (Fail InvalidRuleId, rs)
  else if str_contains "\" id then (Fail InvalidRuleId, rs)
  else if dotted after then (Fail RelativeToServerDefaultRule, rs)
  else if dotted before then (Fail RelativeToServerDefaultRule, rs)
  else
    match rule with
    | NewOverride id conditions actions =>
        let rule := keep_enabled (rs_override rs) (from_new_conditional id conditions actions) in
        let '(r, s) := insert_and_move_rule (rs_override rs) rule 1 after before in (r, set_override s rs)
    | NewPostContent id conditions actions =>
        let rule := keep_enabled (rs_postcontent rs) (from_new_conditional id conditions actions) in
        let '(r, s) := insert_and_move_rule (rs_postcontent rs) rule 0 after before in (r, set_postcontent s rs)
    | NewUnderride id conditions actions =>
        let rule := keep_enabled (rs_underride rs) (from_new_conditional id conditions actions) in
        let '(r, s) := insert_and_move_rule (rs_underride rs) rule 0 after before in (r, set_underride s rs)
    | NewContent id pattern actions =>
        let rule := keep_enabled (rs_content rs) (from_new_patterned id pattern actions) in
        let '(r, s) := insert_and_move_rule (rs_content rs) rule 0 after before in (r, set_content s rs)
    | NewRoom id actions =>
        let rule := keep_enabled (rs_room rs) (from_new_simple id actions) in
        let '(r, s) := insert_and_move_rule (rs_room rs) rule 0 after before in (r, set_room s rs)
    | NewSender id actions =>
        let rule := keep_enabled (rs_sender rs) (from_new_simple id actions) in
        let '(r, s) := insert_and_move_rule (rs_sender rs) rule 0 after before in (r, set_sender s rs)
    end.

(** *** Reading, switching and removing *)

Definition ruleset_get (kind : RuleKind) (id : string) (rs : Ruleset) : option AnyPushRule :=
  match kind with
  | KOverride => AnyOverride <$> iset_get (rs_override rs) id
  | KUnderride => AnyUnderride <$> iset_get (rs_underride rs) id
  | KSender => AnySender <$> iset_get (rs_sender rs) id
  | KRoom => AnyRoom <$> iset_get (rs_room rs) id
  | KContent => AnyContent <$> iset_get (rs_content rs) id
  | KPostContent => AnyPostContent <$> iset_get (rs_postcontent rs) id
  | KCustom _ => None
  end.

(** [replace] of the changed clone of a rule. *)
Definition change_rule {T} {R : Rule T} (f : T -> T) (id : string) (s : iset T) :
    result RuleNotFoundError (iset T) :=
  rule ← ok_or (iset_get s id) RuleNotFound;
  Ok (snd (replace_full s (f rule))).
Definition on_kind (kind : RuleKind) (id : string)
    (f : forall T (R : Rule T), T -> T) (rs : Ruleset) : result RuleNotFoundError Ruleset :=
  match kind with
  | KOverride => s ← change_rule (f _ _) id (rs_override rs); Ok (set_override s rs)
  | KUnderride => s ← change_rule (f _ _) id (rs_underride rs); Ok (set_underride s rs)
  | KSender => s ← change_rule (f _ _) id (rs_sender rs); Ok (set_sender s rs)
  | KRoom => s ← change_rule (f _ _) id (rs_room rs); Ok (set_room s rs)
  | KContent => s ← change_rule (f _ _) id (rs_content rs); Ok (set_content s rs)
  | KPostContent => s ← change_rule (f _ _) id (rs_postcontent rs); Ok (set_postcontent s rs)
  | KCustom _ => Err RuleNotFound
  end.
Definition set_enabled (kind : RuleKind) (id : string) (enabled : bool) (rs : Ruleset) :
    result RuleNotFoundError Ruleset := on_kind kind id (fun T R => with_enabled enabled) rs.
Definition set_actions (kind : RuleKind) (id : string) (actions : list Action) (rs : Ruleset) :
    result RuleNotFoundError Ruleset := on_kind kind id (fun T R => with_actions actions) rs.

Definition remove (kind : RuleKind) (id : string) (rs : Ruleset) :
    comp RemovePushRuleError Ruleset :=
  match ruleset_get kind id rs with
  | None => Fail RemoveNotFound
  | Some rule =>
      if is_server_default rule then Fail RemoveServerDefault
      else
        match kind with
        | KOverride => Done (set_override (snd (shift_take (rs_override rs) id)) rs)
        | KUnderride => Done (set_underride (snd (shift_take (rs_underride rs) id)) rs)
        | KSender => Done (set_sender (snd (shift_take (rs_sender rs) id)) rs)
        | KRoom => Done (set_room (snd (shift_take (rs_room rs) id)) rs)
        | KContent => Done (set_content (snd (shift_take (rs_content rs) id)) rs)
        | KPostContent => Done (set_postcontent (snd (shift_take (rs_postcontent rs) id)) rs)
        | KCustom _ => Panic
        end
  end.

(** *** Evaluating *)

Section matching.
Context {ML : MatchLib}.

Definition get_match (rs : Ruleset) (event : json) (context : PushConditionRoomCtx) :
    comp False (option AnyPushRule) :=
  let event := from_raw event in
  if sent_by_user event context then Done None
  else first_match (ruleset_iter rs) event context.
Definition get_actions (rs : Ruleset) (event : json) (context : PushConditionRoomCtx) :
    comp False (list Action) :=
  m ← get_match rs event context;
  Done (match m with Some rule => any_actions rule | None => [] end).
End matching.
End ruleset.
