(* ===== verification/PushDefaults.v ===== *)
(** * The predefined push rules: [crates/core/src/push/predefined.rs]

    The rules every user has, and [update_with_server_default], which replaces the
    predefined rules of a stored ruleset by the current ones and keeps what the user
    changed about them. *)
From Stdlib Require Import Ascii.
From S2P Require Import Prelude RustStr Decimal Identifiers Json PushMatch FlatJson Push Ruleset.
Open Scope string_scope.

(** ** Override rules *)

Definition predefined (id : string) (enabled : bool) (conditions : list PushCondition)
    (actions : list Action) : ConditionalPushRule :=
  {| cr_actions := actions; cr_default := true; cr_enabled := enabled; cr_rule_id := id;
     cr_conditions := conditions |}.

Definition sound_default : Action := SetTweak (Sound SoundDefault).
Definition highlight_yes : Action := SetTweak (Highlight HighlightYes).
Definition two_members : PushCondition := RoomMemberCount {| mc_prefix := OpEq; mc_count := 2 |}.

Definition master : ConditionalPushRule := predefined ".m.rule.master" false [] [].
Definition suppress_notices : ConditionalPushRule :=
  predefined ".m.rule.suppress_notices" true [EventMatch "content.msgtype" "m.notice"] [].
Definition invite_for_me (user_id : string) : ConditionalPushRule :=
  predefined ".m.rule.invite_for_me" true
    [EventMatch "type" "m.room.member"; EventMatch "content.membership" "invite";
     EventMatch "state_key" user_id]
    [Notify; sound_default].
Definition member_event : ConditionalPushRule :=
  predefined ".m.rule.member_event" true [EventMatch "type" "m.room.member"] [].
Definition is_user_mention (user_id : string) : ConditionalPushRule :=
  predefined ".m.rule.is_user_mention" true
    [EventPropertyContains "content.m\.mentions.user_ids" (SString user_id)]
    [Notify; sound_default; highlight_yes].
Definition contains_display_name : ConditionalPushRule :=
  predefined ".m.rule.contains_display_name" true [ContainsDisplayName]
    [Notify; sound_default; highlight_yes].
Definition tombstone : ConditionalPushRule :=
  predefined ".m.rule.tombstone" true
    [EventMatch "type" "m.room.tombstone"; EventMatch "state_key" EmptyString]
    [Notify; highlight_yes].
Definition is_room_mention : ConditionalPushRule :=
  predefined ".m.rule.is_room_mention" true
    [EventPropertyIs "content.m\.mentions.room" (SBool true); SenderNotificationPermission "room"]
    [Notify; highlight_yes].
Definition reaction : ConditionalPushRule :=
  predefined ".m.rule.reaction" true [EventMatch "type" "m.reaction"] [].
Definition server_acl : ConditionalPushRule :=
  predefined ".m.rule.room.server_acl" true
    [EventMatch "type" "m.room.server_acl"; EventMatch "state_key" EmptyString] [].
Definition suppress_edits : ConditionalPushRule :=
  predefined ".m.rule.suppress_edits" true
    [EventPropertyIs "content.m\.relates_to.rel_type" (SString "m.replace")] [].
Definition poll_response : ConditionalPushRule :=
  predefined ".org.matrix.msc3930.rule.poll_response" true
    [EventMatch "type" "org.matrix.msc3381.poll.response"] [].

(** ** Underride and post-content rules *)

Definition call : ConditionalPushRule :=
  predefined ".m.rule.call" true [EventMatch "type" "m.call.invite"]
    [Notify; SetTweak (Sound (SoundCustom "ring"))].
Definition encrypted_room_one_to_one : ConditionalPushRule :=
  predefined ".m.rule.encrypted_room_one_to_one" true
    [two_members; EventMatch "type" "m.room.encrypted"] [Notify; sound_default].
Definition room_one_to_one : ConditionalPushRule :=
  predefined ".m.rule.room_one_to_one" true
    [two_members; EventMatch "type" "m.room.message"] [Notify; sound_default].
Definition message : ConditionalPushRule :=
  predefined ".m.rule.message" true [EventMatch "type" "m.room.message"] [Notify].
Definition encrypted : ConditionalPushRule :=
  predefined ".m.rule.encrypted" true [EventMatch "type" "m.room.encrypted"] [Notify].
Definition poll_start_one_to_one : ConditionalPushRule :=
  predefined ".org.matrix.msc3930.rule.poll_start_one_to_one" true
    [two_members; EventMatch "type" "org.matrix.msc3381.poll.start"] [Notify; sound_default].
Definition poll_start : ConditionalPushRule :=
  predefined ".org.matrix.msc3930.rule.poll_start" true
    [EventMatch "type" "org.matrix.msc3381.poll.start"] [Notify].
Definition poll_end_one_to_one : ConditionalPushRule :=
  predefined ".org.matrix.msc3930.rule.poll_end_one_to_one" true
    [two_members; EventMatch "type" "org.matrix.msc3381.poll.end"] [Notify; sound_default].
Definition poll_end : ConditionalPushRule :=
  predefined ".org.matrix.msc3930.rule.poll_end" true
    [EventMatch "type" "org.matrix.msc3381.poll.end"] [Notify].
Definition unsubscribed_thread : ConditionalPushRule :=
  predefined ".io.element.msc4306.rule.unsubscribed_thread" true [ThreadSubscription false] [].
Definition subscribed_thread : ConditionalPushRule :=
  predefined ".io.element.msc4306.rule.subscribed_thread" true [ThreadSubscription true]
    [Notify; sound_default].

Section defaults.
Context {IS : IndexSetLib}.

(** [Ruleset::server_default] *)
Definition server_default (user_id : string) : Ruleset := {|
  rs_content := iset_new;
  rs_override := collect
    [master; suppress_notices; invite_for_me user_id; member_event; is_user_mention user_id;
     contains_display_name; is_room_mention; tombstone; reaction; server_acl; suppress_edits;
     poll_response];
  rs_postcontent := collect [unsubscribed_thread; subscribed_thread];
  rs_room := iset_new;
  rs_sender := iset_new;
  rs_underride := collect
    [call; encrypted_room_one_to_one; room_one_to_one; message; encrypted; poll_start_one_to_one;
     poll_start; poll_end_one_to_one; poll_end];
  rs_extra := [] |}.

(** ** [update_with_server_default] *)

(** [copy_rules_state!] for one kind: the new rules with the state of the old ones,
    and the old set without them. *)
Fixpoint copy_loop {T} {R : Rule T} (new_rules : list T) (old : iset T) : list T * iset T :=
  match new_rules with
  | [] => ([], old)
  | new_rule :: new_rules =>
      let '(taken, old) := swap_take old (rule_id new_rule) in
      let new_rule := match taken with
                      | Some old_rule =>
                          with_actions (rule_actions old_rule)
                            (with_enabled (rule_enabled old_rule) new_rule)
                      | None => new_rule
                      end in
      let '(rest, old) := copy_loop new_rules old in
      (new_rule :: rest, old)
  end.
Definition copy_rules_state {T} {R : Rule T} (new_set old : iset T) : iset T * iset T :=
  let '(l, old) := copy_loop (entries new_set) old in (collect l, old).
Definition remove_remaining_default_rules {T} {R : Rule T} (s : iset T) : iset T :=
  retain (fun rule => negb (rule_default rule)) s.

(** One kind other than the overrides. *)
Definition update_kind {T} {R : Rule T} (old new_ : iset T) : iset T :=
  let '(new_, old) := copy_rules_state new_ old in
  extend (remove_remaining_default_rules old) (entries new_).

(** The overrides: the master rule goes first. *)
Definition update_override (old new_ : iset ConditionalPushRule) :
    comp False (iset ConditionalPushRule) :=
  let '(new_, old) := copy_rules_state new_ old in
  let old := remove_remaining_default_rules old in
  let '(master_rule, new_) := shift_take new_ ".m.rule.master" in
  old ← match master_rule with
        | Some master_rule =>
            let '(pos, old) := insert_full old master_rule in
            match move_index old pos 0 with Some old => Done old | None => Panic end
        | None => Done old
        end;
  Done (extend old (entries new_)).

Definition update_with_server_default (new_server_default rs : Ruleset) : comp False Ruleset :=
  override_ ← update_override (rs_override rs) (rs_override new_server_default);
  Done {| rs_content := update_kind (rs_content rs) (rs_content new_server_default);
          rs_postcontent := update_kind (rs_postcontent rs) (rs_postcontent new_server_default);
          rs_override := override_;
          rs_room := update_kind (rs_room rs) (rs_room new_server_default);
          rs_sender := update_kind (rs_sender rs) (rs_sender new_server_default);
          rs_underride := update_kind (rs_underride rs) (rs_underride new_server_default);
          rs_extra := rs_extra rs |}.
End defaults.
