(* ===== verification/RulesetSpec.v ===== *)
(** * What the operations on push rulesets do

    Where [insert] puts a rule, which rule [get_match] picks, and what
    [update_with_server_default] leaves of the user's rules and of their order. *)
From Stdlib Require Import Ascii.
From S2P Require Import Prelude RustStr Decimal Identifiers Json PushMatch FlatJson Push Ruleset PushDefaults.
Open Scope string_scope.

Section lists.
Context {T : Type} {R : Rule T}.
Implicit Types (l : list T) (r : T).

Abbreviation ids l := (rule_id <$> l).

Lemma position_Some id l i :
  position id l = Some i -> exists r, l !! i = Some r /\ rule_id r = id.
Proof.
  unfold position. destruct (list_find _ l) as [[j r]|] eqn:E; [|done]. intros [= <-].
  apply list_find_Some in E as (H1 & H2 & _). eauto.
Qed.

Lemma position_None id l : position id l = None <-> id ∉ ids l.
Proof.
  unfold position. rewrite fmap_None, list_find_None, Forall_forall, list_elem_of_fmap. naive_solver.
Qed.

Lemma position_lookup id l i r :
  NoDup (ids l) -> l !! i = Some r -> rule_id r = id -> position id l = Some i.
Proof.
  intros Hnd Hi <-. destruct (position (rule_id r) l) as [j|] eqn:E.
  - apply position_Some in E as (r' & Hj & Hid). f_equal.
    eapply NoDup_lookup; [exact Hnd| |]; rewrite list_lookup_fmap; [by rewrite Hj|by rewrite Hi; cbn; rewrite Hid].
  - apply position_None in E. destruct E. apply list_elem_of_lookup_2 in Hi. by apply list_elem_of_fmap_2.
Qed.

Lemma position_app_l id l l' i : position id l = Some i -> position id (l ++ l')%list = Some i.
Proof.
  unfold position. destruct (list_find _ l) as [[j r]|] eqn:E; [|done]. intros [= <-].
  by rewrite (list_find_app_l _ _ _ _ _ E).
Qed.

Lemma position_app_r id l l' : id ∉ ids l -> position id (l ++ l')%list = Nat.add (length l) <$> position id l'.
Proof.
  intros H%position_None. unfold position in *. apply fmap_None in H. rewrite list_find_app_r by done.
  destruct (list_find _ l') as [[j r]|]; cbn; [|done]. f_equal. lia.
Qed.

Lemma position_app_not id l r : rule_id r <> id -> position id (l ++ [r])%list = position id l.
Proof.
  intros Hne. destruct (position id l) as [i|] eqn:E; [by apply position_app_l|].
  apply position_None. apply position_None in E. rewrite fmap_app, elem_of_app. set_solver.
Qed.

Lemma position_cons r l : position (rule_id r) (r :: l) = Some 0%nat.
Proof. unfold position. cbn. by rewrite decide_True. Qed.

Lemma entry_Some id l r : NoDup (ids l) -> entry id l = Some r <-> r ∈ l /\ rule_id r = id.
Proof.
  intros Hnd. unfold entry. split.
  - destruct (list_find _ l) as [[j r']|] eqn:E; [|done]. intros [= <-].
    apply list_find_Some in E as (H1 & H2 & _). split; [by eapply list_elem_of_lookup_2|done].
  - intros [Hin Hid]. destruct (list_find_elem_of (fun r => rule_id r = id) l r Hin Hid) as [[j r'] E].
    rewrite E. cbn. f_equal. apply list_find_Some in E as (H1 & H2 & _).
    apply list_elem_of_lookup in Hin as [i Hi].
    assert (i = j) as ->; [|congruence].
    eapply NoDup_lookup; [exact Hnd| |]; rewrite list_lookup_fmap; [by rewrite Hi|by rewrite H1; cbn; rewrite H2, Hid].
Qed.

Lemma entry_None id l : entry id l = None <-> id ∉ ids l.
Proof.
  unfold entry. rewrite fmap_None, list_find_None, Forall_forall, list_elem_of_fmap. naive_solver.
Qed.

Lemma entry_perm id l l' : NoDup (ids l) -> l ≡ₚ l' -> entry id l = entry id l'.
Proof.
  intros Hnd Hp. assert (NoDup (ids l')) as Hnd' by by rewrite <- Hp.
  apply option_eq. intros r. rewrite !entry_Some by done. by rewrite Hp.
Qed.

(** *** Moving *)

Lemma moved_last l r p : (p <= length l)%nat -> moved (length l) p (l ++ [r])%list = (take p l ++ r :: drop p l)%list.
Proof.
  intros Hp. unfold moved. rewrite list_lookup_middle by done. cbn zeta.
  rewrite delete_middle, app_nil_r. done.
Qed.

Lemma moved_forward l1 l2 l3 r :
  moved (length l1) (length l1 + length l2) (l1 ++ r :: l2 ++ l3)%list = (l1 ++ l2 ++ r :: l3)%list.
Proof.
  unfold moved. rewrite list_lookup_middle by done. cbn zeta. rewrite delete_middle, app_assoc.
  rewrite take_app_length', drop_app_length' by (by rewrite length_app). by rewrite <- app_assoc.
Qed.

(** *** Removing by swapping *)

Lemma swap_removed_snoc i l z :
  swap_removed i (l ++ [z])%list = if decide (i = length l) then l else <[i := z]> l.
Proof.
  unfold swap_removed. rewrite last_snoc, length_app. cbn [length].
  replace (length l + 1 - 1)%nat with (length l) by lia. rewrite take_app_length. done.
Qed.

Lemma swap_removed_perm i l r : l !! i = Some r -> r :: swap_removed i l ≡ₚ l.
Proof.
  destruct l as [|z l _] using rev_ind; [done|]. rewrite swap_removed_snoc. intros Hi. case_decide as E.
  - subst i. rewrite list_lookup_middle in Hi by done. injection Hi as ->. by rewrite Permutation_app_comm.
  - apply lookup_lt_Some in Hi as Hlt. rewrite length_app in Hlt. cbn in Hlt.
    rewrite lookup_app_l in Hi by lia. apply list_elem_of_split_length in Hi as (l1 & l2 & -> & ->).
    rewrite insert_app_r_alt, Nat.sub_diag by lia. cbn. rewrite <- Permutation_middle.
    rewrite (Permutation_app_comm _ [z]). cbn. rewrite <- Permutation_middle. constructor.
Qed.

Lemma swap_removed_app i l1 l2 :
  (length l1 <= i < length l1 + length l2)%nat ->
  swap_removed i (l1 ++ l2)%list = (l1 ++ swap_removed (i - length l1) l2)%list.
Proof.
  intros Hi. destruct l2 as [|z l2 _] using rev_ind; [cbn in Hi; lia|].
  rewrite app_assoc, !swap_removed_snoc, length_app. rewrite length_app in Hi. cbn in Hi.
  case_decide; case_decide; try lia; [done|]. by rewrite insert_app_r_alt by lia.
Qed.

(** The last rule moved to the front: what taking the first of a list does. *)
Definition rotated l : list T := match last l with Some z => z :: take (length l - 1) l | None => [] end.

Lemma swap_removed_head r l : swap_removed 0 (r :: l) = rotated l.
Proof.
  destruct l as [|z l _] using rev_ind; [done|]. unfold rotated. rewrite last_snoc, app_comm_cons, swap_removed_snoc.
  cbn. rewrite length_app. cbn. replace (length l + 1 - 1)%nat with (length l) by lia. by rewrite take_app_length.
Qed.
End lists.

(** ** [insert_and_move_rule] *)

Section insert.
Context {IS : IndexSetLib} {T : Type} {R : Rule T}.

(** The position asked for, among the rules there are. *)
Definition asked_position (l : list T) (default_position : nat) (after before : option string) :
    result InsertPushRuleError nat :=
  to ← match after with
       | Some id => idx ← ok_or (position id l) UnknownRuleId; Ok (idx + 1)%nat
       | None => Ok default_position
       end;
  match before with
  | Some id => idx ← ok_or (position id l) UnknownRuleId;
               if Nat.ltb idx to then Err BeforeHigherThanAfter else Ok idx
  | None => Ok to
  end.

(** What [insert_and_move_rule] does, on the lists of rules. *)
Lemma insert_and_move_rule_run (s : iset T) rule default_position after before :
  let l := replaced rule (entries s) in
  let from := default (length (entries s)) (position (rule_id rule) (entries s)) in
  let '(res, s') := insert_and_move_rule s rule default_position after before in
  match asked_position l default_position after before with
  | Err e => res = Fail e /\ entries s' = l
  | Ok to =>
      if negb (bool_decide (is_Some (position (rule_id rule) (entries s))))
         || bool_decide (is_Some after) || bool_decide (is_Some before)
      then if decide (from < length l /\ to < length l)%nat
           then res = Done tt /\ entries s' = moved from to l
           else res = Panic /\ entries s' = l
      else res = Done tt /\ entries s' = l
  end.
Proof.
  intros l from. unfold insert_and_move_rule. pose proof (replace_full_spec s rule) as Hr.
  destruct (replace_full s rule) as [[i old] s1]. destruct Hr as (Hs1 & -> & ->). fold l from in Hs1 |- *.
  assert (bool_decide (is_Some (entry (rule_id rule) (entries s))) =
          bool_decide (is_Some (position (rule_id rule) (entries s)))) as ->.
  { apply bool_decide_ext. unfold entry, position. by rewrite !fmap_is_Some. }
  cbn zeta. unfold asked_position.
  match goal with |- context [match ?x with Ok _ => _ | Err _ => (Fail _, _) end] => set (to := x) end.
  match goal with |- context [match ?x with Ok to => if _ then if _ then _ else _ else _ | Err _ => _ end] =>
    assert (to = x) as <- end.
  { unfold to. destruct after as [a|], before as [b|]; by rewrite ?get_index_of_spec, ?Hs1. }
  destruct to as [to|e]; [|done]. destruct (negb _ || _ || _); [|done].
  pose proof (move_index_spec s1 from to) as Hm. rewrite Hs1 in Hm.
  case_decide; destruct (move_index s1 from to); cbn in Hm; try done. by injection Hm as ->.
Qed.

Lemma asked_position_app l r dp after before :
  after <> Some (rule_id r) -> before <> Some (rule_id r) ->
  asked_position (l ++ [r])%list dp after before = asked_position l dp after before.
Proof.
  intros Ha Hb. unfold asked_position.
  destruct after as [a|], before as [b|]; rewrite ?position_app_not by congruence; done.
Qed.

(** Inserting a rule whose id is new: an unknown or misplaced neighbour is
    an error; otherwise the rule is put right after [after], right before [before], or at
    the default position, with all other rules in their order.  It panics only when the
    default position is beyond the end. *)
Theorem insert_new_rule s (rule : T) default_position after before :
  rule_id rule ∉ rule_id <$> entries s -> after <> Some (rule_id rule) -> before <> Some (rule_id rule) ->
  let l := entries s in
  let '(res, s') := insert_and_move_rule s rule default_position after before in
  match asked_position l default_position after before with
  | Err e => res = Fail e
  | Ok p => if decide (p <= length l)%nat
            then res = Done tt /\ entries s' = (take p l ++ rule :: drop p l)%list
            else res = Panic
  end.
Proof.
  intros Hnew Ha Hb l. pose proof (insert_and_move_rule_run s rule default_position after before) as H.
  destruct (insert_and_move_rule s rule default_position after before) as [res s'].
  pose proof Hnew as Hpos. apply position_None in Hpos. cbn zeta in H. unfold replaced in H.
  rewrite Hpos in H. cbn [default from_option id] in H. rewrite asked_position_app in H by done. fold l in H.
  destruct (asked_position l default_position after before) as [p|e]; [|apply H].
  rewrite bool_decide_false in H by (by intros ?%is_Some_None). cbn [negb orb] in H.
  rewrite length_app in H. cbn in H. case_decide as Hd; case_decide; try lia; [|apply H].
  destruct H as [-> ->]. split; [done|]. by apply moved_last.
Qed.

(** Replacing a rule that stands before its new neighbour: with [before] it ends
    up after that neighbour, and with [after] naming the last rule the server panics. *)
Theorem replaced_rule_misplaced s (rule old b : T) l1 l2 l3 default_position :
  entries s = (l1 ++ old :: l2 ++ b :: l3)%list -> rule_id old = rule_id rule ->
  (default_position <= S (length l1 + length l2))%nat ->
  (let '(res, s') := insert_and_move_rule s rule default_position None (Some (rule_id b)) in
   res = Done tt /\ entries s' = (l1 ++ l2 ++ b :: rule :: l3)%list) /\
  (l3 = [] -> fst (insert_and_move_rule s rule default_position (Some (rule_id b)) None) = Panic).
Proof.
  intros Hl Hid Hdp. pose proof (entries_NoDup s) as Hnd. rewrite Hl in Hnd.
  assert (replaced rule (entries s) = (l1 ++ rule :: l2 ++ b :: l3)%list /\
          position (rule_id rule) (entries s) = Some (length l1)) as [Hr Hpos].
  { assert (position (rule_id rule) (entries s) = Some (length l1)) as Hpos.
    { rewrite Hl. eapply position_lookup; [done|by apply list_lookup_middle|done]. }
    split; [|done]. unfold replaced. rewrite Hpos, Hl, insert_app_r_alt, Nat.sub_diag by lia. done. }
  assert (position (rule_id b) (l1 ++ rule :: l2 ++ b :: l3)%list = Some (S (length l1 + length l2))) as Hb.
  { eapply position_lookup; [|rewrite app_comm_cons, app_assoc; apply list_lookup_middle|done].
    - rewrite !fmap_app, !fmap_cons in Hnd |- *. by rewrite <- Hid.
    - rewrite length_app. cbn. lia. }
  assert (length (l1 ++ rule :: l2 ++ b :: l3)%list = S (S (length l1 + length l2 + length l3))) as Hlen.
  { rewrite length_app. cbn. rewrite length_app. cbn. lia. }
  split.
  - pose proof (insert_and_move_rule_run s rule default_position None (Some (rule_id b))) as H.
    destruct (insert_and_move_rule s rule default_position None (Some (rule_id b))) as [res s'].
    cbn zeta in H. rewrite Hr, Hpos in H. unfold asked_position in H. rewrite Hb in H.
    cbn [mbind result_bind ok_or default from_option id] in H.
    destruct (Nat.ltb_spec (S (length l1 + length l2)) default_position); [lia|].
    rewrite (bool_decide_true (is_Some (Some (rule_id b)))), orb_true_r, Hlen, decide_True in H by eauto with lia.
    destruct H as [-> ->]. split; [done|].
    change (l2 ++ b :: l3)%list with (l2 ++ [b] ++ l3)%list. rewrite (app_assoc l2 [b] l3).
    replace (S (length l1 + length l2)) with (length l1 + length (l2 ++ [b])%list)%nat by (rewrite length_app; cbn; lia).
    rewrite moved_forward. by rewrite <- app_assoc.
  - intros ->. pose proof (insert_and_move_rule_run s rule default_position (Some (rule_id b)) None) as H.
    destruct (insert_and_move_rule s rule default_position (Some (rule_id b)) None) as [res s'].
    cbn zeta in H. rewrite Hr, Hpos in H. unfold asked_position in H. rewrite Hb in H.
    cbn [mbind result_bind ok_or default from_option id] in H.
    rewrite (bool_decide_true (is_Some (Some (rule_id b)))), orb_true_r, Hlen, decide_False in H by (eauto; cbn; lia).
    apply H.
Qed.
End insert.

(** ** [update_with_server_default] *)

Section update.
Context {IS : IndexSetLib} {T : Type} {R : Rule T}.
Implicit Types (l old : list T).

Lemma filter_all (P : T -> Prop) `{!forall r, Decision (P r)} l : (forall r, r ∈ l -> P r) -> filter P l = l.
Proof.
  intros Hl. induction l as [|r l IH]; [done|]. rewrite filter_cons_True by (apply Hl; left).
  f_equal. apply IH. intros. apply Hl. by right.
Qed.

Lemma filter_ids_NoDup (P : T -> Prop) `{!forall r, Decision (P r)} l :
  NoDup (rule_id <$> l) -> NoDup (rule_id <$> filter P l).
Proof.
  induction l as [|r l IH]; [done|]. rewrite fmap_cons. intros [Hr Hnd]%NoDup_cons. rewrite filter_cons.
  case_decide; [|by apply IH]. rewrite fmap_cons. constructor; [|by apply IH].
  intros (r' & E & [_ Hin]%list_elem_of_filter)%list_elem_of_fmap. apply Hr. rewrite E. by apply list_elem_of_fmap_2.
Qed.

Lemma swap_take_perm (s : iset T) id :
  let '(taken, s') := swap_take s id in
  taken = entry id (entries s) /\ entries s' ≡ₚ filter (fun r => rule_id r <> id) (entries s).
Proof.
  pose proof (swap_take_spec s id) as H. destruct (swap_take s id) as [taken s'].
  destruct H as [-> ->]. split; [done|]. pose proof (entries_NoDup s) as Hnd.
  destruct (position id (entries s)) as [i|] eqn:E.
  - apply position_Some in E as (r & Hi & <-). pose proof (swap_removed_perm _ _ _ Hi) as Hp.
    rewrite <- Hp in Hnd. rewrite fmap_cons in Hnd. apply NoDup_cons in Hnd as [Hr _]. rewrite <- Hp at 2.
    rewrite filter_cons_False by (intros H; by apply H). rewrite filter_all; [done|].
    intros x Hx E. apply Hr. rewrite <- E. by apply list_elem_of_fmap_2.
  - apply position_None in E. rewrite filter_all; [done|].
    intros x Hx <-. apply E. by apply list_elem_of_fmap_2.
Qed.

(** A new rule with what the user changed about the old one. *)
Definition copy_state old (new_rule : T) : T :=
  match entry (rule_id new_rule) old with
  | Some old_rule => with_actions (rule_actions old_rule) (with_enabled (rule_enabled old_rule) new_rule)
  | None => new_rule
  end.

Lemma copy_state_id old r : rule_id (copy_state old r) = rule_id r.
Proof. unfold copy_state. destruct (entry _ _); [|done]. by rewrite with_actions_id, with_enabled_id. Qed.
Lemma copy_state_default old r : rule_default (copy_state old r) = rule_default r.
Proof. unfold copy_state. destruct (entry _ _); [|done]. by rewrite with_actions_default, with_enabled_default. Qed.
Lemma copy_state_ids old l : rule_id <$> map (copy_state old) l = rule_id <$> l.
Proof. induction l as [|r l IH]; [done|]. cbn. rewrite copy_state_id. f_equal. exact IH. Qed.

Lemma entry_filter (P : T -> Prop) `{!forall r, Decision (P r)} l id :
  NoDup (rule_id <$> l) -> (forall r, rule_id r = id -> P r) -> entry id (filter P l) = entry id l.
Proof.
  intros Hnd HP. apply option_eq. intros r. rewrite !entry_Some by auto using filter_ids_NoDup.
  rewrite list_elem_of_filter. naive_solver.
Qed.

Lemma copy_loop_spec new_rules : forall s : iset T,
  NoDup (rule_id <$> new_rules) ->
  let '(l, s') := copy_loop new_rules s in
  l = map (copy_state (entries s)) new_rules /\
  entries s' ≡ₚ filter (fun r => rule_id r ∉ rule_id <$> new_rules) (entries s).
Proof.
  induction new_rules as [|n new_rules IH]; intros s Hnd; cbn [copy_loop].
  { split; [done|]. rewrite filter_all; [done|]. intros x _. apply not_elem_of_nil. }
  rewrite fmap_cons in Hnd. apply NoDup_cons in Hnd as [Hn Hnd].
  pose proof (swap_take_perm s (rule_id n)) as Ht. destruct (swap_take s (rule_id n)) as [taken s1].
  destruct Ht as [-> Hs1]. specialize (IH s1 Hnd). destruct (copy_loop new_rules s1) as [l s2].
  destruct IH as [-> Hs2]. split.
  - cbn [map]. f_equal. apply map_ext_in. intros n' Hn'%list_elem_of_In. unfold copy_state.
    rewrite (entry_perm _ _ _ (entries_NoDup s1) Hs1), entry_filter; [done|apply entries_NoDup|].
    intros r -> E. apply Hn. rewrite <- E. by apply list_elem_of_fmap_2.
  - rewrite Hs2, Hs1, list_filter_filter. apply Permutation_refl'. apply list_filter_iff.
    intros r. rewrite fmap_cons, elem_of_cons. naive_solver.
Qed.

Lemma extend_fresh (s : iset T) l :
  NoDup (rule_id <$> l) -> (forall r, r ∈ l -> rule_id r ∉ rule_id <$> entries s) ->
  entries (extend s l) = (entries s ++ l)%list.
Proof.
  revert s. induction l as [|r l IH]; intros s Hnd Hf; [by rewrite app_nil_r|].
  rewrite fmap_cons in Hnd. apply NoDup_cons in Hnd as [Hr Hnd]. unfold extend. cbn [foldl].
  pose proof (insert_full_spec s r) as H. destruct (insert_full s r) as [i s1]. cbn [snd].
  destruct H as [H1 _]. rewrite (proj2 (position_None _ _) (Hf r ltac:(left))) in H1.
  fold (extend s1 l). rewrite IH; [by rewrite H1, <- app_assoc|done|].
  intros r' Hr'. rewrite H1, fmap_app, elem_of_app. intros [Hin|Hin].
  - apply (Hf r'); [by right|done].
  - apply list_elem_of_singleton in Hin as E. apply Hr. rewrite <- E. by apply list_elem_of_fmap_2.
Qed.

Lemma collect_entries l : NoDup (rule_id <$> l) -> entries (collect l : iset T) = l.
Proof. intros Hnd. unfold collect. rewrite extend_fresh; rewrite ?entries_new; [done|done|]. intros r _. apply not_elem_of_nil. Qed.

(** The user's rules of a set when the current predefined ones are [new_]. *)
Definition user_rules (new_ : list T) l : list T :=
  filter (fun r => rule_default r = false /\ rule_id r ∉ rule_id <$> new_) l.

Lemma retained_user_rules (s : iset T) (new_ l : list T) :
  entries s ≡ₚ filter (fun r => rule_id r ∉ rule_id <$> new_) l ->
  entries (remove_remaining_default_rules s) ≡ₚ user_rules new_ l.
Proof.
  intros Hs. unfold remove_remaining_default_rules, user_rules. rewrite retain_spec, Hs, list_filter_filter.
  apply Permutation_refl', list_filter_iff. intros r. rewrite negb_true_iff. tauto.
Qed.

Lemma copy_rules_state_spec (new_ s : iset T) :
  let '(new', s') := copy_rules_state new_ s in
  entries new' = map (copy_state (entries s)) (entries new_) /\
  entries s' ≡ₚ filter (fun r => rule_id r ∉ rule_id <$> entries new_) (entries s).
Proof.
  unfold copy_rules_state. pose proof (copy_loop_spec (entries new_) s (entries_NoDup new_)) as H.
  destruct (copy_loop (entries new_) s) as [l s']. destruct H as [-> Hs]. split; [|done].
  apply collect_entries. rewrite copy_state_ids. apply entries_NoDup.
Qed.

Lemma update_kind_spec (s new_ : iset T) :
  exists us, us ≡ₚ user_rules (entries new_) (entries s) /\
    entries (update_kind s new_) = (us ++ map (copy_state (entries s)) (entries new_))%list.
Proof.
  unfold update_kind. pose proof (copy_rules_state_spec new_ s) as H.
  destruct (copy_rules_state new_ s) as [new' s']. destruct H as [Hn Hs].
  apply retained_user_rules in Hs as Hu. eexists. split; [exact Hu|]. rewrite <- Hn. apply extend_fresh.
  - apply entries_NoDup.
  - intros r Hr. rewrite Hu. intros (r' & E & [[_ Hr'] _]%list_elem_of_filter)%list_elem_of_fmap.
    apply Hr'. rewrite <- E, <- (copy_state_ids (entries s)). rewrite <- Hn. by apply list_elem_of_fmap_2.
Qed.

(** Taking all rules at the end of a set leaves the others in their order. *)
Lemma copy_loop_tail new_rules : forall (s : iset T) p t,
  entries s = (p ++ t)%list -> rule_id <$> new_rules ≡ₚ rule_id <$> t ->
  entries (snd (copy_loop new_rules s)) = p.
Proof.
  induction new_rules as [|n new_rules IH]; intros s p t Hs Hp; cbn [copy_loop].
  { apply Permutation_nil_l in Hp. symmetry in Hp. apply fmap_nil_inv in Hp as ->. by rewrite app_nil_r in Hs. }
  pose proof (swap_take_spec s (rule_id n)) as Ht. destruct (swap_take s (rule_id n)) as [taken s1].
  destruct Ht as [_ Hs1]. pose proof (entries_NoDup s) as Hnd. rewrite Hs in Hnd, Hs1.
  assert (rule_id n ∈ rule_id <$> t) as Hin by (rewrite <- Hp, fmap_cons; left).
  apply list_elem_of_fmap in Hin as (r & Hr & [i Hi]%list_elem_of_lookup).
  assert (position (rule_id n) (p ++ t)%list = Some (length p + i)%nat) as Hpos.
  { eapply position_lookup; [done| |done]. rewrite lookup_app_r by lia.
    by replace (length p + i - length p)%nat with i by lia. }
  apply lookup_lt_Some in Hi as Hlt. rewrite Hpos, swap_removed_app in Hs1 by lia.
  replace (length p + i - length p)%nat with i in Hs1 by lia.
  destruct (copy_loop new_rules s1) as [l s2] eqn:E. cbn [snd].
  specialize (IH s1 p (swap_removed i t) Hs1). rewrite E in IH. apply IH.
  pose proof (swap_removed_perm _ _ _ Hi) as Hsp. rewrite <- Hsp, !fmap_cons, Hr in Hp. by apply Permutation_cons_inv in Hp.
Qed.

(** Taking the first rule too turns the others over: the last comes first. *)
Lemma copy_loop_rotates (s : iset T) m ds m0 us ds0 :
  entries s = (m0 :: us ++ ds0)%list -> rule_id m = rule_id m0 -> rule_id <$> ds = rule_id <$> ds0 ->
  entries (snd (copy_loop (m :: ds) s)) = rotated us.
Proof.
  intros Hs Hm Hds. cbn [copy_loop].
  pose proof (swap_take_spec s (rule_id m)) as Ht. destruct (swap_take s (rule_id m)) as [taken s1].
  destruct Ht as [_ Hs1]. rewrite Hs, Hm, position_cons, swap_removed_head in Hs1.
  destruct (copy_loop ds s1) as [l s2] eqn:E. cbn [snd]. assert (s2 = snd (copy_loop ds s1)) as -> by by rewrite E.
  clear E. destruct ds0 as [|d ds0 _] using rev_ind.
  { apply fmap_nil_inv in Hds as ->. by rewrite app_nil_r in Hs1. }
  rewrite app_assoc in Hs1. unfold rotated in Hs1. rewrite last_snoc, length_app in Hs1. cbn in Hs1.
  replace (length (us ++ ds0)%list + 1 - 1)%nat with (length (us ++ ds0)%list) in Hs1 by lia.
  rewrite take_app_length in Hs1. rewrite fmap_app in Hds.
  apply fmap_app_inv in Hds as (ds1 & dl & E1 & E2 & ->).
  symmetry in E2. apply (fmap_cons_inv rule_id) in E2 as (d' & dl' & E2 & E3 & ->). symmetry in E3.
  apply fmap_nil_inv in E3 as ->.
  assert (forall a b (x : iset T), snd (copy_loop (a ++ b)%list x) = snd (copy_loop b (snd (copy_loop a x)))) as Happ.
  { clear. intros a b. induction a as [|y a IH]; intros x; [done|]. cbn. destruct (swap_take x (rule_id y)) as [? x1].
    specialize (IH x1). destruct (copy_loop (a ++ b)%list x1), (copy_loop a x1). done. }
  rewrite Happ. set (s3 := snd (copy_loop ds1 s1)).
  assert (entries s3 = d :: us) as Hs3.
  { apply (copy_loop_tail ds1 s1 (d :: us) ds0); [done|by rewrite E1]. }
  cbn [copy_loop]. pose proof (swap_take_spec s3 (rule_id d')) as Ht. destruct (swap_take s3 (rule_id d')) as [taken' s4].
  destruct Ht as [_ Hs4]. cbn [snd]. rewrite Hs4, Hs3, <- E2, position_cons. apply swap_removed_head.
Qed.
End update.

(** The override rules after an update, from the old set without the predefined rules. *)
Section override.
Context {IS : IndexSetLib}.
Implicit Types (s : iset ConditionalPushRule).

Definition master_id : string := ".m.rule.master".

Lemma update_override_run s (new_ : iset ConditionalPushRule) m ds :
  entries new_ = m :: ds -> rule_id m = master_id ->
  let old := remove_remaining_default_rules (snd (copy_loop (entries new_) s)) in
  exists s', update_override s new_ = Done s' /\
    entries s' = (copy_state (entries s) m :: entries old ++ map (copy_state (entries s)) ds)%list.
Proof.
  intros Hnew Hm old. unfold update_override, copy_rules_state in *.
  pose proof (entries_NoDup new_) as Hnd. pose proof (copy_loop_spec (entries new_) s Hnd) as H.
  destruct (copy_loop (entries new_) s) as [l s1] eqn:E. cbn [snd] in old. destruct H as [Hl Hs1].
  pose proof (retained_user_rules s1 _ _ Hs1) as Hu. fold old in Hu |- *.
  set (cs := copy_state (entries s)) in *.
  assert (forall r : ConditionalPushRule, rule_id r ∈ rule_id <$> l -> rule_id r ∉ rule_id <$> entries old) as Hfresh.
  { intros r Hr. rewrite Hu. intros (r' & Er & [[_ Hr'] _]%list_elem_of_filter)%list_elem_of_fmap.
    apply Hr'. rewrite <- Er. rewrite Hl in Hr. unfold cs in Hr. by rewrite copy_state_ids in Hr. }
  assert (NoDup (rule_id <$> l)) as Hndl by (rewrite Hl; unfold cs; by rewrite copy_state_ids).
  assert (l = cs m :: map cs ds) as Hl' by by rewrite Hl, Hnew.
  pose proof (shift_take_spec (collect l : iset ConditionalPushRule) master_id) as Hst.
  fold master_id. destruct (shift_take (collect l) master_id) as [taken new'].
  rewrite collect_entries in Hst by done. assert (rule_id (cs m) = master_id) as Hid by (rewrite <- Hm; apply copy_state_id).
  rewrite Hl', <- Hid in Hst. unfold entry in Hst. rewrite position_cons in Hst. cbn in Hst.
  rewrite decide_True in Hst by done. destruct Hst as [Htaken Hnew']. change (taken = Some (cs m)) in Htaken. subst taken.
  cbn in Hnew'.
  pose proof (insert_full_spec old (cs m)) as Hi. destruct (insert_full old (cs m)) as [pos old1].
  rewrite (proj2 (position_None _ _)) in Hi by (apply Hfresh; rewrite Hl'; left). destruct Hi as [Hi ->]. cbn [default].
  pose proof (move_index_spec old1 (length (entries old)) 0) as Hmv. rewrite Hi in Hmv.
  rewrite decide_True in Hmv by (rewrite length_app; cbn; lia). cbn [from_option] in *.
  rewrite moved_last in Hmv by lia.
  unfold id in *. destruct (move_index old1 (length (entries old)) 0) as [old2|]; [|done]. injection Hmv as Hmv.
  eexists. split; [reflexivity|]. rewrite Hl' in Hndl. rewrite fmap_cons in Hndl. apply NoDup_cons in Hndl as [Hn1 Hn2].
  rewrite drop_0 in Hmv. rewrite extend_fresh, Hmv, Hnew'; [done|by rewrite Hnew'|].
  rewrite Hnew', Hmv. intros r Hr. rewrite fmap_cons, elem_of_cons. intros [Er|Hin].
  - apply Hn1. rewrite <- Er. by apply list_elem_of_fmap_2.
  - revert Hin. apply Hfresh. rewrite Hl', fmap_cons. right. by apply list_elem_of_fmap_2.
Qed.

Lemma update_override_spec s (new_ : iset ConditionalPushRule) m ds :
  entries new_ = m :: ds -> rule_id m = master_id ->
  exists s' us, update_override s new_ = Done s' /\ us ≡ₚ user_rules (m :: ds) (entries s) /\
    entries s' = (copy_state (entries s) m :: us ++ map (copy_state (entries s)) ds)%list.
Proof.
  intros Hnew Hm. destruct (update_override_run s new_ m ds Hnew Hm) as (s' & E & Hs').
  eexists s', _. split; [done|]. split; [|done]. rewrite <- Hnew. apply retained_user_rules.
  pose proof (copy_loop_spec (entries new_) s (entries_NoDup new_)) as H.
  destruct (copy_loop (entries new_) s). apply H.
Qed.

Lemma rotated_elem {T} (l : list T) r : r ∈ rotated l -> r ∈ l.
Proof.
  unfold rotated. destruct l as [|z l _] using rev_ind; [done|]. rewrite last_snoc, length_app. cbn.
  replace (length l + 1 - 1)%nat with (length l) by lia. rewrite take_app_length. set_solver.
Qed.

(** On a set that a refresh has left, the next one turns the user's rules over. *)
Lemma update_override_rotates s (new_ : iset ConditionalPushRule) m ds m0 us ds0 :
  entries new_ = m :: ds -> rule_id m = master_id ->
  entries s = (m0 :: us ++ ds0)%list -> rule_id <$> m0 :: ds0 = rule_id <$> m :: ds ->
  (forall r, r ∈ us -> rule_default r = false) ->
  exists s', update_override s new_ = Done s' /\
    entries s' = (copy_state (entries s) m :: rotated us ++ map (copy_state (entries s)) ds)%list.
Proof.
  intros Hnew Hm Hs Hids Hus. destruct (update_override_run s new_ m ds Hnew Hm) as (s' & E & Hs').
  exists s'. split; [done|]. rewrite Hs'. do 2 f_equal. unfold remove_remaining_default_rules.
  rewrite !fmap_cons in Hids. injection Hids as Hm0 Hds.
  rewrite retain_spec, Hnew, (copy_loop_rotates s m ds m0 us ds0) by done.
  apply filter_all. intros r Hr%rotated_elem. by rewrite Hus.
Qed.
End override.

(** ** The refresh of a stored ruleset *)

Section refresh.
Context {IS : IndexSetLib}.

Definition default_overrides (user_id : string) : list ConditionalPushRule :=
  [suppress_notices; invite_for_me user_id; member_event; is_user_mention user_id;
   contains_display_name; is_room_mention; tombstone; reaction; server_acl; suppress_edits; poll_response].

Lemma server_default_overrides user_id :
  entries (rs_override (server_default user_id)) = master :: default_overrides user_id.
Proof.
  apply collect_entries, (bool_decide_unpack _). by vm_compute.
Qed.

(** A kind after a refresh: the user's rules, then the predefined ones in their order
    with what the user changed about them. *)
Definition refreshed {T} {R : Rule T} (new_ old l : list T) : Prop :=
  exists us, us ≡ₚ user_rules new_ old /\ l = (us ++ map (copy_state old) new_)%list.

(** C36: refreshing any stored ruleset with the predefined rules of any user never
    fails; no rule of the user is lost or changed, every current predefined rule is
    there with the user's changes, no other predefined rule is, and the master rule
    comes first. *)
Theorem refresh_keeps_user_rules user_id rs :
  exists rs', update_with_server_default (server_default user_id) rs = Done rs' /\
    (exists us, us ≡ₚ user_rules (master :: default_overrides user_id) (entries (rs_override rs)) /\
      let cs := copy_state (entries (rs_override rs)) in
      entries (rs_override rs') = (cs master :: us ++ map cs (default_overrides user_id))%list) /\
    refreshed [] (entries (rs_content rs)) (entries (rs_content rs')) /\
    refreshed [] (entries (rs_room rs)) (entries (rs_room rs')) /\
    refreshed [] (entries (rs_sender rs)) (entries (rs_sender rs')) /\
    refreshed [unsubscribed_thread; subscribed_thread] (entries (rs_postcontent rs))
      (entries (rs_postcontent rs')) /\
    refreshed [call; encrypted_room_one_to_one; room_one_to_one; message; encrypted;
               poll_start_one_to_one; poll_start; poll_end_one_to_one; poll_end]
      (entries (rs_underride rs)) (entries (rs_underride rs')) /\
    rs_extra rs' = rs_extra rs.
Proof.
  destruct (update_override_spec (rs_override rs) _ _ _ (server_default_overrides user_id) eq_refl)
    as (s' & us & E & Hus & Hs').
  unfold update_with_server_default. rewrite E. eexists. split; [reflexivity|]. cbn [rs_override rs_content rs_room rs_sender rs_postcontent rs_underride].
  split; [eauto|].
  assert (forall T (R : Rule T) (s new_ : iset T) l, entries new_ = l -> refreshed l (entries s) (entries (update_kind s new_))) as H.
  { intros T R s new_ l <-. apply update_kind_spec. }
  do 5 (split; [apply H; first [apply entries_new|apply collect_entries, (bool_decide_unpack _); by vm_compute]|]).
  done.
Qed.

Lemma user_rules_elem {T} {R : Rule T} (new_ l : list T) r :
  r ∈ user_rules new_ l <-> (rule_default r = false /\ rule_id r ∉ rule_id <$> new_) /\ r ∈ l.
Proof. unfold user_rules. by rewrite list_elem_of_filter. Qed.

Lemma user_rules_refreshed {T} {R : Rule T} (m : T) (ds us old : list T) :
  (forall r, r ∈ us -> rule_default r = false /\ rule_id r ∉ rule_id <$> m :: ds) ->
  user_rules (m :: ds) (copy_state old m :: us ++ map (copy_state old) ds)%list = us.
Proof.
  intros Hus. unfold user_rules. rewrite filter_cons_False.
  2:{ intros [_ H]. apply H. rewrite copy_state_id, fmap_cons. left. }
  rewrite filter_app, (filter_all _ us) by done. rewrite <- (app_nil_r us) at 2. f_equal.
  enough (forall l, (forall r, r ∈ l -> r ∈ ds) ->
    filter (fun r => rule_default r = false /\ rule_id r ∉ rule_id <$> m :: ds) (map (copy_state old) l) = []) as H by auto.
  induction l as [|r l IH]; intros Hl; [done|]. cbn [map]. rewrite filter_cons_False.
  - apply IH. intros. apply Hl. by right.
  - intros [_ H]. apply H. rewrite copy_state_id, fmap_cons. right. apply list_elem_of_fmap_2, Hl. left.
Qed.

(** Every refresh after the first moves the user's last override rule to the front
    of the user's rules and so changes their priority. *)
Lemma refresh_rotates_user_rules user_id rs rs1 rs1' :
  let defaults := master :: default_overrides user_id in
  update_with_server_default (server_default user_id) rs = Done rs1 ->
  entries (rs_override rs1') = entries (rs_override rs1) ->
  exists rs2, update_with_server_default (server_default user_id) rs1' = Done rs2 /\
    user_rules defaults (entries (rs_override rs2)) =
    rotated (user_rules defaults (entries (rs_override rs1))).
Proof.
  intros defaults. pose proof (server_default_overrides user_id) as Hd.
  destruct (update_override_spec (rs_override rs) _ _ _ Hd eq_refl) as (s1 & us & E & Hus & Hs1).
  unfold update_with_server_default at 1. rewrite E. intros [= <-]. cbn [rs_override]. intros Hsame.
  assert (forall r, r ∈ us -> rule_default r = false /\ rule_id r ∉ rule_id <$> defaults) as Hu.
  { intros r Hr. rewrite Hus in Hr. by apply user_rules_elem in Hr as [? _]. }
  rewrite Hs1 in Hsame.
  destruct (update_override_rotates (rs_override rs1') _ _ _ (copy_state (entries (rs_override rs)) master) us
              (map (copy_state (entries (rs_override rs))) (default_overrides user_id)) Hd eq_refl Hsame) as (s2 & E2 & Hs2).
  { rewrite !fmap_cons, copy_state_ids, copy_state_id. done. }
  { intros r Hr. apply Hu, Hr. }
  unfold update_with_server_default. rewrite E2. eexists. split; [reflexivity|]. cbn [rs_override].
  rewrite Hs2, Hs1. unfold defaults in *. rewrite !user_rules_refreshed; [done|done|].
  intros r Hr%rotated_elem. by apply Hu.
Qed.

(** *** Looking a rule up after a refresh *)

(** A kind after a refresh, whatever the order. *)
Definition merged {T} {R : Rule T} (new_ old l : list T) : Prop :=
  l ≡ₚ (user_rules new_ old ++ map (copy_state old) new_)%list.

Lemma merged_new {T} {R : Rule T} (new_ old l : list T) n :
  NoDup (rule_id <$> l) -> merged new_ old l -> n ∈ new_ -> entry (rule_id n) l = Some (copy_state old n).
Proof.
  intros Hnd Hm Hn. unfold merged in Hm. apply entry_Some; [done|]. split; [|apply copy_state_id]. rewrite Hm. apply elem_of_app. right.
  by apply list_elem_of_fmap_2.
Qed.

Lemma merged_user {T} {R : Rule T} (new_ old l : list T) r :
  NoDup (rule_id <$> l) -> merged new_ old l -> r ∈ old -> rule_default r = false ->
  rule_id r ∉ rule_id <$> new_ -> entry (rule_id r) l = Some r.
Proof.
  intros Hnd Hm Hr Hd Hi. unfold merged in Hm. apply entry_Some; [done|]. split; [|done]. rewrite Hm. apply elem_of_app. left.
  by apply user_rules_elem.
Qed.

(** A rule of a refreshed kind is a predefined one or one of the user's. *)
Lemma merged_elem {T} {R : Rule T} (new_ old l : list T) r :
  merged new_ old l -> r ∈ l ->
  (exists n, n ∈ new_ /\ r = copy_state old n) \/
  (r ∈ old /\ rule_default r = false /\ rule_id r ∉ rule_id <$> new_).
Proof.
  unfold merged. intros Hm. rewrite Hm. intros [Hr|Hr]%elem_of_app.
  - apply user_rules_elem in Hr. right. tauto.
  - apply list_elem_of_fmap in Hr as (n & -> & Hn). left. eauto.
Qed.

(** The predefined rules of a user, by kind. *)
Definition default_underrides : list ConditionalPushRule :=
  [call; encrypted_room_one_to_one; room_one_to_one; message; encrypted; poll_start_one_to_one;
   poll_start; poll_end_one_to_one; poll_end].
Definition default_postcontent : list ConditionalPushRule := [unsubscribed_thread; subscribed_thread].

Record Refreshed (user_id : string) (rs rs' : Ruleset) : Prop := {
  rf_override : merged (master :: default_overrides user_id) (entries (rs_override rs)) (entries (rs_override rs'));
  rf_content : merged [] (entries (rs_content rs)) (entries (rs_content rs'));
  rf_room : merged [] (entries (rs_room rs)) (entries (rs_room rs'));
  rf_sender : merged [] (entries (rs_sender rs)) (entries (rs_sender rs'));
  rf_postcontent : merged default_postcontent (entries (rs_postcontent rs)) (entries (rs_postcontent rs'));
  rf_underride : merged default_underrides (entries (rs_underride rs)) (entries (rs_underride rs'));
  rf_extra : rs_extra rs' = rs_extra rs
}.

Lemma update_kind_merged {T} {R : Rule T} (s new_ : iset T) l :
  entries new_ = l -> merged l (entries s) (entries (update_kind s new_)).
Proof. intros <-. destruct (update_kind_spec s new_) as (us & Hus & ->). unfold merged. by rewrite Hus. Qed.

Lemma refresh_refreshed user_id rs :
  exists rs', update_with_server_default (server_default user_id) rs = Done rs' /\ Refreshed user_id rs rs'.
Proof.
  destruct (update_override_spec (rs_override rs) _ _ _ (server_default_overrides user_id) eq_refl)
    as (s' & us & E & Hus & Hs').
  unfold update_with_server_default. rewrite E. eexists. split; [reflexivity|].
  split; cbn [rs_override rs_content rs_room rs_sender rs_postcontent rs_underride rs_extra].
  - unfold merged. rewrite Hs', Hus. cbn [map]. by rewrite Permutation_middle.
  - apply update_kind_merged, entries_new.
  - apply update_kind_merged, entries_new.
  - apply update_kind_merged, entries_new.
  - apply update_kind_merged, collect_entries, (bool_decide_unpack _). by vm_compute.
  - apply update_kind_merged, collect_entries, (bool_decide_unpack _). by vm_compute.
  - done.
Qed.
End refresh.
