(* ===== verification/IndexSetModel.v ===== *)
(** * An index set and a matching library to evaluate the definitions with

    Lists without repeated ids satisfy the laws of [IndexSetLib]; glob matching by
    equality is enough of a [MatchLib] for patterns without wildcards. *)
From Stdlib Require Import Ascii.
From S2P Require Import Prelude RustStr Decimal Identifiers Json PushMatch FlatJson Push Ruleset PushDefaults RulesetSpec.
Open Scope string_scope.

Section lists.
Context {T : Type} {R : Rule T}.
Implicit Types (l : list T) (r : T).

Lemma replaced_NoDup r l : NoDup (rule_id <$> l) -> NoDup (rule_id <$> replaced r l).
Proof.
  intros Hnd. unfold replaced. destruct (position (rule_id r) l) as [i|] eqn:E.
  - apply position_Some in E as (r' & Hi & Hid). rewrite list_fmap_insert, list_insert_id; [done|].
    by rewrite list_lookup_fmap, Hi, <- Hid.
  - apply position_None in E. rewrite fmap_app. apply NoDup_app. split; [done|]. split; [|apply NoDup_singleton].
    intros x Hx Hr%list_elem_of_singleton. by subst.
Qed.

Lemma moved_perm from to l : moved from to l ≡ₚ l.
Proof.
  unfold moved. destruct (l !! from) as [r|] eqn:E; [|done]. cbn zeta.
  rewrite <- Permutation_middle, take_drop. symmetry. by apply delete_Permutation.
Qed.

Lemma delete_NoDup i l : NoDup (rule_id <$> l) -> NoDup (rule_id <$> delete i l).
Proof. intros Hnd. eapply sublist_NoDup; [exact Hnd|]. apply fmap_sublist, sublist_delete. Qed.

Lemma taken_NoDup i l : NoDup (rule_id <$> l) -> NoDup (rule_id <$> swap_removed i l).
Proof.
  intros Hnd. destruct (l !! i) as [r|] eqn:E.
  - apply swap_removed_perm in E. rewrite <- E in Hnd. rewrite fmap_cons in Hnd. by apply NoDup_cons in Hnd as [_ ?].
  - unfold swap_removed. destruct (last l) as [z|] eqn:El; [|done].
    assert (i <> length l - 1)%nat as Hne.
    { intros ->. rewrite last_lookup, Nat.sub_1_r in *. congruence. }
    rewrite decide_False by done. rewrite list_insert_ge.
    + eapply sublist_NoDup; [exact Hnd|]. apply fmap_sublist, sublist_take.
    + rewrite length_take. apply lookup_ge_None in E. lia.
Qed.
End lists.

Section model.
Definition list_set (T : Type) (R : Rule T) : Type := { l : list T | NoDup (rule_id <$> l) }.

Definition list_set_empty (T : Type) (R : Rule T) : list_set T R := [] ↾ NoDup_nil_2.
Definition list_set_replace (T : Type) (R : Rule T) (s : list_set T R) (r : T) : list_set T R :=
  replaced r (`s) ↾ replaced_NoDup r _ (proj2_sig s).
Definition list_set_insert (T : Type) (R : Rule T) (s : list_set T R) (r : T) : list_set T R :=
  match position (rule_id r) (`s) with Some _ => s | None => list_set_replace T R s r end.
Program Definition list_set_move (T : Type) (R : Rule T) (s : list_set T R) (from to : nat) : list_set T R :=
  moved from to (`s) ↾ _.
Next Obligation. intros T R [l Hl] from to. cbn. by rewrite moved_perm. Qed.
Definition list_set_swap (T : Type) (R : Rule T) (s : list_set T R) (i : nat) : list_set T R :=
  swap_removed i (`s) ↾ taken_NoDup i _ (proj2_sig s).
Definition list_set_shift (T : Type) (R : Rule T) (s : list_set T R) (i : nat) : list_set T R :=
  delete i (`s) ↾ delete_NoDup i _ (proj2_sig s).
Definition list_set_retain (T : Type) (R : Rule T) (f : T -> bool) (s : list_set T R) : list_set T R :=
  filter (fun r => f r = true) (`s) ↾ filter_ids_NoDup _ _ (proj2_sig s).

Program Definition list_sets : IndexSetLib := {|
  iset := list_set;
  entries T R s := `s;
  iset_new := list_set_empty;
  iset_get T R s id := entry id (`s);
  get_index_of T R s id := position id (`s);
  replace_full T R s r :=
    (default (length (`s)) (position (rule_id r) (`s)), entry (rule_id r) (`s), list_set_replace T R s r);
  insert_full T R s r := (default (length (`s)) (position (rule_id r) (`s)), list_set_insert T R s r);
  move_index T R s from to :=
    if decide (from < length (`s) /\ to < length (`s))%nat then Some (list_set_move T R s from to) else None;
  swap_take T R s id :=
    (entry id (`s), match position id (`s) with Some i => list_set_swap T R s i | None => s end);
  shift_take T R s id :=
    (entry id (`s), match position id (`s) with Some i => list_set_shift T R s i | None => s end);
  retain := list_set_retain
|}.
Next Obligation. intros T R [l Hl]. exact Hl. Qed.
Next Obligation. done. Qed.
Next Obligation. done. Qed.
Next Obligation. done. Qed.
Next Obligation. done. Qed.
Next Obligation.
  intros T R s r. split; [|done]. unfold list_set_insert. destruct (position (rule_id r) (`s)) eqn:E; [done|].
  cbn. unfold replaced. by rewrite E.
Qed.
Next Obligation. intros T R s from to. destruct (decide _); by case_decide. Qed.
Next Obligation. intros T R s id. split; [done|]. by destruct (position id (`s)). Qed.
Next Obligation. intros T R s id. split; [done|]. by destruct (position id (`s)). Qed.
Next Obligation. done. Qed.

Definition plain_match : MatchLib := {|
  wild_matches pattern value := bool_decide (pattern = value);
  regex := string;
  regex_escape s := s;
  regex_new := Some;
  regex_is_match re s := bool_decide (re = s);
  to_lowercase s := s
|}.
End model.

(** ** Uses of the theorems *)

(** "cat" in "concat the cat". *)
Lemma matches_word_iff_witness :
  let self := bytes_of "concat the cat" in
  let pattern := bytes_of "cat" in
  exists b, @matches_word plain_match self pattern = Done b /\
    (b = true <-> exists i, word_match self pattern i).
Proof. apply (@matches_word_iff plain_match); [done|reflexivity]. Defined.

Definition example_rule (id : string) : ConditionalPushRule :=
  {| cr_actions := []; cr_default := false; cr_enabled := true; cr_rule_id := id; cr_conditions := [] |}.
Definition example_set (ids : list string) : @iset list_sets ConditionalPushRule _ :=
  @collect list_sets _ _ (map example_rule ids).

(** A rule inserted after the master rule. *)
Lemma insert_new_rule_witness :
  let s := example_set ["m"; "a"; "b"] in
  let l := entries s in
  let '(res, s') := insert_and_move_rule s (example_rule "x") 1 (Some "a") None in
  match asked_position l 1 (Some "a") None with
  | Err e => res = Fail e
  | Ok p => if decide (p <= length l)%nat
            then res = Done tt /\ entries s' = (take p l ++ example_rule "x" :: drop p l)%list
            else res = Panic
  end.
Proof.
  apply (@insert_new_rule list_sets _ _ (example_set ["m"; "a"; "b"]) (example_rule "x") 1 (Some "a") None);
    [apply (bool_decide_unpack _); by vm_compute|done|done].
Defined.

Lemma replaced_rule_misplaced_witness :
  let s := example_set ["m"; "a"; "b"; "c"] in
  (let '(res, s') := insert_and_move_rule s (example_rule "a") 1 None (Some "c") in
   res = Done tt /\ entries s' = map example_rule ["m"; "b"; "c"; "a"]) /\
  ([] = @nil ConditionalPushRule -> fst (insert_and_move_rule s (example_rule "a") 1 (Some "c") None) = Panic).
Proof.
  apply (@replaced_rule_misplaced list_sets _ _ (example_set ["m"; "a"; "b"; "c"]) (example_rule "a")
           (example_rule "a") (example_rule "c") [example_rule "m"] [example_rule "b"] [] 1); [reflexivity|done|cbn; lia].
Defined.
