(* ===== verification/PushJson.v ===== *)
(** * Push rules as JSON: the [Serialize] and [Deserialize] implementations of
      [crates/core/src/push/] and of [crates/core/src/events/push_rules.rs]

    How a ruleset is written to and read from the stored value, a
    [serde_json::Value] whose objects are sorted by key.  The main theorem is that a
    ruleset reads back as it was written. *)
From Stdlib Require Import Ascii.
From S2P Require Import Prelude RustStr Decimal BTree Identifiers Json FlatJson PushMatch Push Ruleset PushDefaults RulesetSpec.
Open Scope string_scope.

(** An object with the given members. *)
Definition obj (members : list (string * json)) : json := JObj (bt_from_list members).

(** ** Actions *)

Definition sound_as_str (s : SoundTweakValue) : string :=
  match s with SoundDefault => "default" | SoundCustom s => s end.
Definition sound_from (s : string) : SoundTweakValue :=
  if decide (s = "default") then SoundDefault else SoundCustom s.

(** [Serialize for Tweak] *)
Definition tweak_to_value (t : Tweak) : json :=
  match t with
  | Sound s => obj [("set_tweak", JStr "sound"); ("value", JStr (sound_as_str s))]
  | Highlight HighlightYes => obj [("set_tweak", JStr "highlight")]
  | Highlight HighlightNo => obj [("set_tweak", JStr "highlight"); ("value", JBool false)]
  | CustomTweak set_tweak value =>
      obj (("set_tweak", JStr set_tweak) :: match value with Some v => [("value", v)] | None => [] end)
  end.
(** [Tweak::new] *)
Definition tweak_new (set_tweak : string) (value : option json) : option Tweak :=
  if decide (set_tweak = "sound") then (fun s => Sound (sound_from s)) <$> (value ≫= de_str)
  else if decide (set_tweak = "highlight") then
    match value with
    | None => Some (Highlight HighlightYes)
    | Some v => b ← de_bool v; Some (Highlight (if b : bool then HighlightYes else HighlightNo))
    end
  else Some (CustomTweak set_tweak value).
(** [Deserialize for Tweak] *)
Definition tweak_from_value (j : json) : option Tweak :=
  slots ← struct_fields [("set_tweak", false); ("value", false)] j;
  match slots with
  | [set_tweak; value] =>
      set_tweak ← field_required de_str set_tweak;
      value ← field_option Some value;
      tweak_new set_tweak value
  | _ => None
  end.

(** [Action::new] *)
Definition action_new (data : CustomActionData) : option Action :=
  match data with
  | ActionString s => Some (if decide (s = "notify") then Notify else CustomAction (ActionString s))
  | ActionObject o =>
      if bool_decide (is_Some (bt_get "set_tweak" o)) then SetTweak <$> tweak_from_value (JObj o)
      else Some (CustomAction (ActionObject o))
  end.
(** [CustomActionData] is untagged. *)
Definition action_data_from_value (j : json) : option CustomActionData :=
  match j with
  | JStr s => Some (ActionString s)
  | JObj o => Some (ActionObject o)
  | _ => None
  end.
Definition action_from_value (j : json) : option Action := action_data_from_value j ≫= action_new.
Definition action_to_value (a : Action) : json :=
  match a with
  | Notify => JStr "notify"
  | SetTweak t => tweak_to_value t
  | CustomAction (ActionString s) => JStr s
  | CustomAction (ActionObject o) => JObj o
  end.

(** ** Conditions *)

Definition scalar_to_value (v : ScalarJsonValue) : json :=
  match v with
  | SNull => JNull | SBool b => JBool b | SInteger n => JNum (NumInt n) | SString s => JStr s
  end.
Definition feature_as_str (f : RoomVersionFeature) : string :=
  match f with ExtensibleEvents => "org.matrix.msc3932.extensible_events" | FeatureCustom s => s end.
Definition feature_from (s : string) : RoomVersionFeature :=
  if decide (s = "org.matrix.msc3932.extensible_events") then ExtensibleEvents else FeatureCustom s.

(** [PushCondition::kind] *)
Definition condition_kind (c : PushCondition) : string :=
  match c with
  | EventMatch _ _ => "event_match"
  | ContainsDisplayName => "contains_display_name"
  | RoomMemberCount _ => "room_member_count"
  | SenderNotificationPermission _ => "sender_notification_permission"
  | RoomVersionSupports _ => "org.matrix.msc3931.room_version_supports"
  | EventPropertyIs _ _ => "event_property_is"
  | EventPropertyContains _ _ => "event_property_contains"
  | ThreadSubscription _ => "io.element.msc4306.thread_subscription"
  | CustomCondition kind _ => kind
  end.
(** [PushCondition::data] *)
Definition condition_data (c : PushCondition) : list (string * json) :=
  match c with
  | EventMatch key pattern => [("key", JStr key); ("pattern", JStr pattern)]
  | ContainsDisplayName => []
  | RoomMemberCount is_ => [("is", JStr (member_count_to_string is_))]
  | SenderNotificationPermission key => [("key", JStr key)]
  | RoomVersionSupports feature => [("feature", JStr (feature_as_str feature))]
  | EventPropertyIs key value | EventPropertyContains key value =>
      [("key", JStr key); ("value", scalar_to_value value)]
  | ThreadSubscription subscribed => [("subscribed", JBool subscribed)]
  | CustomCondition _ data => data
  end.
(** The derived [Serialize]: tagged with the kind. *)
Definition condition_to_value (c : PushCondition) : json :=
  obj (("kind", JStr (condition_kind c)) :: condition_data c).

(** The structs of the data of conditions. *)
Definition key_and {A B} (name : string) (de : json -> option A) (f : string -> A -> B) (j : json) : option B :=
  slots ← struct_fields [("key", false); (name, false)] j;
  match slots with
  | [key; other] => key ← field_required de_str key; x ← field_required de other; Some (f key x)
  | _ => None
  end.
Definition de_member_count (j : json) : option RoomMemberCountIs := de_str j ≫= member_count_from_str.

(** [Deserialize for PushCondition] *)
Definition condition_from_value (j : json) : option PushCondition :=
  kind ← struct1 "kind" false (field_required de_str) j;
  if decide (kind = "event_match") then key_and "pattern" de_str EventMatch j
  else if decide (kind = "contains_display_name") then Some ContainsDisplayName
  else if decide (kind = "room_member_count") then
    RoomMemberCount <$> struct1 "is" false (field_required de_member_count) j
  else if decide (kind = "sender_notification_permission") then
    SenderNotificationPermission <$> struct1 "key" false (field_required de_str) j
  else if decide (kind = "org.matrix.msc3931.room_version_supports") then
    (fun s => RoomVersionSupports (feature_from s)) <$> struct1 "feature" false (field_required de_str) j
  else if decide (kind = "event_property_is") then key_and "value" scalar_try_from EventPropertyIs j
  else if decide (kind = "event_property_contains") then key_and "value" scalar_try_from EventPropertyContains j
  else if decide (kind = "io.element.msc4306.thread_subscription") then
    ThreadSubscription <$> struct1 "subscribed" false (field_required de_bool) j
  else
    match j with
    | JObj o => Some (CustomCondition kind (bt_remove "kind" o))
    | _ => None
    end.

(** ** Rules *)

Definition conditional_to_value (r : ConditionalPushRule) : json :=
  obj [("actions", JArr (map action_to_value (cr_actions r))); ("default", JBool (cr_default r));
       ("enabled", JBool (cr_enabled r)); ("rule_id", JStr (cr_rule_id r));
       ("conditions", JArr (map condition_to_value (cr_conditions r)))].
Definition patterned_to_value (r : PatternedPushRule) : json :=
  obj [("actions", JArr (map action_to_value (pr_actions r))); ("default", JBool (pr_default r));
       ("enabled", JBool (pr_enabled r)); ("rule_id", JStr (pr_rule_id r));
       ("pattern", JStr (pr_pattern r))].
Definition simple_to_value (r : SimplePushRule) : json :=
  obj [("actions", JArr (map action_to_value (sr_actions r))); ("default", JBool (sr_default r));
       ("enabled", JBool (sr_enabled r)); ("rule_id", JStr (sr_rule_id r))].

Definition conditional_from_value (j : json) : option ConditionalPushRule :=
  slots ← struct_fields [("actions", false); ("default", false); ("enabled", false); ("rule_id", false);
                         ("conditions", true)] j;
  match slots with
  | [actions; default_; enabled; rule_id; conditions] =>
      actions ← field_required (de_vec action_from_value) actions;
      default_ ← field_required de_bool default_;
      enabled ← field_required de_bool enabled;
      rule_id ← field_required de_str rule_id;
      conditions ← field_default [] (de_vec condition_from_value) conditions;
      Some {| cr_actions := actions; cr_default := default_; cr_enabled := enabled; cr_rule_id := rule_id;
              cr_conditions := conditions |}
  | _ => None
  end.
Definition patterned_from_value (j : json) : option PatternedPushRule :=
  slots ← struct_fields [("actions", false); ("default", false); ("enabled", false); ("rule_id", false);
                         ("pattern", false)] j;
  match slots with
  | [actions; default_; enabled; rule_id; pattern] =>
      actions ← field_required (de_vec action_from_value) actions;
      default_ ← field_required de_bool default_;
      enabled ← field_required de_bool enabled;
      rule_id ← field_required de_str rule_id;
      pattern ← field_required de_str pattern;
      Some {| pr_actions := actions; pr_default := default_; pr_enabled := enabled; pr_rule_id := rule_id;
              pr_pattern := pattern |}
  | _ => None
  end.
(** The id of a room rule is a room id, that of a sender rule a user id. *)
Definition simple_from_value (de_id : json -> option string) (j : json) : option SimplePushRule :=
  slots ← struct_fields [("actions", false); ("default", false); ("enabled", false); ("rule_id", false)] j;
  match slots with
  | [actions; default_; enabled; rule_id] =>
      actions ← field_required (de_vec action_from_value) actions;
      default_ ← field_required de_bool default_;
      enabled ← field_required de_bool enabled;
      rule_id ← field_required de_id rule_id;
      Some {| sr_actions := actions; sr_default := default_; sr_enabled := enabled; sr_rule_id := rule_id |}
  | _ => None
  end.
Definition de_room_id (j : json) : option string :=
  s ← de_str j; if is_ok (room_id_validate s) then Some s else None.

(** ** Rulesets and the content of [m.push_rules] *)

Section rulesets.
Context {IS : IndexSetLib}.

Definition ruleset_fields : list string := ["content"; "postcontent"; "override"; "room"; "sender"; "underride"].

(** [skip_serializing_if = "IndexSet::is_empty"] *)
Definition set_member {T} {R : Rule T} (name : string) (to_value : T -> json) (s : iset T) : list (string * json) :=
  match entries s with [] => [] | l => [(name, JArr (map to_value l))] end.
Definition ruleset_to_value (rs : Ruleset) : json :=
  obj (set_member "content" patterned_to_value (rs_content rs)
       ++ set_member "postcontent" conditional_to_value (rs_postcontent rs)
       ++ set_member "override" conditional_to_value (rs_override rs)
       ++ set_member "room" simple_to_value (rs_room rs)
       ++ set_member "sender" simple_to_value (rs_sender rs)
       ++ set_member "underride" conditional_to_value (rs_underride rs)
       ++ rs_extra rs)%list.

(** A set is read by inserting the rules one after the other. *)
Definition de_set {T} {R : Rule T} (de : json -> option T) (slot : option json) : option (iset T) :=
  field_default iset_new (fun j => collect <$> de_vec de j) slot.
(** The members that are no fields, kept by [#[serde(flatten)]]. *)
Definition flattened (fields : list string) (members : list (string * json)) : list (string * json) :=
  filter (fun kv => kv.1 ∉ fields) members.
Definition ruleset_from_value (j : json) : option Ruleset :=
  match j with
  | JObj m =>
      content ← de_set patterned_from_value (bt_get "content" m);
      postcontent ← de_set conditional_from_value (bt_get "postcontent" m);
      override_ ← de_set conditional_from_value (bt_get "override" m);
      room ← de_set (simple_from_value de_room_id) (bt_get "room" m);
      sender ← de_set (simple_from_value de_user_id) (bt_get "sender" m);
      underride ← de_set conditional_from_value (bt_get "underride" m);
      Some {| rs_content := content; rs_postcontent := postcontent; rs_override := override_;
              rs_room := room; rs_sender := sender; rs_underride := underride;
              rs_extra := flattened ruleset_fields m |}
  | _ => None
  end.

Record PushRulesEventContent := { pre_global : Ruleset; pre_extra : list (string * json) }.
Definition content_new (rs : Ruleset) : PushRulesEventContent := {| pre_global := rs; pre_extra := [] |}.
Definition content_to_value (c : PushRulesEventContent) : json :=
  obj (("global", ruleset_to_value (pre_global c)) :: pre_extra c).
Definition content_from_value (j : json) : option PushRulesEventContent :=
  match j with
  | JObj m =>
      global ← bt_get "global" m ≫= ruleset_from_value;
      Some {| pre_global := global; pre_extra := flattened ["global"] m |}
  | _ => None
  end.
(** [PushRulesEvent]: the content of an event with a type. *)
Definition event_from_value (j : json) : option PushRulesEventContent :=
  match j with
  | JObj m => _ ← bt_get "type" m ≫= de_str; bt_get "content" m ≫= content_from_value
  | _ => None
  end.
End rulesets.

(** ** Reading structs that were written *)

Lemma occurrences_bt m k :
  bt_wf m -> occurrences k m = match bt_get k m with Some v => [v] | None => [] end.
Proof.
  unfold occurrences. induction m as [|[k' v] m IH]; intros Hwf; [done|].
  pose proof (bt_get_tail _ _ Hwf) as Hno. cbn [fst] in Hno. apply StronglySorted_inv in Hwf as [Hm _].
  cbn [bt_get]. destruct (String.eqb_spec k k') as [<-|Hne].
  - rewrite filter_cons_True by done. cbn. by rewrite (IH Hm), Hno.
  - rewrite filter_cons_False by (cbn; congruence). by apply IH.
Qed.

(** The slots of a struct read from a sorted object. *)
Lemma struct_from_bt fields m :
  bt_wf m -> struct_from_map fields m = Some (map (fun f => bt_get f.1 m) fields).
Proof.
  intros Hwf. induction fields as [|[name d] fields IH]; [done|]. cbn [struct_from_map map fst].
  rewrite IH. cbn [mbind option_bind]. rewrite occurrences_bt by done. by destruct (bt_get name m).
Qed.

Lemma struct_fields_obj fields l :
  struct_fields fields (obj l) = Some (map (fun f => bt_get f.1 (reverse l)) fields).
Proof.
  unfold struct_fields, obj. rewrite struct_from_bt by apply bt_from_list_wf. f_equal.
  apply map_ext. intros f. apply bt_get_from_list.
Qed.

(** ** Well-formed rules: those the reader produces *)

Definition tweak_wf (t : Tweak) : Prop :=
  match t with
  | Sound (SoundCustom s) => s <> "default"
  | CustomTweak set_tweak value => set_tweak <> "sound" /\ set_tweak <> "highlight" /\ value <> Some JNull
  | _ => True
  end.
Definition action_wf (a : Action) : Prop :=
  match a with
  | SetTweak t => tweak_wf t
  | CustomAction (ActionString s) => s <> "notify"
  | CustomAction (ActionObject o) => bt_get "set_tweak" o = None
  | Notify => True
  end.

Definition condition_kinds : list string :=
  ["event_match"; "contains_display_name"; "room_member_count"; "sender_notification_permission";
   "org.matrix.msc3931.room_version_supports"; "event_property_is"; "event_property_contains";
   "io.element.msc4306.thread_subscription"].
Definition scalar_wf (v : ScalarJsonValue) : Prop :=
  match v with SInteger n => (I64_MIN <= n <= I64_MAX)%Z | _ => True end.
Definition condition_wf (c : PushCondition) : Prop :=
  match c with
  | RoomMemberCount is_ => (0 <= mc_count is_ <= U64_MAX)%Z
  | RoomVersionSupports (FeatureCustom s) => s <> "org.matrix.msc3932.extensible_events"
  | EventPropertyIs _ v | EventPropertyContains _ v => scalar_wf v
  | CustomCondition kind data => (kind ∉ condition_kinds) /\ bt_wf data /\ bt_get "kind" data = None
  | _ => True
  end.

Definition conditional_wf (r : ConditionalPushRule) : Prop :=
  Forall action_wf (cr_actions r) /\ Forall condition_wf (cr_conditions r).
Definition patterned_wf (r : PatternedPushRule) : Prop := Forall action_wf (pr_actions r).
Definition simple_wf (validate : string -> result IdParseError unit) (r : SimplePushRule) : Prop :=
  Forall action_wf (sr_actions r) /\ is_ok (validate (sr_rule_id r)) = true.

(** *** Actions *)

Lemma sound_roundtrip s : (match s with SoundCustom s => s <> "default" | _ => True end) ->
  sound_from (sound_as_str s) = s.
Proof. destruct s as [|s]; [done|]. intros Hs. unfold sound_from. cbn. by rewrite decide_False. Qed.

Ltac read_struct := rewrite struct_fields_obj; cbn -[decide sound_from sound_as_str].

Lemma tweak_roundtrip t : tweak_wf t -> tweak_from_value (tweak_to_value t) = Some t.
Proof.
  destruct t as [s|[]|n v]; intros Hwf; unfold tweak_to_value, tweak_from_value.
  - read_struct. change (Some (Sound (sound_from (sound_as_str s))) = Some (Sound s)).
    rewrite sound_roundtrip; [done|]. by destruct s.
  - read_struct. done.
  - read_struct. done.
  - destruct Hwf as (H1 & H2 & H3). rewrite struct_fields_obj.
    assert (tweak_new n v = Some (CustomTweak n v)) as Hn by (unfold tweak_new; by rewrite !decide_False).
    destruct v as [v|]; [|exact Hn].
    transitivity (value ← field_option Some (Some v); tweak_new n value); [reflexivity|].
    assert (field_option Some (Some v) = Some (Some v)) as -> by (by destruct v). exact Hn.
Qed.

Lemma tweak_object t : exists o, tweak_to_value t = JObj o /\ is_Some (bt_get "set_tweak" o).
Proof.
  destruct t as [s|[]|n [v|]]; eexists; (split; [reflexivity|]); rewrite bt_get_from_list; eexists; reflexivity.
Qed.

Lemma action_roundtrip a : action_wf a -> action_from_value (action_to_value a) = Some a.
Proof.
  destruct a as [|t|[s|o]]; intros Hwf; unfold action_from_value; cbn [action_to_value].
  - done.
  - destruct (tweak_object t) as (o & E & Ho). pose proof (tweak_roundtrip t Hwf) as Ht. rewrite E in Ht |- *.
    cbn [action_data_from_value mbind option_bind action_new]. rewrite bool_decide_true by done. by rewrite Ht.
  - cbn. by rewrite decide_False.
  - cbn [action_data_from_value mbind option_bind action_new]. cbn in Hwf. rewrite Hwf. done.
Qed.

Lemma de_vec_roundtrip {A} (to : A -> json) (from : json -> option A) (wf : A -> Prop) l :
  (forall x, wf x -> from (to x) = Some x) -> Forall wf l -> de_vec from (JArr (map to l)) = Some l.
Proof.
  intros H Hl. cbn. apply omapM_Some. induction Hl; cbn; constructor; auto.
Qed.

(** *** Conditions *)

Lemma scalar_roundtrip v : scalar_wf v -> scalar_try_from (scalar_to_value v) = Some v.
Proof. destruct v as [|b|n|s]; intros H; try done. cbn -[decide]. by rewrite decide_True. Qed.

Lemma condition_tag c : struct1 "kind" false (field_required de_str) (condition_to_value c) =
  match c with
  | CustomCondition kind data => match bt_get "kind" (reverse data) with Some v => de_str v | None => Some kind end
  | _ => Some (condition_kind c)
  end.
Proof.
  unfold struct1, condition_to_value. rewrite struct_fields_obj. cbn [map fst].
  destruct c as [| | | | | | | |kind data]; try reflexivity.
  cbn [condition_kind condition_data]. rewrite reverse_cons.
  assert (forall l : list (string * json), bt_get "kind" (l ++ [("kind", JStr kind)])%list =
    match bt_get "kind" l with Some v => Some v | None => Some (JStr kind) end) as ->.
  { induction l as [|[k v] l IH]; [done|]. cbn -[String.eqb]. by destruct (String.eqb "kind" k). }
  cbn. by destruct (bt_get "kind" (reverse data)).
Qed.

Lemma bt_get_reverse {V} (m : list (string * V)) k : bt_wf m -> bt_get k (reverse m) = bt_get k m.
Proof. intros Hwf. by rewrite <- bt_get_from_list, bt_from_list_sorted. Qed.

Lemma bt_remove_from_list (data : list (string * json)) k v :
  bt_wf data -> bt_get k data = None -> bt_remove k (bt_from_list ((k, v) :: data)) = data.
Proof.
  intros Hwf Hno. apply bt_ext; [apply bt_remove_wf, bt_from_list_wf|done|]. intros k'.
  rewrite bt_get_remove, bt_get_from_list, reverse_cons by apply bt_from_list_wf.
  destruct (String.eqb_spec k' k) as [->|Hne]; [done|].
  assert (forall l : list (string * json), bt_get k' (l ++ [(k, v)])%list = bt_get k' l) as ->.
  { induction l as [|[k2 v2] l IH]; cbn; [by apply String.eqb_neq in Hne as ->|]. by destruct (String.eqb k' k2). }
  by apply bt_get_reverse.
Qed.

Ltac known_kind :=
  unfold condition_from_value; rewrite condition_tag; cbn [mbind option_bind condition_kind];
  repeat first [rewrite decide_False by done|rewrite decide_True by done].

Lemma condition_roundtrip c : condition_wf c -> condition_from_value (condition_to_value c) = Some c.
Proof.
  destruct c as [key pattern| |is_|key|feature|key v|key v|sub|kind data]; intros Hwf.
  - known_kind. unfold key_and, condition_to_value. by rewrite struct_fields_obj.
  - by known_kind.
  - known_kind. unfold struct1, condition_to_value. rewrite struct_fields_obj.
    transitivity (RoomMemberCount <$> member_count_from_str (member_count_to_string is_)); [reflexivity|].
    by rewrite member_count_roundtrip.
  - known_kind. unfold struct1, condition_to_value. by rewrite struct_fields_obj.
  - known_kind. unfold struct1, condition_to_value. rewrite struct_fields_obj.
    transitivity (Some (RoomVersionSupports (feature_from (feature_as_str feature)))); [reflexivity|].
    unfold feature_from. destruct feature as [|s]; cbn [feature_as_str]; [done|]. by rewrite decide_False.
  - known_kind. unfold key_and, condition_to_value. rewrite struct_fields_obj.
    transitivity (x ← scalar_try_from (scalar_to_value v); Some (EventPropertyIs key x)); [reflexivity|].
    by rewrite scalar_roundtrip.
  - known_kind. unfold key_and, condition_to_value. rewrite struct_fields_obj.
    transitivity (x ← scalar_try_from (scalar_to_value v); Some (EventPropertyContains key x)); [reflexivity|].
    by rewrite scalar_roundtrip.
  - known_kind. unfold struct1, condition_to_value. by rewrite struct_fields_obj.
  - destruct Hwf as (Hk & Hd & Hn). unfold condition_from_value. rewrite condition_tag, bt_get_reverse, Hn by done.
    cbn [mbind option_bind]. unfold condition_kinds in Hk. rewrite !not_elem_of_cons in Hk.
    destruct Hk as (? & ? & ? & ? & ? & ? & ? & ? & _). rewrite !decide_False by done.
    unfold condition_to_value, obj. cbn [condition_kind condition_data]. by rewrite bt_remove_from_list.
Qed.

(** *** Rules *)

Lemma conditional_roundtrip r : conditional_wf r -> conditional_from_value (conditional_to_value r) = Some r.
Proof.
  destruct r as [a d e i c]. intros [Ha Hc]. cbn in Ha, Hc. unfold conditional_from_value, conditional_to_value.
  rewrite struct_fields_obj.
  transitivity (actions ← de_vec action_from_value (JArr (map action_to_value a));
    conditions ← de_vec condition_from_value (JArr (map condition_to_value c));
    Some {| cr_actions := actions; cr_default := d; cr_enabled := e; cr_rule_id := i; cr_conditions := conditions |});
    [reflexivity|].
  rewrite (de_vec_roundtrip _ _ _ _ action_roundtrip Ha). cbn [mbind option_bind].
  by rewrite (de_vec_roundtrip _ _ _ _ condition_roundtrip Hc).
Qed.

Lemma patterned_roundtrip r : patterned_wf r -> patterned_from_value (patterned_to_value r) = Some r.
Proof.
  destruct r as [a d e i p]. unfold patterned_wf. cbn [pr_actions]. intros Ha. unfold patterned_from_value, patterned_to_value. rewrite struct_fields_obj.
  transitivity (actions ← de_vec action_from_value (JArr (map action_to_value a));
    Some {| pr_actions := actions; pr_default := d; pr_enabled := e; pr_rule_id := i; pr_pattern := p |});
    [reflexivity|].
  by rewrite (de_vec_roundtrip _ _ _ _ action_roundtrip Ha).
Qed.

Lemma simple_roundtrip validate r :
  simple_wf validate r ->
  simple_from_value (fun j => s ← de_str j; if is_ok (validate s) then Some s else None) (simple_to_value r) = Some r.
Proof.
  destruct r as [a d e i]. intros [Ha Hi]. cbn in Ha, Hi. unfold simple_from_value, simple_to_value. rewrite struct_fields_obj.
  transitivity (actions ← de_vec action_from_value (JArr (map action_to_value a));
    rule_id ← if is_ok (validate i) then Some i else None;
    Some {| sr_actions := actions; sr_default := d; sr_enabled := e; sr_rule_id := rule_id |});
    [reflexivity|].
  rewrite (de_vec_roundtrip _ _ _ _ action_roundtrip Ha). cbn [mbind option_bind]. by rewrite Hi.
Qed.

(** *** Rulesets *)

Section ruleset_roundtrip.
Context {IS : IndexSetLib}.

Record ruleset_wf (rs : Ruleset) : Prop := {
  rw_content : Forall patterned_wf (entries (rs_content rs));
  rw_postcontent : Forall conditional_wf (entries (rs_postcontent rs));
  rw_override : Forall conditional_wf (entries (rs_override rs));
  rw_room : Forall (simple_wf room_id_validate) (entries (rs_room rs));
  rw_sender : Forall (simple_wf user_id_validate) (entries (rs_sender rs));
  rw_underride : Forall conditional_wf (entries (rs_underride rs));
  rw_extra : bt_wf (rs_extra rs);
  rw_fields k : k ∈ ruleset_fields -> bt_get k (rs_extra rs) = None
}.

(** The same rules in the same order, and the same other fields. *)
Record ruleset_same (rs rs' : Ruleset) : Prop := {
  same_content : entries (rs_content rs) = entries (rs_content rs');
  same_postcontent : entries (rs_postcontent rs) = entries (rs_postcontent rs');
  same_override : entries (rs_override rs) = entries (rs_override rs');
  same_room : entries (rs_room rs) = entries (rs_room rs');
  same_sender : entries (rs_sender rs) = entries (rs_sender rs');
  same_underride : entries (rs_underride rs) = entries (rs_underride rs');
  same_extra : rs_extra rs = rs_extra rs'
}.

#[global] Instance ruleset_same_equivalence : Equivalence ruleset_same.
Proof.
  split.
  - by intros rs; split.
  - by intros rs rs' []; split.
  - intros a b c [] []. split; etrans; eauto.
Qed.

(** The object written from members under known names and others. *)
Lemma bt_get_app {V} (l l' : list (string * V)) k :
  bt_get k (l ++ l')%list = match bt_get k l with Some v => Some v | None => bt_get k l' end.
Proof. induction l as [|[k' v] l IH]; [done|]. cbn. by destruct (String.eqb k k'). Qed.

Lemma de_set_member {T} {R : Rule T} (to : T -> json) (from : json -> option T) (wf : T -> Prop) name (s : iset T) :
  (forall x, wf x -> from (to x) = Some x) -> Forall wf (entries s) ->
  exists s', de_set from (bt_get name (reverse (set_member name to s))) = Some s' /\ entries s' = entries s.
Proof.
  intros H Hs. unfold set_member. destruct (entries s) as [|x l] eqn:E.
  - exists iset_new. split; [done|]. apply entries_new.
  - exists (collect (x :: l)). split.
    + unfold de_set. transitivity (collect (T := T) <$> de_vec from (JArr (map to (x :: l)))).
      * cbn [reverse rev_append bt_get]. by rewrite String.eqb_refl.
      * by rewrite (de_vec_roundtrip to from wf).
    + rewrite <- E. apply collect_entries. apply entries_NoDup.
Qed.

Lemma set_member_other {T} {R : Rule T} name name' (to : T -> json) (s : iset T) :
  name' <> name -> bt_get name' (reverse (set_member name to s)) = None.
Proof.
  intros Hne. unfold set_member. destruct (entries s); [done|]. cbn [reverse rev_append bt_get].
  by apply String.eqb_neq in Hne as ->.
Qed.

Lemma bt_get_flattened fields (m : list (string * json)) k :
  bt_get k (flattened fields m) = if decide (k ∈ fields) then None else bt_get k m.
Proof.
  unfold flattened. induction m as [|[k' v] m IH]; [by case_decide|]. cbn [bt_get].
  destruct (String.eqb_spec k k') as [<-|Hne].
  - destruct (decide (k ∈ fields)) as [Hk|Hk].
    + rewrite filter_cons, decide_False by (intros H; by apply H). apply IH.
    + rewrite filter_cons, decide_True by exact Hk. apply bt_get_head.
  - rewrite filter_cons. apply String.eqb_neq in Hne. destruct (decide ((k', v).1 ∉ fields)); [|exact IH].
    cbn [bt_get]. rewrite Hne. exact IH.
Qed.

Lemma flattened_wf fields (m : list (string * json)) : bt_wf m -> bt_wf (flattened fields m).
Proof. apply bt_filter_wf. Qed.

Lemma option_eta {A} (o : option A) : match o with Some v => Some v | None => None end = o.
Proof. by destruct o. Qed.

(** The members of the other fields are no members of a field. *)
Ltac other_fields :=
  repeat match goal with
  | |- context [bt_get ?k (reverse (set_member ?n ?t ?s))] =>
      lazymatch k with n => fail | _ => rewrite (set_member_other n k t s) by done end
  end.

Definition set_members (rs : Ruleset) : list (string * json) :=
  (reverse (set_member "underride" conditional_to_value (rs_underride rs))
   ++ reverse (set_member "sender" simple_to_value (rs_sender rs))
   ++ reverse (set_member "room" simple_to_value (rs_room rs))
   ++ reverse (set_member "override" conditional_to_value (rs_override rs))
   ++ reverse (set_member "postcontent" conditional_to_value (rs_postcontent rs))
   ++ reverse (set_member "content" patterned_to_value (rs_content rs)))%list.

(** The members of a written ruleset: other fields first, then those of the sets. *)
Lemma ruleset_members rs :
  bt_wf (rs_extra rs) ->
  exists m, ruleset_to_value rs = JObj m /\ bt_wf m /\
    forall k, bt_get k m = match bt_get k (rs_extra rs) with Some v => Some v | None => bt_get k (set_members rs) end.
Proof.
  intros Hx. eexists. split; [reflexivity|]. split; [apply bt_from_list_wf|]. intros k.
  rewrite bt_get_from_list, !reverse_app, <- !app_assoc, (bt_get_app (reverse (rs_extra rs))).
  by rewrite (bt_get_reverse _ _ Hx).
Qed.

Lemma set_members_other rs k : k ∉ ruleset_fields -> bt_get k (set_members rs) = None.
Proof.
  unfold ruleset_fields, set_members. rewrite !not_elem_of_cons. intros (? & ? & ? & ? & ? & ? & _).
  rewrite !bt_get_app. by rewrite !set_member_other.
Qed.

Lemma ruleset_roundtrip rs :
  ruleset_wf rs -> exists rs', ruleset_from_value (ruleset_to_value rs) = Some rs' /\ ruleset_same rs' rs.
Proof.
  intros [H1 H2 H3 H4 H5 H6 Hx Hf]. destruct (ruleset_members rs Hx) as (m & -> & Hm & Hget).
  assert (flattened ruleset_fields m = rs_extra rs) as Hfl.
  { apply bt_ext; [by apply flattened_wf|done|]. intros k. rewrite bt_get_flattened. case_decide as Hk; [by rewrite Hf|].
    rewrite Hget, set_members_other by done. by destruct (bt_get k (rs_extra rs)). }
  assert (forall k, k ∈ ruleset_fields -> bt_get k m = bt_get k (set_members rs)) as Hfield.
  { intros k Hk. by rewrite Hget, Hf. }
  unfold set_members in Hfield. setoid_rewrite bt_get_app in Hfield.
  destruct (de_set_member patterned_to_value _ _ "content" (rs_content rs) patterned_roundtrip H1) as (s1 & E1 & S1).
  destruct (de_set_member conditional_to_value _ _ "postcontent" (rs_postcontent rs) conditional_roundtrip H2) as (s2 & E2 & S2).
  destruct (de_set_member conditional_to_value _ _ "override" (rs_override rs) conditional_roundtrip H3) as (s3 & E3 & S3).
  destruct (de_set_member simple_to_value _ _ "room" (rs_room rs) (simple_roundtrip room_id_validate) H4) as (s4 & E4 & S4).
  destruct (de_set_member simple_to_value _ _ "sender" (rs_sender rs) (simple_roundtrip user_id_validate) H5) as (s5 & E5 & S5).
  destruct (de_set_member conditional_to_value _ _ "underride" (rs_underride rs) conditional_roundtrip H6) as (s6 & E6 & S6).
  exists {| rs_content := s1; rs_postcontent := s2; rs_override := s3; rs_room := s4; rs_sender := s5;
            rs_underride := s6; rs_extra := rs_extra rs |}.
  split; [|by split]. unfold ruleset_from_value, de_room_id, de_user_id. rewrite Hfl.
  rewrite !Hfield, !bt_get_app by (unfold ruleset_fields; set_solver).
  other_fields. cbv iota. rewrite !option_eta, E1. cbn [mbind option_bind]. rewrite E2. cbn [mbind option_bind].
  rewrite E3. cbn [mbind option_bind]. rewrite E4. cbn [mbind option_bind]. rewrite E5. cbn [mbind option_bind].
  by rewrite E6.
Qed.

Definition content_wf (c : PushRulesEventContent) : Prop :=
  ruleset_wf (pre_global c) /\ bt_wf (pre_extra c) /\ bt_get "global" (pre_extra c) = None.
Definition content_same (c c' : PushRulesEventContent) : Prop :=
  ruleset_same (pre_global c) (pre_global c') /\ pre_extra c = pre_extra c'.

Lemma content_roundtrip c :
  content_wf c -> exists c', content_from_value (content_to_value c) = Some c' /\ content_same c' c.
Proof.
  intros (Hg & Hx & Hno). destruct (ruleset_roundtrip _ Hg) as (rs & E & Hs).
  exists {| pre_global := rs; pre_extra := pre_extra c |}. split; [|done].
  unfold content_from_value, content_to_value, obj. set (m := bt_from_list _).
  assert (bt_wf m) as Hm by apply bt_from_list_wf.
  assert (forall k, bt_get k m = match bt_get k (pre_extra c) with Some v => Some v | None =>
            bt_get k [("global", ruleset_to_value (pre_global c))] end) as Hget.
  { intros k. unfold m. by rewrite bt_get_from_list, reverse_cons, bt_get_app, (bt_get_reverse _ _ Hx). }
  rewrite Hget, Hno, bt_get_head. cbn [mbind option_bind]. rewrite E. cbn [mbind option_bind].
  assert (flattened ["global"] m = pre_extra c) as ->; [|done].
  apply bt_ext; [by apply flattened_wf|done|]. intros k. rewrite bt_get_flattened. case_decide as Hk.
  - apply list_elem_of_singleton in Hk as ->. by rewrite Hno.
  - rewrite Hget. assert (k <> "global") as Hne by (intros ->; apply Hk; left). cbn.
    apply String.eqb_neq in Hne as ->. apply option_eta.
Qed.
End ruleset_roundtrip.

(** ** What is read is well-formed *)

(** Documents as [serde_json::Value]s: objects sorted, throughout. *)
Fixpoint sorted_json (j : json) : Prop :=
  match j with
  | JArr l => foldr (fun j P => sorted_json j /\ P) True l
  | JObj m => bt_wf m /\ foldr (fun kv P => sorted_json kv.2 /\ P) True m
  | _ => True
  end.

Lemma sorted_arr l : sorted_json (JArr l) <-> Forall sorted_json l.
Proof. induction l as [|x l IH]; cbn; [by split|]. rewrite Forall_cons, <- IH. done. Qed.
Lemma sorted_obj m : sorted_json (JObj m) <-> bt_wf m /\ forall k v, bt_get k m = Some v -> sorted_json v.
Proof.
  cbn. assert (foldr (fun kv P => sorted_json kv.2 /\ P) True m <-> Forall (fun kv => sorted_json kv.2) m) as ->.
  { induction m as [|x m IH]; cbn; [by split|]. by rewrite Forall_cons, <- IH. }
  split; intros [Hwf H]; (split; [done|]).
  - intros k v Hk%bt_get_Some_elem. rewrite Forall_forall in H. by apply (H _ Hk).
  - apply Forall_forall. intros [k v] Hk. apply (H k). by apply bt_elem_get.
Qed.

Definition sorted_slot (o : option json) : Prop := match o with Some j => sorted_json j | None => True end.

Lemma struct_fields_sorted fields j slots :
  sorted_json j -> struct_fields fields j = Some slots -> Forall sorted_slot slots.
Proof.
  destruct j as [| | | |l|m]; try done; cbn [struct_fields]; intros Hj.
  - apply sorted_arr in Hj. revert l slots Hj. induction fields as [|[n d] fields IH]; intros [|x l] slots Hj; cbn; try done.
    + intros [= <-]. constructor.
    + destruct d; [|done]. intros (slots' & E & ->)%fmap_Some. constructor; [done|]. by eapply IH; [|exact E].
    + intros (slots' & E & ->)%fmap_Some. apply Forall_cons in Hj as [Hx Hl]. constructor; [done|]. by eapply IH.
  - apply sorted_obj in Hj as [Hwf Hm]. rewrite struct_from_bt by done. intros [= <-].
    apply Forall_forall. intros o ([n d] & -> & _)%list_elem_of_fmap. cbn.
    destruct (bt_get n m) as [v|] eqn:E; [|done]. by apply (Hm n).
Qed.

Lemma tweak_new_wf n v t : v <> Some JNull -> tweak_new n v = Some t -> tweak_wf t.
Proof.
  intros Hv. unfold tweak_new. repeat case_decide.
  - destruct (v ≫= de_str) as [s|]; [|done]. intros [= <-]. cbn. unfold sound_from. by case_decide.
  - destruct v as [j|]; [|by intros [= <-]]. intros (b & _ & [= <-])%bind_Some. done.
  - by intros [= <-].
Qed.

Lemma field_option_no_null slot v : field_option Some slot = Some v -> v <> Some JNull.
Proof. destruct slot as [[]|]; cbn; intros [= <-]; done. Qed.

Lemma action_from_wf j a : action_from_value j = Some a -> action_wf a.
Proof.
  unfold action_from_value. destruct j as [| | |s| |o]; try done; cbn [action_data_from_value mbind option_bind action_new].
  - intros [= <-]. by case_decide.
  - case_bool_decide as Ho.
    + intros (t & Ht & ->)%fmap_Some. cbn. revert Ht. unfold tweak_from_value.
      intros (slots & _ & H)%bind_Some. destruct slots as [|x [|y []]]; try done.
      apply bind_Some in H as (n & _ & (v & Hv%field_option_no_null & H)%bind_Some). by eapply tweak_new_wf.
    + intros [= <-]. cbn. by apply eq_None_not_Some.
Qed.

Lemma de_vec_wf {A} (from : json -> option A) (P : json -> Prop) (wf : A -> Prop) j l :
  (forall j x, P j -> from j = Some x -> wf x) -> (forall l, j = JArr l -> Forall P l) ->
  de_vec from j = Some l -> Forall wf l.
Proof.
  intros H HP. destruct j as [| | | |js|]; try done. cbn. rewrite omapM_Some. specialize (HP js eq_refl).
  induction 1 as [|x y js ys Hxy Hl IH]; [constructor|]. apply Forall_cons in HP as [Hx Hjs].
  constructor; [by eapply H|]. apply IH. done.
Qed.

Lemma actions_from_wf slot l : field_required (de_vec action_from_value) slot = Some l -> Forall action_wf l.
Proof.
  unfold field_required. intros (j & _ & H)%bind_Some. eapply (de_vec_wf _ (fun _ => True)); [| |exact H].
  - intros j' x _. apply action_from_wf.
  - intros js _. by apply Forall_true.
Qed.

Lemma scalar_from_wf j v : scalar_try_from j = Some v -> scalar_wf v.
Proof.
  destruct j as [| |n|s| |]; try done; try (by intros [= <-]). cbn [scalar_try_from].
  intros (z & Hz & ->)%fmap_Some. destruct n as [z'|]; [|done]. cbn in Hz |- *. case_decide; [|done]. by injection Hz as <-.
Qed.

Lemma key_and_value_wf {B} (f : string -> ScalarJsonValue -> B) j c :
  key_and "value" scalar_try_from f j = Some c -> exists key v, c = f key v /\ scalar_wf v.
Proof.
  unfold key_and. intros (slots & _ & H)%bind_Some. destruct slots as [|x [|y []]]; try done.
  apply bind_Some in H as (key & _ & (v & Hv & [= <-])%bind_Some). exists key, v. split; [done|].
  unfold field_required in Hv. apply bind_Some in Hv as (j' & _ & Hv). by eapply scalar_from_wf.
Qed.

Lemma condition_from_wf j c : sorted_json j -> condition_from_value j = Some c -> condition_wf c.
Proof.
  intros Hj. unfold condition_from_value. intros (kind & _ & H)%bind_Some. revert H.
  destruct (decide (kind = "event_match")) as [->|H1].
  { unfold key_and. intros (slots & _ & H)%bind_Some. destruct slots as [|x [|y []]]; try done.
    apply bind_Some in H as (key & _ & (v & _ & [= <-])%bind_Some). done. }
  destruct (decide (kind = "contains_display_name")) as [->|H2]; [by intros [= <-]|].
  destruct (decide (kind = "room_member_count")) as [->|H3].
  { intros (is_ & H & ->)%fmap_Some. cbn. unfold struct1 in H. apply bind_Some in H as (slots & _ & H).
    destruct slots as [|x []]; try done. unfold field_required in H. apply bind_Some in H as (j' & _ & H).
    unfold de_member_count in H. apply bind_Some in H as (s & _ & H). unfold member_count_from_str in H.
    match type of H with (let '(_, _) := ?p in _) = _ => destruct p as [op t] end.
    apply bind_Some in H as (n & Hn & [= <-]). by apply in_range_Some in Hn as [_ Hn]. }
  destruct (decide (kind = "sender_notification_permission")) as [->|H4]; [by intros (? & _ & ->)%fmap_Some|].
  destruct (decide (kind = "org.matrix.msc3931.room_version_supports")) as [->|H5].
  { intros (s & _ & ->)%fmap_Some. unfold feature_from. cbn. by case_decide. }
  destruct (decide (kind = "event_property_is")) as [->|H6]; [by intros (? & ? & -> & ?)%key_and_value_wf|].
  destruct (decide (kind = "event_property_contains")) as [->|H7]; [by intros (? & ? & -> & ?)%key_and_value_wf|].
  destruct (decide (kind = "io.element.msc4306.thread_subscription")) as [->|H8]; [by intros (? & _ & ->)%fmap_Some|].
  destruct j as [| | | | |o]; try done. intros [= <-]. apply sorted_obj in Hj as [Hwf _]. cbn. split; [|split].
  - unfold condition_kinds. rewrite !not_elem_of_cons. by split_and!; try apply not_elem_of_nil.
  - by apply bt_remove_wf.
  - rewrite bt_get_remove by done. done.
Qed.

Lemma conditional_from_wf j r : sorted_json j -> conditional_from_value j = Some r -> conditional_wf r.
Proof.
  intros Hj. unfold conditional_from_value. intros (slots & Hs & H)%bind_Some.
  apply struct_fields_sorted in Hs; [|done]. destruct slots as [|s1 [|s2 [|s3 [|s4 [|s5 []]]]]]; try done.
  apply bind_Some in H as (a & Ha%actions_from_wf & H). apply bind_Some in H as (d & _ & H).
  apply bind_Some in H as (e & _ & H). apply bind_Some in H as (i & _ & H).
  apply bind_Some in H as (c & Hc & [= <-]). split; cbn; [done|]. rewrite !Forall_cons in Hs.
  destruct Hs as (_ & _ & _ & _ & Hs & _). destruct s5 as [j'|]; cbn in Hc; [|by injection Hc as <-].
  eapply (de_vec_wf _ sorted_json); [apply condition_from_wf| |exact Hc]. intros l ->. by apply sorted_arr.
Qed.

Lemma patterned_from_wf j r : sorted_json j -> patterned_from_value j = Some r -> patterned_wf r.
Proof.
  intros _. unfold patterned_from_value. intros (slots & _ & H)%bind_Some.
  destruct slots as [|s1 [|s2 [|s3 [|s4 [|s5 []]]]]]; try done.
  apply bind_Some in H as (a & Ha%actions_from_wf & H). apply bind_Some in H as (d & _ & H).
  apply bind_Some in H as (e & _ & H). apply bind_Some in H as (i & _ & H).
  by apply bind_Some in H as (p & _ & [= <-]).
Qed.

Lemma simple_from_wf validate j r :
  sorted_json j ->
  simple_from_value (fun j => s ← de_str j; if is_ok (validate s) then Some s else None) j = Some r ->
  simple_wf validate r.
Proof.
  intros _. unfold simple_from_value. intros (slots & _ & H)%bind_Some.
  destruct slots as [|s1 [|s2 [|s3 [|s4 []]]]]; try done.
  apply bind_Some in H as (a & Ha%actions_from_wf & H). apply bind_Some in H as (d & _ & H).
  apply bind_Some in H as (e & _ & H). apply bind_Some in H as (i & Hi & [= <-]). split; cbn; [done|].
  unfold field_required in Hi. apply bind_Some in Hi as (j' & _ & (s & _ & Hs)%bind_Some).
  destruct (is_ok (validate s)) eqn:E; [|done]. by injection Hs as <-.
Qed.

Section read_wf.
Context {IS : IndexSetLib}.

Lemma extend_elem {T} {R : Rule T} (l : list T) : forall (s : iset T) r,
  r ∈ entries (extend s l) -> r ∈ entries s \/ r ∈ l.
Proof.
  induction l as [|x l IH]; intros s r; [by left|]. unfold extend. cbn [foldl]. fold (extend (snd (insert_full s x)) l).
  intros [H|H]%IH; [|right; by right]. pose proof (insert_full_spec s x) as Hs. destruct (insert_full s x) as [i s1].
  cbn [snd] in H. destruct Hs as [Hs _]. rewrite Hs in H. destruct (position _ _); [by left|].
  apply elem_of_app in H as [H|H%list_elem_of_singleton]; [by left|]. right. subst. left.
Qed.

Lemma de_set_wf {T} {R : Rule T} (from : json -> option T) (wf : T -> Prop) slot (s : iset T) :
  (forall j x, sorted_json j -> from j = Some x -> wf x) -> sorted_slot slot ->
  de_set from slot = Some s -> Forall wf (entries s).
Proof.
  intros H Hs. unfold de_set, field_default. destruct slot as [j|].
  - intros (l & Hl & ->)%fmap_Some. assert (Forall wf l) as Hwf.
    { eapply (de_vec_wf _ sorted_json); [exact H| |exact Hl]. intros js ->. by apply sorted_arr. }
    rewrite Forall_forall in Hwf |- *. intros r [Hr|Hr]%extend_elem; [|by apply Hwf].
    rewrite entries_new in Hr. by apply elem_of_nil in Hr.
  - intros [= <-]. rewrite entries_new. constructor.
Qed.

Lemma ruleset_from_wf j rs : sorted_json j -> ruleset_from_value j = Some rs -> ruleset_wf rs.
Proof.
  destruct j as [| | | | |m]; try done. intros [Hm Hv]%sorted_obj. unfold ruleset_from_value, de_room_id, de_user_id.
  assert (forall k, sorted_slot (bt_get k m)) as Hslot.
  { intros k. destruct (bt_get k m) eqn:E; cbn; [by eapply Hv|done]. }
  intros (s1 & E1 & H)%bind_Some. apply bind_Some in H as (s2 & E2 & H). apply bind_Some in H as (s3 & E3 & H).
  apply bind_Some in H as (s4 & E4 & H). apply bind_Some in H as (s5 & E5 & H).
  apply bind_Some in H as (s6 & E6 & [= <-]). split; cbn.
  - eapply de_set_wf; [apply patterned_from_wf|apply Hslot|exact E1].
  - eapply de_set_wf; [apply conditional_from_wf|apply Hslot|exact E2].
  - eapply de_set_wf; [apply conditional_from_wf|apply Hslot|exact E3].
  - eapply de_set_wf; [apply simple_from_wf|apply Hslot|exact E4].
  - eapply de_set_wf; [apply simple_from_wf|apply Hslot|exact E5].
  - eapply de_set_wf; [apply conditional_from_wf|apply Hslot|exact E6].
  - by apply flattened_wf.
  - intros k Hk. by rewrite bt_get_flattened, decide_True.
Qed.

Lemma content_from_wf j c : sorted_json j -> content_from_value j = Some c -> content_wf c.
Proof.
  destruct j as [| | | | |m]; try done. intros [Hm Hv]%sorted_obj. unfold content_from_value.
  intros (rs & (j & Hj & Hrs)%bind_Some & [= <-])%bind_Some. split; [|split]; cbn.
  - eapply ruleset_from_wf; [|done]. by eapply Hv.
  - by apply flattened_wf.
  - by rewrite bt_get_flattened.
Qed.

(** C35: push rules read from a stored value and written again read the same: the
    same rules in the same order, with their conditions and actions, and the same
    unknown fields. *)
Theorem push_rules_roundtrip j c :
  sorted_json j -> content_from_value j = Some c ->
  exists c', content_from_value (content_to_value c) = Some c' /\ content_same c' c.
Proof. intros Hj Hc. apply content_roundtrip. by eapply content_from_wf. Qed.
End read_wf.
