(* ===== verification/AccountData.v ===== *)
(** * Account data: [crates/data/src/user/data.rs]

    The table [user_datas] and the functions on it.  Every write is one transaction
    under an advisory lock on its key, so the writes of a key happen one after the
    other, and a transaction that fails changes no row.  A stored value is a
    [serde_json::Value]: a document whose objects are sorted by key, so that two
    values are equal when the documents are. *)
From Stdlib Require Import Ascii.
From S2P Require Import Prelude RustStr BTree Json Effects.
Open Scope Z_scope.

#[global] Instance number_eq_dec : EqDecision number.
Proof. solve_decision. Defined.
#[global] Instance json_eq_dec : EqDecision json.
Proof.
  unfold EqDecision, Decision. fix go 1. intros [|b|n|s|l|m] [|b'|n'|s'|l'|m']; try (right; congruence).
  - by left.
  - destruct (decide (b = b')); [left|right]; congruence.
  - destruct (decide (n = n')); [left|right]; congruence.
  - destruct (decide (s = s')); [left|right]; congruence.
  - enough (Decision (l = l')) as []; [left; congruence|right; congruence|].
    revert l'. induction l as [|x l IH]; intros [|y l']; try (right; congruence); [by left|].
    destruct (go x y), (IH l'); [left|right..]; congruence.
  - enough (Decision (m = m')) as []; [left; congruence|right; congruence|].
    revert m'. induction m as [|[s x] m IH]; intros [|[s' y] m']; try (right; congruence); [by left|].
    destruct (decide (s = s')), (go x y), (IH m'); [left|right..]; congruence.
Defined.

(** ** The table *)

Record DbUserData := {
  ud_id : Z; ud_user_id : string; ud_room_id : option string; ud_data_type : string;
  ud_json_data : json; ud_is_deleted : bool; ud_occur_sn : Z; ud_created_at : Z
}.

(** The database: the rows, the next value of the ids' sequence, the last value drawn
    from [occur_sn_seq], the clock, and how the next calls go ([None]: the call
    succeeds; [Some n]: it fails after drawing [n] numbers from [occur_sn_seq],
    which a rollback does not give back). *)
Record UserDb := {
  db_rows : list DbUserData; db_next_id : Z; db_occur_sn : Z; db_now : Z;
  db_faults : list (option nat)
}.

Definition set_rows (rows : list DbUserData) (db : UserDb) : UserDb :=
  {| db_rows := rows; db_next_id := db_next_id db; db_occur_sn := db_occur_sn db; db_now := db_now db;
     db_faults := db_faults db |}.
Definition set_faults (faults : list (option nat)) (db : UserDb) : UserDb :=
  {| db_rows := db_rows db; db_next_id := db_next_id db; db_occur_sn := db_occur_sn db;
     db_now := db_now db; db_faults := faults |}.

(** One call of the database: a statement or a transaction. *)
Definition db_call {A} (m : St UserDb A) : St UserDb A := fun db =>
  match db_faults db with
  | [] => m db
  | None :: faults => m (set_faults faults db)
  | Some n :: faults =>
      (Fail AppInternal,
       {| db_rows := db_rows db; db_next_id := db_next_id db;
          db_occur_sn := db_occur_sn db + Z.of_nat n; db_now := db_now db; db_faults := faults |})
  end.

(** [next_sn_locked] *)
Definition next_sn_locked : St UserDb Z := fun db =>
  let sn := db_occur_sn db + 1 in
  (Done sn, {| db_rows := db_rows db; db_next_id := db_next_id db; db_occur_sn := sn;
               db_now := db_now db; db_faults := db_faults db |}).

(** The rows of a key, and [.order_by(id.desc()).first()] of some rows. *)
Definition is_key (user_id : string) (room_id : option string) (kind : string) (r : DbUserData) : Prop :=
  ud_user_id r = user_id /\ ud_room_id r = room_id /\ ud_data_type r = kind.
#[global] Instance is_key_dec u o k r : Decision (is_key u o k r).
Proof. unfold is_key. apply _. Defined.
Definition first_by_id_desc (rows : list DbUserData) : option DbUserData :=
  foldr (fun r best => match best with
                       | Some b => if decide (ud_id r < ud_id b) then Some b else Some r
                       | None => Some r
                       end) None rows.
Definition latest_of (rows : list DbUserData) user_id room_id kind : option DbUserData :=
  first_by_id_desc (filter (is_key user_id room_id kind) rows).
Definition get_latest_data user_id room_id kind : St UserDb (option DbUserData) :=
  st_gets (fun db => latest_of (db_rows db) user_id room_id kind).

(** [diesel::update(user_datas::table.find(id)).set(..)] *)
Definition update_row (id : Z) (f : DbUserData -> DbUserData) (rows : list DbUserData) : list DbUserData :=
  (fun r => if decide (ud_id r = id) then f r else r) <$> rows.
Definition rewritten (json_data : json) (is_deleted : bool) (sn now : Z) (r : DbUserData) : DbUserData :=
  {| ud_id := ud_id r; ud_user_id := ud_user_id r; ud_room_id := ud_room_id r;
     ud_data_type := ud_data_type r; ud_json_data := json_data; ud_is_deleted := is_deleted;
     ud_occur_sn := sn; ud_created_at := now |}.

(** ** Writing *)

Definition write_data_locked (existing : option DbUserData) user_id room_id kind (json_data : json) :
    St UserDb DbUserData :=
  match existing with
  | Some r =>
      if negb (ud_is_deleted r) && bool_decide (ud_json_data r = json_data) then mret r
      else
        sn ← next_sn_locked;
        st_do (fun db =>
          let f := rewritten json_data false sn (db_now db) in
          (Done (f r), set_rows (update_row (ud_id r) f (db_rows db)) db))
  | None =>
      sn ← next_sn_locked;
      st_do (fun db =>
        let r := {| ud_id := db_next_id db; ud_user_id := user_id; ud_room_id := room_id;
                    ud_data_type := kind; ud_json_data := json_data; ud_is_deleted := false;
                    ud_occur_sn := sn; ud_created_at := db_now db |} in
        (Done r, {| db_rows := (db_rows db ++ [r])%list; db_next_id := db_next_id db + 1;
                    db_occur_sn := db_occur_sn db; db_now := db_now db; db_faults := db_faults db |}))
  end.

Definition set_data user_id room_id kind (json_data : json) : St UserDb DbUserData :=
  db_call (existing ← get_latest_data user_id room_id kind;
           write_data_locked existing user_id room_id kind json_data).

Definition current_json (existing : option DbUserData) : option json :=
  r ← existing; if ud_is_deleted r then None else Some (ud_json_data r).

Definition set_data_if_unchanged user_id room_id kind (expected : option json) (json_data : json) :
    St UserDb bool :=
  db_call (existing ← get_latest_data user_id room_id kind;
           if decide (current_json existing = expected)
           then _ ← write_data_locked existing user_id room_id kind json_data; mret true
           else mret false).

Definition delete_data_locked user_id room_id kind : St UserDb unit :=
  existing ← get_latest_data user_id room_id kind;
  match existing with
  | None => mret tt
  | Some r =>
      _ ← st_modify (fun db =>
            set_rows (filter (fun r' => ~ (is_key user_id room_id kind r' /\ ud_id r' <> ud_id r))
                             (db_rows db)) db);
      if ud_is_deleted r then mret tt
      else
        sn ← next_sn_locked;
        st_modify (fun db =>
          set_rows (update_row (ud_id r) (rewritten (JObj []) true sn (db_now db)) (db_rows db)) db)
  end.
Definition delete_global_data user_id kind : St UserDb unit := db_call (delete_data_locked user_id None kind).
Definition delete_room_data user_id room_id kind : St UserDb unit :=
  db_call (delete_data_locked user_id (Some room_id) kind).

(** ** Reading

    The readers return the document; their callers deserialize it. *)

Definition get_room_data user_id room_id kind : St UserDb (option json) :=
  db_call (st_gets (fun db => current_json (latest_of (db_rows db) user_id (Some room_id) kind))).
Definition get_global_data user_id kind : St UserDb (option json) :=
  db_call (st_gets (fun db => current_json (latest_of (db_rows db) user_id None kind))).

(** [get_data]: the data of the room if it has a row, the global data otherwise. *)
Definition get_data user_id (room_id : option string) kind : St UserDb json :=
  row ← (match room_id with
         | Some room_id =>
             room_row ← db_call (get_latest_data user_id (Some room_id) kind);
             match room_row with
             | Some row => mret row
             | None => o ← db_call (get_latest_data user_id None kind); st_some o DbNotFound
             end
         | None => o ← db_call (get_latest_data user_id None kind); st_some o DbNotFound
         end);
  if ud_is_deleted row then st_fail DbNotFound else mret (ud_json_data row).

(** [RoomAccountDataEventType::from(..)] printed again. *)
Definition room_account_data_type (s : string) : string :=
  if decide (s = "m.space_order"%string) then "org.matrix.msc3230.space_order"%string else s.

Inductive AnyRawAccountDataEvent : Type :=
| GlobalAccountEvent (kind : string) (content : json)
| RoomAccountEvent (kind : string) (content : json).

Definition change_event (r : DbUserData) : AnyRawAccountDataEvent :=
  let kind := room_account_data_type (ud_data_type r) in
  match ud_room_id r with
  | None => GlobalAccountEvent kind (ud_json_data r)
  | Some _ => RoomAccountEvent kind (ud_json_data r)
  end.

Definition in_scope (user_id : string) (room_id : option string) (since_sn : Z) (until_sn : option Z)
    (r : DbUserData) : Prop :=
  ud_user_id r = user_id /\ (ud_room_id r = None \/ (is_Some room_id /\ ud_room_id r = room_id)) /\
  since_sn <= ud_occur_sn r /\ (match until_sn with Some u => ud_occur_sn r <= u | None => True end).
#[global] Instance in_scope_dec u o s t r : Decision (in_scope u o s t r).
Proof. unfold in_scope. destruct t; apply _. Defined.

Definition data_changes (room_id : option string) user_id (since_sn : Z) (until_sn : option Z) :
    St UserDb (list AnyRawAccountDataEvent) :=
  db_call (st_gets (fun db =>
    let rows := sort_by_key Z.compare ud_occur_sn (filter (in_scope user_id room_id since_sn until_sn) (db_rows db)) in
    change_event <$> filter (fun r => ~ (since_sn = 0 /\ ud_is_deleted r = true)) rows)).
