(* ===== verification/AccountSpec.v ===== *)
(** * What the account data store promises

    The table holds one value per user, room and type; the functions of
    [AccountData] read and write it like a map, and every change of a value is seen
    by the readers of the change log, the sync loops. *)
From Stdlib Require Import Ascii.
From S2P Require Import Prelude RustStr BTree Json Effects AccountData.
Open Scope Z_scope.

(** ** The latest row of a key *)

Section latest.
Implicit Types (rows : list DbUserData) (r : DbUserData).

Abbreviation ids rows := (ud_id <$> rows).

Lemma first_by_id_desc_spec rows r :
  NoDup (ids rows) ->
  first_by_id_desc rows = Some r <-> r ∈ rows /\ forall r', r' ∈ rows -> ud_id r' <= ud_id r.
Proof.
  revert r. induction rows as [|x rows IH]; intros r Hnd.
  { split; [done|]. intros [[]%elem_of_nil _]. }
  rewrite fmap_cons in Hnd. apply NoDup_cons in Hnd as [Hx Hnd]. cbn.
  assert (forall y, y ∈ rows -> ud_id x <> ud_id y) as Hne.
  { intros y Hy E. apply Hx. rewrite E. by apply list_elem_of_fmap_2. }
  fold (first_by_id_desc rows). destruct (first_by_id_desc rows) as [b|] eqn:E.
  - destruct (proj1 (IH b Hnd) eq_refl) as [Hb Hmax]. setoid_rewrite elem_of_cons. case_decide as Hlt.
    + split.
      * intros [= <-]. split; [by right|]. intros r' [->|Hr']; [lia|auto].
      * intros [[->|Hr] Hm]; [specialize (Hm b (or_intror Hb)); lia|].
        apply (IH r Hnd). split; [done|]. intros. apply Hm. by right.
    + split.
      * intros [= <-]. split; [by left|]. intros r' [->|Hr']; [lia|]. specialize (Hmax r' Hr'). specialize (Hne b Hb). lia.
      * intros [[->|Hr] Hm]; [done|]. specialize (Hm x (or_introl eq_refl)). specialize (Hmax r Hr). specialize (Hne b Hb). lia.
  - assert (rows = []) as ->.
    { destruct rows as [|y rows]; [done|]. cbn in E. repeat case_match; done. }
    split; [intros [= <-]; split; [left|]|intros [[->|[]%elem_of_nil]%elem_of_cons _]; done].
    intros r' [->|[]%elem_of_nil]%elem_of_cons. lia.
Qed.

Lemma first_by_id_desc_None rows : first_by_id_desc rows = None <-> rows = [].
Proof. destruct rows as [|y rows]; [done|]. cbn. repeat case_match; done. Qed.

Lemma filter_ids P `{!forall r, Decision (P r)} rows : NoDup (ids rows) -> NoDup (ids (filter P rows)).
Proof.
  induction rows as [|r rows IH]; [done|]. rewrite fmap_cons. intros [Hr Hnd]%NoDup_cons. rewrite filter_cons.
  case_decide; [|by apply IH]. rewrite fmap_cons. constructor; [|by apply IH].
  intros (r' & E & [_ Hin]%list_elem_of_filter)%list_elem_of_fmap. apply Hr. rewrite E. by apply list_elem_of_fmap_2.
Qed.

Lemma latest_of_Some rows u o k r :
  NoDup (ids rows) ->
  latest_of rows u o k = Some r <->
  (r ∈ rows /\ is_key u o k r) /\ forall r', r' ∈ rows -> is_key u o k r' -> ud_id r' <= ud_id r.
Proof.
  intros Hnd. unfold latest_of. rewrite first_by_id_desc_spec by by apply filter_ids.
  setoid_rewrite list_elem_of_filter. naive_solver.
Qed.

Lemma latest_of_None rows u o k : latest_of rows u o k = None <-> forall r, r ∈ rows -> ~ is_key u o k r.
Proof.
  unfold latest_of. rewrite first_by_id_desc_None. split.
  - intros H r Hr Hk. apply (elem_of_nil r). rewrite <- H. by apply list_elem_of_filter.
  - intros H. destruct (filter (is_key u o k) rows) as [|r l] eqn:E; [done|].
    assert (r ∈ filter (is_key u o k) rows) as [Hk Hr]%list_elem_of_filter by (rewrite E; left). by destruct (H r).
Qed.

Lemma id_inj rows r r' : NoDup (ids rows) -> r ∈ rows -> r' ∈ rows -> ud_id r = ud_id r' -> r = r'.
Proof.
  intros Hnd [i Hi]%list_elem_of_lookup [j Hj]%list_elem_of_lookup E.
  assert (i = j) as ->; [|congruence].
  eapply NoDup_lookup; [exact Hnd| |]; rewrite list_lookup_fmap; [by rewrite Hi|by rewrite Hj, E].
Qed.

(** *** Rewriting the latest row *)

Lemma update_row_ids id f rows : (forall r, ud_id (f r) = ud_id r) -> ids (update_row id f rows) = ids rows.
Proof.
  intros Hf. unfold update_row. rewrite <- list_fmap_compose. apply list_fmap_ext. intros i r _. cbn. by case_decide.
Qed.

Lemma update_row_elem id f rows r :
  r ∈ update_row id f rows <->
  exists r0, r0 ∈ rows /\ r = if decide (ud_id r0 = id) then f r0 else r0.
Proof. unfold update_row. rewrite list_elem_of_fmap. naive_solver. Qed.

Lemma rewritten_key u o k j d sn now r : is_key u o k (rewritten j d sn now r) <-> is_key u o k r.
Proof. done. Qed.

Lemma update_row_latest rows u o k r j d sn now :
  NoDup (ids rows) -> latest_of rows u o k = Some r ->
  latest_of (update_row (ud_id r) (rewritten j d sn now) rows) u o k = Some (rewritten j d sn now r).
Proof.
  intros Hnd Hl. pose proof Hl as [[Hr Hk] Hm]%latest_of_Some; [|done].
  apply latest_of_Some; [by rewrite update_row_ids|]. split.
  - split; [|done]. apply update_row_elem. exists r. by rewrite decide_True.
  - intros r' (r0 & Hr0 & ->)%update_row_elem. case_decide; intros Hk0; apply (Hm r0); auto.
Qed.

Lemma update_row_other rows u o k r j d sn now u' o' k' :
  NoDup (ids rows) -> latest_of rows u o k = Some r -> (u', o', k') <> (u, o, k) ->
  latest_of (update_row (ud_id r) (rewritten j d sn now) rows) u' o' k' = latest_of rows u' o' k'.
Proof.
  intros Hnd [[Hr Hk] _]%latest_of_Some Hne; [|done]. unfold latest_of. f_equal.
  assert (forall l, (forall x, x ∈ l -> x ∈ rows) ->
    filter (is_key u' o' k') (update_row (ud_id r) (rewritten j d sn now) l) = filter (is_key u' o' k') l) as H; [|auto].
  induction l as [|x l IH]; intros Hl; [done|]. unfold update_row. rewrite fmap_cons.
  fold (update_row (ud_id r) (rewritten j d sn now) l). case_decide as E.
  - assert (x = r) as -> by (eapply id_inj; eauto; apply Hl; left).
    assert (~ is_key u' o' k' r) as Hnk.
    { intros (<- & <- & <-). apply Hne. destruct Hk as (<- & <- & <-). done. }
    rewrite !filter_cons_False by done. apply IH. intros. apply Hl. by right.
  - rewrite !filter_cons. case_decide; [f_equal|]; apply IH; intros; apply Hl; by right.
Qed.

Lemma append_latest rows u o k r :
  NoDup (ids (rows ++ [r])%list) -> (forall r', r' ∈ rows -> ud_id r' < ud_id r) -> is_key u o k r ->
  latest_of (rows ++ [r])%list u o k = Some r.
Proof.
  intros Hnd Hlt Hk. apply latest_of_Some; [done|]. split; [set_solver|].
  intros r' [Hr'|Hr'%list_elem_of_singleton]%elem_of_app _; [|by subst]. specialize (Hlt r' Hr'). lia.
Qed.

Lemma append_other rows u o k r : ~ is_key u o k r -> latest_of (rows ++ [r])%list u o k = latest_of rows u o k.
Proof. intros Hk. unfold latest_of. by rewrite filter_app, filter_cons_False, app_nil_r. Qed.

Lemma drop_older_latest rows u o k r u' o' k' :
  NoDup (ids rows) -> latest_of rows u o k = Some r ->
  latest_of (filter (fun r' => ~ (is_key u o k r' /\ ud_id r' <> ud_id r)) rows) u' o' k' =
  latest_of rows u' o' k'.
Proof.
  intros Hnd Hl. pose proof Hl as [[Hr Hk] Hm]%latest_of_Some; [|done]. apply option_eq. intros r1.
  rewrite !latest_of_Some by auto using filter_ids. setoid_rewrite list_elem_of_filter. split.
  - intros [[[Hn H1] Hk1] Hm1]. split; [done|]. intros r' Hr' Hk'.
    destruct (decide (is_key u o k r' /\ ud_id r' <> ud_id r)) as [[Hk2 _]|]; [|by apply Hm1].
    transitivity (ud_id r); [by apply Hm|]. apply Hm1; [split; [tauto|done]|].
    destruct Hk2 as (<- & <- & <-), Hk' as (<- & <- & <-). done.
  - intros [[H1 Hk1] Hm1]. split; [|naive_solver]. split; [|done]. split; [|done]. intros [Hk2 Hne].
    apply Hne. apply Z.le_antisymm; [by apply Hm|]. apply Hm1; [done|].
    destruct Hk2 as (<- & <- & <-), Hk1 as (<- & <- & <-). done.
Qed.
End latest.

(** ** The table as a map *)

Definition value (db : UserDb) user_id room_id kind : option json :=
  current_json (latest_of (db_rows db) user_id room_id kind).

(** What is stored under a key: nothing, a value, or the mark of a deleted one. *)
Definition stored_entry (db : UserDb) user_id room_id kind : option (option json) :=
  (fun r => if ud_is_deleted r then None else Some (ud_json_data r)) <$> latest_of (db_rows db) user_id room_id kind.
Lemma value_entry db u o k : value db u o k = mjoin (stored_entry db u o k).
Proof. unfold value, stored_entry, current_json. by destruct (latest_of _ u o k). Qed.

Record db_wf (db : UserDb) : Prop := {
  wf_ids : NoDup (ud_id <$> db_rows db);
  wf_next_id r : r ∈ db_rows db -> ud_id r < db_next_id db;
  wf_occur_sn r : r ∈ db_rows db -> ud_occur_sn r <= db_occur_sn db;
  wf_deleted r : r ∈ db_rows db -> ud_is_deleted r = true -> ud_json_data r = JObj [];
  wf_seq : 0 <= db_occur_sn db
}.

(** From [db] to [db'] the latest row of a key is the same or written after [db]. *)
Definition newer (db db' : UserDb) u o k : Prop :=
  latest_of (db_rows db') u o k = latest_of (db_rows db) u o k \/
  exists r, latest_of (db_rows db') u o k = Some r /\ db_occur_sn db < ud_occur_sn r.

(** A transaction that leaves the value [v] under a key and does nothing to others; no row
    is made for a value that is deleted, or removed with it. *)
Record Stored u o k (v : option json) (db db' : UserDb) : Prop := {
  st_wf : db_wf db';
  st_seq : db_occur_sn db <= db_occur_sn db';
  st_value : value db' u o k = v;
  st_row : v = None -> (latest_of (db_rows db') u o k = None <-> latest_of (db_rows db) u o k = None);
  st_newer : newer db db' u o k;
  st_other u' o' k' : (u', o', k') <> (u, o, k) ->
    latest_of (db_rows db') u' o' k' = latest_of (db_rows db) u' o' k'
}.

Lemma same_rows_wf db db' :
  db_rows db' = db_rows db -> db_next_id db' = db_next_id db -> db_occur_sn db <= db_occur_sn db' ->
  db_wf db -> db_wf db'.
Proof.
  intros Hr Hi Hs [H1 H2 H3 H4 H5]. split; rewrite ?Hr, ?Hi; auto; [|lia]. intros r Hin. specialize (H3 r Hin). lia.
Qed.

Lemma update_latest_stored db u o k r j (d : bool) now :
  db_wf db -> latest_of (db_rows db) u o k = Some r -> (d = true -> j = JObj []) ->
  let sn := db_occur_sn db + 1 in
  Stored u o k (if d then None else Some j) db
    {| db_rows := update_row (ud_id r) (rewritten j d sn now) (db_rows db); db_next_id := db_next_id db;
       db_occur_sn := sn; db_now := now; db_faults := db_faults db |}.
Proof.
  intros [H1 H2 H3 H4 H5] Hl Hdj sn. split; cbn [db_rows db_occur_sn].
  - split; cbn [db_rows db_occur_sn db_next_id]; [by rewrite update_row_ids| | | |lia].
    + intros x (r0 & Hr0 & ->)%update_row_elem. case_decide; apply (H2 r0 Hr0).
    + intros x (r0 & Hr0 & ->)%update_row_elem. specialize (H3 r0 Hr0). case_decide; cbn; lia.
    + intros x (r0 & Hr0 & ->)%update_row_elem. case_decide; cbn; auto.
  - lia.
  - unfold value. cbn [db_rows]. rewrite update_row_latest by done. done.
  - intros _. cbn [db_rows]. by rewrite update_row_latest, Hl.
  - right. eexists. cbn [db_rows]. rewrite update_row_latest by done. split; [done|]. cbn. lia.
  - intros u' o' k' Hne. by apply (update_row_other _ u o k).
Qed.

Lemma write_stored db u o k j :
  db_wf db ->
  exists r db', write_data_locked (latest_of (db_rows db) u o k) u o k j db = (Done r, db') /\
    Stored u o k (Some j) db db' /\ latest_of (db_rows db') u o k = Some r.
Proof.
  intros Hwf. pose proof Hwf as [H1 H2 H3 H4 H5]. unfold write_data_locked.
  destruct (latest_of (db_rows db) u o k) as [r|] eqn:Hl.
  - destruct (negb (ud_is_deleted r) && bool_decide (ud_json_data r = j)) eqn:E.
    + apply andb_true_iff in E as [Hd%negb_true_iff Hj%bool_decide_eq_true].
      eexists r, db. split; [done|]. split; [|done]. split; [done|lia| |done|by left|done].
      unfold value. rewrite Hl. cbn. by rewrite Hd, Hj.
    + eexists _, _. split; [reflexivity|]. cbn [db_rows set_rows]. split; [|by apply update_row_latest].
      apply (update_latest_stored db u o k r j false); done.
  - eexists _, _. split; [reflexivity|]. cbn [db_rows db_now db_next_id].
    match goal with |- _ /\ latest_of (_ ++ [?x])%list _ _ _ = _ => set (r := x) end.
    assert (NoDup (ud_id <$> (db_rows db ++ [r])%list)) as Hnd.
    { rewrite fmap_app. apply NoDup_app. split; [done|]. split; [|apply NoDup_singleton].
      intros x (r' & -> & Hr')%list_elem_of_fmap Hx%list_elem_of_singleton. specialize (H2 r' Hr'). cbn in Hx. lia. }
    assert (latest_of (db_rows db ++ [r])%list u o k = Some r) as Hlast by by apply append_latest.
    split; [|done]. split; cbn [db_rows db_occur_sn]; [|lia| |done| |].
    + split; cbn [db_rows db_occur_sn db_next_id]; [done| | | |lia]; intros r' [Hr'|Hr'%list_elem_of_singleton]%elem_of_app; subst; cbn.
      * specialize (H2 r' Hr'). lia.
      * lia.
      * specialize (H3 r' Hr'). lia.
      * lia.
      * by apply H4.
      * done.
    + unfold value. cbn [db_rows]. by rewrite Hlast.
    + right. exists r. cbn [db_rows]. split; [done|cbn; lia].
    + intros u' o' k' Hne. apply append_other. intros (<- & <- & <-). by apply Hne.
Qed.

Lemma delete_stored db u o k :
  db_wf db ->
  exists db', delete_data_locked u o k db = (Done tt, db') /\ Stored u o k None db db'.
Proof.
  intros Hwf. pose proof Hwf as [H1 H2 H3 H4 H5]. unfold delete_data_locked, get_latest_data. rewrite st_gets_bind.
  destruct (latest_of (db_rows db) u o k) as [r|] eqn:Hl.
  2:{ eexists. split; [reflexivity|]. split; [done|lia|unfold value; by rewrite Hl|done|by left|done]. }
  rewrite st_modify_bind. set (db1 := set_rows _ db).
  assert (db_wf db1) as Hwf1.
  { split; cbn [db_rows db1 set_rows db_occur_sn db_next_id]; [by apply filter_ids| | | |done]; intros x [_ Hx]%list_elem_of_filter; auto. }
  assert (forall u' o' k', latest_of (db_rows db1) u' o' k' = latest_of (db_rows db) u' o' k') as Hsame.
  { intros. by apply drop_older_latest. }
  destruct (ud_is_deleted r) eqn:Hd.
  - eexists. split; [reflexivity|]. split; [done|cbn; lia| |by rewrite Hsame|left; by rewrite Hsame|intros; apply Hsame].
    unfold value. rewrite Hsame, Hl. cbn. by rewrite Hd.
  - eexists. split; [reflexivity|].
    destruct (update_latest_stored db1 u o k r (JObj []) true (db_now db) Hwf1) as [S1 S2 S3 S4 S5 S6]; [by rewrite Hsame|done|].
    split; [done|exact S2|exact S3|intros E; rewrite <- Hsame; exact (S4 E)| |].
    + destruct S5 as [E|(r' & E & Hr')]; [left; etrans; [exact E|apply Hsame]|right; eauto].
    + intros u' o' k' Hne. etrans; [by apply S6|apply Hsame].
Qed.

(** ** Operations and their specification *)

Inductive DataOp : Type :=
| OpSet (user_id : string) (room_id : option string) (kind : string) (json_data : json)
| OpSetIfUnchanged (user_id : string) (room_id : option string) (kind : string)
    (expected : option json) (json_data : json)
| OpDeleteGlobal (user_id kind : string)
| OpDeleteRoom (user_id room_id kind : string).

Definition run_op (op : DataOp) : St UserDb bool :=
  match op with
  | OpSet u o k j => _ ← set_data u o k j; mret true
  | OpSetIfUnchanged u o k e j => set_data_if_unchanged u o k e j
  | OpDeleteGlobal u k => _ ← delete_global_data u k; mret true
  | OpDeleteRoom u r k => _ ← delete_room_data u r k; mret true
  end.
Fixpoint run_ops (ops : list DataOp) (db : UserDb) : UserDb :=
  match ops with [] => db | op :: ops => run_ops ops (snd (run_op op db)) end.

(** The same on a map from keys to values; a value that was deleted leaves a mark. *)
Abbreviation AccountMap := (gmap (string * option string * string) (option json)).
Definition map_value (M : AccountMap) u o k : option json := mjoin (M !! (u, o, k)).
Definition spec_op (op : DataOp) (M : AccountMap) : bool * AccountMap :=
  match op with
  | OpSet u o k j => (true, <[(u, o, k) := Some j]> M)
  | OpSetIfUnchanged u o k e j =>
      if decide (map_value M u o k = e) then (true, <[(u, o, k) := Some j]> M) else (false, M)
  | OpDeleteGlobal u k => (true, alter (fun _ => None) (u, None, k) M)
  | OpDeleteRoom u r k => (true, alter (fun _ => None) (u, Some r, k) M)
  end.

Definition Represents (db : UserDb) (M : AccountMap) : Prop :=
  forall u o k, M !! (u, o, k) = stored_entry db u o k.
Lemma represents_value db M u o k : Represents db M -> map_value M u o k = value db u o k.
Proof. intros HM. unfold map_value. by rewrite HM, value_entry. Qed.

(** A call that fails, or does not write. *)
Record Unchanged (db db' : UserDb) : Prop := {
  un_rows : db_rows db' = db_rows db;
  un_next_id : db_next_id db' = db_next_id db;
  un_seq : db_occur_sn db <= db_occur_sn db'
}.

Lemma db_call_cases {A} (m : St UserDb A) db :
  (exists db', db_call m db = (Fail AppInternal, db') /\ Unchanged db db') \/
  (exists faults, db_call m db = m (set_faults faults db)).
Proof.
  unfold db_call. destruct (db_faults db) as [|[n|] faults] eqn:E.
  - right. exists []. f_equal. destruct db; cbn in *. by subst.
  - left. eexists. split; [done|]. split; cbn; [done..|lia].
  - right. by exists faults.
Qed.

Lemma unchanged_wf db db' : Unchanged db db' -> db_wf db -> db_wf db'.
Proof. intros [H1 H2 H3]. by apply same_rows_wf. Qed.
Lemma unchanged_represents db db' M : Unchanged db db' -> Represents db M -> Represents db' M.
Proof. intros [H1 _ _] HM u o k. unfold stored_entry. by rewrite H1. Qed.
Lemma set_faults_wf faults db : db_wf db -> db_wf (set_faults faults db).
Proof. by intros []; split. Qed.
Lemma stored_faults u o k v faults db db' : Stored u o k v (set_faults faults db) db' -> Stored u o k v db db'.
Proof. by intros []; split. Qed.

Lemma stored_insert u o k j db db' M :
  Stored u o k (Some j) db db' -> Represents db M -> Represents db' (<[(u, o, k) := Some j]> M).
Proof.
  intros [_ _ Hv _ _ Ho] HM u' o' k'. destruct (decide ((u', o', k') = (u, o, k))) as [[= -> -> ->]|Hne].
  - rewrite lookup_insert_eq. rewrite value_entry in Hv. by destruct (stored_entry db' u o k) as [v|]; cbn in Hv; rewrite ?Hv.
  - rewrite lookup_insert_ne by done. unfold stored_entry. rewrite Ho by done. apply HM.
Qed.
Lemma stored_delete u o k db db' M :
  Stored u o k None db db' -> Represents db M -> Represents db' (alter (fun _ => None) (u, o, k) M).
Proof.
  intros [_ _ Hv Hr _ Ho] HM u' o' k'. destruct (decide ((u', o', k') = (u, o, k))) as [[= -> -> ->]|Hne].
  - rewrite lookup_alter_eq, HM. specialize (Hr eq_refl). rewrite value_entry in Hv. unfold stored_entry in *.
    destruct (latest_of (db_rows db) u o k), (latest_of (db_rows db') u o k); cbn in *; try done; [by rewrite Hv|..];
      naive_solver.
  - rewrite lookup_alter_ne by done. unfold stored_entry. rewrite Ho by done. apply HM.
Qed.

(** What an operation did: nothing, because a call failed or the value had changed,
    or its write. *)
Inductive Ran (op : DataOp) (db db' : UserDb) : comp AppError bool -> Prop :=
| RanFailed : Unchanged db db' -> Ran op db db' (Fail AppInternal)
| RanSkipped u o k e j : op = OpSetIfUnchanged u o k e j -> value db u o k <> e ->
    Unchanged db db' -> Ran op db db' (Done false)
| RanSet u o k j : (op = OpSet u o k j \/ op = OpSetIfUnchanged u o k (value db u o k) j) ->
    Stored u o k (Some j) db db' -> Ran op db db' (Done true)
| RanDeleted u o k : (o = None /\ op = OpDeleteGlobal u k \/ exists r, o = Some r /\ op = OpDeleteRoom u r k) ->
    Stored u o k None db db' -> Ran op db db' (Done true).

Lemma set_data_ran u o k j db : db_wf db ->
  exists db', set_data u o k j db = (Fail AppInternal, db') /\ Unchanged db db' \/
    exists r, set_data u o k j db = (Done r, db') /\ Stored u o k (Some j) db db'.
Proof.
  intros Hwf. unfold set_data.
  match goal with |- context [db_call ?m db] => destruct (db_call_cases m db) as [(db' & -> & Hu)|(faults & ->)] end; [eauto|].
  destruct (write_stored (set_faults faults db) u o k j) as (r & db' & E & HS & _); [by apply set_faults_wf|].
  exists db'. right. exists r. split; [exact E|]. by eapply stored_faults.
Qed.

Lemma set_if_unchanged_ran u o k e j db : db_wf db ->
  exists db' res, run_op (OpSetIfUnchanged u o k e j) db = (res, db') /\ Ran (OpSetIfUnchanged u o k e j) db db' res.
Proof.
  intros Hwf. cbn [run_op]. unfold set_data_if_unchanged.
  match goal with |- context [db_call ?m db] => destruct (db_call_cases m db) as [(db' & -> & Hu)|(faults & ->)] end.
  - eexists _, _. split; [done|]. by apply RanFailed.
  - unfold get_latest_data. rewrite st_gets_bind. case_decide as Hc.
    + destruct (write_stored (set_faults faults db) u o k j) as (r & db' & E & HS & _); [by apply set_faults_wf|].
      st_step E. eexists _, _. split; [done|]. eapply RanSet; [right|by eapply stored_faults].
      f_equal. by rewrite <- Hc.
    + eexists _, _. split; [done|]. by eapply RanSkipped.
Qed.

Lemma delete_ran u o k db : db_wf db ->
  exists db', db_call (delete_data_locked u o k) db = (Fail AppInternal, db') /\ Unchanged db db' \/
    db_call (delete_data_locked u o k) db = (Done tt, db') /\ Stored u o k None db db'.
Proof.
  intros Hwf. destruct (db_call_cases (delete_data_locked u o k) db) as [(db' & -> & Hu)|(faults & ->)]; [eauto|].
  destruct (delete_stored (set_faults faults db) u o k) as (db' & -> & HS); [by apply set_faults_wf|].
  exists db'. right. split; [done|]. by eapply stored_faults.
Qed.

Lemma op_ran op db : db_wf db -> exists db' res, run_op op db = (res, db') /\ Ran op db db' res.
Proof.
  intros Hwf. destruct op as [u o k j|u o k e j|u k|u r k].
  - cbn [run_op]. destruct (set_data_ran u o k j db Hwf) as [db' [[E Hu]|(r & E & HS)]].
    + eexists _, _. split; [by eapply bind_St_fail|]. by apply RanFailed.
    + eexists _, _. split; [by erewrite bind_St_run|]. eapply RanSet; eauto.
  - by apply set_if_unchanged_ran.
  - cbn [run_op]. destruct (delete_ran u None k db Hwf) as [db' [[E Hu]|[E HS]]].
    + eexists _, _. split; [by eapply bind_St_fail|]. by apply RanFailed.
    + eexists _, _. split; [by erewrite bind_St_run|]. eapply RanDeleted; [by left|done].
  - cbn [run_op]. destruct (delete_ran u (Some r) k db Hwf) as [db' [[E Hu]|[E HS]]].
    + eexists _, _. split; [by eapply bind_St_fail|]. by apply RanFailed.
    + eexists _, _. split; [by erewrite bind_St_run|]. eapply RanDeleted; [right; eauto|done].
Qed.

Lemma ran_wf op db db' res : Ran op db db' res -> db_wf db -> db_wf db'.
Proof. intros [Hu|? ? ? ? ? _ _ Hu|? ? ? ? _ []|? ? ? _ []]; eauto using unchanged_wf. Qed.

(** Reading; an error other than "not found" is one of the database. *)
Inductive ReadOp : Type :=
| ReadGlobal (user_id kind : string)
| ReadRoom (user_id room_id kind : string)
| ReadData (user_id : string) (room_id : option string) (kind : string).
Definition run_read (rd : ReadOp) : St UserDb (option json) :=
  match rd with
  | ReadGlobal u k => get_global_data u k
  | ReadRoom u r k => get_room_data u r k
  | ReadData u o k =>
      r ← st_try (get_data u o k);
      match r with
      | Ok j => mret (Some j)
      | Err e => if is_not_found e then mret None else st_fail e
      end
  end.
(** What [get_data] finds: the value or the mark of the room, or else the global value. *)
Definition room_or_global (M : AccountMap) u o k : option json :=
  match M !! (u, o, k) with Some v => v | None => map_value M u None k end.
Definition spec_read (rd : ReadOp) (M : AccountMap) : option json :=
  match rd with
  | ReadGlobal u k => map_value M u None k
  | ReadRoom u r k => map_value M u (Some r) k
  | ReadData u o k => room_or_global M u o k
  end.

Lemma set_faults_unchanged faults db : Unchanged db (set_faults faults db).
Proof. split; cbn; [done..|lia]. Qed.

Lemma unchanged_then db1 db2 db3 : Unchanged db1 db2 -> Unchanged db2 db3 -> Unchanged db1 db3.
Proof. intros [H1 H2 H3] [H4 H5 H6]. split; [congruence..|lia]. Qed.
Lemma bind_bind_run {A B C} (m : St UserDb A) (k : A -> St UserDb B) (f : B -> St UserDb C) db a db1 :
  m db = (Done a, db1) -> ((m ≫= k) ≫= f) db = (k a ≫= f) db1.
Proof. intros H. unfold mbind, St_bind. by rewrite H. Qed.
(** One reading of the table. *)
Lemma get_latest_run u o k db :
  exists db', Unchanged db db' /\
    (db_call (get_latest_data u o k) db = (Fail AppInternal, db') \/
     db_call (get_latest_data u o k) db = (Done (latest_of (db_rows db) u o k), db')).
Proof.
  destruct (db_call_cases (get_latest_data u o k) db) as [(db' & E & Hu)|(faults & E)].
  - exists db'. auto.
  - exists (set_faults faults db). split; [apply set_faults_unchanged|right]. exact E.
Qed.
Definition found_or_not (v : option json) : comp AppError json := match v with Some j => Done j | None => Fail DbNotFound end.
Lemma global_data_run u k db :
  exists db', Unchanged db db' /\
    let m : St UserDb DbUserData := (o ← db_call (get_latest_data u None k); st_some o DbNotFound) in
    (m db = (Fail AppInternal, db') \/
     m db = (match latest_of (db_rows db) u None k with Some r => Done r | None => Fail DbNotFound end, db')).
Proof.
  destruct (get_latest_run u None k db) as (db' & Hu & [E|E]); exists db'; (split; [done|]); cbn zeta.
  - left. by apply bind_St_fail.
  - right. rewrite (bind_St_run _ _ _ _ _ E). by destruct (latest_of _ u None k).
Qed.
Lemma get_data_run u o k db M :
  Represents db M ->
  exists db', Unchanged db db' /\
    (get_data u o k db = (Fail AppInternal, db') \/ get_data u o k db = (found_or_not (room_or_global M u o k), db')).
Proof.
  intros HM. unfold get_data, room_or_global.
  set (last := fun row : DbUserData => if ud_is_deleted row then st_fail DbNotFound else mret (ud_json_data row)).
  assert (forall r db1, last r db1 = (found_or_not (if ud_is_deleted r then None else Some (ud_json_data r)), db1)) as Hlast.
  { intros r db1. unfold last. by destruct (ud_is_deleted r). }
  assert (forall db1, Unchanged db db1 -> exists db', Unchanged db db' /\
    let m : St UserDb json := (row ← (o ← db_call (get_latest_data u None k); st_some o DbNotFound); last row) in
    (m db1 = (Fail AppInternal, db') \/ m db1 = (found_or_not (map_value M u None k), db'))) as Hglobal.
  { intros db1 Hu1. destruct (global_data_run u k db1) as (db' & Hu & [E|E]); exists db'; (split; [by eapply unchanged_then|]); cbn zeta.
    - left. by apply bind_St_fail.
    - right. unfold map_value. rewrite HM. unfold stored_entry. rewrite (un_rows _ _ Hu1) in E.
      destruct (latest_of (db_rows db) u None k) as [r|]; [by rewrite (bind_St_run _ _ _ _ _ E)|by apply bind_St_fail]. }
  destruct o as [r|].
  - destruct (get_latest_run u (Some r) k db) as (db1 & Hu & [E|E]).
    + exists db1. split; [done|]. left. apply bind_St_fail. by apply bind_St_fail.
    + rewrite HM. unfold stored_entry. destruct (latest_of (db_rows db) u (Some r) k) as [row|].
      * exists db1. split; [done|right]. erewrite bind_St_run; [apply Hlast|]. by rewrite (bind_St_run _ _ _ _ _ E).
      * destruct (Hglobal db1 Hu) as (db' & Hu' & H). exists db'. split; [done|]. cbn zeta in H.
        rewrite (bind_bind_run _ _ _ _ _ _ E). exact H.
  - destruct (Hglobal db) as (db' & Hu & H); [by split|]. exists db'. split; [done|]. cbn zeta in H.
    rewrite HM. replace (match stored_entry db u None k with Some v => v | None => map_value M u None k end) with (map_value M u None k); [exact H|].
    unfold map_value. rewrite !HM. by destruct (stored_entry db u None k) as [[]|].
Qed.

Lemma run_read_spec rd db M :
  Represents db M ->
  let '(res, db') := run_read rd db in
  Unchanged db db' /\
  match res with Done v => v = spec_read rd M | Fail _ => True | _ => False end.
Proof.
  intros HM. destruct rd as [u k|u r k|u o k]; cbn [run_read].
  - unfold get_global_data. match goal with |- context [db_call ?m] => destruct (db_call_cases m db) as [(db' & -> & Hu)|(faults & ->)] end; [done|].
    split; [apply set_faults_unchanged|]. symmetry. by apply represents_value.
  - unfold get_room_data. match goal with |- context [db_call ?m] => destruct (db_call_cases m db) as [(db' & -> & Hu)|(faults & ->)] end; [done|].
    split; [apply set_faults_unchanged|]. symmetry. by apply represents_value.
  - destruct (get_data_run u o k db M HM) as (db' & Hu & [E|E]).
    + by rewrite (bind_St_run _ _ _ _ _ (st_try_fail _ _ _ _ E)).
    + cbn [spec_read]. destruct (room_or_global M u o k) as [j|]; cbn [found_or_not] in E.
      * by rewrite (bind_St_run _ _ _ _ _ (st_try_run _ _ _ _ E)).
      * by rewrite (bind_St_run _ _ _ _ _ (st_try_fail _ _ _ _ E)).
Qed.

(** C20: the table is a map from users, rooms and types to values and to the marks of
    deleted ones: an operation that succeeds does to it what it does to the map and
    answers what it answers there, a compare-and-set included, and one that fails changes
    no value; a reader that succeeds answers what the map holds and changes nothing,
    [get_data] of a room too, which gives the value of the room, nothing where it was
    deleted, and the global value where the room never had one. *)
Theorem account_data_refines op rd db M :
  db_wf db -> Represents db M ->
  (let '(res, db') := run_op op db in
   db_wf db' /\
   match res with
   | Done answer => answer = fst (spec_op op M) /\ Represents db' (snd (spec_op op M))
   | Fail _ => Represents db' M
   | _ => False
   end) /\
  (let '(res, db') := run_read rd db in
   (db_wf db' /\ Represents db' M) /\
   match res with
   | Done v => v = spec_read rd M
   | Fail _ => True
   | _ => False
   end).
Proof.
  intros Hwf HM. split.
  - destruct (op_ran op db Hwf) as (db' & res & -> & HR).
    split; [by eapply ran_wf|]. destruct HR as [Hu|u o k e j -> Hne Hu|u o k j Hop HS|u o k Hop HS].
    + by eapply unchanged_represents.
    + cbn. rewrite decide_False by by rewrite (represents_value _ _ _ _ _ HM). split; [done|]. by eapply unchanged_represents.
    + destruct Hop as [-> | ->]; cbn; [|rewrite decide_True by by apply represents_value]; (split; [done|]); by eapply stored_insert.
    + destruct Hop as [[-> ->]|(r & -> & ->)]; cbn; (split; [done|]); by eapply stored_delete.
  - pose proof (run_read_spec rd db M HM) as H. destruct (run_read rd db) as [res db']. destruct H as [Hu Hres].
    split; [split; [by eapply unchanged_wf|by eapply unchanged_represents]|done].
Qed.

(** ** The change log *)

Lemma ran_newer op db db' res u o k :
  Ran op db db' res -> newer db db' u o k /\ db_occur_sn db <= db_occur_sn db'.
Proof.
  assert (forall u' o' k' v, Stored u' o' k' v db db' -> newer db db' u o k /\ db_occur_sn db <= db_occur_sn db') as HS.
  { intros u' o' k' v [_ Hs _ _ Hn Ho]. split; [|done].
    destruct (decide ((u, o, k) = (u', o', k'))) as [[= -> -> ->]|Hne]; [done|]. left. by apply Ho. }
  intros [[Hr _ Hs]|? ? ? ? ? _ _ [Hr _ Hs]|? ? ? ? _ H|? ? ? _ H]; eauto; (split; [left; by rewrite Hr|done]).
Qed.

Lemma run_ops_newer ops : forall db u o k, db_wf db ->
  db_wf (run_ops ops db) /\ newer db (run_ops ops db) u o k /\ db_occur_sn db <= db_occur_sn (run_ops ops db).
Proof.
  induction ops as [|op ops IH]; intros db u o k Hwf; cbn [run_ops]; [split; [done|]; split; [by left|lia]|].
  destruct (op_ran op db Hwf) as (db1 & res & -> & HR). cbn [snd].
  destruct (ran_newer op db db1 res u o k HR) as [Hn Hs]. apply ran_wf in HR as Hwf1; [|done].
  destruct (IH db1 u o k Hwf1) as (Hwf2 & Hn2 & Hs2). split; [done|]. split; [|lia].
  destruct Hn2 as [E|(r & E & Hr)]; [|right; exists r; split; [done|lia]].
  destruct Hn as [E1|(r & E1 & Hr)]; [left; congruence|right; exists r; split; [congruence|done]].
Qed.

(** The event of a value in a sync response; an empty object for no value. *)
Definition account_event (room_id : option string) (kind : string) (v : option json) : AnyRawAccountDataEvent :=
  let content := default (JObj []) v in
  match room_id with
  | None => GlobalAccountEvent (room_account_data_type kind) content
  | Some _ => RoomAccountEvent (room_account_data_type kind) content
  end.

(** No change is lost between two syncs: whatever was written since the sequence
    was at the first one's position, every value that differs now is among the
    changes from the next position on, deletions as empty objects. *)
Theorem data_changes_complete ops db u o k room_id :
  db_wf db -> db_faults (run_ops ops db) = [] -> o = None \/ o = room_id ->
  value (run_ops ops db) u o k <> value db u o k ->
  exists events,
    data_changes room_id u (db_occur_sn db + 1) None (run_ops ops db) = (Done events, run_ops ops db) /\
    account_event o k (value (run_ops ops db) u o k) ∈ events.
Proof.
  intros Hwf Hf Hroom Hne. destruct (run_ops_newer ops db u o k Hwf) as (Hwf' & Hn & _).
  set (db' := run_ops ops db) in *. eexists. split; [unfold data_changes, db_call; by rewrite Hf|].
  destruct Hn as [E|(r & E & Hr)]; [by destruct Hne; unfold value; rewrite E|].
  pose proof E as [[Hin (Hu & Ho & Hk)] _]%latest_of_Some; [|apply Hwf'].
  pose proof (wf_seq _ Hwf). apply list_elem_of_fmap. exists r. split.
  - unfold account_event, change_event, value. rewrite E, Ho, Hk. cbn.
    destruct o; f_equal; (destruct (ud_is_deleted r) eqn:Hd; [|done]; symmetry; by apply (wf_deleted _ Hwf')).
  - apply list_elem_of_filter. split; [lia|]. rewrite sort_by_key_Permutation. apply list_elem_of_filter. split; [|done].
    split; [done|]. split; [|split; [lia|done]]. rewrite Ho. destruct o; [right|by left].
    destruct Hroom as [|<-]; [done|]. split; [eauto|done].
Qed.

(** ** Examples *)

Definition no_data : UserDb :=
  {| db_rows := []; db_next_id := 1; db_occur_sn := 0; db_now := 0; db_faults := [] |}.

Lemma no_data_wf : db_wf no_data.
Proof. split; cbn; [constructor| | | |done]; intros r []%elem_of_nil. Qed.

(** The compare-and-set after another writer; a write that fails. *)
Lemma account_data_refines_witness :
  let db := snd (run_op (OpSet "@a:x" None "m.t" (JStr "one")) no_data) in
  let M : AccountMap := {[("@a:x", None, "m.t")%string := Some (JStr "one")]} in
  (db_wf db /\ Represents db M) /\
  (let '(res, db') := run_op (OpSetIfUnchanged "@a:x" None "m.t" None (JStr "two")) db in
   db_wf db' /\
   match res with
   | Done answer =>
       let s := spec_op (OpSetIfUnchanged "@a:x" None "m.t" None (JStr "two")) M in
       answer = fst s /\ Represents db' (snd s)
   | Fail _ => Represents db' M
   | _ => False
   end) /\
  exists v db', run_read (ReadData "@a:x" (Some "!r:x") "m.t") db = (Done v, db') /\ v = spec_read (ReadData "@a:x" (Some "!r:x") "m.t") M.
Proof.
  intros db M. assert (db_wf db /\ Represents db M) as [Hwf HM].
  { destruct (op_ran (OpSet "@a:x" None "m.t" (JStr "one")) no_data no_data_wf) as (db' & res & E & HR).
    split; [unfold db; rewrite E; by eapply ran_wf; [|apply no_data_wf]|].
    assert (db_rows db = [{| ud_id := 1; ud_user_id := "@a:x"; ud_room_id := None; ud_data_type := "m.t";
              ud_json_data := JStr "one"; ud_is_deleted := false; ud_occur_sn := 1; ud_created_at := 0 |}]) as Hr
      by (vm_compute; reflexivity).
    intros u o k. unfold stored_entry, latest_of. rewrite Hr, filter_cons. unfold M.
    case_decide as Hd; [destruct Hd as (<- & <- & <-); by rewrite lookup_singleton_eq|].
    rewrite lookup_singleton_ne; [done|]. intros [= <- <- <-]. by apply Hd. }
  split; [done|].
  destruct (account_data_refines (OpSetIfUnchanged "@a:x" None "m.t" None (JStr "two")) (ReadData "@a:x" (Some "!r:x") "m.t")
              db M Hwf HM) as [Hop Hrd]. split; [exact Hop|].
  destruct (run_read (ReadData "@a:x" (Some "!r:x") "m.t") db) as [res db'] eqn:E. destruct res as [v|e| |].
  - exists v, db'. split; [reflexivity|]. apply Hrd.
  - exfalso. revert E. vm_compute. discriminate.
  - exfalso. apply Hrd.
  - exfalso. apply Hrd.
Defined.

(** A value written and another deleted between two syncs. *)
Lemma data_changes_complete_witness :
  let db := run_ops [OpSet "@a:x" None "m.old" (JStr "one")] no_data in
  let ops := [OpSet "@a:x" (Some "!r:x") "m.tag" (JStr "two"); OpDeleteGlobal "@a:x" "m.old"] in
  exists events,
    data_changes None "@a:x" (db_occur_sn db + 1) None (run_ops ops db) = (Done events, run_ops ops db) /\
    account_event None "m.old" (value (run_ops ops db) "@a:x" None "m.old") ∈ events.
Proof.
  intros db ops. apply (data_changes_complete ops db "@a:x" None "m.old" None).
  - destruct (run_ops_newer [OpSet "@a:x" None "m.old" (JStr "one")] no_data "@a:x" None "m.old" no_data_wf) as [H _].
    exact H.
  - vm_compute. reflexivity.
  - by left.
  - vm_compute. discriminate.
Defined.
