(* ===== verification/PushRules.v ===== *)
(** * Push rules of a user: [crates/server/src/user.rs],
      [crates/server/src/routing/client/push_rule.rs],
      [crates/server/src/routing/client/user/account.rs] and
      [copy_push_rules_from_room_to_room] of [crates/server/src/room/user.rs]

    The rules are one value of the account data.  A reader refreshes the predefined
    rules and stores the result if nobody changed the value meanwhile; an editor
    reads, edits and stores, and answers 409 if somebody did.  What other requests
    write between the two steps of a handler is an argument of the model, a list of
    account data operations.  The body of a request is a document in which no object
    repeats a key. *)
From Stdlib Require Import Ascii.
From S2P Require Import Prelude RustStr Decimal BTree Identifiers Json FlatJson PushMatch Push Ruleset PushDefaults RulesetSpec PushJson Effects AccountData AccountSpec.
Open Scope string_scope.

Definition push_rules_type : string := "m.push_rules".

(** A pure computation that cannot fail, in a handler. *)
Definition st_comp {S A} (c : comp False A) : St S A :=
  match c with
  | Done a => mret a
  | Fail e => match e with end
  | Panic => st_panic
  | OutOfFuel => st_out_of_fuel
  end.

Section push_rules.
Context {IS : IndexSetLib}.

(** ** Loading and storing: [user.rs] *)

Inductive StoredShape : Type := Bare | Wrapped.
#[global] Instance StoredShape_eq_dec : EqDecision StoredShape.
Proof. solve_decision. Defined.

Definition parse_stored_push_rules (stored : json) : option (PushRulesEventContent * StoredShape) :=
  match content_from_value stored with
  | Some content => Some (content, Bare)
  | None => (fun content => (content, Wrapped)) <$> event_from_value stored
  end.

(** Writing a value never fails for these types. *)
Definition refresh_push_rules_content (user_id : string) (stored : option PushRulesEventContent)
    (rewrite_shape : bool) : comp False (PushRulesEventContent * option json) :=
  let stored_json := content_to_value <$> stored in
  let content := default (content_new (server_default user_id)) stored in
  global ← update_with_server_default (server_default user_id) (pre_global content);
  let content := {| pre_global := global; pre_extra := pre_extra content |} in
  let refreshed_json := content_to_value content in
  let changed := rewrite_shape || bool_decide (stored_json <> Some refreshed_json) in
  Done (content, if changed then Some refreshed_json else None).

Record WritablePushRules := { wr_content : PushRulesEventContent; wr_expected : option json }.

Definition save (w : WritablePushRules) (user_id : string) : St UserDb bool :=
  set_data_if_unchanged user_id None push_rules_type (wr_expected w) (content_to_value (wr_content w)).

Definition get_writable_push_rules (user_id : string) : St UserDb (option WritablePushRules) :=
  raw ← get_global_data user_id push_rules_type;
  let stored := match raw with
                | Some raw =>
                    '(content, shape) ← parse_stored_push_rules raw;
                    Some (Some content, bool_decide (shape = Wrapped))
                | None => Some (None, false)
                end in
  match stored with
  | None => mret None
  | Some (stored, rewrite_shape) =>
      '(content, _) ← st_comp (refresh_push_rules_content user_id stored rewrite_shape);
      mret (Some {| wr_content := content; wr_expected := raw |})
  end.

(** [others]: what other requests write between the reading and the storing. *)
Definition get_push_rules (others : list DataOp) (user_id : string) : St UserDb PushRulesEventContent :=
  raw ← get_global_data user_id push_rules_type;
  let stored := raw ≫= parse_stored_push_rules in
  let unparseable := bool_decide (is_Some raw) && negb (bool_decide (is_Some stored)) in
  let was_wrapped := bool_decide ((snd <$> stored) = Some Wrapped) in
  '(content, refreshed_json) ← st_comp (refresh_push_rules_content user_id (fst <$> stored) was_wrapped);
  _ ← st_modify (run_ops others);
  match (if unparseable then None else refreshed_json) with
  | Some refreshed_json =>
      _ ← st_try (set_data_if_unchanged user_id None push_rules_type raw refreshed_json);
      mret content
  | None => mret content
  end.

(** ** The endpoints: [push_rule.rs] *)

Inductive RuleScope : Type := ScopeGlobal | ScopeCustom (s : string).

Definition check_scope (scope : RuleScope) : St UserDb unit :=
  match scope with ScopeGlobal => mret tt | ScopeCustom _ => st_fail MatrixInvalidParam end.
Definition load_writable (user_id : string) : St UserDb WritablePushRules :=
  w ← get_writable_push_rules user_id; st_some w MatrixUnknown.
(** [writable.save(..)] and the answer to a concurrent change. *)
Definition save_or_conflict (others : list DataOp) (user_id : string) (w : WritablePushRules) : St UserDb unit :=
  _ ← st_modify (run_ops others);
  saved ← save w user_id;
  if (saved : bool) then mret tt else st_fail MatrixConflict.
Definition with_global (w : WritablePushRules) (global : Ruleset) : WritablePushRules :=
  {| wr_content := {| pre_global := global; pre_extra := pre_extra (wr_content w) |};
     wr_expected := wr_expected w |}.

(** The bodies of [set_rule]. *)
Definition simple_body (payload : json) : option (list Action) :=
  struct1 "actions" false (field_required (de_vec action_from_value)) payload.
Definition two_fields {A} (name : string) (de : json -> option A) (payload : json) : option (list Action * A) :=
  slots ← struct_fields [("actions", false); (name, false)] payload;
  match slots with
  | [actions; other] =>
      actions ← field_required (de_vec action_from_value) actions;
      x ← field_required de other;
      Some (actions, x)
  | _ => None
  end.
Definition conditional_body : json -> option (list Action * list PushCondition) :=
  two_fields "conditions" (de_vec condition_from_value).
Definition patterned_body : json -> option (list Action * string) := two_fields "pattern" de_str.

Definition new_rule_of (kind : RuleKind) (rule_id : string) (payload : json) : result AppError NewPushRule :=
  match kind with
  | KOverride =>
      '(actions, conditions) ← ok_or (conditional_body payload) SerdeJson;
      Ok (NewOverride rule_id conditions actions)
  | KUnderride =>
      '(actions, conditions) ← ok_or (conditional_body payload) SerdeJson;
      Ok (NewUnderride rule_id conditions actions)
  | KSender =>
      actions ← ok_or (simple_body payload) SerdeJson;
      if is_ok (user_id_validate rule_id) then Ok (NewSender rule_id actions) else Err IdParse
  | KRoom =>
      actions ← ok_or (simple_body payload) SerdeJson;
      if is_ok (room_id_validate rule_id) then Ok (NewRoom rule_id actions) else Err IdParse
  | KContent =>
      '(actions, pattern) ← ok_or (patterned_body payload) SerdeJson;
      Ok (NewContent rule_id pattern actions)
  | KPostContent | KCustom _ => Err MatrixInvalidParam
  end.

Definition insert_error (e : InsertPushRuleError) : AppError :=
  match e with
  | UnknownRuleId => MatrixNotFound
  | ServerDefaultRuleId | InvalidRuleId | RelativeToServerDefaultRule | BeforeHigherThanAfter => MatrixInvalidParam
  end.
Definition remove_error (e : RemovePushRuleError) : AppError :=
  match e with RemoveServerDefault => MatrixInvalidParam | RemoveNotFound => MatrixNotFound end.

Definition st_result {S A} (r : result AppError A) : St S A :=
  match r with Ok a => mret a | Err e => st_fail e end.

Definition set_rule (others : list DataOp) (user_id : string) (scope : RuleScope) (kind : RuleKind)
    (rule_id : string) (after before : option string) (payload : json) : St UserDb unit :=
  new_rule ← st_result (new_rule_of kind rule_id payload);
  _ ← check_scope scope;
  writable ← load_writable user_id;
  match insert new_rule after before (pre_global (wr_content writable)) with
  | (Done tt, global) => save_or_conflict others user_id (with_global writable global)
  | (Fail e, _) => st_fail (insert_error e)
  | (Panic, _) => st_panic
  | (OutOfFuel, _) => st_out_of_fuel
  end.

Definition delete_rule (others : list DataOp) (user_id : string) (scope : RuleScope) (kind : RuleKind)
    (rule_id : string) : St UserDb unit :=
  _ ← check_scope scope;
  writable ← load_writable user_id;
  match remove kind rule_id (pre_global (wr_content writable)) with
  | Done global => save_or_conflict others user_id (with_global writable global)
  | Fail e => st_fail (remove_error e)
  | Panic => st_panic
  | OutOfFuel => st_out_of_fuel
  end.

Definition put_actions (others : list DataOp) (user_id : string) (scope : RuleScope) (kind : RuleKind)
    (rule_id : string) (actions : list Action) : St UserDb unit :=
  _ ← check_scope scope;
  writable ← load_writable user_id;
  match set_actions kind rule_id actions (pre_global (wr_content writable)) with
  | Ok global => save_or_conflict others user_id (with_global writable global)
  | Err _ => st_fail MatrixNotFound
  end.

Definition put_enabled (others : list DataOp) (user_id : string) (scope : RuleScope) (kind : RuleKind)
    (rule_id : string) (enabled : bool) : St UserDb unit :=
  _ ← check_scope scope;
  writable ← load_writable user_id;
  match set_enabled kind rule_id enabled (pre_global (wr_content writable)) with
  | Ok global => save_or_conflict others user_id (with_global writable global)
  | Err _ => st_fail MatrixNotFound
  end.

(** [list_rules] and [global] *)
Definition list_rules (others : list DataOp) (user_id : string) : St UserDb Ruleset :=
  content ← get_push_rules others user_id; mret (pre_global content).
Definition get_rule (others : list DataOp) (user_id : string) (kind : RuleKind) (rule_id : string) :
    St UserDb AnyPushRule :=
  content ← get_push_rules others user_id;
  st_some (ruleset_get kind rule_id (pre_global content)) MatrixNotFound.
Definition rule_actions_of (others : list DataOp) (user_id : string) (scope : RuleScope) (kind : RuleKind)
    (rule_id : string) : St UserDb (list Action) :=
  _ ← check_scope scope;
  content ← get_push_rules others user_id;
  rule ← st_some (ruleset_get kind rule_id (pre_global content)) MatrixNotFound;
  mret (any_actions rule).
Definition rule_enabled_of (others : list DataOp) (user_id : string) (scope : RuleScope) (kind : RuleKind)
    (rule_id : string) : St UserDb bool :=
  _ ← check_scope scope;
  content ← get_push_rules others user_id;
  rule ← st_some (ruleset_get kind rule_id (pre_global content)) MatrixNotFound;
  mret (any_enabled rule).

(** ** The account data endpoints: [account.rs] *)

(** The refresh first, for push rules; the errors of [get_data] are all "not found". *)
Definition get_global_data_endpoint (others : list DataOp) (user_id event_type : string) : St UserDb json :=
  _ ← (if decide (event_type = push_rules_type)
       then _ ← get_push_rules others user_id; mret tt
       else mret tt);
  r ← st_try (get_data user_id None event_type);
  match r with Ok j => mret j | Err _ => st_fail MatrixNotFound end.

(** [set_global_data] but for the ignored users, which are another table; an empty
    object deletes. *)
Definition set_global_data_endpoint (user_id event_type : string) (body : json) : St UserDb unit :=
  if decide (body = JObj []) then delete_global_data user_id event_type
  else _ ← set_data user_id None event_type body; mret tt.

(** ** [copy_push_rules_from_room_to_room] *)

Fixpoint copy_attempts (n : nat) (others : list DataOp) (user_id old_room_id new_room_id : string) : St UserDb unit :=
  match n with
  | 0%nat => mret tt
  | S n =>
      w ← st_try (get_writable_push_rules user_id);
      match w with
      | Ok (Some writable) =>
          match iset_get (rs_room (pre_global (wr_content writable))) old_room_id with
          | None => mret tt
          | Some old_rule =>
              if negb (sr_enabled old_rule) then mret tt
              else
                match insert (NewRoom new_room_id (sr_actions old_rule)) None None
                        (pre_global (wr_content writable)) with
                | (Done tt, global) =>
                    _ ← st_modify (run_ops others);
                    saved ← save (with_global writable global) user_id;
                    if (saved : bool) then mret tt
                    else copy_attempts n others user_id old_room_id new_room_id
                | (Fail _, _) => mret tt
                | (Panic, _) => st_panic
                | (OutOfFuel, _) => st_out_of_fuel
                end
          end
      | _ => mret tt
      end
  end.
Definition copy_push_rules_from_room_to_room (others : list DataOp) (user_id old_room_id new_room_id : string) :
    St UserDb unit := copy_attempts 4 others user_id old_room_id new_room_id.
End push_rules.
