(* ===== verification/PushRulesSpec.v ===== *)
(** * What the push rule endpoints promise

    An edit that is acknowledged is an edit of the rules as they are when it is
    stored, whatever else is written meanwhile; what it set is what the next reader
    gets; a stored value the server cannot read is never overwritten by it; and
    loading the rules never fails because the refreshed ones cannot be stored. *)
From Stdlib Require Import Ascii.
From S2P Require Import Prelude RustStr Decimal BTree Identifiers Json FlatJson PushMatch Push Ruleset PushDefaults RulesetSpec PushJson Effects AccountData AccountSpec PushRules.
Open Scope string_scope.

Section spec.
Context {IS : IndexSetLib}.

(** The rules a user has: what a stored value reads as, refreshed; none when it
    cannot be read. *)
Definition stored_rules (raw : option json) : option (option PushRulesEventContent * bool) :=
  match raw with
  | Some raw => '(content, shape) ← parse_stored_push_rules raw;
                Some (Some content, bool_decide (shape = Wrapped))
  | None => Some (None, false)
  end.
Definition rules_of (user_id : string) (raw : option json) : option PushRulesEventContent :=
  '(stored, rewrite_shape) ← stored_rules raw;
  match refresh_push_rules_content user_id stored rewrite_shape with Done (c, _) => Some c | _ => None end.

Abbreviation rules_value db user_id := (value db user_id None push_rules_type).

Lemma refresh_content_run user_id stored rewrite_shape :
  let base := default (content_new (server_default user_id)) stored in
  exists c o, refresh_push_rules_content user_id stored rewrite_shape = Done (c, o) /\
    update_with_server_default (server_default user_id) (pre_global base) = Done (pre_global c) /\
    Refreshed user_id (pre_global base) (pre_global c) /\ pre_extra c = pre_extra base /\
    (o = Some (content_to_value c) \/
     o = None /\ rewrite_shape = false /\ content_to_value <$> stored = Some (content_to_value c)).
Proof.
  intros base. unfold refresh_push_rules_content. fold base.
  destruct (refresh_refreshed user_id (pre_global base)) as (rs & E & HR). rewrite E.
  eexists _, _. split; [reflexivity|]. cbn [pre_global pre_extra]. split; [done|]. split; [done|]. split; [done|].
  destruct rewrite_shape; cbn [orb]; [by left|]. case_bool_decide as H; [by left|]. right. split; [done|].
  done.
Qed.

Lemma rules_of_None user_id raw :
  rules_of user_id raw = None <-> exists j, raw = Some j /\ parse_stored_push_rules j = None.
Proof.
  unfold rules_of, stored_rules. destruct raw as [j|]; cbn [mbind option_bind].
  - destruct (parse_stored_push_rules j) as [[c sh]|] eqn:E; cbn [mbind option_bind].
    + destruct (refresh_content_run user_id (Some c) (bool_decide (sh = Wrapped))) as (c' & o & -> & _).
      split; [done|]. intros (? & [= <-] & ?). congruence.
    + split; [|done]. intros _. eauto.
  - destruct (refresh_content_run user_id None false) as (c' & o & -> & _). split; [done|]. intros (? & [=] & _).
Qed.

(** ** Reading *)

Lemma unchanged_value db db' u o k : Unchanged db db' -> value db' u o k = value db u o k.
Proof. intros [H _ _]. unfold value. by rewrite H. Qed.
Lemma unchanged_trans db db1 db2 : Unchanged db db1 -> Unchanged db1 db2 -> Unchanged db db2.
Proof. intros [H1 H2 H3] [H4 H5 H6]. split; [congruence|congruence|lia]. Qed.

Lemma get_global_data_run user_id kind db :
  exists db', Unchanged db db' /\
    (get_global_data user_id kind db = (Fail AppInternal, db') \/
     get_global_data user_id kind db = (Done (value db user_id None kind), db')).
Proof.
  unfold get_global_data.
  match goal with |- context [db_call ?m db] => destruct (db_call_cases m db) as [(db' & -> & Hu)|(faults & ->)] end.
  - exists db'. auto.
  - exists (set_faults faults db). split; [apply set_faults_unchanged|]. by right.
Qed.

Lemma st_comp_done {S A B} (a : A) (f : A -> St S B) s : (st_comp (Done a) ≫= f) s = f a s.
Proof. done. Qed.

Lemma get_writable_run user_id db :
  exists db', Unchanged db db' /\
    (get_writable_push_rules user_id db = (Fail AppInternal, db') \/
     get_writable_push_rules user_id db =
       (Done ((fun c => {| wr_content := c; wr_expected := rules_value db user_id |}) <$>
              rules_of user_id (rules_value db user_id)), db')).
Proof.
  destruct (get_global_data_run user_id push_rules_type db) as (db' & Hu & [E|E]); exists db'; (split; [done|]).
  { left. by apply bind_St_fail. }
  right. unfold get_writable_push_rules. st_step E. unfold rules_of, stored_rules.
  destruct (rules_value db user_id) as [raw|]; cbn [mbind option_bind].
  - destruct (parse_stored_push_rules raw) as [[c sh]|]; cbn [mbind option_bind]; [|done].
    destruct (refresh_content_run user_id (Some c) (bool_decide (sh = Wrapped))) as (c' & o & -> & _). done.
  - destruct (refresh_content_run user_id None false) as (c' & o & -> & _). done.
Qed.

Lemma load_writable_run user_id db :
  exists db', Unchanged db db' /\
    (load_writable user_id db = (Fail AppInternal, db') \/
     load_writable user_id db =
       (match rules_of user_id (rules_value db user_id) with
        | Some c => Done {| wr_content := c; wr_expected := rules_value db user_id |}
        | None => Fail MatrixUnknown
        end, db')).
Proof.
  destruct (get_writable_run user_id db) as (db' & Hu & [E|E]); exists db'; (split; [done|]).
  - left. by apply bind_St_fail.
  - right. unfold load_writable. st_step E. by destruct (rules_of user_id (rules_value db user_id)).
Qed.

(** ** Editing *)

Inductive Edit : Type :=
| EditInsert (rule : NewPushRule) (after before : option string)
| EditRemove (kind : RuleKind) (rule_id : string)
| EditActions (kind : RuleKind) (rule_id : string) (actions : list Action)
| EditEnabled (kind : RuleKind) (rule_id : string) (enabled : bool).

Definition edit_ruleset (e : Edit) (rs : Ruleset) : comp AppError Ruleset :=
  match e with
  | EditInsert rule after before =>
      match insert rule after before rs with
      | (Done tt, rs') => Done rs'
      | (Fail e, _) => Fail (insert_error e)
      | (Panic, _) => Panic
      | (OutOfFuel, _) => OutOfFuel
      end
  | EditRemove kind id =>
      match remove kind id rs with
      | Done rs' => Done rs' | Fail e => Fail (remove_error e) | Panic => Panic | OutOfFuel => OutOfFuel
      end
  | EditActions kind id actions =>
      match set_actions kind id actions rs with Ok rs' => Done rs' | Err _ => Fail MatrixNotFound end
  | EditEnabled kind id enabled =>
      match set_enabled kind id enabled rs with Ok rs' => Done rs' | Err _ => Fail MatrixNotFound end
  end.

(** The requests that edit, and the edit each asks for. *)
Inductive Request : Type :=
| PutRule (scope : RuleScope) (kind : RuleKind) (rule_id : string) (after before : option string) (payload : json)
| DeleteRule (scope : RuleScope) (kind : RuleKind) (rule_id : string)
| PutActions (scope : RuleScope) (kind : RuleKind) (rule_id : string) (actions : list Action)
| PutEnabled (scope : RuleScope) (kind : RuleKind) (rule_id : string) (enabled : bool).

Definition handle (others : list DataOp) (user_id : string) (req : Request) : St UserDb unit :=
  match req with
  | PutRule scope kind id after before payload => set_rule others user_id scope kind id after before payload
  | DeleteRule scope kind id => delete_rule others user_id scope kind id
  | PutActions scope kind id actions => put_actions others user_id scope kind id actions
  | PutEnabled scope kind id enabled => put_enabled others user_id scope kind id enabled
  end.

Definition asked (scope : RuleScope) (e : Edit) : result AppError Edit :=
  match scope with ScopeGlobal => Ok e | ScopeCustom _ => Err MatrixInvalidParam end.
Definition request_edit (req : Request) : result AppError Edit :=
  match req with
  | PutRule scope kind id after before payload =>
      rule ← new_rule_of kind id payload; asked scope (EditInsert rule after before)
  | DeleteRule scope kind id => asked scope (EditRemove kind id)
  | PutActions scope kind id actions => asked scope (EditActions kind id actions)
  | PutEnabled scope kind id enabled => asked scope (EditEnabled kind id enabled)
  end.

Definition run_edit (others : list DataOp) (user_id : string) (e : Edit) : St UserDb unit :=
  writable ← load_writable user_id;
  match edit_ruleset e (pre_global (wr_content writable)) with
  | Done rs => save_or_conflict others user_id (with_global writable rs)
  | Fail e => st_fail e
  | Panic => st_panic
  | OutOfFuel => st_out_of_fuel
  end.

Lemma bind_ext {S A B} (m : St S A) (f g : A -> St S B) s :
  (forall a s, f a s = g a s) -> (m ≫= f) s = (m ≫= g) s.
Proof. intros H. unfold mbind, St_bind. destruct (m s) as [[]]; auto. Qed.

Lemma handle_edit others user_id req db :
  handle others user_id req db =
  match request_edit req with Ok e => run_edit others user_id e db | Err e => (Fail e, db) end.
Proof.
  destruct req as [scope kind id after before payload|scope kind id|scope kind id actions|scope kind id enabled];
    cbn [handle request_edit].
  - unfold set_rule. destruct (new_rule_of kind id payload) as [rule|e]; [|done].
    destruct scope; [|done]. cbn [st_result check_scope]. rewrite !st_ret_bind. apply bind_ext. intros w db1. cbn [edit_ruleset].
    by destruct (insert rule after before (pre_global (wr_content w))) as [[[]| | |] rs].
  - unfold delete_rule. destruct scope; [|done]. cbn [check_scope]. rewrite st_ret_bind. apply bind_ext. intros w db1. cbn [edit_ruleset].
    by destruct (remove kind id (pre_global (wr_content w))).
  - unfold put_actions. destruct scope; [|done]. cbn [check_scope]. rewrite st_ret_bind. apply bind_ext. intros w db1. cbn [edit_ruleset].
    by destruct (set_actions kind id actions (pre_global (wr_content w))).
  - unfold put_enabled. destruct scope; [|done]. cbn [check_scope]. rewrite st_ret_bind. apply bind_ext. intros w db1. cbn [edit_ruleset].
    by destruct (set_enabled kind id enabled (pre_global (wr_content w))).
Qed.

Lemma unchanged_refl db : Unchanged db db.
Proof. split; [done..|lia]. Qed.

(** The compare-and-set of [save]: it stores, or does nothing. *)
Lemma cas_run user_id expected j db :
  db_wf db ->
  exists db' res, set_data_if_unchanged user_id None push_rules_type expected j db = (res, db') /\
    (res = Done true /\ expected = rules_value db user_id /\
     Stored user_id None push_rules_type (Some j) db db' \/
     (res = Done false /\ rules_value db user_id <> expected \/ res = Fail AppInternal) /\ Unchanged db db').
Proof.
  intros Hwf. destruct (set_if_unchanged_ran user_id None push_rules_type expected j db Hwf) as (db' & res & E & HR).
  exists db', res. split; [exact E|]. inversion HR as [Hu|u o k e' j' Hop Hne Hu|u o k j' Hop HS|u o k Hop HS]; subst.
  - right. auto.
  - right. injection Hop as <- <- <- <- <-. auto.
  - left. destruct Hop as [[=]|[= <- <- <- -> <-]]. auto.
  - exfalso. destruct Hop as [[_ [=]]|(r & _ & [=])].
Qed.

Lemma run_edit_spec others user_id e db :
  db_wf db ->
  exists db1 db' res, Unchanged db db1 /\ run_edit others user_id e db = (res, db') /\
    let dbm := run_ops others db1 in
    match res with
    | Done _ => rules_value dbm user_id = rules_value db user_id /\
        exists c rs, rules_of user_id (rules_value dbm user_id) = Some c /\
        edit_ruleset e (pre_global c) = Done rs /\
        Stored user_id None push_rules_type
          (Some (content_to_value {| pre_global := rs; pre_extra := pre_extra c |})) dbm db'
    | _ => Unchanged db db' \/ Unchanged dbm db'
    end.
Proof.
  intros Hwf. destruct (load_writable_run user_id db) as (db1 & Hu & [E|E]); exists db1.
  { exists db1, (Fail AppInternal). split; [done|]. split; [by apply bind_St_fail|]. by left. }
  destruct (rules_of user_id (rules_value db user_id)) as [c|] eqn:Hc.
  2:{ exists db1, (Fail MatrixUnknown). split; [done|]. split; [by apply bind_St_fail|]. by left. }
  unfold run_edit. st_step E. cbn [wr_content].
  destruct (edit_ruleset e (pre_global c)) as [rs|err| |] eqn:He;
    [|eexists db1, _; split; [done|]; split; [reflexivity|]; by left..].
  unfold save_or_conflict. rewrite st_modify_bind. set (dbm := run_ops others db1).
  assert (db_wf dbm) as Hwfm.
  { apply (run_ops_newer others db1 user_id None push_rules_type). by eapply unchanged_wf. }
  unfold save. cbn [with_global wr_content wr_expected].
  destruct (cas_run user_id (rules_value db user_id) (content_to_value {| pre_global := rs; pre_extra := pre_extra c |}) dbm Hwfm)
    as (db' & res & ER & HR). destruct HR as [(-> & Hexp & HS)|[[[-> _]| ->] Hud]].
  - exists db', (Done tt). split; [done|]. split; [by st_step ER|]. split; [done|]. exists c, rs. rewrite <- Hexp. auto.
  - exists db', (Fail MatrixConflict). split; [done|]. split; [by st_step ER|]. by right.
  - exists db', (Fail AppInternal). split; [done|]. split; [by apply bind_St_fail|]. by right.
Qed.

(** C19: an edit that is acknowledged is the edit of the rules as they are when it is
    stored, whatever others write between its reading and its storing, and it writes
    nothing but them; one that is refused or fails writes nothing. *)
Theorem edit_acknowledged others user_id req db :
  db_wf db ->
  let '(res, db') := handle others user_id req db in
  exists db1, Unchanged db db1 /\
    let dbm := run_ops others db1 in
    match res with
    | Done _ => exists e c rs, request_edit req = Ok e /\
        rules_of user_id (rules_value dbm user_id) = Some c /\
        edit_ruleset e (pre_global c) = Done rs /\
        Stored user_id None push_rules_type
          (Some (content_to_value {| pre_global := rs; pre_extra := pre_extra c |})) dbm db'
    | _ => Unchanged db db' \/ Unchanged dbm db'
    end.
Proof.
  intros Hwf. rewrite handle_edit. destruct (request_edit req) as [e|err].
  - destruct (run_edit_spec others user_id e db Hwf) as (db1 & db' & res & Hu & -> & H). exists db1. split; [done|].
    cbn zeta in *. destruct res; [|done..]. destruct H as (_ & c & rs & H1 & H2 & H3). eauto 10.
  - exists db. split; [apply unchanged_refl|]. left. apply unchanged_refl.
Qed.

(** ** Loading *)

(** What [get_push_rules] makes of the stored value: the rules and whether it stores
    them. *)
Lemma loaded_rules user_id raw :
  let stored := raw ≫= parse_stored_push_rules in
  let was_wrapped := bool_decide ((snd <$> stored) = Some Wrapped) in
  exists c o, refresh_push_rules_content user_id (fst <$> stored) was_wrapped = Done (c, o) /\
    match rules_of user_id raw with
    | Some c' => c = c' /\ (o = None \/ o = Some (content_to_value c)) /\
        bool_decide (is_Some raw) && negb (bool_decide (is_Some stored)) = false
    | None => bool_decide (is_Some raw) && negb (bool_decide (is_Some stored)) = true /\ stored = None
    end.
Proof.
  unfold rules_of, stored_rules. destruct raw as [j|]; cbn [mbind option_bind].
  - destruct (parse_stored_push_rules j) as [[c sh]|]; cbn [mbind option_bind fmap option_fmap option_map fst snd].
    + assert (bool_decide (Some sh = Some Wrapped) = bool_decide (sh = Wrapped)) as ->.
      { apply bool_decide_ext. naive_solver. }
      destruct (refresh_content_run user_id (Some c) (bool_decide (sh = Wrapped))) as (c' & o & -> & _ & _ & _ & Ho).
      exists c', o. split; [done|]. split; [done|]. split; [tauto|done].
    + destruct (refresh_content_run user_id None false) as (c' & o & H & _). exists c', o. done.
  - destruct (refresh_content_run user_id None false) as (c' & o & H & _ & _ & _ & Ho).
    exists c', o. cbn. rewrite H. split; [exact H|]. split; [done|]. split; [tauto|done].
Qed.

(** Storing what was refreshed: the answer is there already. *)
Lemma store_refreshed user_id raw (c : PushRulesEventContent) o db :
  db_wf db -> o = None \/ o = Some (content_to_value c) ->
  exists db', (match o with
      | Some j => _ ← st_try (set_data_if_unchanged user_id None push_rules_type raw j); mret c
      | None => mret c
      end : St UserDb _) db = (Done c, db') /\
    (Unchanged db db' /\ (o = None \/ rules_value db user_id <> raw \/ db_faults db <> []) \/
     rules_value db user_id = raw /\ Stored user_id None push_rules_type (Some (content_to_value c)) db db' /\ is_Some o).
Proof.
  intros Hwf [-> | ->].
  { exists db. split; [done|]. left. split; [apply unchanged_refl|auto]. }
  destruct (cas_run user_id raw (content_to_value c) db Hwf) as (db' & res & ER & HR). exists db'.
  destruct HR as [(-> & -> & HS)|[[[-> Hne]| ->] Hu]].
  - split; [by rewrite (bind_St_run _ _ _ _ _ (st_try_run _ _ _ _ ER))|]. right. eauto.
  - split; [by rewrite (bind_St_run _ _ _ _ _ (st_try_run _ _ _ _ ER))|]. auto.
  - split; [by rewrite (bind_St_run _ _ _ _ _ (st_try_fail _ _ _ _ ER))|]. left. split; [done|]. right. right.
    intros Hf. unfold set_data_if_unchanged, db_call in ER. rewrite Hf in ER. revert ER. unfold get_latest_data.
    rewrite st_gets_bind. case_decide; [|done].
    destruct (write_stored db user_id None push_rules_type (content_to_value c) Hwf) as (r & db2 & E2 & _).
    by st_step E2.
Qed.

Lemma run_ops_wf others db : db_wf db -> db_wf (run_ops others db).
Proof. intros Hwf. by apply (run_ops_newer others db push_rules_type None push_rules_type). Qed.

(** Loading the rules answers with them whether or not the refreshed ones can be
    stored; it stores them only over the value it read, and a value it cannot read it
    leaves alone and answers with the predefined rules. *)
Theorem load_push_rules others user_id db :
  db_wf db ->
  let '(res, db') := get_push_rules others user_id db in
  exists db1, Unchanged db db1 /\
    (res = Fail AppInternal /\ db' = db1 \/
     let dbm := run_ops others db1 in
     exists c, res = Done c /\
       match rules_of user_id (rules_value db user_id) with
       | Some c' => c = c' /\
           (Unchanged dbm db' \/
            rules_value dbm user_id = rules_value db user_id /\
            Stored user_id None push_rules_type (Some (content_to_value c)) dbm db')
       | None => db' = dbm /\ exists o, refresh_push_rules_content user_id None false = Done (c, o)
       end).
Proof.
  intros Hwf. unfold get_push_rules.
  destruct (get_global_data_run user_id push_rules_type db) as (db1 & Hu & [E|E]).
  { rewrite (bind_St_fail _ _ _ _ _ E). exists db1. auto. }
  st_step E. destruct (loaded_rules user_id (rules_value db user_id)) as (c & o & Ec & Hc).
  rewrite Ec, st_comp_done, st_modify_bind. set (dbm := run_ops others db1).
  assert (db_wf dbm) as Hwfm by (apply run_ops_wf; by eapply unchanged_wf).
  destruct (rules_of user_id (rules_value db user_id)) as [c'|].
  - destruct Hc as (<- & Ho & ->).
    destruct (store_refreshed user_id (rules_value db user_id) c o dbm Hwfm Ho) as (db' & -> & HR).
    exists db1. split; [done|]. right. exists c. split; [done|]. split; [done|]. naive_solver.
  - destruct Hc as [-> Hs]. cbn. exists db1. split; [done|]. right. exists c. split; [done|]. split; [done|].
    exists o. rewrite Hs in Ec. exact Ec.
Qed.

(** ** Reading what was edited *)

Lemma conditional_copy_wf (new_ old l : list ConditionalPushRule) :
  Forall conditional_wf new_ -> Forall conditional_wf old -> merged new_ old l -> Forall conditional_wf l.
Proof.
  intros Hn Ho Hm. rewrite Forall_forall in *. intros r [(n & Hin & ->)|(Hin & _)]%(merged_elem _ _ _ _ Hm); [|auto].
  unfold copy_state. destruct (entry (rule_id n) old) as [o|] eqn:E; [|auto].
  assert (o ∈ old) as Ho'.
  { unfold entry in E. destruct (list_find _ old) as [[i o']|] eqn:F; [|done]. injection E as <-.
    apply list_find_Some in F as (F & _). by eapply list_elem_of_lookup_2. }
  split; [apply (Ho o Ho')|apply (Hn n Hin)].
Qed.

Lemma user_only_wf {T} {R : Rule T} (P : T -> Prop) (old l : list T) :
  Forall P old -> merged [] old l -> Forall P l.
Proof.
  intros Ho Hm. rewrite Forall_forall in *. intros r [(n & []%elem_of_nil & _)|(Hin & _)]%(merged_elem _ _ _ _ Hm). auto.
Qed.

Lemma default_rules_wf user_id :
  Forall conditional_wf (master :: default_overrides user_id) /\
  Forall conditional_wf default_postcontent /\ Forall conditional_wf default_underrides.
Proof. split_and!; repeat constructor; done. Qed.

Lemma refreshed_wf user_id rs rs' : ruleset_wf rs -> Refreshed user_id rs rs' -> ruleset_wf rs'.
Proof.
  intros [H1 H2 H3 H4 H5 H6 H7 H8] [F1 F2 F3 F4 F5 F6 F7].
  destruct (default_rules_wf user_id) as (D1 & D2 & D3).
  split; [| | | | | |by rewrite F7|by rewrite F7].
  - by apply (user_only_wf _ _ _ H1).
  - by apply (conditional_copy_wf _ _ _ D2 H2).
  - by apply (conditional_copy_wf _ _ _ D1 H3).
  - by apply (user_only_wf _ _ _ H4).
  - by apply (user_only_wf _ _ _ H5).
  - by apply (conditional_copy_wf _ _ _ D3 H6).
Qed.

Lemma server_default_wf user_id : ruleset_wf (server_default user_id).
Proof.
  destruct (default_rules_wf user_id) as (D1 & D2 & D3). split; unfold server_default; cbn [rs_content rs_postcontent rs_override rs_room rs_sender rs_underride rs_extra].
  - rewrite entries_new. constructor.
  - rewrite collect_entries; [exact D2|]. apply (bool_decide_unpack _). by vm_compute.
  - fold (rs_override (server_default user_id)).
    pose proof (server_default_overrides user_id) as E. unfold server_default in E. cbn [rs_override] in E. rewrite E. exact D1.
  - rewrite entries_new. constructor.
  - rewrite entries_new. constructor.
  - rewrite collect_entries; [exact D3|]. apply (bool_decide_unpack _). by vm_compute.
  - constructor.
  - done.
Qed.

Lemma parse_stored_wf j c shape :
  sorted_json j -> parse_stored_push_rules j = Some (c, shape) -> content_wf c.
Proof.
  intros Hj. unfold parse_stored_push_rules. destruct (content_from_value j) as [c'|] eqn:E.
  - intros [= <- <-]. by eapply content_from_wf.
  - intros (c' & Hc & [= -> ->])%fmap_Some. destruct j as [| | | | |m]; try done. cbn in Hc.
    apply bind_Some in Hc as (ty & _ & (j & Hj' & Hc)%bind_Some). apply sorted_obj in Hj as [_ Hv].
    eapply content_from_wf; [|exact Hc]. by eapply Hv.
Qed.

(** The rules of a stored value are well-formed and refreshed. *)
Lemma rules_of_wf user_id raw c :
  (forall j, raw = Some j -> sorted_json j) -> rules_of user_id raw = Some c ->
  content_wf c /\ exists base, Refreshed user_id base (pre_global c).
Proof.
  intros Hs Hc. assert (exists stored flag, stored_rules raw = Some (stored, flag) /\
    content_wf (default (content_new (server_default user_id)) stored) /\
    exists o, refresh_push_rules_content user_id stored flag = Done (c, o)) as (stored & flag & _ & (Hg & Hx & Hn) & o & E).
  { unfold rules_of in Hc. apply bind_Some in Hc as ([stored flag] & E & Hc). exists stored, flag. split; [done|].
    destruct (refresh_push_rules_content user_id stored flag) as [[c' o]|[]| |]; try done. injection Hc as <-. split; [|eauto].
    unfold stored_rules in E. destruct raw as [j|].
    - apply bind_Some in E as ([c0 sh] & E & [= <- <-]). cbn. eapply parse_stored_wf; [|exact E]. by apply Hs.
    - injection E as <- <-. cbn. split; [apply server_default_wf|]. split; [constructor|done]. }
  destruct (refresh_content_run user_id stored flag) as (c' & o' & E' & _ & HR & Hxx & _). rewrite E' in E. injection E as <- <-.
  split; [|eauto]. split; [by eapply refreshed_wf|]. rewrite Hxx. done.
Qed.

Lemma change_rule_spec {T} {R : Rule T} (f : T -> T) id (s s' : iset T) :
  (forall r, rule_id (f r) = rule_id r) -> change_rule f id s = Ok s' ->
  exists r, entry id (entries s) = Some r /\ entry id (entries s') = Some (f r) /\
    forall x, x ∈ entries s' -> x = f r \/ x ∈ entries s.
Proof.
  intros Hf. unfold change_rule. rewrite iset_get_spec. destruct (entry id (entries s)) as [r|] eqn:E; [|done].
  cbn [ok_or mbind result_bind]. pose proof (replace_full_spec s (f r)) as H. destruct (replace_full s (f r)) as [[i o] s1].
  intros [= <-]. cbn [snd]. destruct H as [Hs1 _]. exists r. split; [done|].
  apply entry_Some in E as [Hr <-]; [|apply entries_NoDup]. apply list_elem_of_lookup in Hr as [j Hj].
  assert (position (rule_id (f r)) (entries s) = Some j) as Hpos.
  { rewrite Hf. eapply position_lookup; [apply entries_NoDup|exact Hj|done]. }
  unfold replaced in Hs1. rewrite Hpos in Hs1. apply lookup_lt_Some in Hj. split.
  - apply entry_Some; [apply entries_NoDup|]. split; [|apply Hf]. rewrite Hs1.
    eapply list_elem_of_lookup_2. by apply list_lookup_insert_eq.
  - intros x Hx. rewrite Hs1 in Hx. apply list_elem_of_lookup in Hx as [k Hk].
    apply list_lookup_insert_Some in Hk as [(<- & <- & _)|(_ & Hk)]; [by left|]. right. by eapply list_elem_of_lookup_2.
Qed.

(** A change of a rule survives the next refresh. *)
Lemma changed_stays {T} {R : Rule T} (new_ base : list T) (s s' s3 : iset T) l id (f : T -> T) :
  (forall r, rule_id (f r) = rule_id r) -> (forall r, rule_default (f r) = rule_default r) ->
  merged new_ base (entries s) -> change_rule f id s = Ok s' -> l = entries s' -> merged new_ l (entries s3) ->
  exists r r3, entry id (entries s) = Some r /\ iset_get s3 id = Some r3 /\
    rule_enabled r3 = rule_enabled (f r) /\ rule_actions r3 = rule_actions (f r).
Proof.
  intros Hid Hdef Hm Hc -> Hm3. destruct (change_rule_spec f id s s' Hid Hc) as (r & Hr & Hfr & _).
  apply entry_Some in Hr as Hin; [|apply entries_NoDup]. destruct Hin as [Hin Eid].
  apply entry_Some in Hfr as Hin'; [|apply entries_NoDup]. destruct Hin' as [Hin' _].
  rewrite iset_get_spec. exists r. pose proof (merged_elem _ _ _ _ Hm Hin) as [(n & Hn & ->)|(_ & Hd & Hni)].
  - eexists. split; [done|]. rewrite copy_state_id in Eid. rewrite <- Eid in Hfr |- *.
    split; [apply (merged_new _ _ _ _ (entries_NoDup s3) Hm3 Hn)|]. unfold copy_state at 1 3. rewrite Hfr.
    by rewrite with_actions_enabled, with_enabled_enabled, with_actions_actions.
  - exists (f r). split; [done|]. split; [|done]. rewrite <- Eid, <- (Hid r).
    apply (merged_user _ _ _ _ (entries_NoDup s3) Hm3 Hin'); [by rewrite Hdef|by rewrite Hid].
Qed.

(** One kind of [on_kind_stays]. *)
Ltac kind_stays Hk Hid Hdef HF HS HG :=
  let Ec := fresh in let H1 := fresh in let H2 := fresh in let H3 := fresh in let H4 := fresh in
  match type of Hk with (_ ← ?c; _) = Ok _ => destruct c eqn:Ec; [|done]; injection Hk as <- end;
  destruct (changed_stays _ _ _ _ _ _ _ _ (Hid _ _) (Hdef _ _) HF Ec HS HG) as (r & r3 & H1 & H2 & H3 & H4);
  eexists _, _; split; [cbn; rewrite iset_get_spec, H1; reflexivity|];
  split; [cbn; rewrite H2; reflexivity|]; split; intros x ->;
  [rewrite with_enabled_enabled in H3; rewrite with_enabled_actions in H4
  |rewrite with_actions_enabled in H3; rewrite with_actions_actions in H4]; done.

(** The rules read back after a change of one of them. *)
Lemma on_kind_stays (f : forall T (R : Rule T), T -> T) user_id kind id base rs rs1 rs2 rs3 :
  (forall T (R : Rule T) r, rule_id (f T R r) = rule_id r) ->
  (forall T (R : Rule T) r, rule_default (f T R r) = rule_default r) ->
  Refreshed user_id base rs -> on_kind kind id f rs = Ok rs1 -> ruleset_same rs2 rs1 -> Refreshed user_id rs2 rs3 ->
  exists r r3, ruleset_get kind id rs = Some r /\ ruleset_get kind id rs3 = Some r3 /\
    (forall b, f = (fun T R => with_enabled b) -> any_enabled r3 = b /\ any_actions r3 = any_actions r) /\
    (forall a, f = (fun T R => with_actions a) -> any_actions r3 = a /\ any_enabled r3 = any_enabled r).
Proof.
  intros Hid Hdef [F1 F2 F3 F4 F5 F6 _] Hk [S1 S2 S3 S4 S5 S6 _] [G1 G2 G3 G4 G5 G6 _].
  destruct kind; cbn [on_kind] in Hk; [..|done].
  - kind_stays Hk Hid Hdef F1 S3 G1.
  - kind_stays Hk Hid Hdef F6 S6 G6.
  - kind_stays Hk Hid Hdef F4 S5 G4.
  - kind_stays Hk Hid Hdef F3 S4 G3.
  - kind_stays Hk Hid Hdef F2 S1 G2.
  - kind_stays Hk Hid Hdef F5 S2 G5.
Qed.

(** Loading a value that was stored. *)
Lemma load_stored others user_id c1 db :
  db_wf db -> db_faults db = [] -> content_wf c1 -> rules_value db user_id = Some (content_to_value c1) ->
  exists c1' c2 db2 o, get_push_rules others user_id db = (Done c2, db2) /\ content_same c1' c1 /\
    refresh_push_rules_content user_id (Some c1') false = Done (c2, o) /\
    Refreshed user_id (pre_global c1') (pre_global c2) /\ pre_extra c2 = pre_extra c1' /\
    (others = [] -> o <> None -> Stored user_id None push_rules_type (Some (content_to_value c2)) db db2).
Proof.
  intros Hwf Hf Hc Hv. destruct (content_roundtrip c1 Hc) as (c1' & E & Hsame). exists c1'.
  destruct (refresh_content_run user_id (Some c1') false) as (c2 & o & ER & _ & HR & Hx & Ho). exists c2.
  assert (db_wf (run_ops others db)) as Hwfm by by apply run_ops_wf.
  destruct (store_refreshed user_id (Some (content_to_value c1)) c2 o (run_ops others db) Hwfm) as (db2 & E2 & HS); [tauto|].
  exists db2, o. split; [|do 4 (split; [done|]); intros -> Hno; cbn [run_ops] in HS; naive_solver]. unfold get_push_rules.
  assert (get_global_data user_id push_rules_type db = (Done (Some (content_to_value c1)), db)) as E0.
  { unfold get_global_data, db_call. rewrite Hf. rewrite <- Hv. done. }
  st_step E0. cbn [mbind option_bind]. unfold parse_stored_push_rules. rewrite E.
  cbn [fmap option_fmap option_map fst snd]. rewrite (bool_decide_false (Some Bare = Some Wrapped)) by done.
  rewrite ER, st_comp_done, st_modify_bind, !bool_decide_true by eauto. exact E2.
Qed.

(** Changing a rule keeps the ruleset well-formed. *)
Lemma on_kind_wf (f : forall T (R : Rule T), T -> T) kind id rs rs1 :
  (forall T (R : Rule T) r, rule_id (f T R r) = rule_id r) ->
  (forall r, conditional_wf r -> conditional_wf (f _ _ r)) -> (forall r, patterned_wf r -> patterned_wf (f _ _ r)) ->
  (forall v r, simple_wf v r -> simple_wf v (f _ _ r)) ->
  ruleset_wf rs -> on_kind kind id f rs = Ok rs1 -> ruleset_wf rs1.
Proof.
  intros Hid Hc Hp Hs [H1 H2 H3 H4 H5 H6 H7 H8] Hk.
  assert (forall T (R : Rule T) (P : T -> Prop) (s s' : iset T), (forall r, P r -> P (f T R r)) -> Forall P (entries s) ->
    change_rule (f T R) id s = Ok s' -> Forall P (entries s')) as Hset.
  { intros T R P s s' HP Hs0 E. destruct (change_rule_spec _ _ _ _ (Hid T R) E) as (r & Hr & _ & Hel).
    apply entry_Some in Hr as [Hr _]; [|apply entries_NoDup]. rewrite Forall_forall in Hs0 |- *.
    intros x [->|Hx]%Hel; auto. }
  destruct kind; cbn [on_kind] in Hk; [..|done];
    match type of Hk with (_ ← ?c; _) = Ok _ => destruct c eqn:Ec; [|done]; injection Hk as <- end;
    split; cbn; eauto.
Qed.

Lemma set_enabled_wf kind id b rs rs1 : ruleset_wf rs -> set_enabled kind id b rs = Ok rs1 -> ruleset_wf rs1.
Proof. intros Hwf. by apply on_kind_wf; [intros; apply with_enabled_id|..]. Qed.
Lemma set_actions_wf kind id a rs rs1 :
  Forall action_wf a -> ruleset_wf rs -> set_actions kind id a rs = Ok rs1 -> ruleset_wf rs1.
Proof.
  intros Ha Hwf. apply on_kind_wf; [intros; apply with_actions_id| | | |done].
  - intros r [_ Hr]. by split.
  - by intros r _.
  - intros v r [_ Hr]. by split.
Qed.

(** After an acknowledged change of a rule, the next load has it. *)
Lemma change_then_load others others' user_id e kind id f db db' :
  (forall T (R : Rule T) r, rule_id (f T R r) = rule_id r) ->
  (forall T (R : Rule T) r, rule_default (f T R r) = rule_default r) ->
  (forall rs rs1, edit_ruleset e rs = Done rs1 -> on_kind kind id f rs = Ok rs1) ->
  (forall rs rs1, ruleset_wf rs -> on_kind kind id f rs = Ok rs1 -> ruleset_wf rs1) ->
  db_wf db -> (forall j, rules_value db user_id = Some j -> sorted_json j) -> db_faults db' = [] ->
  run_edit others user_id e db = (Done tt, db') ->
  exists c2 db2 r r3, get_push_rules others' user_id db' = (Done c2, db2) /\
    ruleset_get kind id (pre_global c2) = Some r3 /\
    (forall b, f = (fun T R => with_enabled b) -> any_enabled r3 = b /\ any_actions r3 = any_actions r) /\
    (forall a, f = (fun T R => with_actions a) -> any_actions r3 = a /\ any_enabled r3 = any_enabled r).
Proof.
  intros Hid Hdef He Hwfk Hwf Hs Hf Hrun.
  destruct (run_edit_spec others user_id e db Hwf) as (db1 & db2 & res & _ & Er & H). rewrite Hrun in Er.
  injection Er as <- <-. cbn zeta in H. destruct H as (Hv & c & rs & Hc & Hrs & [Hwf' _ Hval _ _]).
  rewrite Hv in Hc. destruct (rules_of_wf user_id _ c Hs Hc) as ((Hg & Hx & Hn) & base & HR).
  set (c1 := {| pre_global := rs; pre_extra := pre_extra c |}) in *.
  assert (content_wf c1) as Hc1 by (split; [by eapply Hwfk; [|apply He]|done]).
  destruct (load_stored others' user_id c1 db' Hwf' Hf Hc1 Hval) as (c1' & c2 & db2 & o & EL & [Hsame _] & _ & HR2 & _ & _).
  destruct (on_kind_stays f user_id kind id base (pre_global c) rs (pre_global c1') (pre_global c2) Hid Hdef HR
              (He _ _ Hrs) Hsame HR2) as (r & r3 & _ & H3 & H4 & H5). eauto 10.
Qed.

(** What a client sets is what it gets: after an acknowledged change of whether a
    rule is enabled, or of its actions, reading them gives what was set, also for
    predefined rules, and whatever others write before the change is stored or while
    the reader runs. *)
Theorem edit_then_read others others' user_id kind id db db' :
  db_wf db -> (forall j, rules_value db user_id = Some j -> sorted_json j) -> db_faults db' = [] ->
  (forall enabled, put_enabled others user_id ScopeGlobal kind id enabled db = (Done tt, db') ->
     fst (rule_enabled_of others' user_id ScopeGlobal kind id db') = Done enabled) /\
  (forall actions, Forall action_wf actions ->
     put_actions others user_id ScopeGlobal kind id actions db = (Done tt, db') ->
     fst (rule_actions_of others' user_id ScopeGlobal kind id db') = Done actions).
Proof.
  intros Hwf Hs Hf. split.
  - intros b Hput. pose proof (handle_edit others user_id (PutEnabled ScopeGlobal kind id b) db) as E.
    cbn [handle request_edit asked] in E. rewrite Hput in E. symmetry in E.
    destruct (change_then_load others others' user_id (EditEnabled kind id b) kind id (fun T R => with_enabled b) db db') as
      (c2 & db2 & r & r3 & EL & Hr & H1 & _); [| | | |done..|].
    + intros. apply with_enabled_id.
    + intros. apply with_enabled_default.
    + intros rs rs1. cbn. unfold set_enabled. destruct (on_kind _ _ _ rs); congruence.
    + intros rs rs1. apply set_enabled_wf.
    + unfold rule_enabled_of. cbn [check_scope]. rewrite st_ret_bind. st_step EL. rewrite Hr.
      change (@Done AppError _ (any_enabled r3) = Done b). f_equal. by apply H1.
  - intros a Ha Hput. pose proof (handle_edit others user_id (PutActions ScopeGlobal kind id a) db) as E.
    cbn [handle request_edit asked] in E. rewrite Hput in E. symmetry in E.
    destruct (change_then_load others others' user_id (EditActions kind id a) kind id (fun T R => with_actions a) db db') as
      (c2 & db2 & r & r3 & EL & Hr & _ & H1); [| | | |done..|].
    + intros. apply with_actions_id.
    + intros. apply with_actions_default.
    + intros rs rs1. cbn. unfold set_actions. destruct (on_kind _ _ _ rs); congruence.
    + intros rs rs1. by apply set_actions_wf.
    + unfold rule_actions_of. cbn [check_scope]. rewrite st_ret_bind. st_step EL. rewrite Hr.
      change (@Done AppError _ (any_actions r3) = Done a). f_equal. by apply H1.
Qed.

(** ** Every load rewrites the rules of a user with several override rules *)

Lemma same_to_value c c' : content_same c c' -> content_to_value c = content_to_value c'.
Proof.
  intros [[H1 H2 H3 H4 H5 H6 H7] Hx]. unfold content_to_value, ruleset_to_value, set_member.
  by rewrite H1, H2, H3, H4, H5, H6, H7, Hx.
Qed.

Lemma to_value_same c c' :
  content_wf c -> content_wf c' -> content_to_value c = content_to_value c' -> content_same c c'.
Proof.
  intros Hc Hc' E. destruct (content_roundtrip c Hc) as (d & Ed & [Hd Hx]).
  destruct (content_roundtrip c' Hc') as (d' & Ed' & [Hd' Hx']). rewrite E, Ed' in Ed. injection Ed as ->.
  split; [etrans; [symmetry; exact Hd|exact Hd']|congruence].
Qed.

Abbreviation override_rules user_id c :=
  (user_rules (master :: default_overrides user_id) (entries (rs_override (pre_global c)))).

(** A refresh that changes nothing leaves the user's rules as they turn. *)
Lemma unchanged_refresh_rotates user_id c0 c :
  update_with_server_default (server_default user_id) (pre_global c0) = Done (pre_global c) ->
  content_same c0 c -> rotated (override_rules user_id c) = override_rules user_id c.
Proof.
  intros E [[_ _ Ho _ _ _ _] _].
  destruct (refresh_rotates_user_rules user_id (pre_global c0) (pre_global c) (pre_global c0) E Ho) as (rs2 & E2 & H).
  rewrite E in E2. by injection E2 as <-.
Qed.

(** The first load stores what it answers with, unless nothing turns. *)
Lemma load_stores user_id db c1 db1 :
  db_wf db -> db_faults db = [] -> (forall j, rules_value db user_id = Some j -> sorted_json j) ->
  rules_of user_id (rules_value db user_id) = Some c1 -> get_push_rules [] user_id db = (Done c1, db1) ->
  rotated (override_rules user_id c1) <> override_rules user_id c1 ->
  db_wf db1 /\ rules_value db1 user_id = Some (content_to_value c1).
Proof.
  intros Hwf Hf Hs Hr Hg Hrot. destruct (loaded_rules user_id (rules_value db user_id)) as (c & o & Ec & Hc).
  pose proof Hr as Hr'. rewrite Hr in Hc. destruct Hc as (-> & Ho & Hp).
  assert (get_global_data user_id push_rules_type db = (Done (rules_value db user_id), db)) as E0.
  { unfold get_global_data, db_call. by rewrite Hf. }
  unfold get_push_rules in Hg. rewrite (bind_St_run _ _ _ _ _ E0), Ec, st_comp_done, st_modify_bind, Hp in Hg.
  cbn [run_ops] in Hg.
  destruct (store_refreshed user_id (rules_value db user_id) c1 o db Hwf Ho) as (db' & E & HS). rewrite E in Hg.
  injection Hg as <-. destruct HS as [(_ & [->|[Hne|Hne]])|(_ & [Hwf' _ Hv _ _] & _)]; [|done|done|done].
  exfalso. apply Hrot. set (stored := rules_value db user_id ≫= parse_stored_push_rules) in *.
  destruct (refresh_content_run user_id (fst <$> stored) (bool_decide ((snd <$> stored) = Some Wrapped)))
    as (c' & o' & E' & EU & _ & _ & Ho'). rewrite Ec in E'. injection E' as <- <-.
  destruct Ho' as [|(_ & _ & Hsame)]; [done|]. destruct stored as [[c0 sh]|] eqn:Hst; [|done].
  cbn [fmap option_fmap option_map fst default from_option id] in Hsame, EU. apply Some_inj in Hsame. apply (unchanged_refresh_rotates user_id c0); [done|].
  apply to_value_same; [| |done].
  - unfold stored in Hst. apply bind_Some in Hst as (j & Hj & Hst). eapply parse_stored_wf; [|exact Hst]. by apply Hs.
  - by apply (rules_of_wf user_id _ c1 Hs).
Qed.

(** For a user whose override rules are not the same in every order, every load
    of the rules, and so every sync, turns them over, stores them anew and makes the
    account data newer than the last sync. *)
Theorem every_load_rewrites user_id db c1 db1 :
  db_wf db -> db_faults db = [] -> db_faults db1 = [] ->
  (forall j, rules_value db user_id = Some j -> sorted_json j) ->
  rules_of user_id (rules_value db user_id) = Some c1 -> get_push_rules [] user_id db = (Done c1, db1) ->
  rotated (override_rules user_id c1) <> override_rules user_id c1 ->
  exists c2 db2, get_push_rules [] user_id db1 = (Done c2, db2) /\
    override_rules user_id c2 = rotated (override_rules user_id c1) /\
    rules_value db2 user_id <> rules_value db1 user_id /\ (db_occur_sn db1 < db_occur_sn db2)%Z.
Proof.
  intros Hwf Hf Hf1 Hs Hr Hg Hrot. destruct (load_stores user_id db c1 db1 Hwf Hf Hs Hr Hg Hrot) as [Hwf1 Hv1].
  destruct (rules_of_wf user_id _ c1 Hs Hr) as [Hc1 _].
  assert (exists base, update_with_server_default (server_default user_id) base = Done (pre_global c1)) as [base EU].
  { unfold rules_of in Hr. apply bind_Some in Hr as ([stored flag] & _ & Hr).
    destruct (refresh_content_run user_id stored flag) as (c' & o' & E' & EU & _). rewrite E' in Hr. injection Hr as <-. eauto. }
  destruct (load_stored [] user_id c1 db1 Hwf1 Hf1 Hc1 Hv1) as (c1' & c2 & db2 & o & EL & Hsame & ER & _ & _ & HS).
  exists c2, db2. split; [done|].
  destruct (refresh_content_run user_id (Some c1') false) as (c2' & o' & E' & EU2 & HR2 & Hx2 & Ho). rewrite ER in E'.
  injection E' as <- <-. cbn in EU2, HR2, Hx2.
  assert (override_rules user_id c2 = rotated (override_rules user_id c1)) as Hturn.
  { destruct (refresh_rotates_user_rules user_id base (pre_global c1) (pre_global c1') EU) as (rs2 & E2 & H).
    { apply Hsame. } rewrite EU2 in E2. by injection E2 as <-. }
  assert (content_wf c1') as Hc1'.
  { destruct (content_roundtrip c1 Hc1) as (d & Ed & Hd). destruct Hsame as [[S1 S2 S3 S4 S5 S6 S7] Sx], Hc1 as ([] & Wx & Wn).
    split; [split|split]; rewrite ?S1, ?S2, ?S3, ?S4, ?S5, ?S6, ?S7, ?Sx; auto. }
  assert (content_wf c2) as Hc2 by (split; [eapply refreshed_wf; [apply Hc1'|done]|rewrite Hx2; apply Hc1']).
  assert (content_to_value c2 <> content_to_value c1) as Hne.
  { intros E. apply to_value_same in E as [[_ _ Ho' _ _ _ _] _]; [|done|done]. apply Hrot. rewrite <- Hturn. by rewrite Ho'. }
  split; [done|]. rewrite Hv1. destruct HS as [Hwf2 _ Hv2 _ Hnew _]; [done| |].
  { intros ->. destruct Ho as [|(_ & _ & Hno)]; [done|]. cbn [fmap option_fmap option_map] in Hno. apply Some_inj in Hno.
    apply Hne. rewrite <- Hno. by apply same_to_value. }
  split; [rewrite Hv2; congruence|]. destruct Hnew as [E|(r & E & Hsn)].
  - exfalso. apply Hne. unfold value in Hv1, Hv2. rewrite E, Hv1 in Hv2. congruence.
  - apply latest_of_Some in E as [[Hin _] _]; [|apply Hwf2]. pose proof (wf_occur_sn _ Hwf2 r Hin). lia.
Qed.
End spec.
