(* ===== verification/PushRulesExamples.v ===== *)
(** * The push rule endpoints at work

    A document with two rules of a user, and what the theorems about loading and
    editing push rules give for it; the index sets are lists. *)
From Stdlib Require Import Ascii.
From S2P Require Import Prelude RustStr Decimal BTree Identifiers Json FlatJson PushMatch Push Ruleset PushDefaults RulesetSpec IndexSetModel PushJson Effects AccountData AccountSpec PushRules PushRulesSpec.
Open Scope string_scope.

Abbreviation rules_value db user_id := (value db user_id None push_rules_type).
(** A stored document with two rules of the user. *)
Definition example_document : json :=
  let rule id := JObj [("actions", JArr [JStr "notify"]); ("conditions", JArr []); ("default", JBool false);
                       ("enabled", JBool true); ("rule_id", JStr id)] in
  JObj [("global", JObj [("override", JArr [rule "one"; rule "two"])])].
Definition example_write : DataOp := OpSet "@a:x" None push_rules_type example_document.
Definition example_db : UserDb := run_ops [example_write] no_data.

Lemma example_db_wf : db_wf example_db.
Proof. by apply (run_ops_newer [example_write] no_data "@a:x" None push_rules_type no_data_wf). Qed.
Lemma example_document_sorted : sorted_json example_document.
Proof. cbn. repeat split; repeat constructor. Qed.

Definition example_loaded : comp AppError (@PushRulesEventContent list_sets) * UserDb :=
  @get_push_rules list_sets [] "@a:x" example_db.
Definition example_content : @PushRulesEventContent list_sets :=
  match fst example_loaded with Done c => c | _ => content_new (server_default "@a:x") end.

Lemma push_rules_roundtrip_witness :
  exists c c', @content_from_value list_sets example_document = Some c /\
    @content_from_value list_sets (content_to_value c) = Some c' /\ content_same c' c.
Proof.
  destruct (@content_from_value list_sets example_document) as [c|] eqn:E.
  - exists c. destruct (@push_rules_roundtrip list_sets example_document c) as (c' & H);
      [apply example_document_sorted|exact E|]. exists c'. split; [reflexivity|exact H].
  - exfalso. revert E. vm_compute. discriminate.
Defined.

(** A rule disabled while another request stores a value of its own. *)
Lemma edit_acknowledged_witness :
  let others := [OpSet "@a:x" None "m.other" (JStr "one")] in
  exists db' db1 e c rs,
    @handle list_sets others "@a:x" (PutEnabled ScopeGlobal KOverride "one" false) example_db = (Done tt, db') /\
    Unchanged example_db db1 /\
    let dbm := run_ops others db1 in
    @rules_of list_sets "@a:x" (rules_value dbm "@a:x") = Some c /\ edit_ruleset e (pre_global c) = Done rs /\
    Stored "@a:x" None push_rules_type
      (Some (content_to_value {| pre_global := rs; pre_extra := pre_extra c |})) dbm db'.
Proof.
  intros others.
  pose proof (@edit_acknowledged list_sets others "@a:x" (PutEnabled ScopeGlobal KOverride "one" false) example_db
                example_db_wf) as H.
  destruct (handle others "@a:x" _ example_db) as [res db'] eqn:E.
  assert (res = Done tt) as ->.
  { transitivity (fst (@handle list_sets others "@a:x" (PutEnabled ScopeGlobal KOverride "one" false) example_db));
      [by rewrite E|vm_compute; reflexivity]. }
  destruct H as (db1 & H1 & e & c & rs & _ & H2 & H3 & H4). exists db', db1, e, c, rs. auto.
Defined.

Lemma load_push_rules_witness :
  exists db1 c, Unchanged example_db db1 /\ fst example_loaded = Done c /\
    @rules_of list_sets "@a:x" (rules_value example_db "@a:x") = Some c.
Proof.
  pose proof (@load_push_rules list_sets [] "@a:x" example_db example_db_wf) as H.
  change (@get_push_rules list_sets [] "@a:x" example_db) with example_loaded in H.
  destruct example_loaded as [res db'] eqn:E. destruct H as (db1 & H1 & [[H _]|(c & H2 & H3)]).
  - exfalso. assert (fst example_loaded = Fail AppInternal) as E' by (rewrite E; exact H). revert E'.
    vm_compute. discriminate.
  - exists db1, c. split; [exact H1|]. split; [exact H2|].
    destruct (rules_of "@a:x" (rules_value example_db "@a:x")) as [c'|] eqn:Er.
    + destruct H3 as [-> _]. reflexivity.
    + exfalso. revert Er. vm_compute. discriminate.
Defined.

Lemma edit_then_read_witness :
  let db' := snd (@put_enabled list_sets [] "@a:x" ScopeGlobal KOverride "one" false example_db) in
  fst (@rule_enabled_of list_sets [example_write] "@a:x" ScopeGlobal KOverride "one" db') = Done false.
Proof.
  intros db'. apply (@edit_then_read list_sets [] [example_write] "@a:x" KOverride "one" example_db db').
  - exact example_db_wf.
  - intros j E. assert (rules_value example_db "@a:x" = Some example_document) as E' by (vm_compute; reflexivity).
    rewrite E' in E. injection E as <-. exact example_document_sorted.
  - vm_compute. reflexivity.
  - apply injective_projections; [vm_compute; reflexivity|reflexivity].
Defined.

Lemma every_load_rewrites_witness :
  exists c2 db2, @get_push_rules list_sets [] "@a:x" (snd example_loaded) = (Done c2, db2) /\
    rules_value db2 "@a:x" <> rules_value (snd example_loaded) "@a:x" /\
    (db_occur_sn (snd example_loaded) < db_occur_sn db2)%Z.
Proof.
  destruct (@every_load_rewrites list_sets "@a:x" example_db example_content (snd example_loaded))
    as (c2 & db2 & H1 & _ & H2); [..|exists c2, db2; auto].
  - exact example_db_wf.
  - vm_compute. reflexivity.
  - vm_compute. reflexivity.
  - intros j E. assert (rules_value example_db "@a:x" = Some example_document) as E' by (vm_compute; reflexivity).
    rewrite E' in E. injection E as <-. exact example_document_sorted.
  - vm_compute. reflexivity.
  - apply injective_projections; [vm_compute; reflexivity|reflexivity].
  - vm_compute. discriminate.
Defined.
