(* ===== verification/RoomPowerLevels.v ===== *)
(** * The effective power levels of a room:
      [crates/core/src/events/room/power_levels.rs], [crates/core/src/power_levels.rs]
      and [RoomPowerLevelsRules] of [crates/core/src/room_version_rules.rs]

    Two views of an [m.room.power_levels] event live side by side in the server.  The
    authorization rules read single fields of the content on demand (module
    [PowerLevels] of file [Events]); everything else (invites, redactions, aliases,
    push conditions, the permissions told to clients) deserializes the whole content
    into [RoomPowerLevelsEventContent] and asks [RoomPowerLevels].  The theorems
    relate the two: an answer of [RoomPowerLevels] is the verdict of the
    authorization rules, except for the level of an invite, which has another
    default in each view. *)
From S2P Require Import Prelude RustStr BTree Identifiers RoomVersion Json Canonical Signatures Events Membership EventAuth Push.
Open Scope string_scope.

(** ** Contents *)

Definition default_power_level : Z := 50.

Definition notification_levels_new : NotificationPowerLevels := {| notify_room := default_power_level |}.

Definition de_notification_levels : json -> option NotificationPowerLevels :=
  struct1 "room" true (fun slot =>
    room ← field_default default_power_level deserialize_v1_power_level slot;
    Some {| notify_room := room |}).

(** [btreemap_deserialize_v1_power_level_values] on the text of an event: entries in
    the order of the text, the last one wins. *)
Definition de_levels_map (de_key : string -> option string) (j : json) : option (gmap string Z) :=
  match j with
  | JObj members =>
      kvs ← omapM (fun '(k, v) => k ← de_key k; z ← deserialize_v1_power_level v; Some (k, z)) members;
      Some (list_to_map (reverse kvs))
  | _ => None
  end.

Definition key_event_type (k : string) : option string := Some (timeline_event_type k).

Record RoomPowerLevelsEventContent := {
  c_ban : Z;
  c_events : gmap string Z;
  c_events_default : Z;
  c_invite : Z;
  c_kick : Z;
  c_redact : Z;
  c_state_default : Z;
  c_users : gmap string Z;
  c_users_default : Z;
  c_notifications : NotificationPowerLevels
}.

Record RedactedRoomPowerLevelsEventContent := {
  r_ban : Z;
  r_events : gmap string Z;
  r_events_default : Z;
  r_invite : Z;
  r_kick : Z;
  r_redact : Z;
  r_state_default : Z;
  r_users : gmap string Z;
  r_users_default : Z
}.

(** The field names of both structs; all fields have a default. *)
Definition level_field_names : list (string * bool) :=
  [("ban", true); ("events", true); ("events_default", true); ("invite", true); ("kick", true);
   ("redact", true); ("state_default", true); ("users", true); ("users_default", true)].

Definition de_level (d : Z) : option json -> option Z := field_default d deserialize_v1_power_level.

Definition de_power_levels_content (j : json) : option RoomPowerLevelsEventContent :=
  slots ← struct_fields (level_field_names ++ [("notifications", true)])%list j;
  match slots with
  | [ban; events; events_default; invite; kick; redact; state_default; users; users_default;
     notifications] =>
      ban ← de_level default_power_level ban;
      events ← field_default ∅ (de_levels_map key_event_type) events;
      events_default ← de_level 0 events_default;
      invite ← de_level default_power_level invite;
      kick ← de_level default_power_level kick;
      redact ← de_level default_power_level redact;
      state_default ← de_level default_power_level state_default;
      users ← field_default ∅ (de_levels_map key_user_id) users;
      users_default ← de_level 0 users_default;
      notifications ← field_default notification_levels_new de_notification_levels notifications;
      Some {| c_ban := ban; c_events := events; c_events_default := events_default;
              c_invite := invite; c_kick := kick; c_redact := redact;
              c_state_default := state_default; c_users := users;
              c_users_default := users_default; c_notifications := notifications |}
  | _ => None
  end.

Definition de_redacted_content (j : json) : option RedactedRoomPowerLevelsEventContent :=
  slots ← struct_fields level_field_names j;
  match slots with
  | [ban; events; events_default; invite; kick; redact; state_default; users; users_default] =>
      ban ← de_level default_power_level ban;
      events ← field_default ∅ (de_levels_map key_event_type) events;
      events_default ← de_level 0 events_default;
      invite ← de_level 0 invite;
      kick ← de_level default_power_level kick;
      redact ← de_level default_power_level redact;
      state_default ← de_level default_power_level state_default;
      users ← field_default ∅ (de_levels_map key_user_id) users;
      users_default ← de_level 0 users_default;
      Some {| r_ban := ban; r_events := events; r_events_default := events_default;
              r_invite := invite; r_kick := kick; r_redact := redact;
              r_state_default := state_default; r_users := users;
              r_users_default := users_default |}
  | _ => None
  end.

(** [RoomPowerLevelsEventContent::new]. *)
Definition power_levels_content_new (rules : AuthorizationRules.t) : RoomPowerLevelsEventContent :=
  {| c_ban := default_power_level;
     c_events := if rules.(AuthorizationRules.explicitly_privilege_room_creators)
                 then {["m.room.tombstone" := 150%Z]} else ∅;
     c_events_default := 0; c_invite := 50; c_kick := default_power_level;
     c_redact := default_power_level; c_state_default := default_power_level;
     c_users := ∅; c_users_default := 0; c_notifications := notification_levels_new |}.

(** [RedactContent::redact]. *)
Definition redact_power_levels (c : RoomPowerLevelsEventContent) (rules : RedactionRules.t) :
    RedactedRoomPowerLevelsEventContent :=
  {| r_ban := c_ban c; r_events := c_events c; r_events_default := c_events_default c;
     r_invite := if rules.(RedactionRules.keep_room_power_levels_invite) then c_invite c else 0;
     r_kick := c_kick c; r_redact := c_redact c; r_state_default := c_state_default c;
     r_users := c_users c; r_users_default := c_users_default c |}.

(** [Serialize] of the content: every field is written, maps in key order. *)
Definition ser_level (z : Z) : json := JNum (NumInt z).
Definition ser_levels_map (m : gmap string Z) : json :=
  JObj (bt_from_list (prod_map id ser_level <$> map_to_list m)).
Definition ser_power_levels_content (c : RoomPowerLevelsEventContent) : json := JObj [
  ("ban", ser_level (c_ban c)); ("events", ser_levels_map (c_events c));
  ("events_default", ser_level (c_events_default c)); ("invite", ser_level (c_invite c));
  ("kick", ser_level (c_kick c)); ("redact", ser_level (c_redact c));
  ("state_default", ser_level (c_state_default c)); ("users", ser_levels_map (c_users c));
  ("users_default", ser_level (c_users_default c));
  ("notifications", JObj [("room", ser_level (notify_room (c_notifications c)))])].

(** ** [RoomPowerLevels] *)

Record RoomPowerLevels := {
  pl_ban : Z;
  pl_events : gmap string Z;
  pl_events_default : Z;
  pl_invite : Z;
  pl_kick : Z;
  pl_redact : Z;
  pl_state_default : Z;
  pl_users : gmap string Z;
  pl_users_default : Z;
  pl_notifications : NotificationPowerLevels;
  pl_rules : RoomPowerLevelsRules
}.

Inductive RoomPowerLevelsSource :=
| SourceOriginal (c : RoomPowerLevelsEventContent)
| SourceRedacted (c : RedactedRoomPowerLevelsEventContent)
| SourceNone.

Definition power_levels_rules_new (rules : AuthorizationRules.t) (creators : gset string) :
    RoomPowerLevelsRules :=
  {| privileged_creators :=
       if rules.(AuthorizationRules.explicitly_privilege_room_creators) then Some creators else None |}.

(** [RoomPowerLevels::new]. *)
Definition room_power_levels_new (power_levels : RoomPowerLevelsSource)
    (rules : AuthorizationRules.t) (creators : gset string) : RoomPowerLevels :=
  match power_levels with
  | SourceOriginal c =>
      {| pl_ban := c_ban c; pl_events := c_events c; pl_events_default := c_events_default c;
         pl_invite := c_invite c; pl_kick := c_kick c; pl_redact := c_redact c;
         pl_state_default := c_state_default c; pl_users := c_users c;
         pl_users_default := c_users_default c; pl_notifications := c_notifications c;
         pl_rules := power_levels_rules_new rules creators |}
  | SourceRedacted c =>
      {| pl_ban := r_ban c; pl_events := r_events c; pl_events_default := r_events_default c;
         pl_invite := r_invite c; pl_kick := r_kick c; pl_redact := r_redact c;
         pl_state_default := r_state_default c; pl_users := r_users c;
         pl_users_default := r_users_default c; pl_notifications := notification_levels_new;
         pl_rules := power_levels_rules_new rules creators |}
  | SourceNone =>
      {| pl_ban := default_power_level; pl_events := ∅; pl_events_default := 0; pl_invite := 0;
         pl_kick := default_power_level; pl_redact := default_power_level;
         pl_state_default := default_power_level;
         pl_users := if rules.(AuthorizationRules.explicitly_privilege_room_creators) then ∅
                     else gset_to_gmap 100%Z creators;
         pl_users_default := 0; pl_notifications := notification_levels_new;
         pl_rules := power_levels_rules_new rules creators |}
  end.

Inductive PowerLevelAction :=
| ActBan | ActUnban | ActInvite | ActKick | ActRedactOwn | ActRedactOther
| ActSendMessage (msg_type : string) | ActSendState (state_type : string)
| ActTriggerRoomNotification.

Inductive PowerLevelUserAction :=
| ToBan | ToUnban | ToInvite | ToKick | ToChangePowerLevel.

Section levels.
Context (pl : RoomPowerLevels).

Definition is_privileged_creator (user_id : string) : bool :=
  match privileged_creators (pl_rules pl) with
  | Some creators => bool_decide (user_id ∈ creators)
  | None => false
  end.

Definition for_user (user_id : string) : UserPowerLevel :=
  if is_privileged_creator user_id then Infinite
  else Int (default (pl_users_default pl) (pl_users pl !! user_id)).

Definition for_message (msg_type : string) : Z :=
  default (pl_events_default pl) (pl_events pl !! msg_type).

Definition for_state (state_type : string) : Z :=
  default (pl_state_default pl) (pl_events pl !! state_type).

Definition for_action (action : PowerLevelAction) : Z :=
  match action with
  | ActBan => pl_ban pl
  | ActUnban => Z.max (pl_ban pl) (pl_kick pl)
  | ActInvite => pl_invite pl
  | ActKick => pl_kick pl
  | ActRedactOwn => for_message "m.room.redaction"
  | ActRedactOther => Z.max (pl_redact pl) (for_message "m.room.redaction")
  | ActSendMessage msg_type => for_message msg_type
  | ActSendState state_type => for_state state_type
  | ActTriggerRoomNotification => notify_room (pl_notifications pl)
  end.

(** [for_user(user_id) >= level]. *)
Definition has_level (user_id : string) (level : Z) : bool :=
  is_ge (upl_cmp_int (for_user user_id) level).

(** [target_pl < acting_pl]. *)
Definition outranks (acting target : string) : bool :=
  is_lt (upl_cmp (for_user target) (for_user acting)).

Definition user_can_ban (u : string) : bool := has_level u (pl_ban pl).
Definition user_can_ban_user (acting target : string) : bool :=
  has_level acting (pl_ban pl) && outranks acting target.
Definition user_can_unban (u : string) : bool := has_level u (pl_ban pl) && has_level u (pl_kick pl).
Definition user_can_unban_user (acting target : string) : bool :=
  has_level acting (pl_ban pl) && has_level acting (pl_kick pl) && outranks acting target.
Definition user_can_invite (u : string) : bool := has_level u (pl_invite pl).
Definition user_can_kick (u : string) : bool := has_level u (pl_kick pl).
Definition user_can_kick_user (acting target : string) : bool :=
  has_level acting (pl_kick pl) && outranks acting target.
Definition user_can_send_message (u msg_type : string) : bool := has_level u (for_message msg_type).
Definition user_can_send_state (u state_type : string) : bool := has_level u (for_state state_type).
Definition user_can_redact_own_event (u : string) : bool := user_can_send_message u "m.room.redaction".
Definition user_can_redact_event_of_other (u : string) : bool :=
  user_can_redact_own_event u && has_level u (pl_redact pl).
Definition user_can_trigger_room_notification (u : string) : bool :=
  has_level u (notify_room (pl_notifications pl)).

Definition user_can_change_user_power_level (acting target : string) : bool :=
  if negb (user_can_send_state acting "m.room.power_levels") then false
  else if is_privileged_creator target then false
  else if bool_decide (acting = target) then true
  else match pl_users pl !! target with
       | Some target_pl => is_gt (upl_cmp_int (for_user acting) target_pl)
       | None => true
       end.

Definition user_can_do (u : string) (action : PowerLevelAction) : bool :=
  match action with
  | ActBan => user_can_ban u
  | ActUnban => user_can_unban u
  | ActInvite => user_can_invite u
  | ActKick => user_can_kick u
  | ActRedactOwn => user_can_redact_own_event u
  | ActRedactOther => user_can_redact_event_of_other u
  | ActSendMessage message_type => user_can_send_message u message_type
  | ActSendState state_type => user_can_send_state u state_type
  | ActTriggerRoomNotification => user_can_trigger_room_notification u
  end.

Definition user_can_do_to_user (acting target : string) (action : PowerLevelUserAction) : bool :=
  match action with
  | ToBan => user_can_ban_user acting target
  | ToUnban => user_can_unban_user acting target
  | ToInvite => user_can_invite acting
  | ToKick => user_can_kick_user acting target
  | ToChangePowerLevel => user_can_change_user_power_level acting target
  end.

Definition max_power_level : Z := foldr Z.max (pl_users_default pl) (map_to_list (pl_users pl)).*2.

(** [TryFrom<RoomPowerLevels> for RoomPowerLevelsEventContent]; the error is
    [CreatorInUsersMap]. *)
Definition content_try_from : option RoomPowerLevelsEventContent :=
  if match privileged_creators (pl_rules pl) with
     | Some creators =>
         negb (bool_decide (pl_users pl = ∅))
         && bool_decide (Exists (fun user_id => is_Some (pl_users pl !! user_id)) (elements creators))
     | None => false
     end
  then None
  else Some {| c_ban := pl_ban pl; c_events := pl_events pl; c_events_default := pl_events_default pl;
               c_invite := pl_invite pl; c_kick := pl_kick pl; c_redact := pl_redact pl;
               c_state_default := pl_state_default pl; c_users := pl_users pl;
               c_users_default := pl_users_default pl; c_notifications := pl_notifications pl |}.

(** [From<RoomPowerLevels> for PushConditionPowerLevelsCtx]. *)
Definition push_levels_ctx : PushConditionPowerLevelsCtx :=
  {| pc_users := pl_users pl; pc_users_default := pl_users_default pl;
     pc_notifications := pl_notifications pl; pc_rules := pl_rules pl |}.
End levels.

(** ** Reading a canonical content *)

(** The content of an event as the server stores it: the JSON of a canonical object. *)
Definition canonical_content (j : json) : Prop :=
  exists m, j = into_json (CObject m) /\ canonical_wf (CObject m).

Lemma occurrences_bt_get name (ms : list (string * json)) :
  bt_wf ms -> occurrences name ms = match bt_get name ms with Some v => [v] | None => [] end.
Proof.
  unfold occurrences. induction ms as [|[k v] ms IH]; intros Hwf; [done|].
  pose proof (bt_get_tail ms (k, v) Hwf) as Ht. apply StronglySorted_inv in Hwf as [Hwf _].
  cbn in Ht. rewrite filter_cons. cbn [bt_get]. destruct (String.eqb_spec name k) as [->|Hne].
  - rewrite decide_True by done. cbn. rewrite IH by done. by rewrite Ht.
  - rewrite decide_False by (cbn; congruence). auto.
Qed.

Lemma struct_from_map_wf fields ms :
  bt_wf ms -> struct_from_map fields ms = Some (map (fun f => bt_get f.1 ms) fields).
Proof.
  intros Hwf. induction fields as [|[name d] fields IH]; [done|]. cbn. rewrite IH. cbn.
  rewrite occurrences_bt_get by done. by destruct (bt_get name ms).
Qed.

Lemma canonical_content_inv j :
  canonical_content j ->
  exists ms, j = JObj ms /\ bt_wf ms /\
    forall k v, bt_get k ms = Some v -> exists c, v = into_json c /\ canonical_wf c.
Proof.
  intros (m & -> & Hwf). apply canonical_wf_object in Hwf as [Hs Hall].
  exists (map (fun kv => (kv.1, into_json kv.2)) m). split; [done|]. split.
  - eapply bt_wf_keys; [|exact Hs]. clear. induction m as [|kv m IH]; [done|]. cbn. by f_equal.
  - intros k v Hg. apply bt_get_Some_elem in Hg. apply list_elem_of_In, in_map_iff in Hg as ([k' c] & [= <- <-] & Hin).
    exists c. split; [done|]. rewrite Forall_forall in Hall. apply list_elem_of_In in Hin. by apply (Hall _ Hin).
Qed.

(** On a canonical value the order of the text is that of the keys. *)
Lemma de_levels_map_canonical de_key c :
  canonical_wf c ->
  de_levels_map de_key (into_json c) = btreemap_deserialize_v1_power_level_values de_key (into_json c).
Proof.
  destruct c as [| | | |l|m]; try done. intros Hwf.
  destruct (canonical_content_inv (into_json (CObject m))) as (ms & Heq & Hs & _); [by exists m|].
  rewrite Heq. unfold btreemap_deserialize_v1_power_level_values, de_int_map, de_levels_map, json_map.
  by rewrite bt_from_list_sorted.
Qed.

(** A strict integer is read the same way by the lenient reader. *)
Lemma de_i64_v1 v z : de_i64 v = Some z -> deserialize_v1_power_level v = Some z.
Proof. by destruct v as [| |[]| | |]. Qed.

Lemma omapM_mono {A B} (f g : A -> option B) l ys :
  (forall x y, f x = Some y -> g x = Some y) -> omapM f l = Some ys -> omapM g l = Some ys.
Proof.
  intros Hfg. revert ys. induction l as [|x l IH]; intros ys; [done|]. cbn.
  intros (y & Hy & H)%bind_Some. apply bind_Some in H as (ys' & Hys & H).
  by rewrite (Hfg _ _ Hy), (IH _ Hys).
Qed.

Lemma de_int_map_v1 de_key v m :
  de_int_map de_key de_i64 v = Some m ->
  btreemap_deserialize_v1_power_level_values de_key v = Some m.
Proof.
  destruct v as [| | | | |ms]; try done. unfold btreemap_deserialize_v1_power_level_values. cbn.
  intros (kvs & Hkvs & H)%bind_Some. erewrite omapM_mono; [exact H| |exact Hkvs].
  intros [k v] [k' z] (k'' & Hk & Hz)%bind_Some. apply bind_Some in Hz as (z' & Hz & H').
  by rewrite Hk, (de_i64_v1 _ _ Hz).
Qed.

(** ** The two views of an event *)

(** Every field the authorization rules read is of the type the room version asks. *)
Definition auth_readable (ev : Pdu) (rules : AuthorizationRules.t) : Prop :=
  (forall f, exists v, PowerLevels.get_as_int ev f rules = Ok v) /\
  (exists m, PowerLevels.users ev rules = Ok m) /\ (exists m, PowerLevels.events ev rules = Ok m).

(** The default of each integer field in [RoomPowerLevelsEventContent]. *)
Definition content_default (f : RoomPowerLevelsIntField) : Z :=
  match f with FInvite => default_power_level | f => default_value f end.

Definition content_field (c : RoomPowerLevelsEventContent) (f : RoomPowerLevelsIntField) : Z :=
  match f with
  | UsersDefault => c_users_default c
  | EventsDefault => c_events_default c
  | StateDefault => c_state_default c
  | FBan => c_ban c
  | FRedact => c_redact c
  | FKick => c_kick c
  | FInvite => c_invite c
  end.

Lemma de_power_levels_content_inv ms c :
  bt_wf ms -> de_power_levels_content (JObj ms) = Some c ->
  (forall f, de_level (content_default f) (bt_get (int_field_as_str f) ms) = Some (content_field c f)) /\
  field_default ∅ (de_levels_map key_event_type) (bt_get "events" ms) = Some (c_events c) /\
  field_default ∅ (de_levels_map key_user_id) (bt_get "users" ms) = Some (c_users c).
Proof.
  intros Hwf H. unfold de_power_levels_content in H. cbn [struct_fields] in H.
  rewrite struct_from_map_wf in H by done. cbn [map level_field_names app fst mbind option_bind] in H.
  repeat match type of H with
  | (_ ≫= _) = Some _ => let z := fresh "z" in let Hz := fresh "Hz" in
      apply bind_Some in H as (z & Hz & H)
  end.
  injection H as <-. split; [|done]. by intros [].
Qed.

Section agreement.
Context (ev : Pdu) (rules : AuthorizationRules.t) (c : RoomPowerLevelsEventContent).
Hypothesis Hcan : canonical_content ev.(content).
Hypothesis Hde : de_power_levels_content ev.(content) = Some c.
Hypothesis Hread :
  rules.(AuthorizationRules.integer_power_levels) = true -> auth_readable ev rules.

Lemma int_field_agrees f :
  exists v, PowerLevels.get_as_int ev f rules = Ok v /\
    content_field c f = default (content_default f) v.
Proof.
  destruct (canonical_content_inv _ Hcan) as (ms & Hms & Hwf & _).
  pose proof Hde as H. rewrite Hms in H. apply de_power_levels_content_inv in H as (Hf & _ & _); [|done].
  specialize (Hf f). unfold de_level, field_default in Hf.
  destruct (rules.(AuthorizationRules.integer_power_levels)) eqn:Hint.
  - destruct (Hread eq_refl) as [Hall _]. destruct (Hall f) as [v Hv]. exists v. split; [done|].
    unfold PowerLevels.get_as_int, PowerLevels.deserialized_content in Hv.
    rewrite Hms, Hint in Hv. cbn in Hv. unfold json_map in Hv. rewrite bt_from_list_sorted in Hv by done.
    destruct (bt_get _ ms) as [j|]; [|naive_solver].
    destruct (de_i64 j) as [z|] eqn:Hz; [|done]. cbn in Hv. injection Hv as <-.
    apply de_i64_v1 in Hz. cbn. congruence.
  - unfold PowerLevels.get_as_int, PowerLevels.deserialized_content. rewrite Hms, Hint. cbn.
    unfold json_map. rewrite bt_from_list_sorted by done.
    destruct (bt_get _ ms) as [j|]; [|exists None; naive_solver].
    rewrite Hf. exists (Some (content_field c f)). done.
Qed.

(** Both map fields, read with their kind of key. *)
Lemma int_map_agrees de_key name m :
  field_default ∅ (de_levels_map de_key)
    (match ev.(content) with JObj ms => bt_get name ms | _ => None end) = Some m ->
  (rules.(AuthorizationRules.integer_power_levels) = true ->
   exists v, PowerLevels.get_as_int_map de_key ev name rules = Ok v) ->
  exists v, PowerLevels.get_as_int_map de_key ev name rules = Ok v /\ m = default ∅ v.
Proof.
  destruct (canonical_content_inv _ Hcan) as (ms & Hms & Hwf & Hsub).
  unfold PowerLevels.get_as_int_map, PowerLevels.deserialized_content. rewrite Hms. cbn.
  unfold json_map. rewrite bt_from_list_sorted by done.
  destruct (bt_get name ms) as [j|] eqn:Hj; cbn; [|naive_solver].
  destruct (Hsub _ _ Hj) as (cj & -> & Hcwf). rewrite de_levels_map_canonical by done. intros Hm Hok.
  destruct (rules.(AuthorizationRules.integer_power_levels)).
  - destruct (Hok eq_refl) as [v Hv]. exists v. split; [done|].
    destruct (de_int_map de_key de_i64 _) as [m'|] eqn:Hm'; [|done]. cbn in Hv. injection Hv as <-.
    apply de_int_map_v1 in Hm'. cbn. congruence.
  - rewrite Hm. exists (Some m). done.
Qed.

Lemma users_agree : exists v, PowerLevels.users ev rules = Ok v /\ c_users c = default ∅ v.
Proof.
  destruct (canonical_content_inv _ Hcan) as (ms & Hms & Hwf & _).
  pose proof Hde as H. rewrite Hms in H. apply de_power_levels_content_inv in H as (_ & _ & Hu); [|done].
  apply int_map_agrees; [by rewrite Hms|]. intros Hi. by destruct (Hread Hi) as (_ & ? & _).
Qed.

Lemma events_agree : exists v, PowerLevels.events ev rules = Ok v /\ c_events c = default ∅ v.
Proof.
  destruct (canonical_content_inv _ Hcan) as (ms & Hms & Hwf & _).
  pose proof Hde as H. rewrite Hms in H. apply de_power_levels_content_inv in H as (_ & He & _); [|done].
  apply int_map_agrees; [by rewrite Hms|]. intros Hi. by destruct (Hread Hi) as (_ & _ & ?).
Qed.

Lemma int_field_or_default_agrees f :
  f <> FInvite -> opt_get_as_int_or_default (Some ev) f rules = Ok (content_field c f).
Proof.
  intros Hf. destruct (int_field_agrees f) as (v & Hv & ->). cbn.
  unfold PowerLevels.get_as_int_or_default. rewrite Hv. by destruct f.
Qed.

(** The level required for an invite: the same when the event has one. *)
Lemma invite_level_agrees :
  exists v, PowerLevels.get_as_int ev FInvite rules = Ok v /\ c_invite c = default default_power_level v /\
    opt_get_as_int_or_default (Some ev) FInvite rules = Ok (default 0%Z v).
Proof.
  destruct (int_field_agrees FInvite) as (v & Hv & Hc). exists v. split; [done|]. split; [done|].
  cbn. unfold PowerLevels.get_as_int_or_default. by rewrite Hv.
Qed.

Context (creators : gset string).
#[local] Abbreviation pl := (room_power_levels_new (SourceOriginal c) rules creators).

Lemma for_user_agrees u : opt_user_power_level (Some ev) u creators rules = Ok (for_user pl u).
Proof.
  unfold opt_user_power_level, for_user, is_privileged_creator. cbn [room_power_levels_new pl_rules
    power_levels_rules_new privileged_creators].
  destruct (rules.(AuthorizationRules.explicitly_privilege_room_creators)); cbn [andb].
  1: destruct (bool_decide _); [done|].
  all: unfold PowerLevels.user_power_level; destruct users_agree as (v & -> & Hv);
    destruct (int_field_agrees UsersDefault) as (d & Hd & Hu); cbn in Hu |- *; rewrite Hv, Hu;
    unfold PowerLevels.get_as_int_or_default; rewrite Hd;
    destruct v as [m|]; cbn; [destruct (m !! u); done|by rewrite lookup_empty].
Qed.

Lemma event_level_agrees t k :
  opt_event_power_level (Some ev) t k rules
  = Ok (match k with Some _ => for_state pl t | None => for_message pl t end).
Proof.
  cbn. unfold PowerLevels.event_power_level, for_state, for_message.
  destruct events_agree as (v & -> & Hv). cbn. rewrite Hv.
  destruct k;
    [destruct (int_field_agrees StateDefault) as (d & Hd & Hu)
    |destruct (int_field_agrees EventsDefault) as (d & Hd & Hu)]; cbn in Hu; rewrite Hu;
    unfold PowerLevels.get_as_int_or_default; rewrite Hd;
    destruct v as [m|]; cbn; try (destruct (m !! t); done); by rewrite lookup_empty.
Qed.

End agreement.

(** What the permissions of [pl] promise about the rules that read [plev]. *)
Record auth_view (plev : option Pdu) (rules : AuthorizationRules.t) (creators : gset string)
    (pl : RoomPowerLevels) : Prop := {
  av_user u : opt_user_power_level plev u creators rules = Ok (for_user pl u);
  av_event t k : opt_event_power_level plev t k rules
    = Ok (match k with Some _ => for_state pl t | None => for_message pl t end);
  av_ban : opt_get_as_int_or_default plev FBan rules = Ok (pl_ban pl);
  av_kick : opt_get_as_int_or_default plev FKick rules = Ok (pl_kick pl)
}.

(** The levels of a room from the power levels event of its state, if it has one. *)
Definition levels_source (plev : option Pdu) : option RoomPowerLevelsSource :=
  match plev with
  | Some ev => SourceOriginal <$> de_power_levels_content ev.(content)
  | None => Some SourceNone
  end.

Definition levels_readable (plev : option Pdu) (rules : AuthorizationRules.t) : Prop :=
  match plev with
  | Some ev => canonical_content ev.(content) /\
      (rules.(AuthorizationRules.integer_power_levels) = true -> auth_readable ev rules)
  | None => True
  end.

Lemma for_user_none rules creators u :
  opt_user_power_level None u creators rules
  = Ok (for_user (room_power_levels_new SourceNone rules creators) u).
Proof.
  unfold opt_user_power_level, for_user, is_privileged_creator. cbn.
  destruct (rules.(AuthorizationRules.explicitly_privilege_room_creators)); cbn.
  - destruct (bool_decide_reflect (u ∈ creators)); [done|]. by rewrite lookup_empty.
  - destruct (bool_decide_reflect (u ∈ creators)) as [Hin|Hnin].
    + rewrite lookup_gset_to_gmap, option_guard_True by done. done.
    + rewrite lookup_gset_to_gmap, option_guard_False by done. done.
Qed.

Lemma auth_view_source plev rules creators src :
  levels_source plev = Some src -> levels_readable plev rules ->
  auth_view plev rules creators (room_power_levels_new src rules creators).
Proof.
  destruct plev as [ev|]; cbn [levels_source levels_readable].
  - intros (c & Hde & ->)%fmap_Some [Hcan Hread]. split.
    + intros u. by apply for_user_agrees.
    + intros t k. by apply event_level_agrees.
    + by apply (int_field_or_default_agrees ev rules c Hcan Hde Hread FBan).
    + by apply (int_field_or_default_agrees ev rules c Hcan Hde Hread FKick).
  - intros [= <-] _. split; [apply for_user_none| |done|done].
    intros t [k|]; cbn; unfold for_state, for_message; cbn; by rewrite lookup_empty.
Qed.

(** Whether an action is allowed only depends on the level it needs. *)
Lemma has_level_max pl u x y : has_level pl u (Z.max x y) = has_level pl u x && has_level pl u y.
Proof.
  unfold has_level. destruct (for_user pl u) as [|z]; [done|]. cbn.
  destruct (Z.compare_spec z (Z.max x y)), (Z.compare_spec z x), (Z.compare_spec z y); cbn; try done; lia.
Qed.

Lemma user_can_do_for_action pl u action :
  user_can_do pl u action = has_level pl u (for_action pl action).
Proof.
  destruct action; try done; cbn; rewrite has_level_max; [done|].
  unfold user_can_redact_event_of_other. by rewrite andb_comm.
Qed.

Lemma if_Ok_iff (b : bool) : (if b then Ok tt else Err Forbidden) = (Ok tt : StateResult unit) <-> b = true.
Proof. by destruct b. Qed.

Lemma max_power_level_spec pl :
  (forall u, is_privileged_creator pl u = false ->
     cmp_le upl_cmp (for_user pl u) (Int (max_power_level pl))) /\
  (max_power_level pl = pl_users_default pl \/
   exists u, pl_users pl !! u = Some (max_power_level pl)).
Proof.
  unfold max_power_level. split.
  - intros u Hu. unfold for_user. rewrite Hu. unfold cmp_le. cbn. rewrite Z.compare_gt_iff.
    assert (forall d l, (d <= foldr Z.max d l)%Z) as Hd by (induction l; cbn; lia).
    destruct (pl_users pl !! u) as [z|] eqn:Hz; cbn; [|pose proof (Hd (pl_users_default pl) ((map_to_list (pl_users pl)).*2)); lia].
    apply elem_of_map_to_list in Hz. apply (list_elem_of_fmap_2 snd) in Hz. cbn in Hz.
    induction ((map_to_list (pl_users pl)).*2) as [|y l IH]; [by apply elem_of_nil in Hz|].
    apply elem_of_cons in Hz as [->|Hz]; cbn; [lia|]. specialize (IH Hz). lia.
  - assert (forall d l, foldr Z.max d l = d \/ foldr Z.max d l ∈ l) as Hd.
    { induction l as [|y l IH]; cbn; [by left|].
      destruct (Z.max_spec y (foldr Z.max d l)) as [[_ ->]|[_ ->]]; [|right; left].
      destruct IH; [by left|]. right. by right. }
    destruct (Hd (pl_users_default pl) ((map_to_list (pl_users pl)).*2)) as [?|Hin]; [by left|right].
    apply list_elem_of_fmap in Hin as ([u z] & Heq & Hin). exists u. cbn in Heq. rewrite Heq.
    by apply elem_of_map_to_list.
Qed.

(** ** The permissions are the verdicts of the authorization rules *)

(** C29: What [RoomPowerLevels] answers about bans, kicks and unbans is what the
    authorization rules decide: for a joined sender and another user, a ban event is
    accepted exactly when [user_can_do_to_user] allows the ban, and a leave event
    exactly when it allows the unban (target banned) or the kick (otherwise), in
    rooms with and without a power levels event and in every room version. *)
Theorem moderation_matches_auth {U : Unicode} ev target rules create fetch_state creators src cur :
  RoomCreate.creators create = Ok creators ->
  levels_source (fetch_room_power_levels_event fetch_state) = Some src ->
  levels_readable (fetch_room_power_levels_event fetch_state) rules ->
  fetch_user_membership fetch_state ev.(sender) = Ok MJoin ->
  fetch_user_membership fetch_state target = Ok cur ->
  ev.(sender) <> target ->
  let pl := room_power_levels_new src rules creators in
  (check_room_member_ban ev target rules create fetch_state = Ok tt <->
   user_can_do_to_user pl ev.(sender) target ToBan = true) /\
  (check_room_member_leave ev target rules create fetch_state = Ok tt <->
   user_can_do_to_user pl ev.(sender) target (if decide (cur = MBan) then ToUnban else ToKick) = true).
Proof.
  intros Hcr Hsrc Hread Hjoin Hcur Hne pl.
  pose proof (auth_view_source _ rules creators src Hsrc Hread) as Hv.
  fold pl in Hv. clearbody pl. destruct Hv as [Hu _ Hban Hkick].
  unfold check_room_member_ban, check_room_member_leave. rewrite Hjoin, Hcr, Hcur. cbn.
  rewrite !Hu, Hban, Hkick. cbn. rewrite (bool_decide_false (_ = target)) by done.
  split; [apply if_Ok_iff|].
  change (is_ge (upl_cmp_int (for_user pl (sender ev)) ?k)) with (has_level pl (sender ev) k).
  assert (is_lt (upl_cmp_int (for_user pl (sender ev)) (pl_ban pl)) = negb (has_level pl (sender ev) (pl_ban pl)))
    as -> by (unfold has_level; by destruct (upl_cmp_int _ _)).
  fold (outranks pl (sender ev) target).
  destruct (decide (cur = MBan)) as [->|Hb]; cbn; unfold user_can_unban_user, user_can_kick_user.
  - destruct (has_level pl (sender ev) (pl_ban pl)); cbn; [apply if_Ok_iff|done].
  - rewrite (bool_decide_false (cur = MBan)) by done. cbn. apply if_Ok_iff.
Qed.

(** The event types with authorization rules of their own. *)
Definition plain_type (t : string) : Prop :=
  t ∉ ["m.room.create"; "m.room.aliases"; "m.room.member"; "m.room.third_party_invite";
       "m.room.power_levels"; "m.room.redaction"].

Lemma plain_type_neq t : plain_type t ->
  (t =? "m.room.create") = false /\ (t =? "m.room.aliases") = false /\ (t =? "m.room.member") = false /\
  (t =? "m.room.third_party_invite") = false /\ (t =? "m.room.power_levels") = false /\
  (t =? "m.room.redaction") = false.
Proof. unfold plain_type. intros H. repeat split; apply String.eqb_neq; set_solver. Qed.

(** A joined user's event of a type without rules of its own is accepted by the
    state-dependent authorization rules exactly when [user_can_do] says they can send
    it (as a message or as a state event) and the state key does not name another
    user. *)
Theorem sends_match_auth {U : Unicode} {C : Crypto} ev rules create fetch_state creators src :
  plain_type ev.(event_type) ->
  fetch_room_create_event fetch_state = Ok create ->
  RoomCreate.federate create = Ok true ->
  RoomCreate.creators create = Ok creators ->
  levels_source (fetch_room_power_levels_event fetch_state) = Some src ->
  levels_readable (fetch_room_power_levels_event fetch_state) rules ->
  fetch_user_membership fetch_state ev.(sender) = Ok MJoin ->
  check_state_dependent_auth_rules rules ev fetch_state = Done tt <->
  user_can_do (room_power_levels_new src rules creators) ev.(sender)
    (match ev.(state_key) with
     | Some _ => ActSendState ev.(event_type)
     | None => ActSendMessage ev.(event_type)
     end) = true /\
  (forall k, ev.(state_key) = Some k -> str_starts_with "@" k = true -> k = ev.(sender)).
Proof.
  intros (Ht1 & Ht2 & Ht3 & Ht4 & Ht5 & Ht6)%plain_type_neq Hcreate Hfed Hcr Hsrc Hread Hjoin.
  destruct (auth_view_source _ rules creators src Hsrc Hread) as [Hu He _ _].
  set (pl := room_power_levels_new src rules creators) in *. clearbody pl.
  unfold check_state_dependent_auth_rules. rewrite Ht1, Hcreate. cbn. rewrite Hfed. cbn.
  rewrite Ht2, Ht3, andb_false_r, Hjoin. cbn.
  rewrite (bool_decide_false (MJoin <> MJoin)) by (by intros []). rewrite Hcr. cbn. rewrite Hu. cbn.
  rewrite Ht4, He. cbn. rewrite Ht5, Ht6, andb_false_r.
  assert (forall l, is_lt (upl_cmp_int (for_user pl (sender ev)) l) = negb (has_level pl (sender ev) l)) as Hlt
    by (intros l; unfold has_level; by destruct (upl_cmp_int _ _)).
  rewrite Hlt.
  destruct (state_key ev) as [k|]; cbn; unfold user_can_send_state, user_can_send_message.
  - destruct (has_level pl (sender ev) _); cbn; [|by split; [|intros [? _]]].
    destruct (str_starts_with "@" k) eqn:Hk; cbn;
      [|by split; [intros _; split; [done|]; intros k' [= <-]; congruence|]].
    destruct (bool_decide_reflect (Some k <> Some (sender ev))) as [Hne|Heq]; cbn.
    + split; [done|]. intros [_ H]. destruct Hne. f_equal. by apply H.
    + split; [|done]. intros _. split; [done|]. intros k' [= <-] _.
      destruct (decide (k = sender ev)); [done|]. destruct Heq. congruence.
  - by destruct (has_level pl (sender ev) _); cbn; split; [..|intros [? _]].
Qed.

(** Invites.  When the power levels event has an [invite] level, an invite by a
    joined user is accepted exactly when [user_can_invite] allows it.  When it has
    none, the authorization rules use level 0 and [RoomPowerLevels] uses level 50:
    a user below 50 is told they cannot send an invite that would be accepted. *)
Theorem invite_matches_auth {U : Unicode} {C : Crypto} ev target rules create fetch_state creators plev c cur :
  RoomMember.third_party_invite ev.(content) = Ok None ->
  RoomCreate.creators create = Ok creators ->
  fetch_room_power_levels_event fetch_state = Some plev ->
  de_power_levels_content plev.(content) = Some c ->
  levels_readable (Some plev) rules ->
  fetch_user_membership fetch_state ev.(sender) = Ok MJoin ->
  fetch_user_membership fetch_state target = Ok cur -> cur <> MJoin -> cur <> MBan ->
  let pl := room_power_levels_new (SourceOriginal c) rules creators in
  exists level, PowerLevels.get_as_int plev FInvite rules = Ok level /\
    (check_room_member_invite ev target rules create fetch_state = Done tt <->
     has_level pl ev.(sender) (default 0%Z level) = true) /\
    (user_can_invite pl ev.(sender) = true <->
     has_level pl ev.(sender) (default 50%Z level) = true).
Proof.
  intros Htp Hcr Hpl Hde [Hcan Hread] Hjoin Hcur Hnj Hnb pl.
  destruct (invite_level_agrees plev rules c Hcan Hde Hread) as (level & Hl & Hc & Hi).
  exists level. split; [done|]. split.
  - unfold check_room_member_invite. rewrite Htp. cbn. rewrite Hjoin. cbn.
    rewrite (bool_decide_false (MJoin <> MJoin)) by (by intros []). rewrite Hcur. cbn.
    rewrite bool_decide_false by set_solver. rewrite Hcr. cbn. rewrite Hpl.
    pose proof (for_user_agrees plev rules c Hcan Hde Hread creators) as Hu. fold pl in Hu.
    rewrite Hu, Hi. unfold has_level. generalize (default 0%Z level). intros z. cbn.
    by destruct (is_ge _).
  - unfold user_can_invite. change (pl_invite pl) with (c_invite c). by rewrite Hc.
Qed.

(** A change of a user's level that the authorization rules accept is one
    [user_can_change_user_power_level] permits: the sender may send power levels at
    all and, for another user's existing entry, is strictly above it.  (The current
    levels name no privileged creator, which is what [content_try_from] checks.) *)
Theorem accepted_change_permitted ev cur rules creators c target new_users :
  canonical_content cur.(content) ->
  de_power_levels_content cur.(content) = Some c ->
  (rules.(AuthorizationRules.integer_power_levels) = true -> auth_readable cur rules) ->
  let pl := room_power_levels_new (SourceOriginal c) rules creators in
  is_Some (content_try_from pl) ->
  user_can_send_state pl ev.(sender) "m.room.power_levels" = true ->
  check_room_power_levels ev (Some cur) rules (for_user pl ev.(sender)) creators = Ok tt ->
  PowerLevels.users ev rules = Ok new_users ->
  new_users ≫= (.!! target) <> c_users c !! target ->
  user_can_do_to_user pl ev.(sender) target ToChangePowerLevel = true.
Proof.
  intros Hcan Hde Hread pl Htry Hsend Hok Hnew Hdiff.
  apply power_levels_reach in Hok as (nu & cu & _ & _ & Hnu & Hcu & _ & _ & Hchange & _ & _ & Hpriv & _).
  rewrite Hnu in Hnew. injection Hnew as ->.
  destruct (users_agree cur rules c Hcan Hde Hread) as (cu' & Hcu' & Hc).
  rewrite Hcu in Hcu'. injection Hcu' as <-.
  assert (cu ≫= (.!! target) = c_users c !! target) as Hct.
  { rewrite Hc. destruct cu; cbn; [done|]. by rewrite lookup_empty. }
  change (user_can_change_user_power_level pl ev.(sender) target = true).
  unfold user_can_change_user_power_level. rewrite Hsend. cbn [negb].
  destruct (is_privileged_creator pl target) eqn:Hp.
  { exfalso. unfold is_privileged_creator in Hp. unfold content_try_from in Htry.
    cbn in Hp, Htry, Hpriv. destruct (AuthorizationRules.explicitly_privilege_room_creators rules); [|done].
    apply bool_decide_eq_true in Hp. rewrite (Hpriv eq_refl target Hp) in Hdiff.
    destruct (c_users c !! target) as [z|] eqn:Hz; [|done].
    rewrite bool_decide_false in Htry by (intros He; by rewrite He, lookup_empty in Hz).
    cbn in Htry. rewrite bool_decide_true in Htry; [by destruct Htry|].
    apply Exists_exists. exists target. split; [by apply elem_of_elements|done]. }
  case_bool_decide as Hself; [done|]. change (pl_users pl) with (c_users c).
  destruct (c_users c !! target) as [z|] eqn:Hz; [|done].
  destruct (Hchange target) as [Heq|[Hprot _]]; [by rewrite <- Heq, Hct in Hdiff|].
  rewrite upl_cmp_int_Int. destruct (upl_cmp (for_user pl (sender ev)) (Int z)) eqn:Hcmp; [| |done];
    destruct (Hprot z Hct); (split; [congruence|]; unfold cmp_le; by rewrite Hcmp).
Qed.

(** The content that [RoomPowerLevels] is turned into gives the same levels
    back, and the conversion is refused exactly when a privileged creator has an
    entry in [users]. *)
Theorem content_try_from_spec src rules creators :
  let pl := room_power_levels_new src rules creators in
  match content_try_from pl with
  | Some c => room_power_levels_new (SourceOriginal c) rules creators = pl /\
      forall u, is_privileged_creator pl u = true -> pl_users pl !! u = None
  | None => exists u, is_privileged_creator pl u = true /\ is_Some (pl_users pl !! u)
  end.
Proof.
  cbn. unfold content_try_from. destruct (match _ with Some _ => _ | None => _ end) eqn:Hc.
  - unfold is_privileged_creator. destruct (privileged_creators _) as [cs|]; [|done].
    apply andb_true_iff in Hc as [_ Hex%bool_decide_eq_true]. apply Exists_exists in Hex as (u & Hin & Hu).
    exists u. split; [|done]. apply bool_decide_eq_true. by apply elem_of_elements.
  - split; [by destruct src|]. unfold is_privileged_creator.
    destruct (privileged_creators _) as [cs|]; [|done]. intros u Hu%bool_decide_eq_true.
    apply andb_false_iff in Hc as [Hc|Hc].
    + apply negb_false_iff, bool_decide_eq_true in Hc. by rewrite Hc, lookup_empty.
    + apply bool_decide_eq_false in Hc. apply eq_None_not_Some. intros Hs. apply Hc.
      apply Exists_exists. exists u. split; [by apply elem_of_elements|done].
Qed.

(** ** Serialization, read back *)

Lemma bt_insert_perm {V} k (v : V) m : bt_get k m = None -> bt_insert k v m ≡ₚ (k, v) :: m.
Proof.
  induction m as [|[k' v'] m IH]; cbn; [done|]. destruct (String.eqb_spec k k') as [->|Hne]; [done|].
  intros Hn. destruct (String.compare k k') eqn:Hcmp; [by apply String.compare_eq_iff in Hcmp|done|]. rewrite IH by done. apply Permutation_swap.
Qed.

Lemma bt_get_None_fresh {V} k (m : list (string * V)) : k ∉ m.*1 -> bt_get k m = None.
Proof.
  intros Hk. destruct (bt_get k m) as [v|] eqn:Hg; [|done]. destruct Hk.
  apply bt_get_Some_elem in Hg. by apply (list_elem_of_fmap_2 fst) in Hg.
Qed.

Lemma bt_from_list_perm {V} (l : list (string * V)) : NoDup l.*1 -> bt_from_list l ≡ₚ l.
Proof.
  unfold bt_from_list. intros Hnd. rewrite <- (app_nil_r l) at 2.
  assert (forall acc : list (string * V), NoDup (l ++ acc).*1 ->
    foldl (fun m kv => bt_insert kv.1 kv.2 m) acc l ≡ₚ l ++ acc)%list as H; [|by apply H; rewrite app_nil_r].
  clear Hnd. induction l as [|[k v] l IH]; intros acc Hnd; [done|]. cbn in *.
  apply NoDup_cons in Hnd as [Hk Hnd]. rewrite fmap_app in Hk, Hnd.
  assert (bt_insert k v acc ≡ₚ (k, v) :: acc) as Hp by (apply bt_insert_perm, bt_get_None_fresh; set_solver).
  rewrite IH; [by rewrite Hp, <- Permutation_middle|].
  rewrite fmap_app, Hp. cbn. rewrite <- Permutation_middle. by apply NoDup_cons.
Qed.

Definition i64_ok (z : Z) : Prop := (I64_MIN <= z <= I64_MAX)%Z.
Definition map_ok (de_key : string -> option string) (m : gmap string Z) : Prop :=
  map_Forall (fun k z => de_key k = Some k /\ i64_ok z) m.

(** Values of the Rust type: 64-bit levels, valid user IDs, known spellings of event
    types. *)
Definition content_ok (c : RoomPowerLevelsEventContent) : Prop :=
  (forall f, i64_ok (content_field c f)) /\ i64_ok (notify_room (c_notifications c)) /\
  map_ok key_event_type (c_events c) /\ map_ok key_user_id (c_users c).

Lemma de_ser_level z : i64_ok z -> deserialize_v1_power_level (ser_level z) = Some z.
Proof. intros Hz. change (in_range I64_MIN I64_MAX (Some z) = Some z). by apply in_range_Some. Qed.

Lemma de_ser_levels_map de_key m : map_ok de_key m -> de_levels_map de_key (ser_levels_map m) = Some m.
Proof.
  intros Hok. cbn. set (l := prod_map id ser_level <$> map_to_list m).
  assert (NoDup l.*1) as Hnd.
  { unfold l. rewrite <- list_fmap_compose. cbn. apply NoDup_fst_map_to_list. }
  pose proof (bt_from_list_perm l Hnd) as Hperm.
  apply (Permutation_map_inv (prod_map id ser_level)) in Hperm as (kvs & Heq & Hkvs).
  assert (omapM (fun '(k, v) => k ← de_key k; z ← deserialize_v1_power_level v; Some (k, z))
    (bt_from_list l) = Some kvs) as ->.
  { rewrite Heq. apply omapM_Some. apply Forall2_fmap_l, Forall_Forall2_diag, Forall_forall.
    intros [k z] Hin. rewrite <- Hkvs in Hin. apply elem_of_map_to_list in Hin.
    destruct (Hok k z Hin) as [Hk Hz]. pose proof (de_ser_level z Hz) as Hl. cbn -[deserialize_v1_power_level].
    unfold id. rewrite Hk. cbn -[deserialize_v1_power_level]. by rewrite Hl. }
  cbn. f_equal. rewrite <- (list_to_map_to_list m). symmetry. apply list_to_map_proper.
  - apply NoDup_fst_map_to_list.
  - by rewrite Hkvs, (reverse_Permutation kvs).
Qed.

(** A power levels content written by [Serialize] is read back unchanged. *)
Theorem power_levels_content_roundtrip c :
  content_ok c -> de_power_levels_content (ser_power_levels_content c) = Some c.
Proof.
  intros (Hf & Hn & He & Hu).
  unfold de_power_levels_content, ser_power_levels_content. cbn [struct_fields].
  set (ms := [_; _; _; _; _; _; _; _; _; _]).
  assert (struct_from_map (level_field_names ++ [("notifications", true)])%list ms
    = Some (map (fun kv => Some kv.2) ms)) as -> by reflexivity.
  cbn [map ms mbind option_bind snd].
  unfold de_level, field_default. rewrite (de_ser_levels_map _ _ He), (de_ser_levels_map _ _ Hu).
  rewrite (de_ser_level (c_ban c)), (de_ser_level (c_events_default c)), (de_ser_level (c_invite c)),
    (de_ser_level (c_kick c)), (de_ser_level (c_redact c)), (de_ser_level (c_state_default c)),
    (de_ser_level (c_users_default c)); [|apply (Hf UsersDefault)|apply (Hf StateDefault)
    |apply (Hf FRedact)|apply (Hf FKick)|apply (Hf FInvite)|apply (Hf EventsDefault)|apply (Hf FBan)].
  cbn [mbind option_bind].
  assert (de_notification_levels (JObj [("room", ser_level (notify_room (c_notifications c)))])
    = Some (c_notifications c)) as ->.
  { transitivity (room ← deserialize_v1_power_level (ser_level (notify_room (c_notifications c)));
                  Some {| notify_room := room |}); [reflexivity|].
    rewrite de_ser_level by done. by destruct (c_notifications c). }
  by destruct c.
Qed.

(** ** Witnesses *)

(** Alice (100) moderates, Bob (0) does not; the event of the example room. *)
Lemma ex_levels_canonical : canonical_content ex_levels.(content).
Proof.
  exists [("users", CObject [("@a:x", CInteger 100)])]. split; [reflexivity|]. cbn. repeat split; try done.
  all: repeat constructor.
Qed.

Lemma ex_levels_readable : levels_readable (Some ex_levels) AuthorizationRules.V10.
Proof.
  split; [exact ex_levels_canonical|]. intros _. split; [|split].
  - intros []; eexists; vm_compute; reflexivity.
  - eexists; vm_compute; reflexivity.
  - eexists; vm_compute; reflexivity.
Qed.

Definition ex_content : RoomPowerLevelsEventContent :=
  {| c_ban := 50; c_events := ∅; c_events_default := 0; c_invite := 50; c_kick := 50;
     c_redact := 50; c_state_default := 50; c_users := {["@a:x" := 100%Z]}; c_users_default := 0;
     c_notifications := {| notify_room := 50 |} |}.

Lemma ex_content_de : de_power_levels_content ex_levels.(content) = Some ex_content.
Proof. by_eval. Qed.

Lemma ex_levels_fetched : fetch_room_power_levels_event ex_base = Some ex_levels.
Proof. by_eval. Qed.

Lemma ex_levels_source :
  levels_source (fetch_room_power_levels_event ex_base) = Some (SourceOriginal ex_content).
Proof. rewrite ex_levels_fetched. cbn [levels_source]. by rewrite ex_content_de. Qed.

Lemma moderation_matches_auth_witness :
  @check_room_member_ban ascii_unicode ex_ban "@b:x" AuthorizationRules.V10 ex_create ex_base = Ok tt.
Proof.
  eapply (@moderation_matches_auth ascii_unicode ex_ban "@b:x" AuthorizationRules.V10 ex_create ex_base
    {["@a:x"]} (SourceOriginal ex_content)).
  - vm_compute. reflexivity.
  - exact ex_levels_source.
  - rewrite ex_levels_fetched. exact ex_levels_readable.
  - vm_compute. reflexivity.
  - vm_compute. reflexivity.
  - discriminate.
  - vm_compute. reflexivity.
Defined.

Lemma sends_match_auth_witness :
  @check_state_dependent_auth_rules ascii_unicode toy_crypto AuthorizationRules.V10 ex_topic ex_base = Done tt.
Proof.
  apply (@sends_match_auth ascii_unicode toy_crypto ex_topic AuthorizationRules.V10 ex_create ex_base
    {["@a:x"]} (SourceOriginal ex_content)).
  - unfold plain_type. rewrite !not_elem_of_cons. repeat split; try discriminate. apply not_elem_of_nil.
  - vm_compute. reflexivity.
  - vm_compute. reflexivity.
  - vm_compute. reflexivity.
  - exact ex_levels_source.
  - rewrite ex_levels_fetched. exact ex_levels_readable.
  - vm_compute. reflexivity.
  - split; [vm_compute; reflexivity|]. intros k [= <-] H. discriminate.
Defined.

(** Bob has joined; the room's power levels have no [invite] level. *)
Definition ex_bob_joined : FetchState := ex_state [ex_join; ex_create; ex_alice; ex_levels; ex_rules].
Definition ex_bob_invites : Pdu := example_pdu "$bi:x" "@b:x" 9 "m.room.member"
  (JObj [("membership", JStr "invite")]) "@c:x" [].

Lemma invite_matches_auth_witness :
  @check_room_member_invite ascii_unicode toy_crypto ex_bob_invites "@c:x" AuthorizationRules.V10 ex_create
    ex_bob_joined = Done tt /\
  user_can_invite (room_power_levels_new (SourceOriginal ex_content) AuthorizationRules.V10 {["@a:x"]}) "@b:x"
    = false.
Proof.
  edestruct (@invite_matches_auth ascii_unicode toy_crypto ex_bob_invites "@c:x" AuthorizationRules.V10 ex_create
    ex_bob_joined {["@a:x"]} ex_levels ex_content) as (level & Hl & Ha & Hp).
  - vm_compute. reflexivity.
  - vm_compute. reflexivity.
  - vm_compute. reflexivity.
  - exact ex_content_de.
  - exact ex_levels_readable.
  - vm_compute. reflexivity.
  - vm_compute. reflexivity.
  - discriminate.
  - discriminate.
  - assert (level = None) as -> by (vm_compute in Hl; congruence).
    split; [apply Ha; vm_compute; reflexivity|]. apply not_true_iff_false. rewrite Hp. vm_compute. discriminate.
Defined.

Definition ex_levels_new : Pdu := example_pdu "$levels3:x" "@a:x" 9 "m.room.power_levels"
  (JObj [("users", JObj [("@a:x", JNum (NumInt 100)); ("@b:x", JNum (NumInt 50))])]) EmptyString [].

Lemma accepted_change_permitted_witness :
  user_can_do_to_user (room_power_levels_new (SourceOriginal ex_content) AuthorizationRules.V10 {["@a:x"]})
    "@a:x" "@b:x" ToChangePowerLevel = true.
Proof.
  eapply (accepted_change_permitted ex_levels_new ex_levels AuthorizationRules.V10 {["@a:x"]} ex_content "@b:x").
  - exact ex_levels_canonical.
  - exact ex_content_de.
  - exact (proj2 ex_levels_readable).
  - vm_compute. eexists. reflexivity.
  - vm_compute. reflexivity.
  - vm_compute. reflexivity.
  - vm_compute. reflexivity.
  - vm_compute. discriminate.
Defined.

Lemma power_levels_content_roundtrip_witness :
  de_power_levels_content (ser_power_levels_content ex_content) = Some ex_content.
Proof.
  apply (power_levels_content_roundtrip ex_content). split; [|split; [|split]].
  - intros []; vm_compute; split; discriminate.
  - vm_compute; split; discriminate.
  - apply map_Forall_empty.
  - apply map_Forall_singleton. split; [vm_compute; reflexivity|vm_compute; split; discriminate].
Defined.
