(* ===== verification/EventStore.v ===== *)
(** * The event tables: [crates/server/src/event.rs], [event/pdu.rs], the readers of
      [room/timeline.rs], the extremities and auth events of [room/state.rs], the
      readers of [room.rs], and the rows of [crates/data/src/room.rs]

    [Store] is the part of the database the life of an event goes through: the
    snapshots of file [StateFrames] (with [event_points]), the auth chain tables of
    file [AuthChain], and the tables [events], [event_datas],
    [event_forward_extremities], [event_backward_extremities], [timeline_gaps],
    [event_missings], [event_edges] and [rooms].  Everything else the handlers call
    (memberships, relations, push, search, other servers) is a [Call]: a request
    with its typed answer, served by the parameter [call] on a state of its own,
    which is all it can change.  JSON columns are [jsonb]: an object read back has
    its keys sorted and no duplicates. *)
From S2P Require Import Prelude RustStr BTree Identifiers RoomVersion Json Canonical Redaction Signatures Events Membership EventAuth StateRes Effects StateFrames AuthChain Push RoomPowerLevels.
Open Scope string_scope.

(** ** [PduEvent] *)

Record PduEvent := {
  base :> Pdu;
  depth : Z;
  unsigned : list (string * json);
  hashes : string;                       (* [hashes.sha256] *)
  pdu_signatures : option json;
  extra_data : list (string * json)
}.

(** [SnPduEvent] *)
Record StoredPdu := {
  inner :> PduEvent;
  sn : Z;
  is_outlier : bool;
  soft_failed : bool;
  is_backfill : bool
}.
Definition sn_pdu (p : StoredPdu) : SnPduEvent := {| pdu := p; event_sn := sn p |}.

Definition set_base (b : Pdu) (p : PduEvent) : PduEvent :=
  {| base := b; depth := depth p; unsigned := unsigned p; hashes := hashes p;
     pdu_signatures := pdu_signatures p; extra_data := extra_data p |}.
Definition with_rejected (r : bool) (b : Pdu) : Pdu :=
  {| event_id := event_id b; room_id := room_id b; sender := sender b;
     origin_server_ts := origin_server_ts b; event_type := event_type b; content := content b;
     state_key := state_key b; prev_events := prev_events b; auth_events := auth_events b;
     redacts := redacts b; rejected := r |}.
Definition with_content (c : json) (b : Pdu) : Pdu :=
  {| event_id := event_id b; room_id := room_id b; sender := sender b;
     origin_server_ts := origin_server_ts b; event_type := event_type b; content := c;
     state_key := state_key b; prev_events := prev_events b; auth_events := auth_events b;
     redacts := redacts b; rejected := rejected b |}.
(** [pdu.rejection_reason = ..]; of the reason only its presence is kept. *)
Definition set_rejected (r : bool) (p : PduEvent) : PduEvent := set_base (with_rejected r p) p.

Definition de_u64 (j : json) : option Z :=
  match j with JNum (NumInt z) => in_range 0 U64_MAX (Some z) | _ => None end.
Definition de_valid (validate : string -> result IdParseError unit) (j : json) : option string :=
  s ← de_str j; if is_ok (validate s) then Some s else None.
Definition de_event_id : json -> option string := de_valid event_id_validate.
Definition de_room_id : json -> option string := de_valid room_id_validate.
Definition de_object (j : json) : option (list (string * json)) :=
  match j with JObj m => Some (json_map m) | _ => None end.

(** The fields of [PduEvent] by their JSON names; the others go to [extra_data]. *)
Definition pdu_fields : list string :=
  ["event_id"; "type"; "room_id"; "sender"; "origin_server_ts"; "content"; "state_key";
   "prev_events"; "depth"; "auth_events"; "redacts"; "unsigned"; "hashes"; "signatures"].

(** [serde_json::from_value::<PduEvent>] of an object. *)
Definition de_pdu (obj : list (string * json)) : option PduEvent :=
  event_id ← bt_get "event_id" obj ≫= de_event_id;
  ty ← bt_get "type" obj ≫= de_str;
  room_id ← bt_get "room_id" obj ≫= de_room_id;
  sender ← bt_get "sender" obj ≫= de_user_id;
  ts ← bt_get "origin_server_ts" obj ≫= de_u64;
  content ← bt_get "content" obj;
  state_key ← field_option de_str (bt_get "state_key" obj);
  prev_events ← field_default [] (de_vec de_event_id) (bt_get "prev_events" obj);
  depth ← bt_get "depth" obj ≫= de_u64;
  auth_events ← field_default [] (de_vec de_event_id) (bt_get "auth_events" obj);
  redacts ← field_option de_event_id (bt_get "redacts" obj);
  unsigned ← field_default [] de_object (bt_get "unsigned" obj);
  hashes ← bt_get "hashes" obj ≫= struct1 "sha256" false (field_required de_str);
  signatures ← field_option Some (bt_get "signatures" obj);
  Some {| base := {| event_id := event_id; room_id := room_id; sender := sender;
                     origin_server_ts := ts; event_type := timeline_event_type ty;
                     content := content; state_key := state_key; prev_events := prev_events;
                     auth_events := auth_events; redacts := redacts; rejected := false |};
          depth := depth; unsigned := unsigned; hashes := hashes; pdu_signatures := signatures;
          extra_data := filter (fun kv => kv.1 ∉ pdu_fields) obj |}.

(** [PduEvent::from_json_value] *)
Definition pdu_from_json_value (room_id event_id : string) (json : json) : option PduEvent :=
  match json with
  | JObj obj =>
      de_pdu (bt_insert "room_id" (JStr room_id) (bt_insert "event_id" (JStr event_id) (json_map obj)))
  | _ => None
  end.

Definition opt_member {A} (name : string) (ser : A -> json) (o : option A) : list (string * json) :=
  match o with Some a => [(name, ser a)] | None => [] end.

(** [serde_json::to_value(&pdu)]; [rejection_reason] is skipped. *)
Definition pdu_to_value (p : PduEvent) : json :=
  JObj (bt_from_list (
    [("event_id", JStr (event_id p)); ("type", JStr (event_type p)); ("room_id", JStr (room_id p));
     ("sender", JStr (sender p)); ("origin_server_ts", JNum (NumInt (origin_server_ts p)));
     ("content", content p)]
    ++ opt_member "state_key" JStr (state_key p)
    ++ [("prev_events", JArr (JStr <$> prev_events p)); ("depth", JNum (NumInt (depth p)));
        ("auth_events", JArr (JStr <$> auth_events p))]
    ++ opt_member "redacts" JStr (redacts p)
    ++ match unsigned p with [] => [] | u => [("unsigned", JObj u)] end
    ++ [("hashes", JObj [("sha256", JStr (hashes p))])]
    ++ opt_member "signatures" id (pdu_signatures p)
    ++ extra_data p)%list).

(** [to_canonical_object] *)
Definition to_canonical_object (j : json) : option CanonicalJsonObject :=
  match try_from j with Ok (CObject m) => Some m | _ => None end.

(** [PduEvent::redact]: which keys of the content stay. *)
Definition redact_allowed (ty : string) : list string :=
  if ty =? "m.room.member" then ["join_authorised_via_users_server"; "membership"]
  else if ty =? "m.room.create" then ["creator"]
  else if ty =? "m.room.join_rules" then ["join_rule"]
  else if ty =? "m.room.power_levels" then
    ["ban"; "events"; "events_default"; "kick"; "redact"; "state_default"; "users"; "users_default"]
  else if ty =? "m.room.history_visibility" then ["history_visibility"]
  else [].

Definition pdu_redact (reason p : PduEvent) : option PduEvent :=
  match content p with
  | JObj members =>
      let old_content := json_map members in
      let new_content := filter (fun kv => kv.1 ∈ redact_allowed (event_type p)) old_content in
      Some {| base := with_content (JObj new_content) p; depth := depth p;
              unsigned := [("redacted_because", pdu_to_value reason)]; hashes := hashes p;
              pdu_signatures := pdu_signatures p; extra_data := extra_data p |}
  | _ => None
  end.

(** [RoomRedactionEventContent]: its [redacts]. *)
Definition de_redaction_redacts (content : json) : option (option string) :=
  slots ← struct_fields [("redacts", false); ("reason", false)] content;
  match slots with
  | [redacts; reason] =>
      redacts ← field_option de_event_id redacts;
      _ ← field_option de_str reason;
      Some redacts
  | _ => None
  end.

Definition redacts_id (p : PduEvent) (room_version : RoomVersionId) : option string :=
  if negb (event_type p =? "m.room.redaction") then None
  else match room_version with
  | RV_V1 | RV_V2 | RV_V3 | RV_V4 | RV_V5 | RV_V6 | RV_V7 | RV_V8 | RV_V9 | RV_V10 => redacts p
  | _ => mjoin (de_redaction_redacts (content p))
  end.

(** ** History visibility *)

Inductive HistoryVisibility := Invited | Joined | Shared | WorldReadable | CustomVisibility (s : string).
#[global] Instance HistoryVisibility_eq_dec : EqDecision HistoryVisibility.
Proof. solve_decision. Defined.
Definition history_visibility_from (s : string) : HistoryVisibility :=
  if s =? "invited" then Invited else if s =? "joined" then Joined
  else if s =? "shared" then Shared else if s =? "world_readable" then WorldReadable
  else CustomVisibility s.
(** [from_str::<RoomHistoryVisibilityEventContent>] *)
Definition de_history_visibility : json -> option HistoryVisibility :=
  struct1 "history_visibility" false (field_required (fun j => history_visibility_from <$> de_str j)).

(** ** Rows *)

(** A row of [events]. *)
Record EventRow := {
  er_sn : Z;
  er_ty : string;
  er_room_id : string;
  er_depth : Z;
  er_topological_ordering : Z;
  er_stream_ordering : Z;
  er_origin_server_ts : Z;
  er_sender_id : option string;
  er_contains_url : bool;
  er_state_key : option string;
  er_is_outlier : bool;
  er_is_redacted : bool;
  er_soft_failed : bool;
  er_is_rejected : bool;
  er_rejection_reason : bool          (* whether there is one *)
}.

(** A row of [event_datas]. *)
Record EventData := { ed_sn : Z; ed_room_id : string; ed_json : json }.

(** The columns of [rooms] read here besides [state_frame_id]. *)
Record RoomRow := { rm_version : string; rm_disabled : bool }.

Definition de_default_bool (slot : option json) : option bool := field_default false de_bool slot.

(** [NewDbEvent::from_json_value]: the row is deserialized from the event's own JSON. *)
Definition new_db_event (id : string) (sn : Z) (value : json) (is_backfill : bool)
    (room_id : option string) : result AppError EventRow :=
  match value with
  | JObj members =>
      let value := json_map members in
      let depth := default (JNum (NumInt 0)) (bt_get "depth" value) in
      let ty := default (JStr "m.room.message") (bt_get "type" value) in
      let obj := bt_insert "stream_ordering" (JNum (NumInt (if is_backfill then - sn else sn)%Z))
        (bt_insert "topological_ordering" depth (bt_insert "type" ty
          (bt_insert "sn" (JNum (NumInt sn)) (bt_insert "id" (JStr id) value)))) in
      let obj := match bt_get "room_id" obj, room_id with
                 | None, Some rid => bt_insert "room_id" (JStr rid) obj
                 | _, _ => obj
                 end in
      ok_or (
        _ ← bt_get "id" obj ≫= de_event_id;
        sn ← bt_get "sn" obj ≫= de_i64;
        ty ← bt_get "type" obj ≫= de_str;
        room_id ← bt_get "room_id" obj ≫= de_room_id;
        depth ← bt_get "depth" obj ≫= de_i64;
        topological_ordering ← bt_get "topological_ordering" obj ≫= de_i64;
        stream_ordering ← bt_get "stream_ordering" obj ≫= de_i64;
        _ ← field_option de_str (bt_get "unrecognized_keys" obj);
        ts ← bt_get "origin_server_ts" obj ≫= de_u64;
        _ ← field_option de_i64 (bt_get "received_at" obj);
        sender_id ← field_option de_user_id (bt_get "sender_id" obj);
        contains_url ← de_default_bool (bt_get "contains_url" obj);
        _ ← field_option de_str (bt_get "worker_id" obj);
        state_key ← field_option de_str (bt_get "state_key" obj);
        is_outlier ← de_default_bool (bt_get "is_outlier" obj);
        soft_failed ← de_default_bool (bt_get "soft_failed" obj);
        is_rejected ← de_default_bool (bt_get "is_rejected" obj);
        reason ← field_option de_str (bt_get "rejection_reason" obj);
        Some {| er_sn := sn; er_ty := ty; er_room_id := room_id; er_depth := depth;
                er_topological_ordering := topological_ordering;
                er_stream_ordering := stream_ordering; er_origin_server_ts := ts;
                er_sender_id := sender_id; er_contains_url := contains_url; er_state_key := state_key; er_is_outlier := is_outlier;
                er_is_redacted := false; er_soft_failed := soft_failed;
                er_is_rejected := is_rejected;
                er_rejection_reason := bool_decide (is_Some reason) |}) MatrixBadJson
  | _ => Err MatrixBadJson
  end.

(** [.do_update().set(self)]: a [None] of the changeset leaves the column as it is, and
    [is_redacted] is not part of it. *)
Definition merge_row (new old : EventRow) : EventRow :=
  {| er_sn := er_sn new; er_ty := er_ty new; er_room_id := er_room_id new; er_depth := er_depth new;
     er_topological_ordering := er_topological_ordering new;
     er_stream_ordering := er_stream_ordering new; er_origin_server_ts := er_origin_server_ts new;
     er_sender_id := match er_sender_id new with Some x => Some x | None => er_sender_id old end;
     er_contains_url := er_contains_url new;
     er_state_key := match er_state_key new with Some x => Some x | None => er_state_key old end;
     er_is_outlier := er_is_outlier new; er_is_redacted := er_is_redacted old;
     er_soft_failed := er_soft_failed new; er_is_rejected := er_is_rejected new;
     er_rejection_reason := er_rejection_reason new || er_rejection_reason old |}.

Definition row_flags (outlier soft rejected reason : bool) (r : EventRow) : EventRow :=
  {| er_sn := er_sn r; er_ty := er_ty r; er_room_id := er_room_id r; er_depth := er_depth r;
     er_topological_ordering := er_topological_ordering r;
     er_stream_ordering := er_stream_ordering r; er_origin_server_ts := er_origin_server_ts r;
     er_sender_id := er_sender_id r; er_contains_url := er_contains_url r; er_state_key := er_state_key r; er_is_outlier := outlier;
     er_is_redacted := er_is_redacted r; er_soft_failed := soft; er_is_rejected := rejected;
     er_rejection_reason := reason |}.
Definition row_outlier (b : bool) (r : EventRow) : EventRow :=
  row_flags b (er_soft_failed r) (er_is_rejected r) (er_rejection_reason r) r.
Definition row_soft_failed (r : EventRow) : EventRow :=
  row_flags (er_is_outlier r) true (er_is_rejected r) (er_rejection_reason r) r.
Definition row_sn (n : Z) (r : EventRow) : EventRow :=
  {| er_sn := n; er_ty := er_ty r; er_room_id := er_room_id r; er_depth := er_depth r;
     er_topological_ordering := er_topological_ordering r;
     er_stream_ordering := er_stream_ordering r; er_origin_server_ts := er_origin_server_ts r;
     er_sender_id := er_sender_id r; er_contains_url := er_contains_url r; er_state_key := er_state_key r;
     er_is_outlier := er_is_outlier r; er_is_redacted := er_is_redacted r;
     er_soft_failed := er_soft_failed r; er_is_rejected := er_is_rejected r;
     er_rejection_reason := er_rejection_reason r |}.
Definition row_redacted (r : EventRow) : EventRow :=
  {| er_sn := er_sn r; er_ty := er_ty r; er_room_id := er_room_id r; er_depth := er_depth r;
     er_topological_ordering := er_topological_ordering r;
     er_stream_ordering := er_stream_ordering r; er_origin_server_ts := er_origin_server_ts r;
     er_sender_id := er_sender_id r; er_contains_url := er_contains_url r; er_state_key := er_state_key r;
     er_is_outlier := er_is_outlier r; er_is_redacted := true;
     er_soft_failed := er_soft_failed r; er_is_rejected := er_is_rejected r;
     er_rejection_reason := er_rejection_reason r |}.
Definition data_json (j : json) (d : EventData) : EventData :=
  {| ed_sn := ed_sn d; ed_room_id := ed_room_id d; ed_json := j |}.
Definition data_sn (n : Z) (d : EventData) : EventData :=
  {| ed_sn := n; ed_room_id := ed_room_id d; ed_json := ed_json d |}.

(** ** Calls *)

(** [RegistrationInfo]: the regular expressions of its namespaces as predicates. *)
Record Appservice := {
  as_id : string;
  as_sender_localpart : string;
  as_users : string -> bool;
  as_aliases : string -> bool;
  as_rooms : string -> bool
}.

(** What the event handlers ask of the rest of the server and of other servers, with
    the type of the answer.  The bodies of federation responses are JSON values. *)
Inductive Call : Type -> Type :=
(* other servers *)
| MissingEvents (remote_server room_id : string) (limit min_depth : Z)
    (earliest_events latest_events : list string) : Call (list json)
| EventAuth (remote_server room_id event_id : string) : Call (list json)
| StateIds (remote_server room_id event_id : string) : Call (list string * list string)
| RoomState (remote_server room_id event_id : string) : Call (list json * list json)
| GetEvent (remote_server event_id : string) : Call json
(* [server_key::get_pubkeys] *)
| GetPubkeys (required : gmap string (list string)) : Call PublicKeyMap
(* memberships and peeks *)
| IsServerJoined (server room_id : string) : Call bool
| IsPeeked (room_id : string) : Call bool
| UpdateMembership (event_id : string) (event_sn : Z) (room_id user_id : string)
    (membership : MembershipState) (sender_id : string) (last_state : option (list json)) : Call unit
| UpdateCurrents (room_id : string) : Call unit
| OurRealUsers (room_id : string) : Call (list string)
| LocalUsers (room_id : string) : Call (list string)
(* relations and threads *)
| AddEventRelation (room_id event_id : string) (event_sn : Z) (event_ty child_id : string)
    (child_sn : Z) (child_ty : string) (rel_type : option string) : Call unit
| SetEventThreadId (event_id thread_id : string) : Call unit
| UpsertThread (event_id : string) (event_sn : Z) (room_id last_id : string) (last_sn : Z) : Call unit
(* push *)
| GetActions (user_id : string) (power_levels : option RoomPowerLevels) (event : json)
    (room_id : string) : Call (list Action)
    (* [user::get_push_rules], then [get_actions] of the rules where there are power levels *)
| UpsertPushAction (room_id event_id user_id : string) (notify highlight : bool) : Call unit
| GetPushKeys (user_id : string) : Call (list string)
| SendPushPdu (event_id user_id push_key : string) : Call unit
| RefreshNotifySummary (sender room_id : string) : Call unit
| IncrementNotificationCounts (event_id : string) (notifies highlights : list string) : Call unit
(* caches, presence, search, rooms *)
| ClearSpaceCache (room_id : string) : Call unit
| ClearAppserviceCache (room_id : string) : Call unit
| PingPresence (user_id : string) : Call unit
| ResolveLocalAlias (alias : string) : Call string
| AdminCommand (body event_id : string) : Call unit
| CopyRoomTagsAndDirect (user_id from_room to_room : string) : Call unit
| CopyPushRules (user_id from_room to_room : string) : Call unit
| SaveSearch (event_id : string) (pdu_json : CanonicalJsonObject) : Call unit
| DeleteSearch (event_id : string) : Call unit
(* aliases, application services and peeking servers *)
| LocalAliases (room_id : string) : Call (list string)
| AllAppservices : Call (list Appservice)
| AppserviceInRoom (room_id appservice_id : string) : Call bool
| SendPduAppservice (appservice_id event_id : string) : Call unit
| ActivePeekingServers (room_id : string) : Call (list string)
| ParticipatingServers (room_id : string) : Call (list string)
| SendPduServers (servers : list string) (event_id : string) : Call unit
(* the clock, fresh IDs and the joined users of a room *)
| Now : Call Z
| FreshEventId : Call string
| JoinedUsers (room_id : string) : Call (list string)
| IsJoined (user_id room_id : string) : Call bool
| IsInvited (user_id room_id : string) : Call bool
(* the users a user ignores: [data::user::ignored_users] and the keys of the account
   data [m.ignored_user_list] *)
| IgnoredUsers (user_id : string) : Call (list string)
| IgnoredUserList (user_id : string) : Call (option (list string))
(* rows of [room_users]: whether one says [join], and the [forgotten] of the first that
   says [leave] *)
| JoinRow (user_id room_id : string) : Call bool
| LeaveRow (user_id room_id : string) : Call (option bool)
(* [/backfill] of another server; [None] when its answer cannot be read *)
| Backfill (remote_server room_id : string) (v : list string) (limit : Z) : Call (option (list json))
(* [data::curr_sn]: the last value of the sequence of occurrence numbers *)
| CurrSn : Call Z.

(** [call] serves the calls on its own state. *)
Class Services (O : Type) := call_on : forall A, Call A -> St O A.
Arguments call_on {O _ A} c.

(** [wildmatch::WildMatch::new_case_insensitive(pattern).matches(host)] *)
Class WildMatch := wild_matches : string -> string -> bool.

Section store.
Context {U : Unicode} {C : Crypto} {HO : HashOrder} {WM : WildMatch}.
Context {LF : LruCache Z (list FrameInfo)} {LA : LruCache (list Z) (list Z)}.
Context {O : Type} {SV : Services O}.

Record Store := {
  frames : FramesDb;
  next_event_sn : Z;
  event_chains : gmap (list Z) (list Z);   (* event_auth_chains *)
  chain_cache : lru (list Z) (list Z);
  rows : gmap string EventRow;   (* events, by id *)
  datas : gmap string EventData;   (* event_datas, by event_id *)
  forward_extremities : gset (string * string);   (* (room_id, event_id) *)
  backward_extremities : gset (string * string);   (* (room_id, event_id) *)
  timeline_gaps : gmap (string * Z) string;   (* (room_id, event_sn) -> event_id *)
  event_missings : gmap (string * string) (string * Z);   (* (event_id, missing_id) -> (room_id, event_sn) *)
  event_edges : gmap (string * string) string;   (* room_id by (event_id, prev_id) *)
  room_rows : gmap string RoomRow;   (* rooms *)
  others : O   (* what the calls work on *)
}.

Definition put_frames (v : FramesDb) (s : Store) : Store :=
  {| frames := v; next_event_sn := next_event_sn s; event_chains := event_chains s; chain_cache
     := chain_cache s; rows := rows s; datas := datas s; forward_extremities :=
     forward_extremities s; backward_extremities := backward_extremities s; timeline_gaps :=
     timeline_gaps s; event_missings := event_missings s; event_edges := event_edges s; room_rows
     := room_rows s; others := others s |}.
Definition put_next_event_sn (v : Z) (s : Store) : Store :=
  {| frames := frames s; next_event_sn := v; event_chains := event_chains s; chain_cache :=
     chain_cache s; rows := rows s; datas := datas s; forward_extremities := forward_extremities
     s; backward_extremities := backward_extremities s; timeline_gaps := timeline_gaps s;
     event_missings := event_missings s; event_edges := event_edges s; room_rows := room_rows s;
     others := others s |}.
Definition put_event_chains (v : gmap (list Z) (list Z)) (s : Store) : Store :=
  {| frames := frames s; next_event_sn := next_event_sn s; event_chains := v; chain_cache :=
     chain_cache s; rows := rows s; datas := datas s; forward_extremities := forward_extremities
     s; backward_extremities := backward_extremities s; timeline_gaps := timeline_gaps s;
     event_missings := event_missings s; event_edges := event_edges s; room_rows := room_rows s;
     others := others s |}.
Definition put_chain_cache (v : lru (list Z) (list Z)) (s : Store) : Store :=
  {| frames := frames s; next_event_sn := next_event_sn s; event_chains := event_chains s;
     chain_cache := v; rows := rows s; datas := datas s; forward_extremities :=
     forward_extremities s; backward_extremities := backward_extremities s; timeline_gaps :=
     timeline_gaps s; event_missings := event_missings s; event_edges := event_edges s; room_rows
     := room_rows s; others := others s |}.
Definition put_rows (v : gmap string EventRow) (s : Store) : Store :=
  {| frames := frames s; next_event_sn := next_event_sn s; event_chains := event_chains s;
     chain_cache := chain_cache s; rows := v; datas := datas s; forward_extremities :=
     forward_extremities s; backward_extremities := backward_extremities s; timeline_gaps :=
     timeline_gaps s; event_missings := event_missings s; event_edges := event_edges s; room_rows
     := room_rows s; others := others s |}.
Definition put_datas (v : gmap string EventData) (s : Store) : Store :=
  {| frames := frames s; next_event_sn := next_event_sn s; event_chains := event_chains s;
     chain_cache := chain_cache s; rows := rows s; datas := v; forward_extremities :=
     forward_extremities s; backward_extremities := backward_extremities s; timeline_gaps :=
     timeline_gaps s; event_missings := event_missings s; event_edges := event_edges s; room_rows
     := room_rows s; others := others s |}.
Definition put_forward_extremities (v : gset (string * string)) (s : Store) : Store :=
  {| frames := frames s; next_event_sn := next_event_sn s; event_chains := event_chains s;
     chain_cache := chain_cache s; rows := rows s; datas := datas s; forward_extremities := v;
     backward_extremities := backward_extremities s; timeline_gaps := timeline_gaps s;
     event_missings := event_missings s; event_edges := event_edges s; room_rows := room_rows s;
     others := others s |}.
Definition put_backward_extremities (v : gset (string * string)) (s : Store) : Store :=
  {| frames := frames s; next_event_sn := next_event_sn s; event_chains := event_chains s;
     chain_cache := chain_cache s; rows := rows s; datas := datas s; forward_extremities :=
     forward_extremities s; backward_extremities := v; timeline_gaps := timeline_gaps s;
     event_missings := event_missings s; event_edges := event_edges s; room_rows := room_rows s;
     others := others s |}.
Definition put_timeline_gaps (v : gmap (string * Z) string) (s : Store) : Store :=
  {| frames := frames s; next_event_sn := next_event_sn s; event_chains := event_chains s;
     chain_cache := chain_cache s; rows := rows s; datas := datas s; forward_extremities :=
     forward_extremities s; backward_extremities := backward_extremities s; timeline_gaps := v;
     event_missings := event_missings s; event_edges := event_edges s; room_rows := room_rows s;
     others := others s |}.
Definition put_event_missings (v : gmap (string * string) (string * Z)) (s : Store) : Store :=
  {| frames := frames s; next_event_sn := next_event_sn s; event_chains := event_chains s;
     chain_cache := chain_cache s; rows := rows s; datas := datas s; forward_extremities :=
     forward_extremities s; backward_extremities := backward_extremities s; timeline_gaps :=
     timeline_gaps s; event_missings := v; event_edges := event_edges s; room_rows := room_rows
     s; others := others s |}.
Definition put_event_edges (v : gmap (string * string) string) (s : Store) : Store :=
  {| frames := frames s; next_event_sn := next_event_sn s; event_chains := event_chains s;
     chain_cache := chain_cache s; rows := rows s; datas := datas s; forward_extremities :=
     forward_extremities s; backward_extremities := backward_extremities s; timeline_gaps :=
     timeline_gaps s; event_missings := event_missings s; event_edges := v; room_rows :=
     room_rows s; others := others s |}.
Definition put_room_rows (v : gmap string RoomRow) (s : Store) : Store :=
  {| frames := frames s; next_event_sn := next_event_sn s; event_chains := event_chains s;
     chain_cache := chain_cache s; rows := rows s; datas := datas s; forward_extremities :=
     forward_extremities s; backward_extremities := backward_extremities s; timeline_gaps :=
     timeline_gaps s; event_missings := event_missings s; event_edges := event_edges s; room_rows
     := v; others := others s |}.
Definition put_others (v : O) (s : Store) : Store :=
  {| frames := frames s; next_event_sn := next_event_sn s; event_chains := event_chains s;
     chain_cache := chain_cache s; rows := rows s; datas := datas s; forward_extremities :=
     forward_extremities s; backward_extremities := backward_extremities s; timeline_gaps :=
     timeline_gaps s; event_missings := event_missings s; event_edges := event_edges s; room_rows
     := room_rows s; others := v |}.

Abbreviation Db := (St Store).

(** Operations of the parts, on the whole. *)
Definition on_frames {A} (m : St FramesDb A) : Db A := fun s =>
  let '(r, f) := m (frames s) in (r, put_frames f s).
Definition call {A} (c : Call A) : Db A := fun s =>
  let '(r, o) := call_on c (others s) in (r, put_others o s).

(** The tables as [auth_chain.rs] reads them. *)
Definition event_tables (s : Store) : EventTables :=
  {| AuthChain.events := er_sn <$> rows s;
     AuthChain.event_datas := map_imap (fun id d =>
       Some (base <$> pdu_from_json_value (ed_room_id d) id (ed_json d))) (datas s) |}.
Definition on_chains {A} (m : St ChainDb A) : Db A := fun s =>
  let '(r, db) := m {| tables := event_tables s; event_auth_chains := event_chains s;
                       auth_chain_cache := chain_cache s |} in
  (r, put_event_chains (event_auth_chains db) (put_chain_cache (auth_chain_cache db) s)).

Definition upd_rows (f : gmap string EventRow -> gmap string EventRow) : Db unit :=
  st_modify (fun s => put_rows (f (rows s)) s).
Definition upd_datas (f : gmap string EventData -> gmap string EventData) : Db unit :=
  st_modify (fun s => put_datas (f (datas s)) s).
Definition upd_forward (f : gset (string * string) -> gset (string * string)) : Db unit :=
  st_modify (fun s => put_forward_extremities (f (forward_extremities s)) s).
Definition upd_backward (f : gset (string * string) -> gset (string * string)) : Db unit :=
  st_modify (fun s => put_backward_extremities (f (backward_extremities s)) s).
Definition upd_gaps (f : gmap (string * Z) string -> gmap (string * Z) string) : Db unit :=
  st_modify (fun s => put_timeline_gaps (f (timeline_gaps s)) s).
Definition upd_missings (f : gmap (string * string) (string * Z) -> gmap (string * string) (string * Z)) :
    Db unit :=
  st_modify (fun s => put_event_missings (f (event_missings s)) s).
Definition upd_edges (f : gmap (string * string) string -> gmap (string * string) string) : Db unit :=
  st_modify (fun s => put_event_edges (f (event_edges s)) s).

(** The event is stored and no outlier. *)
Definition in_timeline (s : Store) (id : string) : bool :=
  match rows s !! id with Some r => negb (er_is_outlier r) | None => false end.

(** ** Reading events: [room/timeline.rs] *)

Definition load_pdu (s : Store) (event_id : string) : result AppError StoredPdu :=
  match rows s !! event_id with
  | None => Err DbNotFound
  | Some event =>
      match datas s !! event_id with
      | None => Err DbNotFound
      | Some data =>
          match pdu_from_json_value (ed_room_id data) event_id (ed_json data) with
          | None => Err AppInternal
          | Some pdu =>
              Ok {| inner := set_rejected (er_rejection_reason event) pdu; sn := ed_sn data;
                    is_outlier := er_is_outlier event; soft_failed := er_soft_failed event;
                    is_backfill := (er_stream_ordering event <? 0)%Z |}
          end
      end
  end.
Definition get_pdu (event_id : string) : Db StoredPdu := fun s =>
  (of_result (load_pdu s event_id), s).

Definition get_non_outlier_pdu (event_id : string) : Db (option StoredPdu) := fun s =>
  match rows s !! event_id with
  | Some event =>
      if er_is_outlier event then (Done None, s)
      else match datas s !! event_id with
      | None => (Done None, s)
      | Some data =>
          match pdu_from_json_value (er_room_id event) event_id (ed_json data) with
          | None => (Fail AppInternal, s)
          | Some pdu =>
              (Done (Some {| inner := set_rejected (er_rejection_reason event) pdu;
                             sn := er_sn event; is_outlier := er_is_outlier event;
                             soft_failed := er_soft_failed event;
                             is_backfill := (er_stream_ordering event <? 0)%Z |}), s)
          end
      end
  | None => (Done None, s)
  end.

Definition get_pdu_json (event_id : string) : Db (option CanonicalJsonObject) := fun s =>
  match datas s !! event_id with
  | None => (Done None, s)
  | Some data =>
      match de_canonical_object (ed_json data) with
      | Some o => (Done (Some o), s)
      | None => (Fail AppInternal, s)
      end
  end.

(** The rows of [event_datas] of the room among [event_ids], in an unspecified order. *)
Definition get_may_missing_pdus (room_id : string) (event_ids : list string) :
    Db (list StoredPdu * list string) := st_gets (fun s =>
  let events := fst <$> filter (fun '(id, d) => ed_room_id d = room_id /\ id ∈ event_ids) (iter_map (datas s)) in
  let pdus := omap (fun id => ok (load_pdu s id)) events in
  let found := filter (fun id => is_ok (load_pdu s id) = true) events in
  (pdus, iter_set (list_to_set event_ids ∖ list_to_set found : gset string))).

Definition first_pdu_in_room (room_id : string) : Db (option PduEvent) := fun s =>
  match sort_by_key Z.compare (fun '(_, d) => ed_sn d)
          (filter (fun '(_, d) => ed_room_id d = room_id) (iter_map (datas s))) with
  | [] => (Done None, s)
  | (event_id, d) :: _ =>
      match pdu_from_json_value room_id event_id (ed_json d) with
      | Some p => (Done (Some p), s)
      | None => (Fail AppInternal, s)
      end
  end.

(** ** Event IDs and parsing: [event.rs] and [server_key/verify.rs] *)

Definition get_version_rules (v : RoomVersionId) : result AppError RoomVersionRules.t :=
  ok_or (room_version_rules v) AppPublic.

Definition gen_event_id (value : CanonicalJsonObject) (room_version : RoomVersionId) :
    result AppError string :=
  version_rules ← get_version_rules room_version;
  reference_hash ← map_err (fun _ => Signing) (reference_hash value version_rules);
  let event_id := "$" +:+ reference_hash in
  if is_ok (event_id_validate event_id) then Ok event_id else Err IdParse.

Definition parse_fetched_pdu (room_id : string) (room_version : RoomVersionId) (raw : json) :
    result AppError (string * CanonicalJsonObject) :=
  value ← ok_or (de_canonical_object raw) MatrixBadJson;
  let parsed_room_id :=
    id ← bt_get "room_id" value ≫= as_str; if is_ok (room_id_validate id) then Some id else None in
  if match parsed_room_id with Some id => bool_decide (id <> room_id) | None => false end
  then Err MatrixInvalidParam
  else
    event_id ← map_err (fun _ => MatrixBadJson) (gen_event_id value room_version);
    Ok (event_id, value).

(** A computation of the core crate, its error turned into [e]. *)
Definition of_core {E A} (m : comp E A) (e : E -> AppError) : Db A := fun s =>
  match m with
  | Done a => (Done a, s)
  | Fail x => (Fail (e x), s)
  | Panic => (Panic, s)
  | OutOfFuel => (OutOfFuel, s)
  end.
Definition of_res {A} (r : result AppError A) : Db A := fun s => (of_result r, s).
(** [AppError::State] *)
Definition state_error (e : StateError) : AppError :=
  match e with Forbidden => StateForbidden | AuthEvent => StateAuthEvent | _ => StateOther end.

(** [server_key::verify_event] *)
Definition server_verify_event (event : CanonicalJsonObject) (room_version : RoomVersionId) :
    Db Verified :=
  version_rules ← of_res (get_version_rules room_version);
  required ← of_core (required_keys event version_rules) (fun _ => AppPublic);
  keys ← call (GetPubkeys required);
  of_core (verify_event keys event version_rules) (fun _ => Signing).

(** [rooms.version]; when there is no row there is no [state_frame_id] either, and the
    fallback to the create event finds no state. *)
Definition get_version (room_id : string) : Db RoomVersionId :=
  row ← st_gets (fun s => room_rows s !! room_id);
  match row with
  | Some r => of_res (map_err (fun _ => IdParse) (room_version_try_from (rm_version r)))
  | None => st_fail MatrixNotFound
  end.
Definition room_exists (room_id : string) : Db bool :=
  st_gets (fun s => bool_decide (is_Some (room_rows s !! room_id))).
Definition is_disabled (room_id : string) : Db bool :=
  row ← st_gets (fun s => room_rows s !! room_id);
  st_some (rm_disabled <$> row) DbNotFound.

Definition parse_incoming_pdu (raw : json) : Db (string * CanonicalJsonObject * string * RoomVersionId) :=
  value ← st_some (de_canonical_object raw) MatrixBadJson;
  room_id ← st_some
    (id ← bt_get "room_id" value ≫= as_str; if is_ok (room_id_validate id) then Some id else None)
    MatrixInvalidParam;
  version ← st_try (get_version room_id);
  room_version_id ← st_some (ok version) MatrixInvalidParam;
  event_id ← st_some (ok (gen_event_id value room_version_id)) MatrixInvalidParam;
  mret (event_id, value, room_id, room_version_id).

Definition seen_event_ids (room_id : string) (event_ids : list string) : Db (list string) :=
  st_gets (fun s => fst <$> filter (fun '(id, r) => er_room_id r = room_id /\ id ∈ event_ids)
                              (iter_map (rows s))).
Definition get_event_sn_and_ty (event_id : string) : Db (Z * string) :=
  row ← st_gets (fun s => rows s !! event_id);
  st_some ((fun r => (er_sn r, er_ty r)) <$> row) DbNotFound.

(** The new sequence number is the next of the table's sequence. *)
Definition ensure_event_sn (room_id event_id : string) : Db Z :=
  point ← st_gets (fun s => event_points (frames s) !! event_id);
  match point with
  | Some p => mret (ep_event_sn p)
  | None =>
      n ← st_gets next_event_sn;
      _ ← st_modify (fun s =>
            put_next_event_sn (n + 1)%Z
              (put_frames (set_points
                 (<[event_id := {| ep_event_sn := n; ep_room_id := room_id; ep_frame_id := None;
                                   ep_before_frame_id := None |}]> (event_points (frames s)))
                 (frames s)) s));
      _ ← upd_rows (alter (row_sn n) event_id);
      _ ← upd_datas (alter (data_sn n) event_id);
      mret n
  end.

(** [NewDbEvent::save] and [DbEventData::save] *)
Definition save_row (id : string) (r : EventRow) : Db unit :=
  upd_rows (fun m => <[id := match m !! id with Some old => merge_row r old | None => r end]> m).
Definition save_data (id : string) (sn : Z) (room_id : string) (j : json) : Db unit :=
  upd_datas (<[id := {| ed_sn := sn; ed_room_id := room_id; ed_json := j |}]>).
Definition replace_pdu (event_id : string) (pdu_json : CanonicalJsonObject) : Db unit :=
  upd_datas (alter (data_json (into_json (CObject pdu_json))) event_id).
Definition mark_event_soft_failed (event_id : string) : Db unit :=
  upd_rows (alter row_soft_failed event_id).

(** ** Extremities: [room/state.rs] *)

Definition get_forward_extremities (room_id : string) : Db (list string) :=
  st_gets (fun s => snd <$> filter (fun '(r, _) => r = room_id) (iter_set (forward_extremities s))).

Definition set_forward_extremities (room_id : string) (event_ids : list string) : Db unit :=
  _ ← upd_forward (filter (fun '(r, id) => ~ (r = room_id /\ id ∉ event_ids)));
  st_iter (fun id => upd_forward (fun f => {[ (room_id, id) ]} ∪ f)) event_ids.

Definition add_backward (room_id event_id : string) : Db unit :=
  upd_backward (fun f => {[ (room_id, event_id) ]} ∪ f).

(** The insertion into [timeline_gaps] has no conflict clause. *)
Definition add_gap (room_id event_id : string) (sn : Z) : Db unit :=
  gap ← st_gets (fun s => timeline_gaps s !! (room_id, sn));
  match gap with
  | Some _ => st_fail DbUnique
  | None => upd_gaps (<[(room_id, sn) := event_id]>)
  end.

Definition add_missing (room_id event_id : string) (sn : Z) (missing_id : string) : Db unit :=
  upd_missings (fun m => match m !! (event_id, missing_id) with
                         | Some _ => m
                         | None => <[(event_id, missing_id) := (room_id, sn)]> m
                         end).

Definition update_backward_extremities (p : StoredPdu) : Db unit :=
  _ ← (if is_outlier p then add_backward (room_id p) (event_id p)
       else
         missing_ids ← st_gets (fun s =>
           filter (fun id => in_timeline s id = false) (prev_events p));
         match missing_ids with
         | [] =>
             _ ← upd_backward (filter (fun x => x <> (room_id p, event_id p)));
             upd_gaps (delete (room_id p, sn p))
         | _ =>
             _ ← st_iter (add_backward (room_id p)) missing_ids;
             _ ← add_backward (room_id p) (event_id p);
             add_gap (room_id p) (event_id p) (sn p)
         end);
  missing_ids ← st_gets (fun s => filter (fun id => rows s !! id = None) (prev_events p));
  st_iter (add_missing (room_id p) (event_id p) (sn p)) missing_ids.

(** ** Room state: [room/state.rs] and [room.rs] *)

Definition get_frame_state (frame_id : Z) (event_type state_key : string) : Db StoredPdu :=
  event_id ← on_frames (get_state_event_id frame_id event_type state_key);
  get_pdu event_id.
Definition get_room_state (room_id event_type state_key : string) : Db StoredPdu :=
  frame_id ← on_frames (get_room_frame_id room_id None);
  get_frame_state frame_id event_type state_key.

(** [get_state_content::<T>] *)
Definition get_room_state_content {A} (de : json -> option A) (room_id event_type state_key : string) :
    Db A :=
  p ← get_room_state room_id event_type state_key;
  st_some (de (content (inner p))) SerdeJson.

(** [room::get_history_visibility] and [is_world_readable] *)
Definition get_history_visibility (room_id : string) : Db HistoryVisibility :=
  get_room_state_content de_history_visibility room_id "m.room.history_visibility" EmptyString.
Definition is_world_readable (room_id : string) : Db bool :=
  visibility ← st_try (get_history_visibility room_id);
  mret (bool_decide (ok visibility = Some WorldReadable)).

(** The loop of [get_auth_events] over the current state. *)
Fixpoint auth_events_loop (state : list CompressedEvent) (sauth_events : gmap Z (string * string))
    (state_map : gmap (string * string) StoredPdu) : Db (gmap (string * string) StoredPdu) :=
  match state with
  | [] => mret state_map
  | compressed :: state =>
      '(state_key_id, event_id) ← on_frames (ce_split compressed);
      match sauth_events !! state_key_id with
      | Some key =>
          p ← st_try (get_pdu event_id);
          auth_events_loop state (delete state_key_id sauth_events)
            (match p with Ok p => <[key := p]> state_map | Err _ => state_map end)
      | None => auth_events_loop state sauth_events state_map
      end
  end.

(** The fields of the auth types, by field id. *)
Fixpoint auth_fields (auth_types : list (string * string)) (acc : gmap Z (string * string)) :
    Db (gmap Z (string * string)) :=
  match auth_types with
  | [] => mret acc
  | (event_type, state_key) :: auth_types =>
      field_id ← st_try (on_frames (ensure_field_id event_type state_key));
      auth_fields auth_types
        (match field_id with Ok f => <[f := (event_type, state_key)]> acc | Err _ => acc end)
  end.

Definition get_auth_events (room_id kind sender : string) (state_key : option string)
    (content : json) (auth_rules : AuthorizationRules.t) : Db (gmap (string * string) StoredPdu) :=
  frame ← st_try (on_frames (get_room_frame_id room_id None));
  match frame with
  | Err _ => mret ∅
  | Ok frame_id =>
      auth_types ← of_res (map_err state_error
                     (auth_types_for_event kind sender state_key content auth_rules));
      sauth_events ← auth_fields auth_types ∅;
      full_state ← on_frames (full_state_of frame_id);
      auth_events_loop (bset_iter full_state) sauth_events ∅
  end.

(** [room::get_power_levels] *)
Definition get_power_levels (room_id : string) : Db RoomPowerLevels :=
  create ← get_room_state room_id "m.room.create" EmptyString;
  room_version ← of_res (map_err state_error (RoomCreate.room_version (inner create)));
  version_rules ← of_res (get_version_rules room_version);
  creators ← of_res (map_err state_error (RoomCreate.creators (inner create)));
  content ← get_room_state_content de_power_levels_content room_id "m.room.power_levels" EmptyString;
  mret (room_power_levels_new (SourceOriginal content)
          version_rules.(RoomVersionRules.authorization) creators).

(** [room::user_can_invite] *)
Definition room_user_can_invite (room_id sender_id : string) : Db bool :=
  power_levels ← st_try (get_power_levels room_id);
  mret (match power_levels with Ok pl => user_can_invite pl sender_id | Err _ => false end).

(** [user.server_name()]; the IDs were validated when they were read. *)
Definition server_of (user_id : string) : Db string := fun s =>
  match user_id_server_name user_id with Done n => (Done n, s) | _ => (Panic, s) end.

Definition user_can_redact (redacts sender room_id : string) (federation : bool) : Db bool :=
  redacting_event ← st_try (get_pdu redacts);
  let is_type t := match redacting_event with Ok p => event_type (inner p) =? t | Err _ => false end in
  if is_type "m.room.create" || is_type "m.room.server_acl" then st_fail MatrixForbidden
  else
    power_levels ← st_try (get_power_levels room_id);
    match power_levels with
    | Ok pl =>
        if user_can_redact_event_of_other pl sender then mret true
        else if negb (user_can_redact_own_event pl sender) then mret false
        else match redacting_event with
        | Ok p =>
            if federation then
              s1 ← server_of (Events.sender (inner p)); s2 ← server_of sender; mret (s1 =? s2)
            else mret (Events.sender (inner p) =? sender)
        | Err _ => mret false
        end
    | Err _ =>
        create ← st_try (get_room_state room_id "m.room.create" EmptyString);
        match create with
        | Ok room_create =>
            mret ((Events.sender (inner room_create) =? sender)
                  || match redacting_event with Ok p => Events.sender (inner p) =? sender | Err _ => false end)
        | Err _ => st_fail AppPublic
        end
    end.

(** ** Server ACLs: [event/handler.rs] and [core/events/room/server_acl.rs] *)

Record RoomServerAclEventContent := {
  allow_ip_literals : bool;
  allow : list string;
  deny : list string
}.
Definition de_server_acl (j : json) : option RoomServerAclEventContent :=
  slots ← struct_fields [("allow_ip_literals", true); ("allow", true); ("deny", true)] j;
  match slots with
  | [ip; al; dn] =>
      ip ← field_default true de_bool ip;
      al ← field_default [] (de_vec de_str) al;
      dn ← field_default [] (de_vec de_str) dn;
      Some {| allow_ip_literals := ip; allow := al; deny := dn |}
  | _ => None
  end.

Definition is_ip_literal (server_name : string) : bool :=
  match Ipv6.read_ipv4 (server_name_host server_name) with Some (_, EmptyString) => true | _ => false end
  || str_starts_with "[" server_name.

Definition is_allowed (acl : RoomServerAclEventContent) (server_name : string) : bool :=
  if negb (allow_ip_literals acl) && is_ip_literal server_name then false
  else
    let host := server_name_host server_name in
    forallb (fun d => negb (wild_matches d host)) (deny acl)
    && existsb (fun a => wild_matches a host) (allow acl).

Definition acl_check (server_name room_id : string) : Db unit :=
  acl_event ← st_try (get_room_state room_id "m.room.server_acl" EmptyString);
  match acl_event with
  | Err _ => mret tt
  | Ok acl_event =>
      match de_server_acl (content (inner acl_event)) with
      | None => mret tt
      | Some acl =>
          match allow acl with
          | [] => mret tt
          | _ => if is_allowed acl server_name then mret tt else st_fail MatrixForbidden
          end
      end
  end.

Definition check_room_id (room : string) (p : PduEvent) : Db unit :=
  if bool_decide (room_id p <> room) then st_fail MatrixInvalidParam else mret tt.

(** ** Redactions: [timeline::redact_pdu] *)

Definition redact_pdu (event_id : string) (reason : PduEvent) : Db unit :=
  p ← st_try (get_pdu event_id);
  match p with
  | Err e => if is_not_found e then mret tt else st_fail e
  | Ok p =>
      redacted ← st_some (pdu_redact reason (inner p)) AppInternal;
      redacted_json ← st_some (to_canonical_object (pdu_to_value redacted)) SerdeJson;
      _ ← replace_pdu event_id redacted_json;
      _ ← upd_rows (alter row_redacted event_id);
      call (DeleteSearch event_id)
  end.
End store.
