(* ===== verification/AppendPdu.v ===== *)
(** * Adding an event to a room: [timeline::append_pdu] of
      [crates/server/src/room/timeline.rs]

    The event was stored as an outlier; [append_pdu] updates the extremities, records
    relations, computes push actions, applies redactions and memberships, and then
    stores the final JSON, takes the event out of the outliers and makes it part of
    the room's state.  No transaction spans these steps: what is written before an
    error stays. *)
From S2P Require Import Prelude RustStr BTree Identifiers RoomVersion Json Canonical Signatures Events Membership StateRes Effects StateFrames AuthChain Push RoomPowerLevels EventStore.
Open Scope string_scope.

(** The settings read here. *)
Record Config := {
  server_name : string;
  server_user_id : string;
  emergency_password : bool          (* whether one is set *)
}.

(** ** JSON forms of an event *)

Definition event_members (p : PduEvent) : list (string * json) :=
  ([("content", content p); ("type", JStr (event_type p)); ("event_id", JStr (event_id p));
    ("sender", JStr (sender p)); ("origin_server_ts", JNum (NumInt (origin_server_ts p)))]
   ++ match unsigned p with [] => [] | u => [("unsigned", JObj u)] end
   ++ opt_member "state_key" JStr (state_key p)
   ++ opt_member "redacts" JStr (redacts p))%list.
Definition to_sync_room_event (p : PduEvent) : json := JObj (bt_from_list (event_members p)).
Definition to_message_like_event (p : PduEvent) : json :=
  JObj (bt_from_list (("room_id", JStr (room_id p)) :: event_members p)).

(** ** Relations *)

Inductive RelationTarget := RelReply (id : string) | RelThread (id : string) | RelOther.

Definition de_in_reply_to : json -> option string :=
  struct1 "event_id" false (field_required de_event_id).

(** [Thread], tagged [m.thread], and its unstable form. *)
Definition de_thread (flag : string) (j : json) : option string :=
  match j with
  | JObj _ =>
      slots ← struct_fields [("event_id", false); ("m.in_reply_to", false); (flag, true)] j;
      match slots with
      | [id; in_reply_to; falling_back] =>
          id ← field_required de_event_id id;
          _ ← field_option de_in_reply_to in_reply_to;
          _ ← field_default false de_bool falling_back;
          Some id
      | _ => None
      end
  | _ => None
  end.

(** [ExtractRelatesTo]: the relations [append_pdu] handles; the others, and contents
    that do not parse, are left to [ExtractRelatesToEventId]. *)
Definition relation_target (content : json) : RelationTarget :=
  default RelOther (
    relates_to ← struct1 "m.relates_to" false (field_required Some) content;
    slots ← struct_fields [("m.in_reply_to", false); ("rel_type", false)] relates_to;
    match slots with
    | [in_reply_to; rel_type] =>
        in_reply_to ← field_option de_in_reply_to in_reply_to;
        rel_type ← field_option de_str rel_type;
        match in_reply_to, rel_type with
        | _, Some "m.thread" => RelThread <$> de_thread "is_falling_back" relates_to
        | _, Some "io.element.thread" => RelThread <$> de_thread "io.element.show_reply" relates_to
        | _, Some "m.annotation" | _, Some "m.reference" | _, Some "m.replace" => None
        | Some id, _ => Some (RelReply id)
        | None, _ => None
        end
    | _ => None
    end).

(** [ExtractRelatesToEventId] *)
Definition relates_to_event_id (content : json) : option string :=
  struct1 "m.relates_to" false
    (field_required (struct1 "event_id" false (field_required de_event_id))) content.

Section append.
Context {U : Unicode} {C : Crypto} {HO : HashOrder} {WM : WildMatch}.
Context {LF : LruCache Z (list FrameInfo)} {LA : LruCache (list Z) (list Z)}.
Context {O : Type} {SV : Services O}.
Context (conf : Config).
#[local] Abbreviation Db := (St (Store (O := O))).

Definition add_relation (room_id event_id child_id : string) (rel_type : option string) : Db unit :=
  '(event_sn, event_ty) ← get_event_sn_and_ty event_id;
  '(child_sn, child_ty) ← get_event_sn_and_ty child_id;
  call (AddEventRelation room_id event_id event_sn event_ty child_id child_sn child_ty rel_type).

Definition get_pdu_and_data (event_id : string) : Db (StoredPdu * CanonicalJsonObject) := fun s =>
  match load_pdu s event_id with
  | Err e => (Fail e, s)
  | Ok p => match datas s !! event_id ≫= (fun d => de_canonical_object (ed_json d)) with
            | Some o => (Done (p, o), s)
            | None => (Fail AppInternal, s)
            end
  end.

(** The count and the participation flag of the thread bundled with its root, if there
    is one. *)
Definition bundled_thread (unsigned : CanonicalJsonObject) : option (Z * bool) :=
  relations ← bt_get "m.relations" unsigned ≫= as_object;
  thread ← bt_get "m.thread" relations;
  slots ← struct_fields [("latest_event", false); ("count", false); ("current_user_participated", false)]
            (into_json thread);
  match slots with
  | [latest; count; participated] =>
      _ ← latest;
      count ← field_required de_u64 count;
      participated ← field_required de_bool participated;
      Some (count, participated)
  | _ => None
  end.

(** [thread::add_to_thread] *)
Definition add_to_thread (thread_id : string) (p : StoredPdu) : Db unit :=
  '(root_pdu, root_pdu_json) ← get_pdu_and_data thread_id;
  _ ← (match default (CObject []) (bt_get "unsigned" root_pdu_json) with
       | CObject unsigned =>
           let '(count, participated) :=
             match bundled_thread unsigned with
             | Some (count, participated) => ((count + 1)%Z, participated)
             | None => (1%Z, true)
             end in
           thread ← st_expect (ok (try_from (JObj [
             ("count", JNum (NumInt count)); ("current_user_participated", JBool participated);
             ("latest_event", to_message_like_event p)])));
           replace_pdu thread_id
             (bt_insert "unsigned"
                (CObject (bt_insert "m.relations" (CObject [("m.thread", thread)]) unsigned))
                root_pdu_json)
       | _ => mret tt
       end);
  _ ← call (SetEventThreadId (event_id p) thread_id);
  call (UpsertThread (event_id (inner root_pdu)) (sn root_pdu) (room_id (inner root_pdu))
          (event_id p) (sn p)).

Definition record_relations (p : StoredPdu) : Db unit :=
  match relation_target (content p) with
  | RelReply id => add_relation (room_id p) id (event_id p) None
  | RelThread id =>
      _ ← add_relation (room_id p) id (event_id p) (Some "m.thread");
      add_to_thread id p
  | RelOther =>
      match relates_to_event_id (content p) with
      | Some id => add_relation (room_id p) id (event_id p) None
      | None => mret tt
      end
  end.

(** ** [unsigned] of a state event *)

Definition add_prev_content (p : StoredPdu) (pdu_json : CanonicalJsonObject) : Db CanonicalJsonObject :=
  match state_key p with
  | None => mret pdu_json
  | Some key =>
      match default (CObject []) (bt_get "unsigned" pdu_json) with
      | CObject unsigned =>
          frame ← st_try (on_frames (get_pdu_frame_id (event_id p)));
          prev ← (match frame with
                  | Ok state_frame_id =>
                      prev ← st_try (get_frame_state (state_frame_id - 1) (event_type p) key);
                      mret (ok prev)
                  | Err _ => mret None
                  end);
          let unsigned :=
            match prev ≫= (fun prev => pair prev <$> to_canonical_object (content (inner prev))) with
            | Some (prev, prev_content) =>
                bt_insert "replaces_state" (CString (event_id (inner prev)))
                  (bt_insert "prev_sender" (CString (sender (inner prev)))
                     (bt_insert "prev_content" (CObject prev_content) unsigned))
            | None => unsigned
            end in
          mret (bt_insert "unsigned" (CObject unsigned) pdu_json)
      | _ => mret pdu_json
      end
  end.

(** ** Push *)

Definition is_notify (a : Action) : bool := match a with Notify => true | _ => false end.
Definition is_highlight_yes (a : Action) : bool :=
  match a with SetTweak (Highlight HighlightYes) => true | _ => false end.

(** The body of the loop over the room's local users: whom to notify, whom to
    highlight. *)
Definition push_for_user (p : StoredPdu) (power_levels : option RoomPowerLevels) (user_id : string)
    (acc : list string * list string) : Db (list string * list string) :=
  if user_id =? sender p then mret acc
  else
    actions ← call (GetActions user_id power_levels (to_sync_room_event p) (room_id p));
    let actions := match power_levels with Some _ => actions | None => [] end in
    let notify := existsb is_notify actions in
    let highlight := existsb is_highlight_yes actions in
    _ ← st_try (call (UpsertPushAction (room_id p) (event_id p) user_id notify highlight));
    push_keys ← call (GetPushKeys user_id);
    _ ← st_iter (fun push_key => call (SendPushPdu (event_id p) user_id push_key)) push_keys;
    mret ((if notify then acc.1 ++ [user_id] else acc.1)%list,
          (if highlight then acc.2 ++ [user_id] else acc.2)%list).
Fixpoint push_for_users (p : StoredPdu) (power_levels : option RoomPowerLevels) (users : list string)
    (acc : list string * list string) : Db (list string * list string) :=
  match users with
  | [] => mret acc
  | user_id :: users =>
      acc ← push_for_user p power_levels user_id acc;
      push_for_users p power_levels users acc
  end.

(** ** Stripped state *)

(** [PduEvent::to_stripped_state_event] *)
Definition to_stripped_state_event (p : PduEvent) : Db json :=
  full ← (if event_type p =? "m.room.create" then
            version ← st_try (get_version (room_id p));
            mret (match ok version ≫= room_version_rules with
                  | Some r => r.(RoomVersionRules.authorization).(AuthorizationRules.room_create_event_id_as_room_id)
                  | None => false
                  end)
          else mret false);
  mret (if full : bool then pdu_to_value p
        else JObj [("content", content p); ("sender", JStr (sender p));
                   ("state_key", match state_key p with Some k => JStr k | None => JNull end);
                   ("type", JStr (event_type p))]).

Definition summary_cells (sender : string) : list (string * string) :=
  [("m.room.create", EmptyString); ("m.room.join_rules", EmptyString);
   ("m.room.canonical_alias", EmptyString); ("m.room.name", EmptyString);
   ("m.room.avatar", EmptyString); ("m.room.member", sender);
   ("m.room.encryption", EmptyString); ("m.room.topic", EmptyString)].

(** [state::summary_stripped] *)
Definition summary_stripped (p : PduEvent) : Db (list json) :=
  cells ← st_map (fun '(ty, key) =>
            e ← st_try (get_room_state (room_id p) ty key);
            match e with
            | Ok e => j ← to_stripped_state_event (inner e); mret [j]
            | Err _ => mret []
            end) (summary_cells (sender p));
  own ← to_stripped_state_event p;
  mret (concat cells ++ [own])%list.

(** ** By event type *)

Definition on_member (p : StoredPdu) (key : string) : Db unit :=
  _ ← st_expect (if is_ok (user_id_validate key) then Some tt else None);
  membership ← st_some (ok (RoomMember.membership (content p))) AppInternal;
  last_state ← (match membership with
                | MInvite | MKnock => l ← summary_stripped p; mret (Some l)
                | _ => mret None
                end);
  _ ← (if bool_decide (membership = MJoin)
       then _ ← st_try (call (PingPresence (sender p))); mret tt else mret tt);
  _ ← call (UpdateMembership (event_id p) (sn p) (room_id p) key membership (sender p) last_state);
  call (ClearAppserviceCache (room_id p)).

Definition on_message (p : StoredPdu) : Db unit :=
  body ← st_some (struct1 "body" false (field_option de_str) (content p)) AppInternal;
  match body with
  | None => mret tt
  | Some body =>
      admin_room ← st_try (call (ResolveLocalAlias ("#admins:" +:+ server_name conf)));
      match admin_room with
      | Err _ => mret tt
      | Ok admin_room =>
          let server_user := server_user_id conf in
          let to_palpo := str_starts_with (server_user +:+ ": ") body
                          || str_starts_with (server_user +:+ " ") body
                          || (body =? server_user +:+ ":") || (body =? server_user) in
          let from_palpo := (sender p =? server_user) && negb (emergency_password conf) in
          if to_palpo && negb from_palpo && (admin_room =? room_id p)
          then _ ← st_try (call (AdminCommand body (event_id p))); mret tt
          else mret tt
      end
  end.

Definition on_tombstone (p : StoredPdu) : Db unit :=
  replacement ← st_some (struct1 "replacement_room" false (field_option de_room_id) (content p)) AppInternal;
  match replacement with
  | None => mret tt
  | Some new_room_id =>
      users ← call (LocalUsers (room_id p));
      st_iter (fun user_id =>
        _ ← call (CopyRoomTagsAndDirect user_id (room_id p) new_room_id);
        call (CopyPushRules user_id (room_id p) new_room_id)) users
  end.

Definition by_event_type (p : StoredPdu) : Db unit :=
  if event_type p =? "m.room.redaction" then
    match redacts p with Some redact_id => redact_pdu redact_id p | None => mret tt end
  else if event_type p =? "m.space.child" then
    match state_key p with Some _ => call (ClearSpaceCache (room_id p)) | None => mret tt end
  else if event_type p =? "m.room.member" then
    match state_key p with Some key => on_member p key | None => mret tt end
  else if event_type p =? "m.room.message" then on_message p
  else if event_type p =? "m.room.tombstone" then on_tombstone p
  else mret tt.

(** ** Application services and peeking servers *)

(** [UserId::parse_with_server_name] *)
Definition user_id_with_server_name (id server : string) : option string :=
  if str_starts_with "@" id then (if is_ok (user_id_validate id) then Some id else None)
  else if is_ok (localpart_is_fully_conforming id) then Some ("@" +:+ id +:+ ":" +:+ server) else None.
(** A local user of the appservice's namespace. *)
Definition is_local_match (a : Appservice) (user_id : string) : bool :=
  match user_id_server_name user_id, user_id_localpart user_id with
  | Done server, Done localpart =>
      (server =? server_name conf) && (as_users a user_id || (as_sender_localpart a =? localpart))
  | _, _ => false
  end.
(** The user a membership event is about. *)
Definition target_user (p : PduEvent) : option string :=
  if event_type p =? "m.room.member"
  then key ← state_key p; if is_ok (user_id_validate key) then Some key else None
  else None.

(** [RoomCanonicalAliasEventContent]: the alias and the alternative ones. *)
Definition de_canonical_aliases (content : json) : option (list string) :=
  slots ← struct_fields [("alias", false); ("alt_aliases", false)] content;
  match slots with
  | [alias; alt] =>
      alias ← field_default None (fun j =>
                match j with
                | JNull => Some None
                | JStr EmptyString => Some None
                | j => Some <$> de_valid room_alias_id_validate j
                end) alias;
      alt ← field_default [] (de_vec (de_valid room_alias_id_validate)) alt;
      Some (match alias with Some a => a :: alt | None => alt end)
  | _ => None
  end.
Definition matching_aliases (a : Appservice) (room : string) : Db bool :=
  aliases ← st_try (call (LocalAliases room));
  if existsb (as_aliases a) (default [] (ok aliases)) then mret true
  else
    e ← st_try (get_room_state room "m.room.canonical_alias" EmptyString);
    mret (match e with
          | Ok e => existsb (as_aliases a) (default [] (de_canonical_aliases (content (inner e))))
          | Err _ => false
          end).

(** Whether an application service is sent the event. *)
Definition appservice_wants (p : StoredPdu) (a : Appservice) : Db bool :=
  in_room ← call (AppserviceInRoom (room_id p) (as_id a));
  if (in_room : bool) then mret true
  else
    let sender_uid := user_id_with_server_name (as_sender_localpart a) (server_name conf) in
    if match target_user p, sender_uid with Some u, Some s => u =? s | _, _ => false end then mret true
    else
      by_alias ← matching_aliases a (room_id p);
      mret (by_alias || as_rooms a (room_id p) || is_local_match a (sender p)
            || match target_user p with Some u => is_local_match a u | None => false end).
Definition forward_to_appservice (p : StoredPdu) (a : Appservice) : Db unit :=
  wanted ← appservice_wants p a;
  if (wanted : bool) then call (SendPduAppservice (as_id a) (event_id p)) else mret tt.

(** Servers that peek into a world-readable room and that its ACL does not ban. *)
Definition forward_to_peekers (p : StoredPdu) : Db unit :=
  servers ← call (ActivePeekingServers (room_id p));
  match servers with
  | [] => mret tt
  | _ =>
      readable ← is_world_readable (room_id p);
      if (readable : bool) then
        checked ← st_map (fun server =>
                    r ← st_try (acl_check server (room_id p)); mret (server, is_ok r)) servers;
        match fst <$> filter (fun x => x.2 = true) checked with
        | [] => mret tt
        | allowed => _ ← st_try (call (SendPduServers allowed (event_id p))); mret tt
        end
      else mret tt
  end.

(** ** [append_pdu] *)

(** The forward extremities once the event is in the room. *)
Definition update_forward_extremities (p : StoredPdu) : Db unit :=
  extremities ← get_forward_extremities (room_id p);
  let leaves := filter (fun id => id ∉ prev_events p) extremities in
  referenced ← st_gets (fun s => bool_decide (map_Exists (fun e _ => e.2 = event_id p) (event_edges s)));
  let leaves : gset string :=
    list_to_set leaves ∪ (if (referenced : bool) then ∅ else {[ event_id p ]}) in
  set_forward_extremities (room_id p) (bset_iter leaves).

(** Taking the event into the timeline: the final JSON, the flag and the edges. *)
Definition enter_timeline (p : StoredPdu) (pdu_json : CanonicalJsonObject) : Db unit :=
  _ ← save_data (event_id p) (sn p) (room_id p) (into_json (CObject pdu_json));
  _ ← upd_rows (alter (row_outlier false) (event_id p));
  st_iter (fun prev_id => upd_edges (fun e => e ∪ {[ (event_id p, prev_id) := room_id p ]})) (prev_events p).

Definition append_pdu (p : StoredPdu) (pdu_json : CanonicalJsonObject) : Db unit :=
  pdu_json ← add_prev_content p pdu_json;
  _ ← update_forward_extremities p;
  _ ← update_backward_extremities p;
  _ ← record_relations p;
  power_levels ← st_try (get_power_levels (room_id p));
  users ← call (OurRealUsers (room_id p));
  '(notifies, highlights) ← push_for_users p (ok power_levels) users ([], []);
  _ ← call (RefreshNotifySummary (sender p) (room_id p));
  _ ← by_event_type p;
  _ ← enter_timeline p pdu_json;
  _ ← call (SaveSearch (event_id p) pdu_json);
  _ ← on_frames (append_pdu_state (sn_pdu p));
  _ ← (match state_key p with
       | Some _ => _ ← st_try (call (UpdateCurrents (room_id p))); mret tt
       | None => mret tt
       end);
  _ ← st_try (call (IncrementNotificationCounts (event_id p) notifies highlights));
  appservices ← call AllAppservices;
  _ ← st_iter (forward_to_appservice p) appservices;
  forward_to_peekers p.
End append.
