(* ===== verification/Incoming.v ===== *)
(** * Events from other servers: [crates/server/src/event/handler.rs],
      [event/outlier.rs], [event/fetching.rs] and [event/resolver.rs]

    An incoming event is verified and stored as an outlier; what it refers to and is
    not known is fetched; the state at the event is resolved from its predecessors and
    the event is authorized against it and against the current state; then it enters
    the timeline and, if it is a state event, the room's state is resolved again.  The
    closures that [event_auth] and [state::resolve] are given only read: they are
    functions of the store at the call (a field that [ensure_field_id] would add for a
    key nobody has is looked up as absent, which is the same answer). *)
From S2P Require Import Prelude RustStr BTree Identifiers RoomVersion Json Canonical Redaction Signatures Events Membership EventAuth TopoSort StateRes Effects Calls StateFrames AuthChain RoomPowerLevels EventStore AppendPdu.
Open Scope string_scope.

(** [str::ends_with] *)
Definition str_ends_with (suffix s : string) : bool := str_starts_with (str_rev suffix) (str_rev s).

(** A room state by field id, [IndexMap<i64, OwnedEventId>]. *)
Abbreviation FieldState := (list (Z * string)).

Record OutlierPdu := {
  op_pdu : PduEvent;
  op_json_data : CanonicalJsonObject;
  op_soft_failed : bool;
  op_remote_server : string;
  op_room_id : string;
  op_room_version : RoomVersionId;
  op_event_sn : option Z
}.
Definition op_with_soft (b : bool) (o : OutlierPdu) : OutlierPdu :=
  {| op_pdu := op_pdu o; op_json_data := op_json_data o; op_soft_failed := b;
     op_remote_server := op_remote_server o; op_room_id := op_room_id o;
     op_room_version := op_room_version o; op_event_sn := op_event_sn o |}.
Definition op_reject (o : OutlierPdu) : OutlierPdu :=
  {| op_pdu := set_rejected true (op_pdu o); op_json_data := op_json_data o;
     op_soft_failed := op_soft_failed o; op_remote_server := op_remote_server o;
     op_room_id := op_room_id o; op_room_version := op_room_version o;
     op_event_sn := op_event_sn o |}.

Section incoming.
Context {U : Unicode} {C : Crypto} {HO : HashOrder} {WM : WildMatch}.
Context {LF : LruCache Z (list FrameInfo)} {LA : LruCache (list Z) (list Z)}.
Context {O : Type} {SV : Services O}.
Context (conf : Config).
#[local] Abbreviation Db := (St (Store (O := O))).

(** ** State resolution over the store: [event/resolver.rs] *)

Definition fetch_pdu (s : Store (O := O)) : FetchEvent := fun id =>
  match load_pdu s id with Ok p => Ok (base (inner p)) | Err _ => Err Other end.

(** The auth and previous events of the listed events. *)
Definition subgraph_of (s : Store (O := O)) (map : StateMap (list string)) : gset string :=
  list_to_set (concat ((fun id => match load_pdu s id with
                                  | Ok p => auth_events p ++ prev_events p
                                  | Err _ => [] end)%list <$> concat (snd <$> iter_map map))).

(** The walks along power-levels events meet an event at most once. *)
Definition run_resolve (version_rules : RoomVersionRules.t)
    (fetch_subgraph : Store -> StateMap (list string) -> option (gset string))
    (fork_states : list (StateMap string)) (auth_chain_sets : list (list string)) :
    Db (result StateError (StateMap string)) := fun s =>
  match resolve (S (size (rows s))) version_rules.(RoomVersionRules.authorization)
          (default StateResolutionV2Rules.V2_0 (v2_rules version_rules.(RoomVersionRules.state_resolution)))
          (fetch_pdu s) (fetch_subgraph s) fork_states (list_to_set <$> auth_chain_sets) with
  | Done r => (Done (Ok r), s)
  | Fail e => (Done (Err e), s)
  | Panic => (Panic, s)
  | OutOfFuel => (OutOfFuel, s)
  end.

(** A field state as a [StateMap]; fields without a row are skipped. *)
Fixpoint to_state_map (state : FieldState) (acc : StateMap string) : Db (StateMap string) :=
  match state with
  | [] => mret acc
  | (k, event_id) :: state =>
      field ← st_try (on_frames (get_field k));
      to_state_map state (match field with Ok key => <[key := event_id]> acc | Err _ => acc end)
  end.

Definition resolve_state (room_id : string) (room_version_id : RoomVersionId)
    (incoming_state : FieldState) : Db CompressedState :=
  frame ← st_try (on_frames (get_room_frame_id room_id None));
  current_state_ids ← (match frame with
                       | Ok f => on_frames (get_full_state_ids f)
                       | Err _ => mret []
                       end);
  let fork_states := [current_state_ids; incoming_state] in
  auth_chain_sets ← st_map (fun state => on_chains (get_auth_chain_ids room_id (snd <$> state))) fork_states;
  fork_states ← st_map (fun state => to_state_map state ∅) fork_states;
  version_rules ← of_res (get_version_rules room_version_id);
  r ← run_resolve version_rules (fun s map =>
        Some (filter (fun id => match rows s !! id with
                                | Some r => bool_decide (is_Some (er_state_key r)) | None => false end = true)
                (subgraph_of s map))) fork_states auth_chain_sets;
  match r with
  | Err _ => st_fail AppInternal
  | Ok state =>
      entries ← st_map (fun '((event_type, state_key), event_id) =>
                  state_key_id ← on_frames (ensure_field_id event_type state_key);
                  event_sn ← ensure_event_sn room_id event_id;
                  mret (compress_event room_id state_key_id event_sn)) (iter_map state);
      mret (list_to_set entries)
  end.

(** The leaf states of the predecessors: [None] when one of them cannot be
    reconstructed; the flag tells whether a rejected one was skipped.  [rec] resolves
    the state before a predecessor that has no snapshot, [remaining] is the work left. *)
Fixpoint leaf_states (rec : PduEvent -> nat -> Db (option FieldState * nat))
    (prev_ids : list string) (remaining : nat) (leaves : list FieldState) (had_rejected : bool) :
    Db (option (list FieldState * bool) * nat) :=
  match prev_ids with
  | [] => mret (Some (leaves, had_rejected), remaining)
  | prev_id :: prev_ids =>
      prev ← st_try (get_pdu prev_id);
      match prev with
      | Err _ => mret (None, remaining)
      | Ok prev_event =>
          if rejected (inner prev_event) then leaf_states rec prev_ids remaining leaves true
          else
            before ← st_try (on_frames (get_pdu_before_frame_id prev_id));
            '(leaf, remaining) ← (match before with
              | Ok frame_id => st ← on_frames (get_full_state_ids frame_id); mret (Some st, remaining)
              | Err e =>
                  if negb (is_not_found e) then st_fail e
                  else match state_key (inner prev_event) with
                  | None =>
                      frame ← st_try (on_frames (get_pdu_frame_id prev_id));
                      match frame with
                      | Ok frame_id =>
                          st ← on_frames (get_full_state_ids frame_id); mret (Some st, remaining)
                      | Err e => if is_not_found e then mret (None, remaining) else st_fail e
                      end
                  | Some _ => rec (inner prev_event) remaining
                  end
              end);
            match leaf with
            | None => mret (None, remaining)
            | Some leaf =>
                leaf ← (match state_key (inner prev_event) with
                        | Some key =>
                            f ← on_frames (ensure_field_id (event_type (inner prev_event)) key);
                            mret (index_insert f (event_id (inner prev_event)) leaf)
                        | None => mret leaf
                        end);
                leaf_states rec prev_ids remaining (leaves ++ [leaf])%list had_rejected
            end
      end
  end.

(** The forks of the leaf states and the auth chains of their events. *)
Fixpoint fork_of_leaves (room_id : string) (leaves : list FieldState) :
    Db (list (StateMap string) * list (list string)) :=
  match leaves with
  | [] => mret ([], [])
  | leaf :: leaves =>
      state ← to_state_map leaf ∅;
      chains ← st_map (fun id => on_chains (get_auth_chain_ids room_id [id])) (snd <$> leaf);
      '(forks, rest) ← fork_of_leaves room_id leaves;
      mret (state :: forks, (chains ++ rest)%list)
  end.

Definition resolve_leaves (room_id : string) (version_rules : RoomVersionRules.t)
    (leaves : list FieldState) : Db (option FieldState) :=
  '(fork_states, auth_chain_sets) ← fork_of_leaves room_id leaves;
  r ← run_resolve version_rules (fun s map => Some (subgraph_of s map)) fork_states auth_chain_sets;
  match r with
  | Err _ => mret None
  | Ok new_state =>
      entries ← st_map (fun '((event_type, state_key), event_id) =>
                  state_key_id ← on_frames (ensure_field_id event_type state_key);
                  mret (state_key_id, event_id)) (iter_map new_state);
      mret (Some (foldl (fun m '(k, v) => index_insert k v m) [] entries))
  end.

(** [resolve_state_at_incoming_inner] and [.._impl]: [resolving] holds the events on the
    path, [remaining] the events that may still be visited; [stuck] is what it does
    without fuel. *)
Fixpoint resolve_inner (stuck : Db (option FieldState * nat)) (fuel : nat) (version_rules : RoomVersionRules.t) (p : PduEvent)
    (resolving : gset string) (remaining : nat) : Db (option FieldState * nat) :=
  match fuel with
  | 0%nat => stuck
  | S fuel =>
      if Nat.eqb remaining 0 || bool_decide (event_id p ∈ resolving) then mret (None, remaining)
      else
        '(leaves, remaining) ←
          leaf_states (fun q n => resolve_inner stuck fuel version_rules q ({[ event_id p ]} ∪ resolving) n)
            (prev_events p) (remaining - 1) [] false;
        match leaves with
        | None => mret (None, remaining)
        | Some (leaves, had_rejected) =>
            frame ← (match prev_events p, leaves, had_rejected with
                     | _ :: _, [], true =>
                         f ← st_try (on_frames (get_room_frame_id (room_id p) None)); mret (ok f)
                     | _, _, _ => mret None
                     end);
            match frame with
            | Some frame_id =>
                st ← on_frames (get_full_state_ids frame_id); mret (Some st, remaining)
            | None => r ← resolve_leaves (room_id p) version_rules leaves; mret (r, remaining)
            end
        end
  end.

Definition MAX_RESOLVED_EVENTS : nat := 256.
Definition resolve_state_at_incoming (p : PduEvent) (version_rules : RoomVersionRules.t) :
    Db (option FieldState) :=
  '(r, _) ← resolve_inner st_out_of_fuel (S MAX_RESOLVED_EVENTS) version_rules p ∅ MAX_RESOLVED_EVENTS;
  mret r.

(** ** Authorization: [handler::auth_check] *)

Definition state_get (k : Z) (state : FieldState) : option string :=
  snd <$> List.find (fun kv => Z.eqb kv.1 k) state.

(** The state the first check reads: the state at the event, then the current state. *)
Definition fetch_state_at (s : Store (O := O)) (room : string) (state_at : FieldState) : FetchState :=
  fun ty key =>
    match room_state_fields (frames s) !! (ty, key) ≫= (fun f => state_get f state_at) with
    | Some event_id => fetch_pdu s event_id
    | None =>
        match fst (get_room_state room ty key s) with
        | Done p => Ok (base (inner p))
        | _ => Err Other
        end
    end.

(** The state the second check reads: the auth events of the current state. *)
Definition fetch_auth_event (s : Store (O := O)) (room : string) (rules : AuthorizationRules.t)
    (auth_events : gmap (string * string) StoredPdu) : FetchState :=
  fun ty key =>
    match auth_events !! (ty, key) with
    | Some p => Ok (base (inner p))
    | None =>
        if rules.(AuthorizationRules.room_create_event_id_as_room_id) && (ty =? "m.room.create") then
          match fst (get_room_state room "m.room.create" EmptyString s) with
          | Done p => if bool_decide (room_id (inner p) <> room) then Err Other else Ok (base (inner p))
          | _ => Err Other
          end
        else Err Other
    end.

(** [event_auth::auth_check] on the store. *)
Definition run_auth_check (rules : AuthorizationRules.t) (p : PduEvent)
    (fetch_state : Store -> FetchState) : Db unit := fun s =>
  of_core (auth_check rules p (fetch_pdu s) (fetch_state s)) state_error s.

Definition check_auth (p : PduEvent) (version_rules : RoomVersionRules.t)
    (state_at_incoming_event : option FieldState) : Db unit :=
  let auth_rules := version_rules.(RoomVersionRules.authorization) in
  state_at ← (match state_at_incoming_event with
              | Some st => mret st
              | None =>
                  r ← resolve_state_at_incoming p version_rules;
                  st_some r AppInternal
              end);
  _ ← (match state_at with
       | [] => mret tt
       | _ => run_auth_check auth_rules p (fun s => fetch_state_at s (room_id p) state_at)
       end);
  auth_events ← get_auth_events (room_id p) (event_type p) (sender p) (state_key p) (content p) auth_rules;
  run_auth_check auth_rules p (fun s => fetch_auth_event s (room_id p) auth_rules auth_events).

(** ** Storing outliers *)

Definition save_to_database (o : OutlierPdu) (backfill : bool) : Db (StoredPdu * CanonicalJsonObject) :=
  match op_event_sn o with
  | Some event_sn =>
      mret ({| inner := op_pdu o; sn := event_sn; is_outlier := true;
               soft_failed := op_soft_failed o; is_backfill := backfill |}, op_json_data o)
  | None =>
      event_sn ← ensure_event_sn (op_room_id o) (event_id (op_pdu o));
      db_event ← of_res (new_db_event (event_id (op_pdu o)) event_sn
                   (into_json (CObject (op_json_data o))) backfill (Some (op_room_id o)));
      let r := rejected (op_pdu o) in
      _ ← save_row (event_id (op_pdu o)) (row_flags true (op_soft_failed o) r r db_event);
      _ ← save_data (event_id (op_pdu o)) event_sn (room_id (op_pdu o)) (into_json (CObject (op_json_data o)));
      let p := {| inner := op_pdu o; sn := event_sn; is_outlier := true;
                  soft_failed := op_soft_failed o; is_backfill := backfill |} in
      _ ← update_backward_extremities p;
      mret (p, op_json_data o)
  end.

(** [value["origin_server_ts"]] is a time after the epoch. *)
Definition check_origin_server_ts (value : CanonicalJsonObject) : result AppError unit :=
  ts ← ok_or (bt_get "origin_server_ts" value) MatrixMissingParam;
  match ts with
  | CInteger z => if (0 <=? z)%Z then Ok tt else Err MatrixInvalidParam
  | _ => Err MatrixInvalidParam
  end.

(** The JSON an event is stored with: redacted when its content hash does not match. *)
Definition verified_value (event_id : string) (room_version : RoomVersionId)
    (version_rules : RoomVersionRules.t) (value : CanonicalJsonObject) : Db CanonicalJsonObject :=
  verified ← st_try (server_verify_event value room_version);
  match verified with
  | Ok VerifiedSignatures =>
      obj ← of_res (map_err (fun _ => MatrixInvalidParam)
              (redact value version_rules.(RoomVersionRules.redaction) None));
      known ← get_pdu_json event_id;
      match known with Some _ => st_fail MatrixInvalidParam | None => mret obj end
  | Ok VerifiedAll => mret value
  | Err _ => st_fail MatrixInvalidParam
  end.

(** The event is already in the timeline: what is stored is used. *)
Definition known_outlier (remote_server event_id : string) (room_version : RoomVersionId) :
    Db (option OutlierPdu) := st_gets (fun s =>
  data ← datas s !! event_id;
  val ← de_canonical_object (ed_json data);
  p ← ok (load_pdu s event_id);
  if negb (soft_failed p) && negb (is_outlier p) && negb (rejected (inner p)) then
    Some {| op_pdu := inner p; op_json_data := val; op_soft_failed := false;
            op_remote_server := remote_server; op_room_id := ed_room_id data;
            op_room_version := room_version; op_event_sn := Some (ed_sn data) |}
  else None).

(** The verdict on a parsed event: soft-failed when something it refers to is missing or
    it cannot be checked, rejected when an auth event is or a rule forbids it. *)
Definition judge_outlier (room : string) (version_rules : RoomVersionRules.t)
    (outlier : PduEvent -> bool -> OutlierPdu) (incoming_pdu : PduEvent) : Db (option OutlierPdu) :=
  server_joined ← call (IsServerJoined (server_name conf) room);
  if negb server_joined then
    mret (if bool_decide (is_Some (state_key incoming_pdu)) && (event_type incoming_pdu =? "m.room.member")
          then Some (outlier incoming_pdu false) else None)
  else
    '(_, missing_prev) ← get_may_missing_pdus room (prev_events incoming_pdu);
    '(auth_pdus, missing_auth) ← get_may_missing_pdus room (auth_events incoming_pdu);
    let soft_failed := match missing_prev, missing_auth with [], [] => false | _, _ => true end in
    let any_rejected := existsb (fun p => rejected (inner p)) auth_pdus in
    let by_key : gmap (string * string) StoredPdu :=
      foldl (fun m p => <[(event_type (inner p), default EmptyString (state_key (inner p))) := p]> m)
        ∅ auth_pdus in
    let wrong_create :=
      negb (match by_key !! ("m.room.create", EmptyString) with Some _ | None => true end) in
    if any_rejected || wrong_create
    then mret (Some (outlier (set_rejected true incoming_pdu) soft_failed))
    else
      r ← st_try (check_auth incoming_pdu version_rules None);
      match r with
      | Err StateForbidden | Err StateAuthEvent =>
          mret (Some (outlier (set_rejected true incoming_pdu) soft_failed))
      | Err _ => mret (Some (outlier incoming_pdu true))
      | Ok _ => mret (Some (outlier incoming_pdu soft_failed))
      end.

Definition process_to_outlier_pdu (remote_server event_id room : string)
    (room_version : RoomVersionId) (value : CanonicalJsonObject) : Db (option OutlierPdu) :=
  known ← known_outlier remote_server event_id room_version;
  match known with
  | Some o => mret (Some o)
  | None =>
      let value := bt_remove "unsigned" value in
      version_rules ← of_res (get_version_rules room_version);
      _ ← of_res (check_origin_server_ts value);
      val ← verified_value event_id room_version version_rules value;
      let val := bt_insert "event_id" (CString event_id) val in
      match pdu_from_json_value room event_id (into_json (CObject val)) with
      | None => st_fail AppInternal
      | Some incoming_pdu =>
          _ ← check_room_id room incoming_pdu;
          judge_outlier room version_rules (fun p soft =>
            {| op_pdu := p; op_json_data := val; op_soft_failed := soft;
               op_remote_server := remote_server; op_room_id := room; op_room_version := room_version;
               op_event_sn := None |}) incoming_pdu
      end
  end.

(** ** Room state: [state::force_state] *)

Definition force_event (room : string) (p : StoredPdu) : Db unit :=
  if event_type p =? "m.room.member" then
    match ok (RoomMember.membership (content p)), state_key p with
    | Some membership, Some key =>
        if is_ok (user_id_validate key)
        then call (UpdateMembership (event_id p) (sn p) room key membership (sender p) None)
        else mret tt
    | _, _ => mret tt
    end
  else if event_type p =? "m.space.child" then call (ClearSpaceCache (room_id p))
  else mret tt.

Definition force_state (room : string) (frame_id : Z) (appended : CompressedState) : Db unit :=
  splits ← st_map (fun e => r ← st_try (on_frames (ce_split e)); mret (snd <$> ok r)) (bset_iter appended);
  _ ← st_iter (fun event_id =>
        p ← st_try (get_pdu event_id);
        match p with Ok p => force_event room p | Err _ => mret tt end) (omap id splits);
  _ ← on_frames (set_room_state room frame_id);
  _ ← st_try (call (UpdateCurrents room));
  mret tt.

(** ** Fetching from the origin: [event/fetching.rs] *)

Definition state_ids_of (room : string) (room_version : RoomVersionId) (pdus : list json) : Db FieldState :=
  entries ← st_map (fun raw =>
              '(event_id, event_val) ← of_res (parse_fetched_pdu room room_version raw);
              match bt_get "type" event_val, bt_get "state_key" event_val with
              | Some ty, Some key =>
                  field_id ← on_frames (ensure_field_id (timeline_event_type (default EmptyString (as_str ty)))
                                          (default EmptyString (as_str key)));
                  mret [(field_id, event_id)]
              | _, _ => mret []
              end) pdus;
  mret (foldl (fun m '(k, v) => index_insert k v m) [] (concat entries)).

(** [fetch_and_process_missing_state]: its [state_events]. *)
Definition fetch_and_process_missing_state (origin room : string) (room_version : RoomVersionId)
    (event_id : string) : Db FieldState :=
  '(pdus, auth_chain) ← call (RoomState origin room event_id);
  state_events ← state_ids_of room room_version pdus;
  _ ← state_ids_of room room_version auth_chain;
  mret state_events.

Definition fetch_and_process_event (remote_server room : string) (room_version : RoomVersionId)
    (event_id : string) : Db unit :=
  body ← call (GetEvent remote_server event_id);
  value ← st_some (de_canonical_object body) SerdeJson;
  o ← process_to_outlier_pdu remote_server event_id room room_version value;
  match o with
  | None => mret tt
  | Some o => _ ← save_to_database o true; mret tt
  end.

(** The events that could not be fetched. *)
Definition fetch_and_process_events (remote_server room : string) (room_version : RoomVersionId)
    (event_ids : list string) : Db (list string) :=
  done ← st_map (fun event_id =>
           r ← st_try (fetch_and_process_event remote_server room room_version event_id);
           mret (event_id, is_ok r)) event_ids;
  let done_ids := fst <$> filter (fun x => x.2 = true) done in
  mret (iter_set (list_to_set (filter (fun id => id ∉ done_ids) event_ids) : gset string)).

Definition fetch_and_process_missing_state_by_ids (remote_server room : string)
    (room_version : RoomVersionId) (event_id : string) : Db (list string) :=
  '(pdu_ids, auth_chain_ids) ← call (StateIds remote_server room event_id);
  let desired_events := (pdu_ids ++ [event_id] ++ auth_chain_ids)%list in
  seen_events ← seen_event_ids room desired_events;
  let missing_events := filter (fun id => id ∉ seen_events) desired_events in
  if Nat.leb (length desired_events) (length missing_events * 10) then
    _ ← fetch_and_process_missing_state remote_server room room_version event_id;
    mret []
  else fetch_and_process_events remote_server room room_version missing_events.

(** The loop of [fetch_and_process_auth_chain]: a failing event ends it. *)
Definition fetch_and_process_auth_chain (remote_server room : string) (room_version : RoomVersionId)
    (event_id : string) : Db unit :=
  auth_chain ← call (EventAuth remote_server room event_id);
  st_iter (fun raw =>
    '(event_id, event_value) ← of_res (parse_fetched_pdu room room_version raw);
    known ← st_try (get_pdu event_id);
    match known with
    | Ok _ => mret tt
    | Err _ =>
        exists_ ← st_gets (fun s => match rows s !! event_id with
                                    | Some r => bool_decide (er_room_id r = room) | None => false end);
        if (exists_ : bool) then mret tt
        else
          o ← process_to_outlier_pdu remote_server event_id room room_version event_value;
          match o with
          | None => mret tt
          | Some o => _ ← save_to_database o true; mret tt
          end
    end) auth_chain.

(** ** Outliers: [event/outlier.rs] *)

Definition any_auth_event_rejected (p : PduEvent) : Db bool :=
  st_gets (fun s => existsb (fun id => match rows s !! id with
                                       | Some r => er_is_rejected r | None => false end) (auth_events p)).

(** The state of every missing predecessor is asked of the origin. *)
Fixpoint fetch_missing_prev (o : OutlierPdu) (ids : list string) : Db OutlierPdu :=
  match ids with
  | [] => mret o
  | id :: ids =>
      r ← st_try (fetch_and_process_missing_state_by_ids (op_remote_server o) (op_room_id o)
                    (op_room_version o) id);
      let '(o, missing_events) :=
        match r with
        | Ok missing_events =>
            (op_with_soft (match missing_events with [] => false | _ => true end) o, missing_events)
        | Err MatrixBadJson => (op_reject o, [])
        | Err _ => (op_with_soft true o, [])
        end in
      _ ← st_iter (fun id =>
            _ ← st_try (fetch_and_process_auth_chain (op_remote_server o) (op_room_id o)
                          (op_room_version o) id); mret tt) missing_events;
      fetch_missing_prev o ids
  end.

Definition process_pulled (o : OutlierPdu) (backfill : bool) : Db (StoredPdu * CanonicalJsonObject) :=
  version_rules ← of_res (get_version_rules (op_room_version o));
  if negb (op_soft_failed o) || rejected (op_pdu o) then save_to_database o backfill
  else
    bad_auth ← any_auth_event_rejected (op_pdu o);
    chain ← (if (bad_auth : bool)
             then st_try (fetch_and_process_auth_chain (op_remote_server o) (op_room_id o)
                            (op_room_version o) (event_id (op_pdu o)))
             else mret (Ok tt));
    match chain with
    | Err HttpStatus => save_to_database (op_with_soft true o) backfill
    | Err _ => save_to_database (op_reject o) backfill
    | Ok _ =>
        '(_, missing_prev) ← get_may_missing_pdus (op_room_id o) (prev_events (op_pdu o));
        o ← fetch_missing_prev o missing_prev;
        o ← (if rejected (op_pdu o) then mret o
             else
               resolved ← resolve_state_at_incoming (op_pdu o) version_rules;
               state_at ← (match resolved, missing_prev with
                           | Some st, _ => mret (Some st)
                           | None, [] =>
                               r ← st_try (fetch_and_process_missing_state (op_remote_server o) (op_room_id o)
                                             (op_room_version o) (event_id (op_pdu o)));
                               mret (ok r)
                           | None, _ => mret None
                           end);
               r ← st_try (check_auth (op_pdu o) version_rules state_at);
               mret (match r with
                     | Err StateForbidden | Err StateAuthEvent => op_reject o
                     | Err _ => op_with_soft true o
                     | Ok _ => op_with_soft false o
                     end));
        save_to_database o backfill
    end.

(** ** Into the timeline: [handler::process_to_timeline_pdu] *)

(** The snapshot of the state at the event is stored before the event leaves the
    outliers. *)
Definition store_state_before (p : StoredPdu) (state_at : FieldState) : Db unit :=
  entries ← st_map (fun '(field_id, event_id) =>
              event_sn ← ensure_event_sn (room_id p) event_id;
              mret (compress_event (room_id p) field_id event_sn)) state_at;
  _ ← on_frames (set_event_state_before (event_id p) (room_id p) (list_to_set entries));
  mret tt.

(** An invite (or another membership of a local user, sent by somebody else) for a room
    the server is not in. *)
Definition is_invite_like (p : PduEvent) : bool :=
  match state_key p with
  | Some key => (event_type p =? "m.room.member") && negb (key =? sender p)
                && str_ends_with (":" +:+ server_name conf) key
  | None => false
  end.

Definition timeline_not_joined (p : StoredPdu) (json_data : CanonicalJsonObject)
    (version_rules : RoomVersionRules.t) : Db unit :=
  if is_invite_like p then
    resolved ← st_try (resolve_state_at_incoming p version_rules);
    let state_at := default [] (mjoin (ok resolved)) in
    _ ← store_state_before p state_at;
    state_key_id ← on_frames (ensure_field_id (event_type p) (default EmptyString (state_key p)));
    delta ← on_frames (save_state (room_id p) {[ compress_event (room_id p) state_key_id (sn p) ]});
    _ ← force_state (room_id p) (di_frame_id delta) (di_appended delta);
    append_pdu conf p json_data
  else mret tt.

Definition soft_fail_pdu (p : StoredPdu) : Db unit :=
  extremities ← get_forward_extremities (room_id p);
  let leaves : gset string := list_to_set (filter (fun id => id ∉ prev_events p) extremities) in
  _ ← set_forward_extremities (room_id p) (bset_iter leaves ++ [event_id p])%list;
  _ ← update_backward_extremities p;
  _ ← mark_event_soft_failed (event_id p);
  st_fail MatrixInvalidParam.

(** The new room state with the event in it. *)
Definition resolve_new_state (p : StoredPdu) (room_version_id : RoomVersionId) (state_at : FieldState) :
    Db unit :=
  match state_key p with
  | None => mret tt
  | Some key =>
      state_key_id ← on_frames (ensure_field_id (event_type p) key);
      new_room_state ← resolve_state (room_id p) room_version_id
                         (index_insert state_key_id (event_id p) state_at);
      delta ← on_frames (save_state (room_id p) new_room_state);
      force_state (room_id p) (di_frame_id delta) (di_appended delta)
  end.

(** The state at the event: resolved from its predecessors, or asked of the origin. *)
Definition state_at_event (p : StoredPdu) (room_version_id : RoomVersionId)
    (version_rules : RoomVersionRules.t) (remote_server : option string) : Db FieldState :=
  resolved ← resolve_state_at_incoming p version_rules;
  match resolved, remote_server with
  | Some st, _ => mret st
  | None, Some remote_server =>
      fetch_and_process_missing_state remote_server (room_id p) room_version_id (event_id p)
  | None, None => st_fail AppInternal
  end.

(** The server is in the room, or a local user peeks into it. *)
Definition server_in_room (room : string) : Db bool :=
  joined ← call (IsServerJoined (server_name conf) room);
  if (joined : bool) then mret true
  else r ← st_try (call (IsPeeked room)); mret (default false (ok r)).

Definition process_to_timeline_pdu (p : StoredPdu) (json_data : CanonicalJsonObject)
    (remote_server : option string) : Db unit :=
  if negb (is_outlier p) then mret tt
  else if rejected p then st_fail AppInternal
  else
    room_version_id ← get_version (room_id p);
    version_rules ← of_res (get_version_rules room_version_id);
    server_joined ← server_in_room (room_id p);
    if negb server_joined then timeline_not_joined p json_data version_rules
    else
      state_at ← state_at_event p room_version_id version_rules remote_server;
      _ ← check_auth p version_rules (Some state_at);
      soft_fail ← (match redacts_id p room_version_id with
                   | None => mret false
                   | Some redact_id =>
                       can ← user_can_redact redact_id (sender p) (room_id p) true; mret (negb can)
                   end);
      _ ← store_state_before p state_at;
      _ ← resolve_new_state p room_version_id state_at;
      if (soft_fail : bool) then soft_fail_pdu p else append_pdu conf p json_data.

(** ** Pulled and incoming events

    The handlers are call trees whose nodes are the calls of [process_to_timeline_pdu]. *)

Record TimelineCall := {
  tc_pdu : StoredPdu;
  tc_json : CanonicalJsonObject;
  tc_remote : option string
}.
Definition enter (c : TimelineCall) : Db unit := process_to_timeline_pdu (tc_pdu c) (tc_json c) (tc_remote c).
#[local] Abbreviation Tree := (tree (Store (O := O)) TimelineCall).
(** [process_to_timeline_pdu], its error as a value *)
Definition try_timeline (p : StoredPdu) (json_data : CanonicalJsonObject) (remote_server : string) :
    Tree (result AppError unit) :=
  Try (Vis {| tc_pdu := p; tc_json := json_data; tc_remote := Some remote_server |}).

(** The sender of an event and the ACL checks that go with it. *)
Definition check_origin (remote_server room : string) (value : CanonicalJsonObject) : Db unit :=
  _ ← acl_check remote_server room;
  sender ← st_some (bt_get "sender" value) MatrixInvalidParam;
  sender ← st_some (de_user_id (into_json sender)) MatrixBadJson;
  server ← server_of sender;
  if bool_decide (server <> remote_server) then acl_check server room else mret tt.

(** After an event reached the timeline, the outliers that waited for it follow.  [fuel]
    bounds the rounds of the [while] loop. *)
Definition promote_waiting (room missing_id : string) (remote_server next_id : string) : Tree (list string) :=
  _ ← Act (upd_missings (fun m => match m !! (next_id, missing_id) with
             | Some (r, _) => if bool_decide (r = room) then delete (next_id, missing_id) m else m
             | None => m
             end));
  waiting ← Act (st_gets (fun s => bool_decide (map_Exists (fun k _ => k.1 = next_id) (event_missings s))));
  if (waiting : bool) then mret []
  else
    _ ← Act (upd_gaps (fun g => filter (fun '((r, _), id) => ~ (r = room /\ id = next_id)) g));
    next ← Act (st_try (get_pdu next_id));
    match next with
    | Ok next =>
        if is_outlier next && negb (rejected (inner next)) then
          json_data ← Act (st_some (de_canonical_object (content (inner next))) SerdeJson);
          r ← try_timeline next json_data remote_server;
          mret (match r with Ok _ => [next_id] | Err _ => [] end)
        else mret []
    | Err _ => mret []
    end.

Fixpoint promote_loop (fuel : nat) (room missing_id remote_server : string) (next_ids : list string) : Tree unit :=
  match next_ids with
  | [] => mret tt
  | _ =>
      match fuel with
      | 0%nat => Act st_out_of_fuel
      | S fuel =>
          new_ids ← tree_map (promote_waiting room missing_id remote_server) next_ids;
          promote_loop fuel room missing_id remote_server (concat new_ids)
      end
  end.

Definition waiting_for (room missing_id : string) : Db (list string) :=
  st_gets (fun s => (fun x => x.1.1) <$>
    filter (fun '((_, m), (r, _)) => m = missing_id /\ r = room) (iter_map (event_missings s))).

Definition pulled_pdu (remote_server id room : string) (room_version_id : RoomVersionId)
    (value : CanonicalJsonObject) (backfill : bool) : Tree unit :=
  _ ← Act (check_origin remote_server room value);
  known ← Act (get_non_outlier_pdu id);
  match known with
  | Some _ => mret tt
  | None =>
      o ← Act (process_to_outlier_pdu remote_server id room room_version_id value);
      match o with
      | None => mret tt
      | Some o =>
          '(p, json_data) ← Act (process_pulled o backfill);
          if soft_failed p || rejected (inner p) then mret tt
          else
            r ← try_timeline p json_data remote_server;
            match r with
            | Err _ => mret tt
            | Ok _ =>
                p ← Act (get_pdu id);
                _ ← Act (update_backward_extremities p);
                next_ids ← Act (waiting_for (room_id (inner p)) (event_id (inner p)));
                fuel ← Act (st_gets (fun s => S (size (rows s))));
                promote_loop fuel (room_id (inner p)) (event_id (inner p)) remote_server next_ids
            end
      end
  end.
Definition process_pulled_pdu (remote_server id room : string) (room_version_id : RoomVersionId)
    (value : CanonicalJsonObject) (backfill : bool) : Db unit :=
  run enter (pulled_pdu remote_server id room room_version_id value backfill).

Definition depth_of (value : CanonicalJsonObject) : Z :=
  match bt_get "depth" value with Some (CInteger z) => z | _ => 0%Z end.

(** The events of a [/get_missing_events] response not known yet, in order. *)
Fixpoint new_events (room : string) (room_version : RoomVersionId) (known : gset string)
    (events : list json) (fetched : list (string * CanonicalJsonObject)) :
    Db (list (string * CanonicalJsonObject)) :=
  match events with
  | [] => mret fetched
  | raw :: events =>
      '(event_id, event_val) ← of_res (parse_fetched_pdu room room_version raw);
      if bool_decide (event_id ∈ known) then new_events room room_version known events fetched
      else
        stored ← st_gets (fun s => is_ok (load_pdu s event_id));
        new_events room room_version ({[ event_id ]} ∪ known) events
          (if (stored : bool) then fetched else fetched ++ [(event_id, event_val)])%list
  end.

Definition missing_events_of (remote_server room : string)
    (room_version : RoomVersionId) (incoming_pdu : PduEvent) (backfill : bool) : Tree unit :=
  first ← Act (st_try (first_pdu_in_room room));
  let min_depth := default 0%Z (depth <$> mjoin (ok first)) in
  extremities ← Act (get_forward_extremities room);
  earliest_events ← Act (st_gets (fun s => filter (fun id =>
    match load_pdu s id with
    | Ok p => negb (is_outlier p) && negb (soft_failed p) && negb (rejected (inner p))
    | Err _ => false end = true) extremities));
  '(known_events, missing_events) ← Act (st_gets (fun s =>
    (list_to_set (filter (fun id => match load_pdu s id with
                                    | Ok p => negb (rejected (inner p)) | Err _ => false end = true)
                    (prev_events incoming_pdu)) : gset string,
     filter (fun id => match load_pdu s id with
                       | Ok p => rejected (inner p)
                       | Err _ => bool_decide (id ∉ earliest_events) end = true)
       (prev_events incoming_pdu))));
  match missing_events with
  | [] => mret tt
  | _ =>
      events ← Act (call (MissingEvents remote_server room 10 min_depth earliest_events [event_id incoming_pdu]));
      fetched ← Act (new_events room room_version known_events events []);
      tree_iter (fun '(id, event_val) =>
        exists_ ← Act (st_gets (fun s => match rows s !! id with
                                         | Some r => bool_decide (er_room_id r = room) | None => false end));
        if (exists_ : bool) then mret tt
        else _ ← Try (pulled_pdu remote_server id room room_version event_val backfill); mret tt)
        (sort_by_key Z.compare (fun x => depth_of x.2) fetched)
  end.

Definition fetch_and_process_missing_events (remote_server room : string)
    (room_version : RoomVersionId) (incoming_pdu : PduEvent) (backfill : bool) : Db unit :=
  run enter (missing_events_of remote_server room room_version incoming_pdu backfill).

Definition process_incoming (o : OutlierPdu) (backfill : bool) : Tree (StoredPdu * CanonicalJsonObject) :=
  if negb (op_soft_failed o) || rejected (op_pdu o) then Act (save_to_database o backfill)
  else
    r ← Try (missing_events_of (op_remote_server o) (op_room_id o) (op_room_version o) (op_pdu o) backfill);
    match r with
    | Err MatrixBadJson => Act (save_to_database (op_reject o) backfill)
    | Err _ => Act (process_pulled (op_with_soft true o) backfill)
    | Ok _ => Act (process_pulled o backfill)
    end.

(** A rejected or soft-failed outlier is forgotten before it is tried again. *)
Definition forget_event (id : string) : Db unit :=
  _ ← upd_rows (delete id);
  _ ← on_frames (st_modify (fun db => set_points (delete id (event_points db)) db));
  upd_datas (delete id).

(** What [process_incoming_pdu] does with an event that is not in the timeline. *)
Definition process_new_pdu (remote_server id room : string) (room_version_id : RoomVersionId)
    (value : CanonicalJsonObject) (is_timeline_event backfill : bool) : Tree unit :=
  disabled ← Act (is_disabled room);
  if (disabled : bool) then Act (st_fail MatrixForbidden)
  else
    _ ← Act (check_origin remote_server room value);
    known ← Act (get_non_outlier_pdu id);
    match known with
    | Some _ => mret tt
    | None =>
        o ← Act (process_to_outlier_pdu remote_server id room room_version_id value);
        match o with
        | None => mret tt
        | Some o =>
            '(p, val) ← process_incoming o backfill;
            if rejected (inner p) then mret tt
            else
              _ ← Act (check_room_id room (inner p));
              if negb is_timeline_event then mret tt
              else
                r ← try_timeline p val remote_server;
                match r with
                | Err _ => mret tt
                | Ok _ => p ← Act (get_pdu id); Act (update_backward_extremities p)
                end
        end
    end.

Definition incoming_pdu (remote_server id room : string) (room_version_id : RoomVersionId)
    (value : CanonicalJsonObject) (is_timeline_event backfill : bool) : Tree unit :=
  room_known ← Act (room_exists room);
  if negb room_known then Act (st_fail MatrixNotFound)
  else
    event ← Act (st_gets (fun s => rows s !! id));
    match event with
    | Some event =>
        if negb (er_is_outlier event) then mret tt
        else
          _ ← Act (if er_is_rejected event || er_soft_failed event then forget_event id else mret tt);
          process_new_pdu remote_server id room room_version_id value is_timeline_event backfill
    | None => process_new_pdu remote_server id room room_version_id value is_timeline_event backfill
    end.
Definition process_incoming_pdu (remote_server id room : string) (room_version_id : RoomVersionId)
    (value : CanonicalJsonObject) (is_timeline_event backfill : bool) : Db unit :=
  run enter (incoming_pdu remote_server id room room_version_id value is_timeline_event backfill).
End incoming.
