(* ===== verification/StoreHistory.v ===== *)
(** * What the handlers do to the store

    The handlers of file [Incoming] are many and call each other; what they have in
    common is shown by relations between the store before and after: a relation that is
    reflexive and transitive and holds of every write holds of every handler, whatever
    the answers of other servers and however the handler ends. *)
From S2P Require Import Prelude RustStr BTree Identifiers RoomVersion Json Canonical Redaction Signatures Events Membership EventAuth TopoSort StateRes Effects Calls StateFrames AuthChain RoomPowerLevels EventStore AppendPdu Incoming.
Open Scope string_scope.

(** ** Relations kept by computations *)

Section keeps.
Context {S : Type} (R : S -> S -> Prop) `{!PreOrder R}.

Definition keeps {A} (m : St S A) : Prop := forall s, R s (snd (m s)).

Lemma keeps_ret {A} (a : A) : keeps (mret a).
Proof. intros s. cbn. reflexivity. Qed.
Lemma keeps_fail {A} e : keeps (A := A) (st_fail e).
Proof. intros s. cbn. reflexivity. Qed.
Lemma keeps_panic {A} : keeps (A := A) st_panic.
Proof. intros s. cbn. reflexivity. Qed.
Lemma keeps_fuel {A} : keeps (A := A) st_out_of_fuel.
Proof. intros s. cbn. reflexivity. Qed.
Lemma keeps_gets {A} (f : S -> A) : keeps (st_gets f).
Proof. intros s. cbn. reflexivity. Qed.
Lemma keeps_some {A} (o : option A) e : keeps (st_some o e).
Proof. destruct o; [apply keeps_ret|apply keeps_fail]. Qed.
Lemma keeps_expect {A} (o : option A) : keeps (st_expect o).
Proof. destruct o; [apply keeps_ret|apply keeps_panic]. Qed.
Lemma keeps_bind {A B} (m : St S A) (k : A -> St S B) :
  keeps m -> (forall a, keeps (k a)) -> keeps (m ≫= k).
Proof.
  intros Hm Hk s. specialize (Hm s). unfold mbind, St_bind.
  destruct (m s) as [[a|e| |] s1]; cbn in *; [|done..]. transitivity s1; [done|apply Hk].
Qed.
Lemma keeps_try {A} (m : St S A) : keeps m -> keeps (st_try m).
Proof. intros Hm s. specialize (Hm s). unfold st_try. by destruct (m s) as [[a|e| |] s1]. Qed.
Lemma keeps_iter {A} (f : A -> St S unit) l : (forall a, keeps (f a)) -> keeps (st_iter f l).
Proof. intros Hf. induction l; cbn; [apply keeps_ret|]. apply keeps_bind; auto. Qed.
Lemma keeps_map {A B} (f : A -> St S B) l : (forall a, keeps (f a)) -> keeps (st_map f l).
Proof.
  intros Hf. induction l; cbn; [apply keeps_ret|]. apply keeps_bind; [done|]. intros b.
  apply keeps_bind; [done|]. intros bs. apply keeps_ret.
Qed.
Lemma keeps_modify (f : S -> S) : (forall s, R s (f s)) -> keeps (st_modify f).
Proof. intros Hf s. apply Hf. Qed.
End keeps.

Lemma keeps_weaken {S A} (R R' : S -> S -> Prop) (m : St S A) :
  (forall s s', R s s' -> R' s s') -> keeps R m -> keeps R' m.
Proof. intros H Hm s. apply H, Hm. Qed.

Lemma keeps_run {S A} (R : S -> S -> Prop) (m : St S A) s a s' : keeps R m -> m s = (Done a, s') -> R s s'.
Proof. intros Hm H. specialize (Hm s). by rewrite H in Hm. Qed.

Create HintDb keeps.
#[export] Hint Resolve keeps_ret keeps_fail keeps_panic keeps_fuel keeps_gets keeps_some keeps_expect : keeps.

(** Follows the structure of a computation; what remains are its primitive steps. *)
Ltac keeps_step :=
  match goal with
  | |- keeps _ (_ ≫= _) => apply keeps_bind; [apply _| |intros ?]
  | |- keeps _ (st_try _) => apply keeps_try
  | |- keeps _ (st_iter _ _) => apply keeps_iter; [apply _|intros ?]
  | |- keeps _ (st_map _ _) => apply keeps_map; [apply _|intros ?]
  | |- keeps _ (if ?b then _ else _) => destruct b
  | |- keeps _ (match ?x with _ => _ end) => destruct x
  | |- keeps _ (let '(_, _) := ?x in _) => destruct x
  end.
Ltac keeps_auto := repeat (keeps_step || solve [eauto 2 with keeps typeclass_instances]).

(** *** Call trees *)

Section acts_keep.
Context {S V : Type} (h : V -> St S unit) (R : S -> S -> Prop) `{!PreOrder R}.

(** The relation is kept between the calls. *)
Definition acts_keep {A} (t : tree S V A) : Prop := acts (fun _ m => keeps R m) t.
Lemma acts_keep_act {A} (m : St S A) : keeps R m -> acts_keep (Act m).
Proof. done. Qed.
Lemma acts_keep_ret {A} (a : A) : acts_keep (mret a).
Proof. apply (keeps_ret R). Qed.
Lemma acts_keep_vis v : acts_keep (Vis v).
Proof. done. Qed.
Lemma acts_keep_try {A} (t : tree S V A) : acts_keep t -> acts_keep (Try t).
Proof. done. Qed.
Lemma acts_keep_bind {A B} (t : tree S V A) (k : A -> tree S V B) :
  acts_keep t -> (forall a, acts_keep (k a)) -> acts_keep (t ≫= k).
Proof. done. Qed.
Lemma acts_keep_iter {A} (f : A -> tree S V unit) l : (forall a, acts_keep (f a)) -> acts_keep (tree_iter f l).
Proof. apply acts_iter, (keeps_ret R). Qed.
Lemma acts_keep_map {A B} (f : A -> tree S V B) l : (forall a, acts_keep (f a)) -> acts_keep (tree_map f l).
Proof. apply acts_map. intros. apply (keeps_ret R). Qed.

(** What the calls keep too, the whole run keeps. *)
Lemma keeps_run_tree {A} (t : tree S V A) : (forall v, keeps R (h v)) -> acts_keep t -> keeps R (run h t).
Proof.
  intros Hh. unfold acts_keep. induction t as [A m|v|A B t IH k IHk|A t IH]; cbn [acts run].
  - done.
  - intros _. apply Hh.
  - intros [Ht Hk]. apply (keeps_bind R); auto.
  - intros Ht. apply (keeps_try R). auto.
Qed.
End acts_keep.

Ltac acts_step :=
  match goal with
  | |- acts_keep _ (_ ≫= _) => apply acts_keep_bind; [|intros ?]
  | |- acts_keep _ (mret _) => apply acts_keep_ret; apply _
  | |- acts_keep _ (Act _) => apply acts_keep_act
  | |- acts_keep _ (Vis _) => apply acts_keep_vis
  | |- acts_keep _ (Try _) => apply acts_keep_try
  | |- acts_keep _ (tree_iter _ _) => apply acts_keep_iter; [apply _|intros ?]
  | |- acts_keep _ (tree_map _ _) => apply acts_keep_map; [apply _|intros ?]
  | |- acts_keep _ (if ?b then _ else _) => destruct b
  | |- acts_keep _ (match ?x with _ => _ end) => destruct x
  | |- acts_keep _ (let '(_, _) := ?x in _) => destruct x
  end.
Ltac acts_auto := repeat (acts_step || keeps_step || solve [eauto 2 with keeps typeclass_instances]).

(** ** Snapshots are never taken back *)

Section frames_history.
Context {C : Crypto} {LF : LruCache Z (list FrameInfo)}.

Record frames_grow (f f' : FramesDb) : Prop := {
  fg_fields : room_state_fields f ⊆ room_state_fields f';
  fg_frames : room_state_frames f ⊆ room_state_frames f';
  fg_deltas : room_state_deltas f ⊆ room_state_deltas f'
}.
#[global] Instance frames_grow_preorder : PreOrder frames_grow.
Proof.
  split.
  - intros f. by split.
  - intros f1 f2 f3 [] []. split; by etrans.
Qed.

Lemma grow_get_field k : keeps frames_grow (get_field k).
Proof. intros db. unfold get_field, get_state_field. by destruct (filter _ _) as [|[] ?]. Qed.
Lemma grow_get_field_id ty k : keeps frames_grow (get_field_id ty k).
Proof. intros db. unfold get_field_id, get_state_field_id. by destruct (_ !! _). Qed.
Lemma grow_ensure_field_id ty k : keeps frames_grow (ensure_field_id ty k).
Proof.
  intros db. unfold ensure_field_id, ensure_state_field_id.
  destruct (room_state_fields db !! _) eqn:H; split; cbn; try done. by apply insert_subseteq.
Qed.
Lemma grow_get_frame_id r h : keeps frames_grow (get_frame_id r h).
Proof. intros db. unfold get_frame_id, get_state_frame_id. by destruct (_ !! _). Qed.
Lemma grow_ensure_frame r h : keeps frames_grow (ensure_frame r h).
Proof.
  intros db. unfold ensure_frame, ensure_state_frame.
  destruct (room_state_frames db !! _) eqn:H; split; cbn; try done. by apply insert_subseteq.
Qed.
Lemma grow_set_points ps db : frames_grow db (set_points ps db).
Proof. by split. Qed.
Lemma grow_update_frame_id e f : keeps frames_grow (update_frame_id e f).
Proof. intros db. apply grow_set_points. Qed.
Lemma grow_update_before_frame_id e f : keeps frames_grow (update_before_frame_id e f).
Proof. intros db. apply grow_set_points. Qed.
Lemma grow_update_frame_id_by_sn e f : keeps frames_grow (update_frame_id_by_sn e f).
Proof. intros db. apply grow_set_points. Qed.
Lemma grow_get_event_id_by_sn n : keeps frames_grow (get_event_id_by_sn n).
Proof. intros db. unfold get_event_id_by_sn. by destruct (filter _ _) as [|[] ?]. Qed.
Lemma grow_set_room_state r f : keeps frames_grow (set_room_state r f).
Proof. intros db. by split. Qed.
Lemma grow_get_state_delta f : keeps frames_grow (get_state_delta f).
Proof. intros db. unfold get_state_delta. by destruct (_ !! _). Qed.
Lemma grow_save_state_delta r f d : keeps frames_grow (save_state_delta r f d).
Proof.
  intros db. unfold save_state_delta, data_save_state_delta, st_modify. cbn.
  destruct (room_state_deltas db !! f) eqn:H; split; cbn; try done. by apply insert_subseteq.
Qed.
Lemma grow_cache_get f : keeps frames_grow (cache_get f).
Proof. intros db. unfold cache_get. by destruct (lru_get_mut _ _). Qed.
Lemma grow_cache_insert f i : keeps frames_grow (cache_insert f i).
Proof. intros db. by split. Qed.
#[local] Hint Resolve grow_get_field grow_get_field_id grow_ensure_field_id grow_get_frame_id
  grow_ensure_frame grow_update_frame_id grow_update_before_frame_id grow_update_frame_id_by_sn
  grow_get_event_id_by_sn grow_set_room_state grow_get_state_delta grow_save_state_delta
  grow_cache_get grow_cache_insert : keeps.

Lemma grow_get_room_frame_id r u : keeps frames_grow (get_room_frame_id r u).
Proof. unfold get_room_frame_id, data_get_room_frame_id. keeps_auto. Qed.
Lemma grow_get_pdu_frame_id e : keeps frames_grow (get_pdu_frame_id e).
Proof. unfold get_pdu_frame_id, data_get_pdu_frame_id. keeps_auto. Qed.
Lemma grow_get_pdu_before_frame_id e : keeps frames_grow (get_pdu_before_frame_id e).
Proof. unfold get_pdu_before_frame_id, data_get_pdu_before_frame_id. keeps_auto. Qed.
Lemma grow_ce_split e : keeps frames_grow (ce_split e).
Proof. unfold ce_split. keeps_auto. Qed.
Lemma grow_load_frame_info fuel f : keeps frames_grow (load_frame_info fuel f).
Proof.
  revert f. induction fuel as [|fuel IH]; intros f; cbn [load_frame_info]; keeps_auto.
  unfold load_state_diff. keeps_auto.
Qed.
Lemma grow_load_frames f : keeps frames_grow (load_frames f).
Proof. intros db. apply grow_load_frame_info. Qed.
#[local] Hint Resolve grow_get_room_frame_id grow_get_pdu_frame_id grow_get_pdu_before_frame_id
  grow_ce_split grow_load_frames : keeps.
Lemma grow_load_parents o : keeps frames_grow (load_parents o).
Proof. unfold load_parents. keeps_auto. Qed.
Lemma grow_calc r f a d n l : keeps frames_grow (calc_and_save_state_delta r f a d n l).
Proof.
  unfold calc_and_save_state_delta. generalize (reverse l). clear l. intros l. revert a d n.
  induction l as [|x l IH]; intros a d n; cbn [calc_and_save_state_delta_top]; keeps_auto.
Qed.
Lemma grow_full_state_of f : keeps frames_grow (full_state_of f).
Proof. unfold full_state_of. keeps_auto. Qed.
#[local] Hint Resolve grow_load_parents grow_calc grow_full_state_of : keeps.
Lemma grow_get_full_state_ids f : keeps frames_grow (get_full_state_ids f).
Proof. unfold get_full_state_ids. keeps_auto. Qed.
Lemma grow_get_state_event_id f ty k : keeps frames_grow (get_state_event_id f ty k).
Proof. unfold get_state_event_id. keeps_auto. Qed.
Lemma grow_set_event_state_before e r s : keeps frames_grow (set_event_state_before e r s).
Proof. unfold set_event_state_before. keeps_auto. Qed.
#[local] Hint Resolve grow_set_event_state_before : keeps.
Lemma grow_append_pdu_state p : keeps frames_grow (append_pdu_state p).
Proof. unfold append_pdu_state, append_to_state. keeps_auto. Qed.
Lemma grow_save_state r s : keeps frames_grow (save_state r s).
Proof. unfold save_state. keeps_auto. Qed.
End frames_history.
#[export] Hint Resolve grow_get_field grow_get_field_id grow_ensure_field_id grow_get_room_frame_id
  grow_get_pdu_frame_id grow_get_pdu_before_frame_id grow_ce_split grow_get_full_state_ids
  grow_full_state_of grow_get_state_event_id grow_set_event_state_before grow_append_pdu_state
  grow_save_state grow_set_room_state : keeps.

(** ** Nothing enters the timeline *)

Section quiet.
Context {U : Unicode} {C : Crypto} {HO : HashOrder} {WM : WildMatch}.
Context {LF : LruCache Z (list FrameInfo)} {LA : LruCache (list Z) (list Z)}.
Context {O : Type} {SV : Services O}.
#[local] Abbreviation Db := (St (Store (O := O))).
Implicit Types s : Store (O := O).

(** Rooms keep their versions; snapshots and edges stay. *)
Record history s s' : Prop := {
  hi_rooms : room_rows s' = room_rows s;
  hi_frames : frames_grow (frames s) (frames s');
  hi_edges : event_edges s ⊆ event_edges s'
}.
#[global] Instance history_preorder : PreOrder history.
Proof.
  split.
  - intros s. by split.
  - intros s1 s2 s3 [] []. split; by etrans.
Qed.

(** Besides, no event has entered the timeline. *)
Record quiet s s' : Prop := {
  qu_history : history s s';
  qu_timeline id : in_timeline s' id = true -> in_timeline s id = true
}.
#[global] Instance quiet_preorder : PreOrder quiet.
Proof.
  split.
  - intros s. by split.
  - intros s1 s2 s3 [] []. split; [by etrans|auto].
Qed.

(** A write that leaves [rows], [room_rows], [frames] and [event_edges] alone. *)
Lemma quiet_same s s' :
  rows s' = rows s -> room_rows s' = room_rows s -> frames s' = frames s -> event_edges s' = event_edges s ->
  quiet s s'.
Proof.
  intros Hr Hm Hf He. split; [split; [done|by rewrite Hf|by rewrite He]|].
  intros id. unfold in_timeline. by rewrite Hr.
Qed.

Lemma quiet_on_frames {A} (m : St FramesDb A) : keeps frames_grow m -> keeps quiet (on_frames m).
Proof.
  intros Hm s. unfold on_frames. specialize (Hm (frames s)). destruct (m (frames s)) as [r f].
  split; [by split|done].
Qed.
Lemma quiet_on_chains {A} (m : St ChainDb A) : keeps quiet (on_chains m).
Proof. intros s. unfold on_chains. destruct (m _) as [r db]. by apply quiet_same. Qed.
Lemma quiet_call {A} (c : Call A) : keeps quiet (call c).
Proof. intros s. unfold call. destruct (call_on c (others s)) as [r o]. by apply quiet_same. Qed.
Lemma quiet_of_core {E A} (m : comp E A) e : keeps quiet (of_core m e).
Proof. intros s. unfold of_core. by destruct m. Qed.
Lemma quiet_of_res {A} (r : result AppError A) : keeps quiet (of_res r).
Proof. intros s. by unfold of_res. Qed.
Lemma quiet_upd_datas f : keeps quiet (upd_datas f).
Proof. intros s. by apply quiet_same. Qed.
Lemma quiet_upd_forward f : keeps quiet (upd_forward f).
Proof. intros s. by apply quiet_same. Qed.
Lemma quiet_upd_backward f : keeps quiet (upd_backward f).
Proof. intros s. by apply quiet_same. Qed.
Lemma quiet_upd_gaps f : keeps quiet (upd_gaps f).
Proof. intros s. by apply quiet_same. Qed.
Lemma quiet_upd_missings f : keeps quiet (upd_missings f).
Proof. intros s. by apply quiet_same. Qed.

(** An update of [events] that makes no outlier a timeline event. *)
Lemma quiet_upd_rows (f : gmap string EventRow -> gmap string EventRow) :
  (forall m id r', f m !! id = Some r' -> er_is_outlier r' = false ->
     exists r, m !! id = Some r /\ er_is_outlier r = false) ->
  keeps quiet (upd_rows f).
Proof.
  intros Hf s. split; [by split|]. intros id. unfold in_timeline. cbn.
  destruct (f (rows s) !! id) as [r'|] eqn:Hr; [|done]. rewrite negb_true_iff. intros Ho.
  destruct (Hf _ _ _ Hr Ho) as (r & -> & ->). done.
Qed.
Lemma quiet_alter_row (g : EventRow -> EventRow) i :
  (forall r, er_is_outlier (g r) = er_is_outlier r) -> keeps quiet (upd_rows (alter g i)).
Proof.
  intros Hg. apply quiet_upd_rows. intros m id r' Hl Ho. destruct (decide (id = i)) as [->|Hne].
  - rewrite lookup_alter_eq in Hl. apply fmap_Some in Hl as (r & Hr & ->). exists r. by rewrite <- Hg.
  - rewrite lookup_alter_ne in Hl by done. eauto.
Qed.
Lemma quiet_delete_row i : keeps quiet (upd_rows (delete i)).
Proof. apply quiet_upd_rows. intros m id r' Hl Ho. apply lookup_delete_Some in Hl as [_ Hl]. eauto. Qed.
Lemma quiet_save_row i r : er_is_outlier r = true -> keeps quiet (save_row i r).
Proof.
  intros Hr. apply quiet_upd_rows. intros m id r' Hl Ho. destruct (decide (id = i)) as [->|Hne].
  - rewrite lookup_insert_eq in Hl. injection Hl as <-. destruct (m !! i); cbn in Ho; congruence.
  - rewrite lookup_insert_ne in Hl by done. eauto.
Qed.
Lemma quiet_edges x r : keeps quiet (upd_edges (fun e => e ∪ {[ x := r ]})).
Proof. intros s. split; [|done]. split; cbn; [done|done|apply map_union_subseteq_l]. Qed.
#[local] Hint Resolve quiet_on_chains quiet_call quiet_of_core quiet_of_res quiet_upd_datas
  quiet_upd_forward quiet_upd_backward quiet_upd_gaps quiet_upd_missings quiet_delete_row quiet_edges : keeps.
#[local] Hint Extern 1 (keeps quiet (on_frames _)) => apply quiet_on_frames; solve [eauto 2 with keeps typeclass_instances] : keeps.
#[local] Hint Extern 1 (keeps quiet (upd_rows (alter _ _))) => apply quiet_alter_row; reflexivity : keeps.

(** *** The store's operations *)

Lemma quiet_get_pdu id : keeps quiet (get_pdu id).
Proof. intros s. by unfold get_pdu. Qed.
Lemma quiet_get_non_outlier_pdu id : keeps quiet (get_non_outlier_pdu id).
Proof. intros s. unfold get_non_outlier_pdu. by repeat case_match. Qed.
Lemma quiet_get_pdu_json id : keeps quiet (get_pdu_json id).
Proof. intros s. unfold get_pdu_json. by repeat case_match. Qed.
Lemma quiet_get_may_missing_pdus r ids : keeps quiet (get_may_missing_pdus r ids).
Proof. unfold get_may_missing_pdus. keeps_auto. Qed.
Lemma quiet_first_pdu_in_room r : keeps quiet (first_pdu_in_room r).
Proof. intros s. unfold first_pdu_in_room. by repeat case_match. Qed.
Lemma quiet_server_of u : keeps quiet (server_of u).
Proof. intros s. unfold server_of. by case_match. Qed.
#[local] Hint Resolve quiet_get_pdu quiet_get_non_outlier_pdu quiet_get_pdu_json
  quiet_get_may_missing_pdus quiet_first_pdu_in_room quiet_server_of : keeps.

Lemma quiet_server_verify_event v rv : keeps quiet (server_verify_event v rv).
Proof. unfold server_verify_event. keeps_auto. Qed.
Lemma quiet_get_version r : keeps quiet (get_version r).
Proof. unfold get_version. keeps_auto. Qed.
Lemma quiet_room_exists r : keeps quiet (room_exists r).
Proof. unfold room_exists. keeps_auto. Qed.
Lemma quiet_is_disabled r : keeps quiet (is_disabled r).
Proof. unfold is_disabled. keeps_auto. Qed.
#[local] Hint Resolve quiet_server_verify_event quiet_get_version quiet_room_exists quiet_is_disabled : keeps.
Lemma quiet_parse_incoming_pdu raw : keeps quiet (parse_incoming_pdu raw).
Proof. unfold parse_incoming_pdu. keeps_auto. Qed.
Lemma quiet_seen_event_ids r ids : keeps quiet (seen_event_ids r ids).
Proof. unfold seen_event_ids. keeps_auto. Qed.
Lemma quiet_get_event_sn_and_ty id : keeps quiet (get_event_sn_and_ty id).
Proof. unfold get_event_sn_and_ty. keeps_auto. Qed.
Lemma quiet_ensure_event_sn r id : keeps quiet (ensure_event_sn r id).
Proof.
  unfold ensure_event_sn. keeps_auto. apply keeps_modify. intros s. split; [|done].
  split; [done|by apply grow_set_points|done].
Qed.
Lemma quiet_save_data id n r j : keeps quiet (save_data id n r j).
Proof. unfold save_data. keeps_auto. Qed.
Lemma quiet_replace_pdu id j : keeps quiet (replace_pdu id j).
Proof. unfold replace_pdu. keeps_auto. Qed.
Lemma quiet_mark_event_soft_failed id : keeps quiet (mark_event_soft_failed id).
Proof. unfold mark_event_soft_failed. keeps_auto. Qed.
#[local] Hint Resolve quiet_parse_incoming_pdu quiet_seen_event_ids quiet_get_event_sn_and_ty
  quiet_ensure_event_sn quiet_save_data quiet_replace_pdu quiet_mark_event_soft_failed : keeps.

Lemma quiet_get_forward_extremities r : keeps quiet (get_forward_extremities r).
Proof. unfold get_forward_extremities. keeps_auto. Qed.
Lemma quiet_set_forward_extremities r ids : keeps quiet (set_forward_extremities r ids).
Proof. unfold set_forward_extremities. keeps_auto. Qed.
Lemma quiet_update_backward_extremities p : keeps quiet (update_backward_extremities p).
Proof. unfold update_backward_extremities, add_backward, add_gap, add_missing. keeps_auto. Qed.
Lemma quiet_get_frame_state f ty k : keeps quiet (get_frame_state f ty k).
Proof. unfold get_frame_state. keeps_auto. Qed.
#[local] Hint Resolve quiet_get_forward_extremities quiet_set_forward_extremities
  quiet_update_backward_extremities quiet_get_frame_state : keeps.
Lemma quiet_get_room_state r ty k : keeps quiet (get_room_state r ty k).
Proof. unfold get_room_state. keeps_auto. Qed.
#[local] Hint Resolve quiet_get_room_state : keeps.
Lemma quiet_get_room_state_content {A} (de : json -> option A) r ty k :
  keeps quiet (get_room_state_content de r ty k).
Proof. unfold get_room_state_content. keeps_auto. Qed.
#[local] Hint Resolve quiet_get_room_state_content : keeps.
Lemma quiet_auth_events_loop st sa m : keeps quiet (auth_events_loop st sa m).
Proof. revert sa m. induction st; intros; cbn; keeps_auto. Qed.
Lemma quiet_auth_fields ts m : keeps quiet (auth_fields ts m).
Proof. revert m. induction ts as [|[] ?]; intros; cbn; keeps_auto. Qed.
#[local] Hint Resolve quiet_auth_events_loop quiet_auth_fields : keeps.
Lemma quiet_get_auth_events r k u sk c ar : keeps quiet (get_auth_events r k u sk c ar).
Proof. unfold get_auth_events. keeps_auto. Qed.
Lemma quiet_get_power_levels r : keeps quiet (get_power_levels r).
Proof. unfold get_power_levels. keeps_auto. Qed.
#[local] Hint Resolve quiet_get_auth_events quiet_get_power_levels : keeps.
Lemma quiet_room_user_can_invite r u : keeps quiet (room_user_can_invite r u).
Proof. unfold room_user_can_invite. keeps_auto. Qed.
Lemma quiet_user_can_redact e u r f : keeps quiet (user_can_redact e u r f).
Proof. unfold user_can_redact. keeps_auto. Qed.
Lemma quiet_acl_check n r : keeps quiet (acl_check n r).
Proof. unfold acl_check. keeps_auto. Qed.
Lemma quiet_check_room_id r p : keeps quiet (check_room_id r p).
Proof. unfold check_room_id. keeps_auto. Qed.
Lemma quiet_redact_pdu id p : keeps quiet (redact_pdu id p).
Proof. unfold redact_pdu. keeps_auto. Qed.
#[local] Hint Resolve quiet_room_user_can_invite quiet_user_can_redact quiet_acl_check
  quiet_check_room_id quiet_redact_pdu : keeps.

(** *** The steps of [append_pdu] before the event is taken in *)

Lemma quiet_add_relation r e c t : keeps quiet (add_relation r e c t).
Proof. unfold add_relation. keeps_auto. Qed.
Lemma quiet_get_pdu_and_data id : keeps quiet (get_pdu_and_data id).
Proof. intros s. unfold get_pdu_and_data. by repeat case_match. Qed.
#[local] Hint Resolve quiet_add_relation quiet_get_pdu_and_data : keeps.
Lemma quiet_add_to_thread id p : keeps quiet (add_to_thread id p).
Proof. unfold add_to_thread. keeps_auto. Qed.
#[local] Hint Resolve quiet_add_to_thread : keeps.
Lemma quiet_record_relations p : keeps quiet (record_relations p).
Proof. unfold record_relations. keeps_auto. Qed.
Lemma quiet_add_prev_content p j : keeps quiet (add_prev_content p j).
Proof. unfold add_prev_content. keeps_auto. Qed.
Lemma quiet_push_for_users p pl us acc : keeps quiet (push_for_users p pl us acc).
Proof. revert acc. induction us; intros; cbn; unfold push_for_user; keeps_auto. Qed.
Lemma quiet_to_stripped_state_event p : keeps quiet (to_stripped_state_event p).
Proof. unfold to_stripped_state_event. keeps_auto. Qed.
#[local] Hint Resolve quiet_record_relations quiet_add_prev_content quiet_push_for_users
  quiet_to_stripped_state_event : keeps.
Lemma quiet_summary_stripped p : keeps quiet (summary_stripped p).
Proof. unfold summary_stripped. keeps_auto. Qed.
#[local] Hint Resolve quiet_summary_stripped : keeps.
Lemma quiet_by_event_type conf p : keeps quiet (by_event_type conf p).
Proof. unfold by_event_type, on_member, on_message, on_tombstone. keeps_auto. Qed.
Lemma quiet_is_world_readable r : keeps quiet (is_world_readable r).
Proof. unfold is_world_readable, get_history_visibility. keeps_auto. Qed.
#[local] Hint Resolve quiet_is_world_readable : keeps.
Lemma quiet_forward_to_appservice conf p a : keeps quiet (forward_to_appservice conf p a).
Proof. unfold forward_to_appservice, appservice_wants, matching_aliases. keeps_auto. Qed.
Lemma quiet_forward_to_peekers p : keeps quiet (forward_to_peekers p).
Proof. unfold forward_to_peekers. keeps_auto. Qed.
Lemma quiet_update_forward_extremities p : keeps quiet (update_forward_extremities p).
Proof. unfold update_forward_extremities. keeps_auto. Qed.
#[local] Hint Resolve quiet_by_event_type quiet_update_forward_extremities : keeps.

(** *** Fetching, resolving and judging *)

Lemma quiet_run_resolve vr f fs acs : keeps quiet (run_resolve vr f fs acs).
Proof. intros s. unfold run_resolve. by case_match. Qed.
Lemma quiet_to_state_map st acc : keeps quiet (to_state_map st acc).
Proof. revert acc. induction st as [|[] ?]; intros; cbn; keeps_auto. Qed.
#[local] Hint Resolve quiet_run_resolve quiet_to_state_map : keeps.
Lemma quiet_resolve_state r rv st : keeps quiet (resolve_state r rv st).
Proof. unfold resolve_state. keeps_auto. Qed.
Lemma quiet_leaf_states (rec : PduEvent -> nat -> Db (option FieldState * nat)) ids n ls h :
  (forall p n, keeps quiet (rec p n)) -> keeps quiet (leaf_states rec ids n ls h).
Proof. intros Hrec. revert n ls h. induction ids; intros; cbn; keeps_auto. Qed.
Lemma quiet_fork_of_leaves r ls : keeps quiet (fork_of_leaves r ls).
Proof. induction ls; cbn; keeps_auto. Qed.
#[local] Hint Resolve quiet_resolve_state quiet_fork_of_leaves : keeps.
Lemma quiet_resolve_leaves r vr ls : keeps quiet (resolve_leaves r vr ls).
Proof. unfold resolve_leaves. keeps_auto. Qed.
#[local] Hint Resolve quiet_leaf_states quiet_resolve_leaves : keeps.
Lemma quiet_resolve_inner fuel vr p rs n : keeps quiet (resolve_inner st_out_of_fuel fuel vr p rs n).
Proof. revert p rs n. induction fuel; intros; cbn [resolve_inner]; keeps_auto. Qed.
#[local] Hint Resolve quiet_resolve_inner : keeps.
Lemma quiet_resolve_state_at_incoming p vr : keeps quiet (resolve_state_at_incoming p vr).
Proof. unfold resolve_state_at_incoming. keeps_auto. Qed.
Lemma quiet_run_auth_check ar p f : keeps quiet (run_auth_check ar p f).
Proof. intros s. apply quiet_of_core. Qed.
#[local] Hint Resolve quiet_resolve_state_at_incoming quiet_run_auth_check : keeps.
Lemma quiet_check_auth p vr st : keeps quiet (check_auth p vr st).
Proof. unfold check_auth. keeps_auto. Qed.
Lemma quiet_save_to_database o b : keeps quiet (save_to_database o b).
Proof. unfold save_to_database. keeps_auto. by apply quiet_save_row. Qed.
Lemma quiet_verified_value id rv vr v : keeps quiet (verified_value id rv vr v).
Proof. unfold verified_value. keeps_auto. Qed.
#[local] Hint Resolve quiet_check_auth quiet_save_to_database quiet_verified_value : keeps.
Lemma quiet_judge_outlier conf r vr o p : keeps quiet (judge_outlier conf r vr o p).
Proof. unfold judge_outlier. keeps_auto. Qed.
#[local] Hint Resolve quiet_judge_outlier : keeps.
Lemma quiet_process_to_outlier_pdu conf rs id r rv v : keeps quiet (process_to_outlier_pdu conf rs id r rv v).
Proof. unfold process_to_outlier_pdu, known_outlier. keeps_auto. Qed.
Lemma quiet_force_state r f a : keeps quiet (force_state r f a).
Proof. unfold force_state, force_event. keeps_auto. Qed.
Lemma quiet_state_ids_of r rv ps : keeps quiet (state_ids_of r rv ps).
Proof. unfold state_ids_of. keeps_auto. Qed.
#[local] Hint Resolve quiet_process_to_outlier_pdu quiet_force_state quiet_state_ids_of : keeps.
Lemma quiet_fetch_and_process_missing_state o r rv id : keeps quiet (fetch_and_process_missing_state o r rv id).
Proof. unfold fetch_and_process_missing_state. keeps_auto. Qed.
Lemma quiet_fetch_and_process_event conf o r rv id : keeps quiet (fetch_and_process_event conf o r rv id).
Proof. unfold fetch_and_process_event. keeps_auto. Qed.
#[local] Hint Resolve quiet_fetch_and_process_missing_state quiet_fetch_and_process_event : keeps.
Lemma quiet_fetch_and_process_missing_state_by_ids conf o r rv id :
  keeps quiet (fetch_and_process_missing_state_by_ids conf o r rv id).
Proof. unfold fetch_and_process_missing_state_by_ids, fetch_and_process_events. keeps_auto. Qed.
Lemma quiet_fetch_and_process_auth_chain conf o r rv id :
  keeps quiet (fetch_and_process_auth_chain conf o r rv id).
Proof. unfold fetch_and_process_auth_chain. keeps_auto. Qed.
#[local] Hint Resolve quiet_fetch_and_process_missing_state_by_ids quiet_fetch_and_process_auth_chain : keeps.
Lemma quiet_fetch_missing_prev conf o ids : keeps quiet (fetch_missing_prev conf o ids).
Proof. revert o. induction ids; intros; cbn; keeps_auto. Qed.
#[local] Hint Resolve quiet_fetch_missing_prev : keeps.
Lemma quiet_process_pulled conf o b : keeps quiet (process_pulled conf o b).
Proof. unfold process_pulled, any_auth_event_rejected. keeps_auto. Qed.
Lemma quiet_store_state_before p st : keeps quiet (store_state_before p st).
Proof. unfold store_state_before. keeps_auto. Qed.
Lemma quiet_soft_fail_pdu p : keeps quiet (soft_fail_pdu p).
Proof. unfold soft_fail_pdu. keeps_auto. Qed.
Lemma quiet_resolve_new_state p rv st : keeps quiet (resolve_new_state p rv st).
Proof. unfold resolve_new_state. keeps_auto. Qed.
Lemma quiet_state_at_event p rv vr o : keeps quiet (state_at_event p rv vr o).
Proof. unfold state_at_event. keeps_auto. Qed.
Lemma quiet_server_in_room conf r : keeps quiet (server_in_room conf r).
Proof. unfold server_in_room. keeps_auto. Qed.
Lemma quiet_check_origin o r v : keeps quiet (check_origin o r v).
Proof. unfold check_origin. keeps_auto. Qed.
Lemma quiet_new_events r rv k es f : keeps quiet (new_events r rv k es f).
Proof. revert k f. induction es; intros; cbn; keeps_auto. Qed.
Lemma quiet_forget_event id : keeps quiet (forget_event id).
Proof.
  unfold forget_event. keeps_auto. apply quiet_on_frames, keeps_modify. intros. apply grow_set_points.
Qed.
End quiet.
#[export] Hint Resolve quiet_is_world_readable quiet_forward_to_appservice quiet_forward_to_peekers quiet_on_chains quiet_call quiet_of_core quiet_of_res quiet_upd_datas
  quiet_upd_forward quiet_upd_backward quiet_upd_gaps quiet_upd_missings quiet_delete_row
  quiet_edges quiet_get_pdu quiet_get_non_outlier_pdu quiet_get_pdu_json quiet_get_may_missing_pdus
  quiet_first_pdu_in_room quiet_server_of quiet_server_verify_event quiet_get_version
  quiet_room_exists quiet_is_disabled quiet_parse_incoming_pdu quiet_seen_event_ids
  quiet_get_event_sn_and_ty quiet_ensure_event_sn quiet_save_data quiet_replace_pdu
  quiet_mark_event_soft_failed quiet_get_forward_extremities quiet_set_forward_extremities
  quiet_update_backward_extremities quiet_get_frame_state quiet_get_room_state
  quiet_get_room_state_content quiet_auth_events_loop quiet_auth_fields quiet_get_auth_events
  quiet_get_power_levels quiet_room_user_can_invite quiet_user_can_redact quiet_acl_check
  quiet_check_room_id quiet_redact_pdu quiet_add_relation quiet_get_pdu_and_data quiet_add_to_thread
  quiet_record_relations quiet_add_prev_content quiet_push_for_users quiet_to_stripped_state_event
  quiet_summary_stripped quiet_by_event_type quiet_update_forward_extremities quiet_run_resolve
  quiet_to_state_map quiet_resolve_state quiet_fork_of_leaves quiet_resolve_leaves
  quiet_resolve_inner quiet_resolve_state_at_incoming quiet_run_auth_check quiet_check_auth
  quiet_save_to_database quiet_verified_value quiet_judge_outlier quiet_process_to_outlier_pdu
  quiet_force_state quiet_state_ids_of quiet_fetch_and_process_missing_state
  quiet_fetch_and_process_event quiet_fetch_and_process_missing_state_by_ids
  quiet_fetch_and_process_auth_chain quiet_fetch_missing_prev quiet_process_pulled
  quiet_store_state_before quiet_soft_fail_pdu quiet_resolve_new_state quiet_state_at_event quiet_server_in_room
  quiet_check_origin quiet_new_events quiet_forget_event : keeps.
#[export] Hint Extern 1 (keeps quiet (on_frames _)) =>
  apply quiet_on_frames; solve [eauto 2 with keeps typeclass_instances] : keeps.
#[export] Hint Extern 1 (keeps quiet (upd_rows (alter _ _))) => apply quiet_alter_row; reflexivity : keeps.
