(* ===== verification/Admission.v ===== *)
(** * What enters the timeline

    Whatever another server sends, and whatever it answers when it is asked, an event
    enters the timeline only after the checks of [process_to_timeline_pdu]: it passed
    the authorization rules against the state at the event and against the room's
    current state, or it is an invite of a local user for a room the server is not
    in. *)
From S2P Require Import Prelude RustStr BTree Identifiers RoomVersion Json Canonical Redaction Signatures Events Membership EventAuth TopoSort StateRes Effects Calls StateFrames AuthChain RoomPowerLevels EventStore AppendPdu Incoming StoreHistory.
Open Scope string_scope.

Section admission.
Context {U : Unicode} {C : Crypto} {HO : HashOrder} {WM : WildMatch}.
Context {LF : LruCache Z (list FrameInfo)} {LA : LruCache (list Z) (list Z)}.
Context {O : Type} {SV : Services O}.
Context (conf : Config).
#[local] Abbreviation Db := (St (Store (O := O))).
Implicit Types (s : Store (O := O)) (p : StoredPdu).

(** ** The checks *)

(** The event is the one [event_datas] holds under its ID. *)
Definition stored_as (p : PduEvent) s : Prop :=
  exists d q, datas s !! event_id p = Some d /\
    pdu_from_json_value (ed_room_id d) (event_id p) (ed_json d) = Some q /\
    p = set_rejected (rejected p) q.

(** Both authorization checks pass in the store. *)
Record authorized (version_rules : RoomVersionRules.t) (p : PduEvent) (state_at : FieldState) s : Prop := {
  au_at_event :
    state_at = [] \/
    auth_check version_rules.(RoomVersionRules.authorization) p (fetch_pdu s)
      (fetch_state_at s (room_id p) state_at) = Done tt;
  au_current :
    exists evs s2,
      get_auth_events (room_id p) (event_type p) (sender p) (state_key p) (content p)
        version_rules.(RoomVersionRules.authorization) s = (Done evs, s2) /\
      auth_check version_rules.(RoomVersionRules.authorization) p (fetch_pdu s2)
        (fetch_auth_event s2 (room_id p) version_rules.(RoomVersionRules.authorization) evs) = Done tt
}.

(** The checks of a call of [process_to_timeline_pdu] made in the store [s0], each in the
    store in which the call makes it: an invite for a room the server is not in, or an
    authorized event that, if it is a redaction, its sender may make. *)
Inductive cleared (c : TimelineCall) s0 : Prop :=
| cleared_guest s1 :
    is_invite_like conf (tc_pdu c) = true ->
    server_in_room conf (room_id (tc_pdu c)) s0 = (Done false, s1) ->
    cleared c s0
| cleared_authorized version rules st s1 s2 s3 :
    get_version (room_id (tc_pdu c)) s0 = (Done version, s0) ->
    get_version_rules version = Ok rules ->
    server_in_room conf (room_id (tc_pdu c)) s0 = (Done true, s1) ->
    state_at_event (tc_pdu c) version rules (tc_remote c) s1 = (Done st, s2) ->
    authorized rules (tc_pdu c) st s2 ->
    check_auth (tc_pdu c) rules (Some st) s2 = (Done tt, s3) ->
    (forall redact_id, redacts_id (tc_pdu c) version = Some redact_id ->
       fst (user_can_redact redact_id (sender (tc_pdu c)) (room_id (tc_pdu c)) true s3) = Done true) ->
    cleared c s0.

(** ** [append_pdu] takes in its own event only *)

Record enters (i : string) s s' : Prop := {
  en_history : history s s';
  en_timeline id : in_timeline s' id = true -> in_timeline s id = true \/ id = i
}.
#[global] Instance enters_preorder i : PreOrder (enters i).
Proof.
  split.
  - intros s. split; [done|auto].
  - intros s1 s2 s3 [H12 T12] [H23 T23]. split; [by etrans|]. intros id Hid.
    destruct (T23 id Hid) as [?%T12|]; auto.
Qed.
Lemma enters_of_quiet {A} i (m : Db A) : keeps quiet m -> keeps (enters i) m.
Proof. apply keeps_weaken. intros s s' [Hh Ht]. split; [done|auto]. Qed.
Lemma enters_enter_timeline p j : keeps (enters (event_id p)) (enter_timeline p j).
Proof.
  unfold enter_timeline. repeat keeps_step; try solve [apply enters_of_quiet; eauto 2 with keeps typeclass_instances].
  intros s. split; [by split|]. intros id. unfold in_timeline, upd_rows, st_modify. cbn.
  destruct (decide (id = event_id p)) as [|Hne]; [by right|]. rewrite lookup_alter_ne by done. by left.
Qed.
Lemma enters_append_pdu p j : keeps (enters (event_id p)) (append_pdu conf p j).
Proof.
  unfold append_pdu.
  repeat (keeps_step || apply enters_enter_timeline || solve [apply enters_of_quiet; eauto 2 with keeps typeclass_instances]).
Qed.

(** ** [process_to_timeline_pdu] *)

Lemma check_auth_done p rules st s s' :
  check_auth p rules (Some st) s = (Done tt, s') -> authorized rules p st s.
Proof.
  unfold check_auth. rewrite st_ret_bind. intros H.
  apply bind_St in H as (u & s1 & H1 & H). apply bind_St in H as (evs & s2 & H2 & H3).
  assert (s1 = s /\ (st = [] \/ auth_check rules.(RoomVersionRules.authorization) p (fetch_pdu s)
      (fetch_state_at s (room_id p) st) = Done tt)) as [-> Hat].
  { destruct st as [|x st]; [injection H1; auto|]. unfold run_auth_check, of_core in H1.
    destruct (auth_check _ _ _ _) as [[]|?| |]; [|discriminate H1..]. injection H1 as _ <-. auto. }
  split; [done|]. exists evs, s2. split; [done|]. unfold run_auth_check, of_core in H3.
  by destruct (auth_check _ _ _ _) as [[]|?| |].
Qed.

(** A call made in [s0] that leads to [s'] takes in at most its event, and only when it
    was cleared. *)
Record takes_in (c : TimelineCall) s0 s' : Prop := {
  ti_history : history s0 s';
  ti_timeline id : in_timeline s' id = true -> in_timeline s0 id = true \/
    event_id (tc_pdu c) = id /\ is_outlier (tc_pdu c) = true /\ rejected (tc_pdu c) = false /\ cleared c s0
}.
Lemma quiet_takes_in c s0 s' : quiet s0 s' -> takes_in c s0 s'.
Proof. intros [Hh Ht]. split; [done|]. intros id Hid. left. by apply Ht. Qed.

(** A step that takes in nothing, then the rest. *)
Lemma step_quiet {A B} c (m : Db A) (k : A -> Db B) s0 s :
  keeps quiet m -> quiet s0 s ->
  (forall a s', m s = (Done a, s') -> quiet s s' -> quiet s0 s' -> takes_in c s0 (snd (k a s'))) ->
  takes_in c s0 (snd ((m ≫= k) s)).
Proof.
  intros Hm Hs Hk. specialize (Hm s). unfold mbind, St_bind. destruct (m s) as [[a|e| |] s'] eqn:E; cbn in *.
  - apply (Hk a s' eq_refl Hm). by etrans.
  - apply quiet_takes_in. by etrans.
  - apply quiet_takes_in. by etrans.
  - apply quiet_takes_in. by etrans.
Qed.
Lemma get_version_state r s a s' : get_version r s = (Done a, s') -> s' = s.
Proof.
  unfold get_version. rewrite st_gets_bind. destruct (room_rows s !! r); [|discriminate].
  unfold of_res. by intros [= _ <-].
Qed.
Lemma of_res_done {A} (r : result AppError A) s a s' : of_res r s = (Done a, s') -> r = Ok a /\ s' = s.
Proof. unfold of_res. destruct r; by intros [= -> <-]. Qed.

(** The event is taken in at the end of a call that cleared it. *)
Lemma append_takes_in c s0 s :
  quiet s0 s -> is_outlier (tc_pdu c) = true -> rejected (tc_pdu c) = false ->
  cleared c s0 -> takes_in c s0 (snd (append_pdu conf (tc_pdu c) (tc_json c) s)).
Proof.
  intros [Hh Ht] Ho Hr Hc. destruct (enters_append_pdu (tc_pdu c) (tc_json c) s) as [Hh' Ht'].
  split; [by etrans|]. intros id [Hid| ->]%Ht'; [left; by apply Ht|by right].
Qed.

(** Runs the next step, which takes in nothing. *)
Ltac quiet_step :=
  apply step_quiet; [solve [keeps_auto]|done|].

Lemma timeline_not_joined_takes_in c rules s0 s :
  quiet s0 s -> is_outlier (tc_pdu c) = true -> rejected (tc_pdu c) = false ->
  server_in_room conf (room_id (tc_pdu c)) s0 = (Done false, s) ->
  takes_in c s0 (snd (timeline_not_joined conf (tc_pdu c) (tc_json c) rules s)).
Proof.
  intros Hq Ho Hr Hj. unfold timeline_not_joined.
  destruct (is_invite_like conf (tc_pdu c)) eqn:Hi; [|by apply quiet_takes_in].
  do 5 (quiet_step; intros ? ? _ _ ?). apply append_takes_in; try done. by apply (cleared_guest c s0 s).
Qed.

(** The verdict on a redaction. *)
Lemma soft_fail_verdict p version s soft_fail s' :
  match redacts_id p version with
  | None => mret false
  | Some redact_id => can ← user_can_redact redact_id (sender p) (room_id p) true; mret (negb can)
  end s = (Done soft_fail, s') -> soft_fail = false ->
  forall redact_id, redacts_id p version = Some redact_id ->
    fst (user_can_redact redact_id (sender p) (room_id p) true s) = Done true.
Proof.
  intros H -> redact_id Hr. rewrite Hr in H. apply bind_St in H as (can & s1 & H1 & [= H _]).
  rewrite H1. by destruct can.
Qed.

Lemma timeline_takes_in c s : takes_in c s (snd (enter conf c s)).
Proof.
  unfold enter, process_to_timeline_pdu. destruct (is_outlier (tc_pdu c)) eqn:Ho; cbn [negb]; [|by apply quiet_takes_in].
  destruct (rejected (tc_pdu c)) eqn:Hr; [by apply quiet_takes_in|].
  quiet_step. intros version s1 Hv _ _. pose proof (get_version_state _ _ _ _ Hv) as ->.
  quiet_step. intros rules s1 Hrules _ _. apply of_res_done in Hrules as [Hrules ->].
  quiet_step. intros server_joined s2 Hj _ Hq2.
  destruct server_joined; cbn [negb]; [|by apply timeline_not_joined_takes_in].
  quiet_step. intros st s3 Hs3 _ Hq3. quiet_step. intros [] s4 Hca Hq34 Hq4.
  quiet_step. intros soft_fail s5 Hsf Hq45 Hq5. quiet_step. intros _ s6 _ Hq56 Hq6.
  quiet_step. intros _ s7 _ Hq67 Hq7. destruct soft_fail.
  { apply quiet_takes_in. transitivity s7; [done|]. apply quiet_soft_fail_pdu. }
  apply append_takes_in; try done.
  apply (cleared_authorized c s version rules st s2 s3 s4); try done; [by apply (check_auth_done _ _ _ _ _ Hca)|].
  by apply (soft_fail_verdict _ _ _ _ _ Hsf).
Qed.

(** ** What is stored is what is processed *)

Lemma pdu_from_json_value_ids r id j q :
  pdu_from_json_value r id j = Some q -> event_id q = id /\ room_id q = r.
Proof.
  unfold pdu_from_json_value. destruct j as [| | | | |m]; try discriminate. unfold de_pdu.
  assert (bt_wf (bt_insert "event_id" (JStr id) (json_map m))) as Hwf by apply bt_insert_wf, bt_from_list_wf.
  rewrite bt_get_insert_eq, (bt_get_insert _ _ _ "event_id" Hwf), bt_get_insert_eq. cbn [mbind option_bind String.eqb].
  intros H. apply bind_Some in H as (x & Hx & H). apply bind_Some in H as (ty & _ & H).
  apply bind_Some in H as (y & Hy & H). repeat (apply bind_Some in H as (? & _ & H)). injection H as <-. cbn.
  cbn in Hx, Hy. destruct (is_ok (event_id_validate id)); [|discriminate].
  destruct (is_ok (room_id_validate r)); [|discriminate]. split; congruence.
Qed.
(** What holds of the result and the store when a computation succeeds. *)
Definition post {A} (P : A -> Store -> Prop) (m : Db A) : Prop :=
  forall s a s', m s = (Done a, s') -> P a s'.
Lemma post_bind {A B} (P : B -> Store -> Prop) (m : Db A) (k : A -> Db B) :
  (forall a, post P (k a)) -> post P (m ≫= k).
Proof. intros Hk s b s' H. apply bind_St in H as (a & s1 & _ & H). by apply (Hk a s1). Qed.
Lemma post_bind_pure {A B} (P : B -> Store -> Prop) (Q : A -> Prop) (m : Db A) (k : A -> Db B) :
  post (fun a _ => Q a) m -> (forall a, Q a -> post P (k a)) -> post P (m ≫= k).
Proof. intros Hm Hk s b s' H. apply bind_St in H as (a & s1 & Ha & H). by apply (Hk a (Hm _ _ _ Ha) s1). Qed.
Lemma post_ret {A} (Q : A -> Prop) (a : A) : Q a -> post (fun a _ => Q a) (mret a).
Proof. intros Ha s b s' [= <- <-]. done. Qed.

(** A new outlier is what its JSON says. *)
Definition outlier_wf (o : OutlierPdu) : Prop :=
  op_event_sn o = None /\
  exists q, pdu_from_json_value (op_room_id o) (event_id (op_pdu o)) (into_json (CObject (op_json_data o))) = Some q /\
    op_pdu o = set_rejected (rejected (op_pdu o)) q.
Lemma outlier_wf_with_soft b o : outlier_wf o -> outlier_wf (op_with_soft b o).
Proof. by destruct o. Qed.
Lemma outlier_wf_reject o : outlier_wf o -> outlier_wf (op_reject o).
Proof.
  intros (Hn & q & Hq & Hp). split; [done|]. exists q. split; [done|]. cbn. rewrite Hp. by destruct q.
Qed.

Record same_datas s s' : Prop := { sd_datas : datas s' = datas s }.
#[local] Instance same_datas_preorder : PreOrder same_datas.
Proof. split; [by intros s|]. intros s1 s2 s3 [H1] [H2]. split. by rewrite H2, H1. Qed.
Lemma datas_update_backward_extremities p : keeps same_datas (update_backward_extremities p).
Proof.
  unfold update_backward_extremities, add_backward, add_gap, add_missing, upd_backward, upd_gaps, upd_missings.
  repeat (keeps_step || solve [eauto 2 with keeps typeclass_instances] || (apply keeps_modify; by split)).
Qed.

(** The result is the event stored under its ID. *)
Definition gives_stored (r : StoredPdu * CanonicalJsonObject) s : Prop := stored_as (inner r.1) s.

Lemma save_to_database_stored o b : outlier_wf o -> post gives_stored (save_to_database o b).
Proof.
  intros (Hn & q & Hq & Hp). unfold save_to_database. rewrite Hn.
  apply post_bind. intros n. apply post_bind. intros row. cbn zeta. apply post_bind. intros _.
  intros s [p v] s' H. apply bind_St in H as (u & s1 & H1 & H). apply bind_St in H as (u2 & s2 & H2 & [= <- <- <-]).
  injection H1 as _ <-. match type of H2 with update_backward_extremities ?p ?s = _ =>
    pose proof (datas_update_backward_extremities p s) as Hd end.
  rewrite H2 in Hd. destruct Hd as [Hd]. cbn in Hd. unfold gives_stored, stored_as. cbn.
  rewrite Hd, lookup_insert_eq. do 2 eexists. split; [done|]. split; [|exact Hp]. cbn.
  destruct (pdu_from_json_value_ids _ _ _ _ Hq) as [_ Hr].
  assert (room_id (op_pdu o) = op_room_id o) as -> by (by rewrite Hp). exact Hq.
Qed.

(** The verdict is on the event itself. *)
Lemma judge_outlier_cases room rules outlier (p : PduEvent) :
  post (fun o _ => forall x, o = Some x -> exists q soft, x = outlier q soft /\ (q = p \/ q = set_rejected true p))
    (judge_outlier conf room rules outlier p).
Proof.
  set (Q := fun o => forall x, o = Some x -> exists q soft, x = outlier q soft /\ (q = p \/ q = set_rejected true p)).
  assert (forall q soft, q = p \/ q = set_rejected true p -> Q (Some (outlier q soft))) as Hq.
  { intros q soft Hq x [= <-]. eauto. }
  unfold judge_outlier. apply post_bind. intros joined. destruct (negb joined).
  { apply (post_ret Q). destruct (_ && _); [auto|done]. }
  apply post_bind. intros [? mp]. apply post_bind. intros [ap ma]. cbn zeta.
  case_match; [apply (post_ret Q); auto|].
  apply post_bind. intros r. repeat case_match; apply (post_ret Q); auto.
Qed.

(** An outlier is new, or the event was in the timeline already. *)
Definition outlier_or_known (s s' : Store (O := O)) (o : OutlierPdu) : Prop :=
  outlier_wf o \/ s' = s /\ stored_as (op_pdu o) s /\ is_Some (op_event_sn o) /\ op_soft_failed o = false.

Lemma known_outlier_stored rs id rv s o :
  known_outlier rs id rv s = (Done (Some o), s) ->
  stored_as (op_pdu o) s /\ is_Some (op_event_sn o) /\ op_soft_failed o = false.
Proof.
  unfold known_outlier, st_gets. intros [= H].
  apply bind_Some in H as (d & Hd & H). apply bind_Some in H as (v & _ & H).
  apply bind_Some in H as (p & Hp & H). destruct (_ && _); [|discriminate]. injection H as <-. cbn.
  split; [|by split]. unfold load_pdu in Hp. rewrite Hd in Hp. destruct (rows s !! id); [|discriminate].
  destruct (pdu_from_json_value _ _ _) as [q|] eqn:Hq; [|discriminate]. injection Hp as <-. cbn.
  destruct (pdu_from_json_value_ids _ _ _ _ Hq) as [Hid _]. exists d, q. cbn. rewrite Hid. done.
Qed.

Lemma process_to_outlier_stored rs id room rv value s o s' :
  process_to_outlier_pdu conf rs id room rv value s = (Done (Some o), s') -> outlier_or_known s s' o.
Proof.
  unfold process_to_outlier_pdu. intros H. apply bind_St in H as (known & s1 & Hk & H).
  assert (s1 = s) as -> by (unfold known_outlier, st_gets in Hk; congruence).
  destruct known as [x|]; [injection H as -> <-; right; split; [done|]; by apply (known_outlier_stored rs id rv)|].
  left. revert H. cbn zeta.
  match goal with |- ?m s = _ -> _ => cut (post (fun o _ => forall x, o = Some x -> outlier_wf x) m) end.
  { intros Hm H. by apply (Hm _ _ _ H). }
  apply post_bind. intros rules. apply post_bind. intros _. apply post_bind. intros val.
  destruct (pdu_from_json_value _ _ _) as [p|] eqn:Hp; [|intros ? ? ? [=]].
  apply post_bind. intros _. intros s1 r s2 Hj x Hx.
  destruct (judge_outlier_cases _ _ _ _ _ _ _ Hj x Hx) as (q & soft & -> & Hq). split; [done|]. cbn.
  exists p. destruct (pdu_from_json_value_ids _ _ _ _ Hp) as [Hid _].
  destruct Hq as [->| ->]; cbn; rewrite Hid; (split; [exact Hp|]); [|done].
  by destruct p as [[] ? ? ? ? ?].
Qed.
Lemma fetch_missing_prev_wf o ids : outlier_wf o -> post (fun o _ => outlier_wf o) (fetch_missing_prev conf o ids).
Proof.
  revert o. induction ids as [|id ids IH]; intros o Ho; cbn [fetch_missing_prev]; [by apply (post_ret outlier_wf)|].
  apply post_bind. intros r. destruct (match r with Ok _ => _ | Err _ => _ end) as [o' m] eqn:Hr.
  apply post_bind. intros _. apply IH.
  destruct r as [?|[]]; injection Hr as <- <-; auto using outlier_wf_with_soft, outlier_wf_reject.
Qed.

#[local] Hint Resolve save_to_database_stored outlier_wf_with_soft outlier_wf_reject : keeps.
Lemma process_pulled_stored o b : outlier_wf o -> post gives_stored (process_pulled conf o b).
Proof.
  intros Ho. unfold process_pulled. apply post_bind. intros rules.
  destruct (_ || _); [by auto with keeps|]. apply post_bind. intros bad. apply post_bind. intros chain.
  destruct chain as [[]|e]; [|destruct e; auto with keeps].
  apply post_bind. intros [? mp]. apply (post_bind_pure _ outlier_wf); [by apply fetch_missing_prev_wf|].
  intros o1 Ho1. apply (post_bind_pure _ outlier_wf); [|auto with keeps].
  destruct (rejected (op_pdu o1)); [by apply (post_ret outlier_wf)|].
  apply post_bind. intros res. apply post_bind. intros st. apply post_bind. intros r.
  apply (post_ret outlier_wf). destruct r as [?|[]]; auto with keeps.
Qed.
Lemma process_incoming_stored o b : outlier_wf o -> post gives_stored (run (enter conf) (process_incoming conf o b)).
Proof.
  intros Ho. unfold process_incoming. destruct (_ || _); [by apply save_to_database_stored|]. apply post_bind. intros r.
  destruct r as [?|[]]; apply process_pulled_stored || apply save_to_database_stored; auto with keeps.
Qed.

(** Of an event that was in the timeline already nothing is stored again. *)
Lemma known_save o b s r s1 :
  stored_as (op_pdu o) s -> is_Some (op_event_sn o) -> save_to_database o b s = (Done r, s1) -> gives_stored r s1.
Proof. intros Hst [n Hn]. unfold save_to_database. rewrite Hn. by intros [= <- <-]. Qed.
Lemma pulled_stored o b s s' r s1 :
  outlier_or_known s s' o -> process_pulled conf o b s' = (Done r, s1) -> gives_stored r s1.
Proof.
  intros [Ho|(-> & Hst & Hn & Hsf)] H; [by apply (process_pulled_stored o b Ho s')|].
  unfold process_pulled in H. apply bind_St in H as (rules & s2 & H2 & H). apply of_res_done in H2 as [_ ->].
  rewrite Hsf in H. cbn in H. by apply (known_save o b s).
Qed.
Lemma incoming_stored o b s s' r s1 :
  outlier_or_known s s' o -> run (enter conf) (process_incoming conf o b) s' = (Done r, s1) -> gives_stored r s1.
Proof.
  intros [Ho|(-> & Hst & Hn & Hsf)] H; [by apply (process_incoming_stored o b Ho s')|].
  unfold process_incoming in H. rewrite Hsf in H. cbn in H. by apply (known_save o b s).
Qed.
Lemma load_pdu_stored s id p : load_pdu s id = Ok p -> stored_as (inner p) s.
Proof.
  unfold load_pdu. destruct (rows s !! id); [|discriminate]. destruct (datas s !! id) as [d|] eqn:Hd; [|discriminate].
  destruct (pdu_from_json_value _ _ _) as [q|] eqn:Hq; [|discriminate]. intros [= <-].
  destruct (pdu_from_json_value_ids _ _ _ _ Hq) as [Hid _]. exists d, q. cbn. by rewrite Hid.
Qed.

(** ** The handlers *)

(** What is stored is what is judged: every call is made with an event as it is stored. *)
Definition call_stored (c : TimelineCall) s : Prop := stored_as (tc_pdu c) s.
#[local] Abbreviation calls_stored t s := (calls_ok (enter conf) call_stored t s).

(** Between two calls, and after the last one. *)
Ltac no_calls := first [apply calls_ok_act | apply calls_ok_ret].
Ltac next_act := apply calls_ok_bind; [no_calls|].
Lemma try_timeline_stored p j rs s {B} (k : _ -> tree _ _ B) :
  stored_as p s -> (forall r s1, calls_stored (k r) s1) -> calls_stored (try_timeline p j rs ≫= k) s.
Proof. intros Hp Hk. apply calls_ok_bind; [by apply calls_ok_try, calls_ok_vis|]. auto. Qed.

Lemma promote_waiting_stored r m rs id s : calls_stored (promote_waiting r m rs id) s.
Proof.
  unfold promote_waiting. next_act. intros _ s1 _. next_act. intros w s2 _. destruct w; [no_calls|].
  next_act. intros _ s3 _. next_act. intros next s4 Hn. destruct next as [next|]; [|no_calls].
  cbn [run] in Hn. unfold st_try, get_pdu in Hn. destruct (load_pdu s3 id) as [q|] eqn:Hl; [|discriminate].
  injection Hn as -> ->. apply load_pdu_stored in Hl. destruct (_ && _); [|no_calls].
  next_act. intros j s5 Hj. cbn [run] in Hj. unfold st_some in Hj. destruct (de_canonical_object _); [|discriminate].
  injection Hj as _ <-. apply try_timeline_stored; [done|]. intros. no_calls.
Qed.
Lemma promote_loop_stored fuel r m rs ids s : calls_stored (promote_loop fuel r m rs ids) s.
Proof.
  revert ids s. induction fuel as [|fuel IH]; intros [|id ids] s; cbn [promote_loop]; try no_calls.
  apply calls_ok_bind; [apply calls_ok_map, promote_waiting_stored|]. auto.
Qed.
Lemma pulled_pdu_stored rs id room rv v b s : calls_stored (pulled_pdu conf rs id room rv v b) s.
Proof.
  unfold pulled_pdu. next_act. intros _ s1 _. next_act. intros known s2 _. destruct known; [no_calls|].
  next_act. intros o s3 Ho. cbn [run] in Ho. destruct o as [o|]; [|no_calls].
  apply process_to_outlier_stored in Ho. next_act. intros [p j] s4 Hp. cbn [run] in Hp.
  apply (pulled_stored o b _ _ _ _ Ho) in Hp. destruct (_ || _); [no_calls|].
  apply try_timeline_stored; [done|]. intros [[]|] s5; [|no_calls].
  next_act. intros q s6 _. next_act. intros _ s7 _. next_act. intros ids s8 _. next_act. intros fuel s9 _.
  apply promote_loop_stored.
Qed.
Lemma missing_events_stored rs room rv (p : PduEvent) b s : calls_stored (missing_events_of conf rs room rv p b) s.
Proof.
  unfold missing_events_of. next_act. intros first s1 _. next_act. intros ext s2 _.
  next_act. intros earliest s3 _. next_act. intros [known missing] s4 _. destruct missing; [no_calls|].
  next_act. intros events s5 _. next_act. intros fetched s6 _. apply calls_ok_iter. intros [id v] s7.
  next_act. intros ex s8 _. destruct ex; [no_calls|]. apply calls_ok_bind; [apply calls_ok_try, pulled_pdu_stored|].
  intros. no_calls.
Qed.
Lemma process_incoming_calls_stored o b s : calls_stored (process_incoming conf o b) s.
Proof.
  unfold process_incoming. destruct (_ || _); [no_calls|].
  apply calls_ok_bind; [apply calls_ok_try, missing_events_stored|]. intros [?|[]] s1 _; no_calls.
Qed.
Lemma process_new_pdu_stored rs id room rv v t b s : calls_stored (process_new_pdu conf rs id room rv v t b) s.
Proof.
  unfold process_new_pdu. next_act. intros d s1 _. destruct d; [no_calls|]. next_act. intros _ s2 _.
  next_act. intros known s3 _. destruct known; [no_calls|].
  next_act. intros o s4 Ho. cbn [run] in Ho. destruct o as [o|]; [|no_calls]. apply process_to_outlier_stored in Ho.
  apply calls_ok_bind; [apply process_incoming_calls_stored|]. intros [p j] s5 Hp.
  apply (incoming_stored o b _ _ _ _ Ho) in Hp. destruct (rejected _); [no_calls|].
  next_act. intros u s6 Hu. cbn [run] in Hu. unfold check_room_id in Hu. destruct (bool_decide _); [discriminate|].
  injection Hu as _ <-. destruct (negb t); [no_calls|].
  apply try_timeline_stored; [done|]. intros [[]|] s7; [|no_calls]. next_act. intros q s8 _. no_calls.
Qed.
Lemma incoming_pdu_stored rs id room rv v t b s : calls_stored (incoming_pdu conf rs id room rv v t b) s.
Proof.
  unfold incoming_pdu. next_act. intros known s1 _. destruct (negb known); [no_calls|].
  next_act. intros e s2 _. destruct e as [e|]; [|apply process_new_pdu_stored].
  destruct (negb _); [no_calls|]. next_act. intros _ s3 _. apply process_new_pdu_stored.
Qed.

(** Between the calls nothing enters the timeline. *)
#[local] Abbreviation quiet_tree t := (acts_keep (V := TimelineCall) (quiet (O := O)) t).
Lemma quiet_try_timeline p j rs : quiet_tree (try_timeline p j rs).
Proof. done. Qed.
#[local] Hint Resolve quiet_try_timeline : keeps.
Lemma quiet_promote_waiting r m rs id : quiet_tree (promote_waiting r m rs id).
Proof. unfold promote_waiting. acts_auto. Qed.
#[local] Hint Resolve quiet_promote_waiting : keeps.
Lemma quiet_promote_loop fuel r m rs ids : quiet_tree (promote_loop fuel r m rs ids).
Proof. revert ids. induction fuel; intros [|id ids]; cbn [promote_loop]; acts_auto. Qed.
#[local] Hint Resolve quiet_promote_loop : keeps.
Lemma quiet_pulled_pdu rs id room rv v b : quiet_tree (pulled_pdu conf rs id room rv v b).
Proof. unfold pulled_pdu, waiting_for. acts_auto. Qed.
#[local] Hint Resolve quiet_pulled_pdu : keeps.
Lemma quiet_missing_events_of rs room rv (p : PduEvent) b : quiet_tree (missing_events_of conf rs room rv p b).
Proof. unfold missing_events_of. acts_auto. Qed.
#[local] Hint Resolve quiet_missing_events_of : keeps.
Lemma quiet_process_incoming o b : quiet_tree (process_incoming conf o b).
Proof. unfold process_incoming. acts_auto. Qed.
#[local] Hint Resolve quiet_process_incoming : keeps.
Lemma quiet_process_new_pdu rs id room rv v t b : quiet_tree (process_new_pdu conf rs id room rv v t b).
Proof. unfold process_new_pdu. acts_auto. Qed.
#[local] Hint Resolve quiet_process_new_pdu : keeps.
Lemma quiet_incoming_pdu rs id room rv v t b : quiet_tree (incoming_pdu conf rs id room rv v t b).
Proof. unfold incoming_pdu. acts_auto. Qed.

(** What is new in the timeline after a run was taken in by one of its calls. *)
Lemma run_history {A} (t : tree _ _ A) : quiet_tree t -> keeps history (run (enter conf) t).
Proof.
  intros Ht. apply (keeps_run_tree _ _); [intros c s; apply timeline_takes_in|].
  revert Ht. apply acts_mono. intros B m. by apply keeps_weaken; intros s s' [].
Qed.
Lemma run_newcomer {A} (t : tree _ _ A) s i :
  quiet_tree t -> in_timeline s i = false -> in_timeline (snd (run (enter conf) t s)) i = true ->
  exists c s0, visits (enter conf) t s c s0 /\ in_timeline s0 i = false /\
    event_id (tc_pdu c) = i /\ is_outlier (tc_pdu c) = true /\ rejected (tc_pdu c) = false /\ cleared c s0.
Proof.
  intros Ht Hout Hin.
  destruct (run_appears (enter conf) (fun s => in_timeline s i = true) t s) as [?|(c & s0 & Hc & Hs0 & Hc0)];
    [intros; apply _| |done|congruence|].
  - revert Ht. apply acts_mono. intros B m Hm s1. apply Hm.
  - exists c, s0. apply not_true_is_false in Hs0. repeat (split; [done|]).
    destruct (timeline_takes_in c s0) as [_ H]. destruct (H i Hc0) as [?|?]; [congruence|done].
Qed.

End admission.
