(* ===== verification/Authenticity.v ===== *)
(** * Outliers are authentic

    What [process_to_outlier_pdu] makes of an event it did not know: the keys are asked
    of the key service, the signatures and the content hash are verified, and the event
    that is stored is the verified one, or its redaction when the hash does not match. *)
From S2P Require Import Prelude RustStr BTree Identifiers RoomVersion Json Canonical Redaction Signatures Events Membership EventAuth TopoSort StateRes Effects StateFrames AuthChain RoomPowerLevels EventStore AppendPdu Incoming StoreHistory Admission.
Open Scope string_scope.

(** [from_value] reads the members of a canonical object as they are. *)
Lemma bt_get_into_json (m : CanonicalJsonObject) k :
  bt_get k (map (fun kv => (kv.1, into_json kv.2)) m) = into_json <$> bt_get k m.
Proof.
  induction m as [|[k' v] m IH]; [done|]. cbn. destruct (String.eqb_spec k k'); [done|exact IH].
Qed.
Lemma json_map_into_json (m : CanonicalJsonObject) :
  bt_wf m -> json_map (map (fun kv => (kv.1, into_json kv.2)) m) = map (fun kv => (kv.1, into_json kv.2)) m.
Proof.
  intros Hwf. apply bt_from_list_sorted. unfold bt_wf in *. induction Hwf as [|[k v] m Hm IH Hall]; cbn; [constructor|].
  constructor; [done|]. apply Forall_map. exact Hall.
Qed.

(** The sender a PDU is read with. *)
Lemma pdu_sender room id m q :
  bt_wf m -> pdu_from_json_value room id (into_json (CObject m)) = Some q ->
  bt_get "sender" m = Some (CString (sender q)).
Proof.
  intros Hwf. unfold pdu_from_json_value. cbn [into_json]. rewrite json_map_into_json by done.
  set (obj := map _ m). assert (bt_wf obj) as Hwo.
  { unfold obj. rewrite <- json_map_into_json by done. apply bt_from_list_wf. }
  unfold de_pdu. intros H. do 3 apply bind_Some in H as (? & _ & H). apply bind_Some in H as (u & Hu & H).
  repeat (apply bind_Some in H as (? & _ & H)). injection H as <-. cbn.
  rewrite !bt_get_insert in Hu by (try apply bt_insert_wf; done). cbn [String.eqb] in Hu.
  unfold obj in Hu. rewrite bt_get_into_json in Hu. destruct (bt_get "sender" m) as [v|]; [|done].
  cbn in Hu. destruct v; try discriminate. unfold de_user_id in Hu. cbn in Hu.
  destruct (is_ok _); [|discriminate]. by injection Hu as ->.
Qed.

(** A PDU is read as not rejected. *)
Lemma pdu_from_json_value_accepted room id j q : pdu_from_json_value room id j = Some q -> q = set_rejected false q.
Proof.
  unfold pdu_from_json_value. destruct j; try discriminate. unfold de_pdu. intros H.
  repeat (apply bind_Some in H as (? & _ & H)). by injection H as <-.
Qed.

Section authenticity.
Context {U : Unicode} {C : Crypto} {HO : HashOrder} {WM : WildMatch}.
Context {LF : LruCache Z (list FrameInfo)} {LA : LruCache (list Z) (list Z)}.
Context {O : Type} {SV : Services O}.
Context (conf : Config).
#[local] Abbreviation Db := (St (Store (O := O))).
Implicit Types s : Store (O := O).

(** The keys are those the key service gave for the event in some store reached from
    [s]. *)
Definition keys_of (event : CanonicalJsonObject) (rules : RoomVersionRules.t) s (keys : PublicKeyMap) : Prop :=
  exists required s1 s2, required_keys event rules = Done required /\ history s s1 /\
    call (GetPubkeys required) s1 = (Done keys, s2).

Lemma server_verify_event_done event rv rules s v s' :
  get_version_rules rv = Ok rules -> server_verify_event event rv s = (Done v, s') ->
  exists keys, keys_of event rules s keys /\ verify_event keys event rules = Done v.
Proof.
  intros Hrules H. unfold server_verify_event in H. rewrite Hrules in H.
  apply bind_St in H as (rules' & s1 & H1 & H). apply of_res_done in H1 as [[= <-] ->].
  apply bind_St in H as (required & s1 & H1 & H). apply bind_St in H as (keys & s2 & H2 & H3).
  unfold of_core in H1. destruct (required_keys event rules) as [r|?| |] eqn:Hr; try discriminate.
  injection H1 as -> ->. exists keys. split; [by exists required, s1, s2|].
  unfold of_core in H3. destruct (verify_event keys event rules) as [x|?| |]; congruence.
Qed.

(** The JSON that is stored for a verified event. *)
Definition verified_json (rules : RoomVersionRules.t) (event : CanonicalJsonObject) (v : Verified)
    (json : CanonicalJsonObject) : Prop :=
  match v with
  | VerifiedAll => json = event
  | VerifiedSignatures => redact event rules.(RoomVersionRules.redaction) None = Ok json
  end.

Lemma verified_value_done id rv rules event s json s' :
  get_version_rules rv = Ok rules -> verified_value id rv rules event s = (Done json, s') ->
  exists keys v, keys_of event rules s keys /\ verify_event keys event rules = Done v /\
    verified_json rules event v json.
Proof.
  intros Hrules H. unfold verified_value in H. apply bind_St in H as (r & s1 & H1 & H).
  unfold st_try in H1. destruct (server_verify_event event rv s) as [[v|?| |] s2] eqn:Hv; try discriminate;
    injection H1 as <- <-; [|discriminate].
  destruct (server_verify_event_done _ _ _ _ _ _ Hrules Hv) as (keys & Hk & Hver).
  exists keys, v. split; [done|]. split; [done|]. destruct v; cbn.
  - by injection H as ->.
  - apply bind_St in H as (obj & s3 & H3 & H). apply of_res_done in H3 as [Hobj ->]. apply map_err_Ok in Hobj.
    apply bind_St in H as (known & s4 & _ & H). destruct known; [discriminate|]. by injection H as <-.
Qed.

(** The sender survives redaction. *)
Lemma redact_sender event rules r :
  bt_wf event -> redact event rules None = Ok r -> bt_wf r /\ bt_get "sender" r = bt_get "sender" event.
Proof.
  intros Hwf H. destruct (redact_fields _ _ _ _ Hwf H) as (Hr & t & c & _ & _ & Hget). split; [done|].
  rewrite Hget. by destruct rules.
Qed.
(** C16: an event that was not known becomes an outlier only after its verification with
    the keys the key service gave: its JSON is stored as verified, or redacted when its
    content hash is not the stated one; the PDU is read from that JSON; and unless it is
    a third-party invite, the server of the PDU's sender has signed the redacted
    event. *)
Theorem outlier_authentic remote_server id room room_version value s o s' :
  bt_wf value ->
  process_to_outlier_pdu conf remote_server id room room_version value s = (Done (Some o), s') ->
  op_event_sn o = None ->
  let event := bt_remove "unsigned" value in
  exists rules keys v json,
    get_version_rules room_version = Ok rules /\ keys_of event rules s keys /\
    verify_event keys event rules = Done v /\ verified_json rules event v json /\
    op_json_data o = bt_insert "event_id" (CString id) json /\
    pdu_from_json_value room id (into_json (CObject (op_json_data o)))
      = Some (set_rejected false (op_pdu o)) /\
    (is_invite_via_third_party_id event = Ok false ->
     exists redacted signatures server,
       redact event rules.(RoomVersionRules.redaction) None = Ok redacted /\
       bt_get "signatures" event = Some (CObject signatures) /\
       user_id_server_name (sender (op_pdu o)) = Done server /\
       signed_by keys signatures (to_canonical_json_string_for_signing redacted) server).
Proof.
  intros Hwf H Hn event. unfold process_to_outlier_pdu in H. apply bind_St in H as (known & s1 & Hk & H).
  assert (s1 = s) as -> by (unfold known_outlier, st_gets in Hk; congruence).
  destruct known as [x|].
  { injection H as -> <-. destruct (known_outlier_stored _ _ _ _ _ Hk) as (_ & [? ?] & _). congruence. }
  fold event in H. cbn zeta in H.
  apply bind_St in H as (rules & s1 & H1 & H). apply of_res_done in H1 as [Hrules ->].
  apply bind_St in H as ([] & s1 & H1 & H). apply of_res_done in H1 as [_ ->].
  apply bind_St in H as (json & s1 & H1 & H).
  destruct (verified_value_done _ _ _ _ _ _ _ Hrules H1) as (keys & v & Hkeys & Hver & Hjson).
  destruct (pdu_from_json_value _ _ _) as [p|] eqn:Hp; [|discriminate].
  apply bind_St in H as ([] & s2 & H2 & H).
  destruct (judge_outlier_cases _ _ _ _ _ _ _ _ H o eq_refl) as (q & soft & -> & Hq). cbn.
  exists rules, keys, v, json. repeat (split; [done|]).
  assert (set_rejected false q = p) as Hqp.
  { rewrite (pdu_from_json_value_accepted _ _ _ _ Hp). by destruct Hq as [->| ->], p as [[] ? ? ? ? ?]. }
  rewrite Hqp. split; [exact Hp|]. intros Htp.
  destruct (verify_event_Done _ _ _ _ Hver) as (r & sm & servers & Hr & Hsm & _ & Hsig & Hsend).
  destruct (Hsend Htp) as (u & server & Hu & Hserver & Hin). exists r, sm, server.
  split; [done|]. split; [done|]. split; [|by apply Hsig].
  rewrite <- Hserver. f_equal. change (sender q) with (sender (set_rejected false q)). rewrite Hqp.
  assert (bt_wf event) as Hwe by (by apply bt_remove_wf).
  assert (bt_wf json /\ bt_get "sender" json = bt_get "sender" event) as [Hwj Hs].
  { destruct v; cbn in Hjson; [by subst|by apply (redact_sender event rules.(RoomVersionRules.redaction))]. }
  apply (pdu_sender room id) in Hp; [|by apply bt_insert_wf].
  rewrite bt_get_insert in Hp by done. change ("sender" =? "event_id") with false in Hp. congruence.
Qed.
End authenticity.
