(* ===== verification/AppendSpec.v ===== *)
(** * What [append_pdu] leaves behind

    When [append_pdu] succeeds the event is in the timeline with its JSON, its edges and
    its place among the forward extremities; when it fails half-way the extremities can
    be those of an event that never entered. *)
From S2P Require Import Prelude RustStr BTree Identifiers RoomVersion Json Canonical Redaction Signatures Events Membership EventAuth TopoSort StateRes Effects StateFrames AuthChain RoomPowerLevels EventStore AppendPdu Incoming StoreHistory.
Open Scope string_scope.

Section aside.
Context {U : Unicode} {C : Crypto} {HO : HashOrder} {WM : WildMatch}.
Context {LF : LruCache Z (list FrameInfo)} {LA : LruCache (list Z) (list Z)}.
Context {O : Type} {SV : Services O}.
Context (conf : Config).
#[local] Abbreviation Db := (St (Store (O := O))).
Implicit Types (s : Store (O := O)) (p : StoredPdu).

(** ** Steps that leave the graph of events alone *)

Record aside s s' : Prop := {
  as_forward : forward_extremities s' = forward_extremities s;
  as_edges : event_edges s' = event_edges s;
  as_rows id : er_is_outlier <$> rows s' !! id = er_is_outlier <$> rows s !! id
}.
#[global] Instance aside_preorder : PreOrder aside.
Proof.
  split; [by intros s|]. intros s1 s2 s3 [F1 E1 R1] [F2 E2 R2].
  split; [by rewrite F2|by rewrite E2|]. intros id. by rewrite R2.
Qed.
Lemma aside_timeline s s' id : aside s s' -> in_timeline s' id = in_timeline s id.
Proof.
  intros [_ _ Hr]. specialize (Hr id). unfold in_timeline.
  destruct (rows s' !! id), (rows s !! id); cbn in Hr; congruence.
Qed.

Lemma aside_on_frames {A} (m : St FramesDb A) : keeps aside (on_frames m).
Proof. intros s. unfold on_frames. by destruct (m (frames s)). Qed.
Lemma aside_call {A} (c : Call A) : keeps aside (call c).
Proof. intros s. unfold call. by destruct (call_on c (others s)). Qed.
Lemma aside_of_res {A} (r : result AppError A) : keeps aside (of_res r).
Proof. intros s. by unfold of_res. Qed.
Lemma aside_upd_datas f : keeps aside (upd_datas f).
Proof. by intros s. Qed.
Lemma aside_upd_backward f : keeps aside (upd_backward f).
Proof. by intros s. Qed.
Lemma aside_upd_gaps f : keeps aside (upd_gaps f).
Proof. by intros s. Qed.
Lemma aside_upd_missings f : keeps aside (upd_missings f).
Proof. by intros s. Qed.
Lemma aside_row_redacted i : keeps aside (upd_rows (alter row_redacted i)).
Proof.
  intros s. split; [done..|]. intros id. cbn. destruct (decide (id = i)) as [->|Hne].
  - rewrite lookup_alter_eq. by destruct (rows s !! i).
  - by rewrite lookup_alter_ne.
Qed.
Lemma aside_get_pdu id : keeps aside (get_pdu id).
Proof. intros s. by unfold get_pdu. Qed.
#[local] Hint Resolve @aside_on_frames @aside_call @aside_of_res aside_upd_datas aside_upd_backward aside_upd_gaps
  aside_upd_missings aside_row_redacted aside_get_pdu : keeps.

Lemma aside_get_room_state r ty k : keeps aside (get_room_state r ty k).
Proof. unfold get_room_state, get_frame_state. keeps_auto. Qed.
#[local] Hint Resolve aside_get_room_state : keeps.
Lemma aside_auth_events_loop st sa m : keeps aside (auth_events_loop st sa m).
Proof. revert sa m. induction st; intros; cbn; keeps_auto. Qed.
Lemma aside_auth_fields ts m : keeps aside (auth_fields ts m).
Proof. revert m. induction ts as [|[] ?]; intros; cbn; keeps_auto. Qed.
#[local] Hint Resolve aside_auth_events_loop aside_auth_fields : keeps.
Lemma aside_get_auth_events r k u sk c ar : keeps aside (get_auth_events r k u sk c ar).
Proof. unfold get_auth_events. keeps_auto. Qed.
Lemma aside_get_power_levels r : keeps aside (get_power_levels r).
Proof. unfold get_power_levels, get_room_state_content. keeps_auto. Qed.
Lemma aside_update_backward_extremities p : keeps aside (update_backward_extremities p).
Proof. unfold update_backward_extremities, add_backward, add_gap, add_missing. keeps_auto. Qed.
Lemma aside_get_pdu_and_data id : keeps aside (get_pdu_and_data id).
Proof. intros s. unfold get_pdu_and_data. by repeat case_match. Qed.
Lemma aside_add_prev_content p j : keeps aside (add_prev_content p j).
Proof. unfold add_prev_content, get_frame_state. keeps_auto. Qed.
#[local] Hint Resolve aside_get_power_levels aside_update_backward_extremities aside_get_pdu_and_data
  aside_add_prev_content : keeps.
Lemma aside_record_relations p : keeps aside (record_relations p).
Proof. unfold record_relations, add_relation, add_to_thread, get_event_sn_and_ty, replace_pdu. keeps_auto. Qed.
Lemma aside_push_for_users p pl us acc : keeps aside (push_for_users p pl us acc).
Proof. revert acc. induction us; intros; cbn; unfold push_for_user; keeps_auto. Qed.
Lemma aside_to_stripped_state_event (p : PduEvent) : keeps aside (to_stripped_state_event p).
Proof. unfold to_stripped_state_event, get_version. keeps_auto. Qed.
#[local] Hint Resolve aside_record_relations aside_push_for_users aside_to_stripped_state_event : keeps.
Lemma aside_by_event_type p : keeps aside (by_event_type conf p).
Proof.
  unfold by_event_type, on_member, on_message, on_tombstone, redact_pdu, replace_pdu, summary_stripped. keeps_auto.
Qed.
#[local] Hint Resolve aside_by_event_type : keeps.
(** ** The forward extremities *)

(** Some event of the timeline refers to [id]. *)
Definition referenced s (id : string) : bool :=
  bool_decide (map_Exists (fun e _ => e.2 = id) (event_edges s)).
(** The predecessors are no longer extremities; the event is one unless something
    already refers to it. *)
Definition next_extremities p s : gset (string * string) :=
  filter (fun x => ~ (x.1 = room_id p /\ x.2 ∈ prev_events p)) (forward_extremities s)
  ∪ (if referenced s (event_id p) then ∅ else {[ (room_id p, event_id p) ]}).

Lemma elem_of_room_extremities (F : gset (string * string)) r x :
  x ∈ (snd <$> filter (fun '(r', _) => r' = r) (iter_set F)) <-> (r, x) ∈ F.
Proof.
  rewrite list_elem_of_fmap. split.
  - intros ([r' y] & -> & [-> Hy]%list_elem_of_filter). by apply elem_of_iter_set in Hy.
  - intros H. exists (r, x). split; [done|]. apply list_elem_of_filter. split; [done|]. by apply elem_of_iter_set.
Qed.

Lemma set_forward_extremities_run r ids s :
  set_forward_extremities r ids s
  = (Done tt, put_forward_extremities
       (list_to_set (pair r <$> ids)
        ∪ filter (fun '(r', id) => ~ (r' = r /\ id ∉ ids)) (forward_extremities s)) s).
Proof.
  unfold set_forward_extremities. erewrite bind_St_run by reflexivity.
  set (P := filter _ (forward_extremities s)). generalize P. clear P. generalize ids as l.
  induction l as [|id l IH]; intros F; cbn [st_iter].
  - cbn. by rewrite union_empty_l_L.
  - erewrite bind_St_run by reflexivity. cbn [forward_extremities put_forward_extremities].
    change (put_forward_extremities ?a (put_forward_extremities ?b ?s)) with (put_forward_extremities a s).
    rewrite IH. do 2 f_equal. cbn. set_solver.
Qed.

Lemma update_forward_extremities_run p s :
  update_forward_extremities p s = (Done tt, put_forward_extremities (next_extremities p s) s).
Proof.
  unfold update_forward_extremities, get_forward_extremities. rewrite !st_gets_bind.
  rewrite set_forward_extremities_run. do 2 f_equal. unfold next_extremities.
  change (bool_decide (map_Exists _ _)) with (referenced s (event_id p)).
  set (ids := bset_iter _). assert (forall x, x ∈ ids <->
    (room_id p, x) ∈ forward_extremities s /\ x ∉ prev_events p \/ referenced s (event_id p) = false /\ x = event_id p) as Hids.
  { intros x. unfold ids.
    rewrite elem_of_bset_iter, elem_of_union, elem_of_list_to_set, list_elem_of_filter, elem_of_room_extremities.
    rewrite (and_comm (x ∉ _)). apply or_iff_compat_l. destruct (referenced s (event_id p)); [set_solver|].
    rewrite elem_of_singleton. split; [done|by intros [_ ?]]. }
  clearbody ids. apply set_eq. intros [r x].
  rewrite !elem_of_union, elem_of_list_to_set, list_elem_of_fmap, !elem_of_filter. cbn [fst snd].
  assert ((exists y, (r, x) = (room_id p, y) /\ y ∈ ids) <-> r = room_id p /\ x ∈ ids) as ->.
  { split; [by intros (y & [= -> ->] & ?)|]. intros [-> ?]. by exists x. }
  assert ((r, x) ∈ (if referenced s (event_id p) then ∅ else {[ (room_id p, event_id p) ]} : gset (string * string))
    <-> r = room_id p /\ referenced s (event_id p) = false /\ x = event_id p) as ->.
  { destruct (referenced s (event_id p)); [set_solver|]. rewrite elem_of_singleton. split; [by intros [= -> ->]|by intros (-> & _ & ->)]. }
  destruct (decide (r = room_id p)) as [->|Hr]; [|tauto].
  rewrite Hids. destruct (decide (x ∈ prev_events p)), (decide ((room_id p, x) ∈ forward_extremities s)),
    (decide (referenced s (event_id p) = false /\ x = event_id p)); tauto.
Qed.
(** ** Taking the event in *)

(** The edges of an event to its predecessors. *)
Definition edges_of (p : StoredPdu) : gmap (string * string) string :=
  list_to_map ((fun prev => ((event_id p, prev), room_id p)) <$> prev_events p).

Lemma edges_of_lookup (p : StoredPdu) (prev : string) (e : gmap (string * string) string) :
  prev ∈ prev_events p -> is_Some ((e ∪ edges_of p) !! (event_id p, prev)).
Proof.
  intros Hp. rewrite lookup_union_is_Some. right. apply not_eq_None_Some. intros Hn.
  apply not_elem_of_list_to_map in Hn. apply Hn. rewrite <- list_fmap_compose.
  apply list_elem_of_fmap. by exists prev.
Qed.

Lemma add_edges_run id r l s :
  st_iter (fun prev => upd_edges (fun e => e ∪ {[ (id, prev) := r ]})) l s
  = (Done tt, put_event_edges (event_edges s ∪ list_to_map ((fun prev => ((id, prev), r)) <$> l)) s).
Proof.
  revert s. induction l as [|x l IH]; intros s; cbn [st_iter].
  - cbn. rewrite map_union_empty. by destruct s.
  - erewrite bind_St_run by reflexivity. rewrite IH. cbn [event_edges put_event_edges].
    change (put_event_edges ?a (put_event_edges ?b ?s)) with (put_event_edges a s).
    do 2 f_equal. rewrite fmap_cons, list_to_map_cons, insert_union_singleton_l. by rewrite map_union_assoc.
Qed.

Lemma enter_timeline_run p j s :
  enter_timeline p j s
  = (Done tt, put_event_edges (event_edges s ∪ edges_of p)
       (put_rows (alter (row_outlier false) (event_id p) (rows s))
         (put_datas (<[event_id p := {| ed_sn := sn p; ed_room_id := room_id p;
                                        ed_json := into_json (CObject j) |}]> (datas s)) s))).
Proof. unfold enter_timeline. do 2 (erewrite bind_St_run by reflexivity). by rewrite add_edges_run. Qed.

(** Only [unsigned] is written to. *)
Definition same_signed (j j' : CanonicalJsonObject) : Prop :=
  bt_wf j' /\ forall k, k <> "unsigned" -> bt_get k j' = bt_get k j.
Lemma same_signed_unsigned j v : bt_wf j -> same_signed j (bt_insert "unsigned" v j).
Proof.
  intros Hwf. split; [by apply bt_insert_wf|]. intros k Hk. rewrite bt_get_insert by done.
  by destruct (String.eqb_spec k "unsigned").
Qed.
Lemma add_prev_content_signed p j s j' s' :
  bt_wf j -> add_prev_content p j s = (Done j', s') -> same_signed j j'.
Proof.
  intros Hwf. assert (same_signed j j) as Hj by done. unfold add_prev_content.
  destruct (state_key p); [|by intros [= <- <-]]. destruct (default _ _); try by intros [= <- <-].
  intros H. apply bind_St in H as (frame & s1 & _ & H). apply bind_St in H as (prev & s2 & _ & [= <- <-]).
  by apply same_signed_unsigned.
Qed.

(** What follows writes neither events nor the graph. *)
Record settled s s' : Prop := {
  se_aside : aside s s';
  se_datas : datas s' = datas s
}.
#[global] Instance settled_preorder : PreOrder settled.
Proof. split; [by intros s|]. intros s1 s2 s3 [A1 D1] [A2 D2]. split; [by etrans|by rewrite D2]. Qed.
Lemma settled_call {A} (c : Call A) : keeps settled (call c).
Proof. intros s. unfold call. by destruct (call_on c (others s)). Qed.
Lemma settled_of_res {A} (r : result AppError A) : keeps settled (of_res r).
Proof. intros s. by unfold of_res. Qed.
Lemma settled_get_pdu id : keeps settled (get_pdu id).
Proof. intros s. by unfold get_pdu. Qed.
Lemma settled_on_frames {A} (m : St FramesDb A) : keeps settled (on_frames m).
Proof. intros s. unfold on_frames. by destruct (m (frames s)). Qed.
#[local] Hint Resolve @settled_call @settled_on_frames @settled_of_res settled_get_pdu : keeps.
Lemma settled_get_room_state r ty k : keeps settled (get_room_state r ty k).
Proof. unfold get_room_state, get_frame_state. keeps_auto. Qed.
#[local] Hint Resolve settled_get_room_state : keeps.
Lemma settled_forward_to_appservice p a : keeps settled (forward_to_appservice conf p a).
Proof. unfold forward_to_appservice, appservice_wants, matching_aliases. keeps_auto. Qed.
Lemma settled_forward_to_peekers p : keeps settled (forward_to_peekers p).
Proof.
  unfold forward_to_peekers, is_world_readable, get_history_visibility, get_room_state_content, acl_check. keeps_auto.
Qed.
#[local] Hint Resolve settled_forward_to_appservice settled_forward_to_peekers : keeps.

(** The steps of [append_pdu] around the one that takes the event in. *)
Lemma append_pdu_phases p j s s' :
  append_pdu conf p j s = (Done tt, s') ->
  exists j' s1 s2 s3, add_prev_content p j s = (Done j', s1) /\
    aside (put_forward_extremities (next_extremities p s) s1) s2 /\
    enter_timeline p j' s2 = (Done tt, s3) /\ settled s3 s'.
Proof.
  unfold append_pdu. intros H. apply bind_St in H as (j' & s1 & H1 & H).
  pose proof (keeps_run aside _ _ _ _ (aside_add_prev_content p j) H1) as A1.
  rewrite (bind_St_run _ _ _ _ _ (update_forward_extremities_run p s1)) in H.
  assert (next_extremities p s1 = next_extremities p s) as E.
  { destruct A1 as [F1 E1 _]. unfold next_extremities, referenced. by rewrite F1, E1. }
  rewrite E in H.
  apply bind_St in H as ([] & a1 & Ha1 & H). apply bind_St in H as ([] & a2 & Ha2 & H).
  apply bind_St in H as (pl & a3 & Ha3 & H). apply bind_St in H as (users & a4 & Ha4 & H).
  apply bind_St in H as ([no hi] & a5 & Ha5 & H). apply bind_St in H as ([] & a6 & Ha6 & H).
  apply bind_St in H as ([] & s2 & Ha7 & H). apply bind_St in H as ([] & s3 & H3 & H).
  exists j', s1, s2, s3. split; [done|]. split; [|split; [done|]].
  - apply (keeps_run aside) in Ha1; [|by eauto 2 with keeps]. apply (keeps_run aside) in Ha2; [|by eauto 2 with keeps].
    apply (keeps_run aside) in Ha3; [|apply keeps_try; by eauto 2 with keeps].
    apply (keeps_run aside) in Ha4; [|by eauto 2 with keeps]. apply (keeps_run aside) in Ha5; [|by eauto 2 with keeps].
    apply (keeps_run aside) in Ha6; [|by eauto 2 with keeps]. apply (keeps_run aside) in Ha7; [|by eauto 2 with keeps].
    do 6 (etransitivity; [eassumption|]). done.
  - match type of H with ?m s3 = _ => assert (keeps settled m) as Hm end; [keeps_auto|].
    by apply (keeps_run _ _ _ _ _ Hm H).
Qed.
(** ** Other events *)

(** The stored events that are written to besides the event itself: the root of the thread
    it is part of, and the event it redacts. *)
Definition also_written p : list string :=
  (match relation_target (content p) with RelThread id => [id] | _ => [] end ++
   match redacts p with Some id => if event_type p =? "m.room.redaction" then [id] else [] | None => [] end)%list.
(** All other events are as they were. *)
Record spares (T : list string) s s' : Prop := {
  sp_datas id : id ∉ T -> datas s' !! id = datas s !! id;
  sp_rows id : id ∉ T -> rows s' !! id = rows s !! id
}.
#[local] Instance spares_preorder T : PreOrder (spares T).
Proof.
  split; [by intros s|]. intros s1 s2 s3 [D1 R1] [D2 R2].
  split; intros id Hid; [by rewrite D2, D1|by rewrite R2, R1].
Qed.
Lemma spares_same T s s' : datas s' = datas s -> rows s' = rows s -> spares T s s'.
Proof. intros Hd Hr. split; intros id _; [by rewrite Hd|by rewrite Hr]. Qed.
Lemma spares_on_frames T {A} (m : St FramesDb A) : keeps (spares T) (on_frames m).
Proof. intros s. unfold on_frames. destruct (m (frames s)). by apply spares_same. Qed.
Lemma spares_call T {A} (c : Call A) : keeps (spares T) (call c).
Proof. intros s. unfold call. destruct (call_on c (others s)). by apply spares_same. Qed.
Lemma spares_of_res T {A} (r : result AppError A) : keeps (spares T) (of_res r).
Proof. intros s. by apply spares_same. Qed.
Lemma spares_upd_forward T f : keeps (spares T) (upd_forward f).
Proof. intros s. by apply spares_same. Qed.
Lemma spares_upd_backward T f : keeps (spares T) (upd_backward f).
Proof. intros s. by apply spares_same. Qed.
Lemma spares_upd_gaps T f : keeps (spares T) (upd_gaps f).
Proof. intros s. by apply spares_same. Qed.
Lemma spares_upd_missings T f : keeps (spares T) (upd_missings f).
Proof. intros s. by apply spares_same. Qed.
Lemma spares_upd_edges T f : keeps (spares T) (upd_edges f).
Proof. intros s. by apply spares_same. Qed.
Lemma spares_get_pdu T id : keeps (spares T) (get_pdu id).
Proof. intros s. by apply spares_same. Qed.
Lemma spares_get_pdu_and_data T id : keeps (spares T) (get_pdu_and_data id).
Proof. intros s. unfold get_pdu_and_data. repeat case_match; by apply spares_same. Qed.
Lemma spares_alter_row (T : list string) g i : i ∈ T -> keeps (spares T) (upd_rows (alter g i)).
Proof. intros Hi s. split; [done|]. intros id Hid. cbn. rewrite lookup_alter_ne; [done|]. by intros ->. Qed.
Lemma spares_alter_data (T : list string) g i : i ∈ T -> keeps (spares T) (upd_datas (alter g i)).
Proof. intros Hi s. split; [|done]. intros id Hid. cbn. rewrite lookup_alter_ne; [done|]. by intros ->. Qed.
Lemma spares_insert_data (T : list string) d i : i ∈ T -> keeps (spares T) (upd_datas (<[i := d]>)).
Proof. intros Hi s. split; [|done]. intros id Hid. cbn. rewrite lookup_insert_ne; [done|]. by intros ->. Qed.
#[local] Hint Resolve @spares_on_frames @spares_call @spares_of_res spares_upd_forward spares_upd_backward
  spares_upd_gaps spares_upd_missings spares_upd_edges spares_get_pdu spares_get_pdu_and_data
  spares_alter_row spares_alter_data spares_insert_data : keeps.

Lemma spares_get_room_state T r ty k : keeps (spares T) (get_room_state r ty k).
Proof. unfold get_room_state, get_frame_state. keeps_auto. Qed.
#[local] Hint Resolve spares_get_room_state : keeps.
Lemma spares_record_relations (T : list string) p :
  (forall id, id ∈ also_written p -> id ∈ T) -> keeps (spares T) (record_relations p).
Proof.
  intros HT. unfold also_written in HT. unfold record_relations. destruct (relation_target (content p)) as [id|id|] eqn:E;
    [|assert (id ∈ T) by (apply HT; set_solver)|];
    unfold add_relation, add_to_thread, get_event_sn_and_ty, replace_pdu; keeps_auto.
Qed.
Lemma spares_push_for_users T p pl us acc : keeps (spares T) (push_for_users p pl us acc).
Proof. revert acc. induction us; intros; cbn; unfold push_for_user; keeps_auto. Qed.
Lemma spares_by_event_type (T : list string) p :
  (forall id, id ∈ also_written p -> id ∈ T) -> keeps (spares T) (by_event_type conf p).
Proof.
  intros HT. unfold also_written in HT. unfold by_event_type. destruct (event_type p =? "m.room.redaction").
  - destruct (redacts p) as [id|]; [|keeps_auto]. assert (id ∈ T) by (apply HT; set_solver).
    unfold redact_pdu, replace_pdu. keeps_auto.
  - unfold on_member, on_message, on_tombstone, summary_stripped, to_stripped_state_event, get_version. keeps_auto.
Qed.
Lemma spares_power_levels T r : keeps (spares T) (get_power_levels r).
Proof. unfold get_power_levels, get_room_state_content. keeps_auto. Qed.
Lemma spares_forwarding T p a : keeps (spares T) (forward_to_appservice conf p a).
Proof. unfold forward_to_appservice, appservice_wants, matching_aliases. keeps_auto. Qed.
Lemma spares_peekers T p : keeps (spares T) (forward_to_peekers p).
Proof.
  unfold forward_to_peekers, is_world_readable, get_history_visibility, get_room_state_content, acl_check. keeps_auto.
Qed.
#[local] Hint Resolve spares_record_relations spares_push_for_users spares_by_event_type spares_power_levels
  spares_forwarding spares_peekers : keeps.
Lemma spares_append_pdu p j : keeps (spares (event_id p :: also_written p)) (append_pdu conf p j).
Proof.
  assert (event_id p ∈ event_id p :: also_written p) by set_solver.
  assert (forall id, id ∈ also_written p -> id ∈ event_id p :: also_written p) by set_solver.
  unfold append_pdu, add_prev_content, get_frame_state, update_forward_extremities, get_forward_extremities,
    set_forward_extremities, update_backward_extremities, add_backward, add_gap, add_missing, enter_timeline, save_data.
  keeps_auto.
Qed.

(** ** Computations that do not panic *)

Inductive ended {A} (m : Db A) s : Prop :=
| ended_done a s' : m s = (Done a, s') -> ended m s
| ended_fail e s' : m s = (Fail e, s') -> ended m s.
Definition sane {A} (m : Db A) : Prop := forall s, ended m s.
Lemma sane_bind {A B} (m : Db A) (k : A -> Db B) : sane m -> (forall a, sane (k a)) -> sane (m ≫= k).
Proof.
  intros Hm Hk s. destruct (Hm s) as [a s1 H|e s1 H].
  - destruct (Hk a s1) as [b s2 H2|e s2 H2]; [apply (ended_done _ _ b s2)|apply (ended_fail _ _ e s2)];
      by rewrite (bind_St_run _ _ _ _ _ H).
  - apply (ended_fail _ _ e s1). by apply bind_St_fail.
Qed.
Lemma sane_iter {A} (f : A -> Db unit) l : (forall a, sane (f a)) -> sane (st_iter f l).
Proof. intros Hf. induction l; cbn; [by intros s; eapply ended_done|]. by apply sane_bind. Qed.
Lemma sane_ok {A} (m : Db A) : (forall s, exists a s', m s = (Done a, s')) -> sane m.
Proof. intros H s. destruct (H s) as (a & s' & E). by apply (ended_done _ _ a s'). Qed.
Lemma update_backward_sane p : sane (update_backward_extremities p).
Proof.
  unfold update_backward_extremities, add_backward, add_gap, add_missing.
  repeat ((apply sane_bind; [|intros ?]) || (apply sane_iter; intros ?)
          || (apply sane_ok; intros ?; do 2 eexists; reflexivity)
          || (intros ?; by eapply ended_fail) || case_match).
Qed.

(** ** Properties *)

(** The effect of a successful [append_pdu]. *)
Lemma append_pdu_effect p j s s' :
  bt_wf j -> is_Some (rows s !! event_id p) -> append_pdu conf p j s = (Done tt, s') ->
  (forall id, in_timeline s' id = (id =? event_id p) || in_timeline s id) /\
  (exists j', same_signed j j' /\
     datas s' !! event_id p = Some {| ed_sn := sn p; ed_room_id := room_id p; ed_json := into_json (CObject j') |}) /\
  event_edges s' = event_edges s ∪ edges_of p /\
  forward_extremities s' = next_extremities p s.
Proof.
  intros Hwf [r Hr] H. destruct (append_pdu_phases _ _ _ _ H) as (j' & s1 & s2 & s3 & H1 & A12 & H23 & [A3 D3]).
  pose proof (keeps_run aside _ _ _ _ (aside_add_prev_content p j) H1) as A1.
  rewrite enter_timeline_run in H23. injection H23 as <-.
  assert (forall id, er_is_outlier <$> rows s2 !! id = er_is_outlier <$> rows s !! id) as R2.
  { intros id. rewrite (as_rows _ _ A12). apply A1. }
  split; [|split; [|split]].
  - intros id. rewrite (aside_timeline _ _ _ A3). unfold in_timeline. cbn. specialize (R2 id).
    destruct (String.eqb_spec id (event_id p)) as [->|Hne]; cbn.
    + rewrite lookup_alter_eq. rewrite Hr in R2. by destruct (rows s2 !! event_id p).
    + rewrite lookup_alter_ne by done. destruct (rows s2 !! id), (rows s !! id); cbn in R2; congruence.
  - exists j'. split; [by apply (add_prev_content_signed p j s j' s1)|]. rewrite D3. cbn. by rewrite lookup_insert_eq.
  - rewrite (as_edges _ _ A3). cbn. by rewrite (as_edges _ _ A12), <- (as_edges _ _ A1).
  - rewrite (as_forward _ _ A3). cbn. by rewrite (as_forward _ _ A12).
Qed.

(** C18: when [append_pdu] succeeds on a stored event, the event is in the timeline, its
    stored JSON is the given one but for [unsigned], it has an edge to each of its
    predecessors, the predecessors are no longer forward extremities and the event is
    one unless something already refers to it.  No other event enters or leaves the
    timeline, every other edge and extremity is as it was, and of the stored events only
    the event itself, the root of its thread and the event it redacts can change. *)
Theorem append_pdu_takes_in p j s s' :
  bt_wf j -> is_Some (rows s !! event_id p) -> append_pdu conf p j s = (Done tt, s') ->
  (forall id, in_timeline s' id = (id =? event_id p) || in_timeline s id) /\
  (exists j', same_signed j j' /\
     datas s' !! event_id p = Some {| ed_sn := sn p; ed_room_id := room_id p; ed_json := into_json (CObject j') |}) /\
  event_edges s' = event_edges s ∪ edges_of p /\
  forward_extremities s' = next_extremities p s /\
  (forall id, id <> event_id p -> id ∉ also_written p ->
     datas s' !! id = datas s !! id /\ rows s' !! id = rows s !! id).
Proof.
  intros Hwf Hr H. destruct (append_pdu_effect p j s s' Hwf Hr H) as (Ht & Hd & He & Hf). repeat (split; [done|]).
  intros id Hne Hid. pose proof (keeps_run (spares _) _ _ _ _ (spares_append_pdu p j) H) as [Sd Sr].
  assert (id ∉ event_id p :: also_written p) as Hout by (rewrite elem_of_cons; tauto). auto.
Qed.

(** C39: a message that replies to an event the server does not have is dropped:
    [append_pdu] fails and the message does not enter the timeline; yet its
    predecessors are gone from the forward extremities and the message has taken their
    place. *)
Theorem reply_to_unknown_dropped p j s reply_to :
  state_key p = None -> relation_target (content p) = RelReply reply_to -> rows s !! reply_to = None ->
  exists e s', append_pdu conf p j s = (Fail e, s') /\
    (forall id, in_timeline s' id = in_timeline s id) /\
    forward_extremities s' = next_extremities p s.
Proof.
  intros Hk Hrel Hun. unfold append_pdu, add_prev_content. rewrite Hk, st_ret_bind.
  rewrite (bind_St_run _ _ _ _ _ (update_forward_extremities_run p s)).
  set (s1 := put_forward_extremities _ s).
  pose proof (aside_update_backward_extremities p s1) as A1.
  destruct (update_backward_sane p s1) as [[] s2 Hb|e s2 Hb]; rewrite Hb in A1; cbn in A1.
  - rewrite (bind_St_run _ _ _ _ _ Hb). unfold record_relations. rewrite Hrel. unfold add_relation, get_event_sn_and_ty.
    assert (rows s2 !! reply_to = None) as Hun2.
    { pose proof (as_rows _ _ A1 reply_to) as R. cbn in R. rewrite Hun in R. by destruct (rows s2 !! reply_to). }
    exists DbNotFound, s2. split; [|split; [|apply A1]].
    + apply bind_St_fail, bind_St_fail. rewrite st_gets_bind. by rewrite Hun2.
    + intros id. apply (aside_timeline _ _ id A1).
  - rewrite (bind_St_fail _ _ _ _ _ Hb). exists e, s2. split; [done|]. split; [|apply A1].
    intros id. apply (aside_timeline _ _ id A1).
Qed.
End aside.
#[export] Hint Resolve @aside_on_frames @aside_call @aside_of_res aside_upd_datas aside_upd_backward aside_upd_gaps
  aside_upd_missings aside_get_pdu aside_get_room_state aside_get_auth_events : keeps.
