(* ===== verification/IncomingSpec.v ===== *)
(** * Bounds of the handlers, and who may speak

    The recursion that resolves the state at an event is bounded by its budget, and what
    the admission of an event to the timeline means for its sender. *)
From S2P Require Import Prelude RustStr BTree Identifiers RoomVersion Json Canonical Redaction Signatures Events Membership EventAuth TopoSort StateRes Effects Calls StateFrames AuthChain RoomPowerLevels EventStore AppendPdu Incoming StoreHistory Admission.
Open Scope string_scope.

Section bounds.
Context {U : Unicode} {C : Crypto} {HO : HashOrder} {WM : WildMatch}.
Context {LF : LruCache Z (list FrameInfo)} {LA : LruCache (list Z) (list Z)}.
Context {O : Type} {SV : Services O}.
#[local] Abbreviation Db := (St (Store (O := O))).
Implicit Types (s : Store (O := O)).

(** ** The budget of [resolve_state_at_incoming] *)

(** What is left of the budget is at most [n]. *)
Definition leaves_at_most {A} (n : nat) (m : Db (A * nat)) : Prop :=
  forall s a s', m s = (Done a, s') -> (a.2 <= n)%nat.
Lemma at_most_bind {A B} n (m : Db A) (k : A -> Db (B * nat)) :
  (forall a, leaves_at_most n (k a)) -> leaves_at_most n (m ≫= k).
Proof. intros Hk s b s' H. apply bind_St in H as (a & s1 & _ & H). by apply (Hk a s1 b s'). Qed.
Lemma at_most_ret {A} n (a : A) k : (k <= n)%nat -> leaves_at_most n (mret (a, k)).
Proof. intros Hk s b s' [= <- <-]. done. Qed.
Lemma at_most_fail {A} n e : leaves_at_most (A := A) n (st_fail e).
Proof. by intros s b s' [=]. Qed.
Lemma at_most_bind_rem {A B} n (m : Db (A * nat)) (k : A * nat -> Db (B * nat)) :
  leaves_at_most n m -> (forall a r, (r <= n)%nat -> leaves_at_most n (k (a, r))) -> leaves_at_most n (m ≫= k).
Proof.
  intros Hm Hk s b s' H. apply bind_St in H as ([a r] & s1 & H1 & H). apply (Hk a r (Hm _ _ _ H1) s1 b s' H).
Qed.

#[local] Hint Resolve at_most_ret at_most_fail : core.
Lemma leaf_states_at_most (rec : PduEvent -> nat -> Db (option FieldState * nat)) ids n rem ls h :
  (forall q k, (k <= n)%nat -> leaves_at_most n (rec q k)) -> (rem <= n)%nat ->
  leaves_at_most n (leaf_states rec ids rem ls h).
Proof.
  intros Hrec. revert rem ls h. induction ids as [|id ids IH]; intros rem ls h Hrem; cbn [leaf_states]; [auto|].
  apply at_most_bind. intros [prev|]; [|auto]. destruct (rejected (inner prev)); [auto|].
  apply at_most_bind. intros before. apply at_most_bind_rem.
  - destruct before as [f|e]; [apply at_most_bind; auto|]. destruct (negb _); [auto|].
    destruct (state_key (inner prev)); [auto|]. apply at_most_bind. intros [f|e2]; [apply at_most_bind; auto|].
    destruct (is_not_found e2); auto.
  - intros [leaf|] r Hr; [|auto]. apply at_most_bind. auto.
Qed.
Lemma resolve_inner_at_most stuck fuel rules p rs rem :
  (rem < fuel)%nat -> leaves_at_most rem (resolve_inner stuck fuel rules p rs rem).
Proof.
  revert p rs rem. induction fuel as [|fuel IH]; intros p rs rem Hf; cbn [resolve_inner]; [lia|].
  destruct (Nat.eqb_spec rem 0); cbn [orb]; [auto|]. destruct (bool_decide _); [auto|]. apply at_most_bind_rem.
  - intros s a s' H. enough (snd a <= rem - 1)%nat by lia. revert s a s' H. apply leaf_states_at_most; [|lia].
    intros q k Hk s a s' H. apply IH in H; lia.
  - intros [[ls h]|] r Hr; [|auto]. apply at_most_bind. intros [f|]; apply at_most_bind; auto.
Qed.

(** Two computations that agree. *)
Lemma st_bind_ext {A B} (m m' : Db A) (k k' : A -> Db B) s :
  m s = m' s -> (forall a s', m s = (Done a, s') -> k a s' = k' a s') -> (m ≫= k) s = (m' ≫= k') s.
Proof. intros Hm Hk. unfold mbind, St_bind. rewrite <- Hm. destruct (m s) as [[a|e| |] s']; auto. Qed.

Lemma leaf_states_ext (rec rec' : PduEvent -> nat -> Db (option FieldState * nat)) ids n rem ls h s :
  (forall q k s, (k <= n)%nat -> rec q k s = rec' q k s) ->
  (forall q k, (k <= n)%nat -> leaves_at_most n (rec q k)) -> (rem <= n)%nat ->
  leaf_states rec ids rem ls h s = leaf_states rec' ids rem ls h s.
Proof.
  intros Hrec Hle. revert rem ls h s. induction ids as [|id ids IH]; intros rem ls h s Hrem; cbn [leaf_states]; [done|].
  apply st_bind_ext; [done|]. intros [prev|] s1 _; [|done]. destruct (rejected (inner prev)); [auto|].
  apply st_bind_ext; [done|]. intros before s2 _. apply st_bind_ext.
  - destruct before as [f|e]; [done|]. destruct (negb _); [done|]. destruct (state_key (inner prev)); auto.
  - intros [[leaf|] r] s3 H; [|done]. apply st_bind_ext; [done|]. intros leaf' s4 _. apply IH.
    destruct before as [f|e].
    + apply bind_St in H as (st & s5 & _ & [= _ <- _]). done.
    + destruct (negb _); [discriminate|]. destruct (state_key (inner prev)); [by apply (Hle _ _ Hrem _ _ _ H)|].
      apply bind_St in H as ([f|e2] & s5 & _ & H); [by apply bind_St in H as (st & s6 & _ & [= _ <- _])|].
      destruct (is_not_found e2); [by injection H as _ <- _|discriminate].
Qed.

Lemma resolve_inner_fuel stuck stuck' fuel fuel' rules p rs rem s :
  (rem < fuel)%nat -> (rem < fuel')%nat ->
  resolve_inner stuck fuel rules p rs rem s = resolve_inner stuck' fuel' rules p rs rem s.
Proof.
  revert fuel' p rs rem s. induction fuel as [|fuel IH]; intros [|fuel'] p rs rem s Hf Hf'; try lia.
  cbn [resolve_inner]. destruct (Nat.eqb_spec rem 0); cbn [orb]; [done|]. destruct (bool_decide _); [done|].
  apply st_bind_ext; [|done]. apply (leaf_states_ext _ _ _ (rem - 1)); [| |lia].
  - intros q k s1 Hk. apply IH; lia.
  - intros q k Hk s1 a s2 H. apply resolve_inner_at_most in H; lia.
Qed.

(** C30: the recursion that resolves the state at an event through predecessors without a
    snapshot is bounded by its budget of visited events: its fuel never runs out, since
    whatever is put in the place of running out, and with any more fuel, it gives the
    same result in the same store. *)
Theorem resolve_state_bounded (p : PduEvent) rules stuck fuel s :
  (MAX_RESOLVED_EVENTS < fuel)%nat ->
  resolve_state_at_incoming p rules s
  = ('(r, _) ← resolve_inner stuck fuel rules p ∅ MAX_RESOLVED_EVENTS; mret r : Db (option FieldState)) s.
Proof.
  intros Hf. unfold resolve_state_at_incoming. apply st_bind_ext; [|done].
  apply resolve_inner_fuel; [unfold MAX_RESOLVED_EVENTS; lia|done].
Qed.
End bounds.

(** ** The sender of an event that enters the timeline *)

Section speakers.
Context {U : Unicode} {C : Crypto} {HO : HashOrder} {WM : WildMatch}.
Context {LF : LruCache Z (list FrameInfo)} {LA : LruCache (list Z) (list Z)}.
Context {O : Type} {SV : Services O}.
Context (conf : Config).
#[local] Abbreviation Db := (St (Store (O := O))).
Implicit Types (s : Store (O := O)).

(** [q] is the event of the room's current state under a key, when the state is read in
    the store [s] for the auth types [ts]: the fields of the types are looked up, then the
    snapshot of the room's current frame is loaded, and it has an entry for the key whose
    event is [q]. *)
Definition current_event (ts : list (string * string)) (room ty key : string) (q : StoredPdu) s : Prop :=
  exists frame m state c field sn s1 s2,
    mjoin (rooms (frames s) !! room) = Some frame /\
    auth_fields ts ∅ s = (Done m, s1) /\
    on_frames (full_state_of frame) s1 = (Done state, s2) /\
    c ∈ state /\ ce_field_id c = Some field /\ ce_event_sn c = Some sn /\
    room_state_fields (frames s1) !! (ty, key) = Some field /\
    fst (get_event_id_by_sn sn (frames s2)) = Done (event_id (inner q)) /\
    load_pdu s2 (event_id (inner q)) = Ok q.

(** The room's current state, read for the auth types of the event, has a membership event
    of its sender that says that the sender is joined. *)
Definition sender_joined (rules : RoomVersionRules.t) (p : PduEvent) s : Prop :=
  exists ts q,
    auth_types_for_event (event_type p) (sender p) (state_key p) (content p)
      rules.(RoomVersionRules.authorization) = Ok ts /\
    current_event ts (room_id p) "m.room.member" (sender p) q s /\
    RoomMember.membership (content (inner q)) = Ok MJoin.

(** Field ids as they are stored. *)
Definition fields_known (m : gmap Z (string * string)) s : Prop :=
  forall f k, m !! f = Some k -> room_state_fields (frames s) !! k = Some f.

Lemma auth_fields_known ts acc s m s' :
  fields_known acc s -> auth_fields ts acc s = (Done m, s') -> fields_known m s'.
Proof.
  revert acc s. induction ts as [|[ty k] ts IH]; intros acc s Hacc H; cbn [auth_fields] in H.
  - by injection H as <- <-.
  - apply bind_St in H as (r & s1 & H1 & H). apply IH in H; [done|].
    unfold st_try, on_frames, ensure_field_id, ensure_state_field_id in H1.
    destruct (room_state_fields (frames s) !! (ty, k)) as [f|] eqn:Hf; cbn in H1; injection H1 as <- <-;
      intros f' k' H'; cbn; apply lookup_insert_Some in H' as [[<- <-]|[Hne H']].
    + done.
    + by apply Hacc.
    + by rewrite lookup_insert_eq.
    + apply Hacc in H'. rewrite lookup_insert_ne; [done|]. congruence.
Qed.

Lemma load_pdu_id s id q : load_pdu s id = Ok q -> event_id (inner q) = id.
Proof.
  unfold load_pdu. destruct (rows s !! id); [|discriminate]. destruct (datas s !! id); [|discriminate].
  destruct (pdu_from_json_value _ _ _) as [x|] eqn:Hx; [|discriminate]. intros [= <-].
  apply (pdu_from_json_value_ids _ _ _ _ Hx).
Qed.
Lemma on_frames_ce_split c s field id s' :
  on_frames (ce_split c) s = (Done (field, id), s') ->
  s' = s /\ exists sn, ce_field_id c = Some field /\ ce_event_sn c = Some sn /\
    fst (get_event_id_by_sn sn (frames s)) = Done id.
Proof.
  unfold on_frames. destruct (ce_split c (frames s)) as [r f] eqn:E. intros [= -> <-]. unfold ce_split in E.
  apply bind_St in E as (x & f1 & E1 & E). destruct (ce_field_id c); [|discriminate]. injection E1 as <- <-.
  apply bind_St in E as (y & f2 & E2 & E). destruct (ce_event_sn c) as [sn|]; [|discriminate]. injection E2 as <- <-.
  apply bind_St in E as (i & f3 & E3 & [= <- <- <-]).
  assert (f3 = frames s) as ->.
  { unfold get_event_id_by_sn in E3. destruct (filter _ _) as [|[] ?]; congruence. }
  split; [by destruct s|]. exists sn. by rewrite E3.
Qed.

Lemma auth_events_loop_from state sauth0 acc s evs s' k q :
  auth_events_loop state sauth0 acc s = (Done evs, s') -> evs !! k = Some q ->
  acc !! k = Some q \/
  exists c field sn, c ∈ state /\ ce_field_id c = Some field /\ ce_event_sn c = Some sn /\
    sauth0 !! field = Some k /\
    fst (get_event_id_by_sn sn (frames s)) = Done (event_id (inner q)) /\
    load_pdu s (event_id (inner q)) = Ok q.
Proof.
  revert sauth0 acc. induction state as [|c state IH]; intros sauth0 acc H Hk; cbn [auth_events_loop] in H.
  { injection H as <- <-. by left. }
  apply bind_St in H as ([field id] & s1 & H1 & H). apply on_frames_ce_split in H1 as (-> & sn & Hf & Hsn & Hid).
  assert (forall sauth acc, (forall f x, sauth !! f = Some x -> sauth0 !! f = Some x) ->
    auth_events_loop state sauth acc s = (Done evs, s') -> acc !! k = Some q \/
    exists c' field' sn', c' ∈ c :: state /\ ce_field_id c' = Some field' /\ ce_event_sn c' = Some sn' /\
      sauth0 !! field' = Some k /\
      fst (get_event_id_by_sn sn' (frames s)) = Done (event_id (inner q)) /\ load_pdu s (event_id (inner q)) = Ok q) as Hrest.
  { intros sauth acc1 Hsub Hl. destruct (IH _ _ Hl Hk) as [?|(c' & f' & sn' & Hc' & ? & ? & Hs & ?)]; [by left|right].
    exists c', f', sn'. repeat (split; [done || by apply list_elem_of_further || by apply Hsub|]). done. }
  destruct (sauth0 !! field) as [key|] eqn:Hkey; [|by apply (Hrest sauth0)].
  apply bind_St in H as (p & s1 & Hp & H).
  unfold st_try, get_pdu in Hp. destruct (load_pdu s id) as [x|] eqn:Hx; injection Hp as <- <-.
  - destruct (Hrest (delete field sauth0) (<[key := x]> acc)) as [Hacc|?]; [by intros f y [_ ?]%lookup_delete_Some|done| |by right].
    apply lookup_insert_Some in Hacc as [[-> <-]|[_ ?]]; [right|by left].
    pose proof (load_pdu_id _ _ _ Hx) as Hidx. exists c, field, sn. rewrite Hidx.
    repeat (split; [done || apply list_elem_of_here|]). done.
  - apply (Hrest (delete field sauth0)); [by intros f y [_ ?]%lookup_delete_Some|done].
Qed.

(** The auth events are events of the current state. *)
Lemma get_auth_events_current room ty sender sk content rules s evs s' key q :
  get_auth_events room ty sender sk content rules s = (Done evs, s') -> evs !! key = Some q ->
  exists ts, auth_types_for_event ty sender sk content rules = Ok ts /\ current_event ts room key.1 key.2 q s.
Proof.
  unfold get_auth_events. intros H Hq. apply bind_St in H as (frame & s1 & H1 & H).
  unfold st_try, on_frames, get_room_frame_id, data_get_room_frame_id in H1. rewrite st_gets_bind in H1.
  destruct (mjoin (rooms (frames s) !! room)) as [f|] eqn:Hf; injection H1 as <- <-.
  2: { injection H as <- <-. by rewrite lookup_empty in Hq. }
  set (s0 := put_frames (frames s) s) in H. assert (s0 = s) as Hs0 by (by destruct s). rewrite Hs0 in H. clear s0 Hs0.
  apply bind_St in H as (ts & s1 & H1 & H). apply of_res_done in H1 as [Hts ->].
  apply bind_St in H as (m & s1 & H1 & H). apply bind_St in H as (state & s2 & H2 & H).
  exists ts. split; [by destruct (auth_types_for_event _ _ _ _ _); inversion Hts|].
  pose proof (auth_fields_known ts ∅ s m s1) as Hm1.
  destruct (auth_events_loop_from _ _ _ _ _ _ _ _ H Hq) as [E|(c & field & sn & Hc & Hfi & Hsn & Hm & Hid & Hl)].
  { by rewrite lookup_empty in E. }
  apply Hm1 in Hm; [|by intros f' k'; rewrite lookup_empty|done].
  destruct key as [ty' k']. exists f, m, state, c, field, sn, s1, s2. apply elem_of_bset_iter in Hc. done.
Qed.
Lemma authorized_sender_joined rules (p : PduEvent) st s :
  authorized rules p st s ->
  event_type p ∉ ["m.room.create"; "m.room.member"; "m.room.aliases"] -> sender_joined rules p s.
Proof.
  intros [_ (evs & s2 & Hevs & Hauth)] Hty. rewrite !elem_of_cons in Hty.
  apply allowed_sender_joined in Hauth; [|tauto..].
  unfold fetch_user_membership, fetch_auth_event in Hauth.
  destruct (evs !! ("m.room.member", sender p)) as [q|] eqn:Hq.
  - destruct (get_auth_events_current _ _ _ _ _ _ _ _ _ _ _ Hevs Hq) as (ts & Hts & Hc). by exists ts, q.
  - rewrite andb_false_r in Hauth. discriminate.
Qed.

(** C15: when an event that was not in the timeline has entered it, a call of
    [process_to_timeline_pdu] that the run makes took it in, with the event as it was stored
    under its ID in the store [s0] of that call.  The event is an invite for a room the
    server is neither in nor peeks into, an event of one of the three types with rules of
    their own, or an event whose sender was joined according to the room's current state,
    as the call reads it once it has the state at the event. *)
Theorem newcomers_are_joined remote_server id room room_version value is_timeline_event backfill s i :
  let s' := snd (process_incoming_pdu conf remote_server id room room_version value is_timeline_event backfill s) in
  in_timeline s i = false -> in_timeline s' i = true ->
  exists c s0,
    visits (enter conf) (incoming_pdu conf remote_server id room room_version value is_timeline_event backfill) s c s0 /\
    event_id (tc_pdu c) = i /\ rejected (tc_pdu c) = false /\ stored_as (tc_pdu c) s0 /\
    (is_invite_like conf (tc_pdu c) = true /\
       fst (server_in_room conf (room_id (tc_pdu c)) s0) = Done false \/
     event_type (tc_pdu c) ∈ ["m.room.create"; "m.room.member"; "m.room.aliases"] \/
     exists version rules st s1 s2,
       get_version (room_id (tc_pdu c)) s0 = (Done version, s0) /\ get_version_rules version = Ok rules /\
       server_in_room conf (room_id (tc_pdu c)) s0 = (Done true, s1) /\
       state_at_event (tc_pdu c) version rules (tc_remote c) s1 = (Done st, s2) /\
       sender_joined rules (tc_pdu c) s2).
Proof.
  intros s' Hout Hin.
  destruct (run_newcomer conf _ _ _ (quiet_incoming_pdu conf _ _ _ _ _ _ _) Hout Hin)
    as (c & s0 & Hv & _ & Hid & Ho & Hr & Hc).
  exists c, s0. repeat (split; [done|]). split; [exact (incoming_pdu_stored conf _ _ _ _ _ _ _ _ c s0 Hv)|].
  destruct Hc as [s1 Hi Hj|version rules st s1 s2 s3 Hver Hrules Hj Hst Hau _ _]; [left; by rewrite Hj|right].
  destruct (decide (event_type (tc_pdu c) ∈ ["m.room.create"; "m.room.member"; "m.room.aliases"])) as [?|Hty]; [by left|right].
  exists version, rules, st, s1, s2. repeat (split; [done|]). by apply (authorized_sender_joined _ _ st).
Qed.
End speakers.
