(* ===== verification/LocalPdu.v ===== *)
(** * Events of local users: [PduBuilder] of [event/pdu.rs],
      [build_and_append_pdu] of [room/timeline.rs] and
      [convert_to_outgoing_federation_event] of [sending.rs]

    A local event is completed from the room (predecessors, auth events, depth),
    authorized against the current state, hashed, signed and stored as an outlier; then
    it is appended to the timeline and queued for the servers in the room.  Contents are
    JSON values; [pb_raw] is the text a content came with, which is compared with the
    text of the stored one. *)
From S2P Require Import Prelude RustStr BTree Identifiers RoomVersion Json Canonical Redaction Signatures Events Membership EventAuth TopoSort StateRes Effects StateFrames AuthChain RoomPowerLevels EventStore AppendPdu Incoming.
Open Scope string_scope.

Record PduBuilder := {
  pb_event_type : string;
  pb_content : json;
  pb_raw : string;
  pb_unsigned : list (string * json);
  pb_state_key : option string;
  pb_redacts : option string;
  pb_timestamp : option Z
}.

(** The text [serde_json] writes for a JSON value. *)
Class RawText := raw_text : json -> string.

Definition with_event_id (id : string) (b : Pdu) : Pdu :=
  {| event_id := id; room_id := room_id b; sender := sender b;
     origin_server_ts := origin_server_ts b; event_type := event_type b; content := content b;
     state_key := state_key b; prev_events := prev_events b; auth_events := auth_events b;
     redacts := redacts b; rejected := rejected b |}.
Definition with_room_id (r : string) (b : Pdu) : Pdu :=
  {| event_id := event_id b; room_id := r; sender := sender b;
     origin_server_ts := origin_server_ts b; event_type := event_type b; content := content b;
     state_key := state_key b; prev_events := prev_events b; auth_events := auth_events b;
     redacts := redacts b; rejected := rejected b |}.

Section local.
Context {U : Unicode} {C : Crypto} {HO : HashOrder} {WM : WildMatch} {RT : RawText}.
Context {LF : LruCache Z (list FrameInfo)} {LA : LruCache (list Z) (list Z)}.
Context {O : Type} {SV : Services O}.
Context (conf : Config) (key_pair : KeyPair).
#[local] Abbreviation Db := (St (Store (O := O))).

(** ** [PduBuilder::hash_sign] *)

Fixpoint max_depth (prev_events : list string) (acc : Z) : Db Z :=
  match prev_events with
  | [] => mret acc
  | id :: prev_events =>
      p ← st_try (get_pdu id);
      max_depth prev_events (match p with Ok p => Z.max acc (depth (inner p)) | Err _ => acc end)
  end.

Definition prev_unsigned (room : string) (b : PduBuilder) : Db (list (string * json)) :=
  match pb_state_key b with
  | None => mret (pb_unsigned b)
  | Some key =>
      prev ← st_try (get_room_state room (pb_event_type b) key);
      mret (match prev with
            | Ok prev =>
                bt_insert "replaces_state" (JStr (event_id (inner prev)))
                  (bt_insert "prev_sender" (JStr (sender (inner prev)))
                     (bt_insert "prev_content" (content (inner prev)) (pb_unsigned b)))
            | Err _ => pb_unsigned b
            end)
  end.

(** The state the check reads: the auth events, then the current state. *)
Definition fetch_local (s : Store (O := O)) (room : string) (rules : AuthorizationRules.t)
    (auth_events : gmap (string * string) StoredPdu) : FetchState :=
  fun ty key =>
    match auth_events !! (ty, key) with
    | Some p => Ok (base (inner p))
    | None =>
        if rules.(AuthorizationRules.room_create_event_id_as_room_id) && (ty =? "m.room.create") then
          match fst (get_room_state room "m.room.create" EmptyString s) with
          | Done p => if bool_decide (room_id (inner p) <> room) then Err Other else Ok (base (inner p))
          | _ => Err Other
          end
        else
          match fst (get_room_state room ty key s) with
          | Done p => Ok (base (inner p))
          | _ => Err Other
          end
    end.

(** A create event of a version whose room IDs are made from its event ID. *)
Definition names_room (version_rules : RoomVersionRules.t) (ty : string) : bool :=
  match version_rules.(RoomVersionRules.room_id_format) with
  | RoomIdFormat_V2 => ty =? "m.room.create"
  | RoomIdFormat_V1 => false
  end.

(** The JSON that is signed. *)
Definition signed_form (p : PduEvent) (version_rules : RoomVersionRules.t) : option CanonicalJsonObject :=
  o ← to_canonical_object (pdu_to_value p);
  let o := bt_remove "event_id" o in
  let o := if names_room version_rules (event_type p) then bt_remove "room_id" o else o in
  Some (bt_insert "origin" (CString (server_name conf)) o).

(** The event before it has its ID. *)
Definition draft (b : PduBuilder) (sender_id room : string)
    (prev_events : list string) (evs : gmap (string * string) StoredPdu) : Db PduEvent :=
  depth ← max_depth prev_events 0%Z;
  unsigned ← prev_unsigned room b;
  temp_event_id ← call FreshEventId;
  ts ← (match pb_timestamp b with Some ts => mret ts | None => call Now end);
  mret {| base := {| event_id := temp_event_id; room_id := room; sender := sender_id;
                     origin_server_ts := ts; event_type := pb_event_type b; content := pb_content b;
                     state_key := pb_state_key b; prev_events := prev_events;
                     auth_events := (fun kv => event_id (inner kv.2)) <$> iter_map evs;
                     redacts := pb_redacts b; rejected := false |};
          depth := (depth + 1)%Z; unsigned := unsigned; hashes := "aaa"; pdu_signatures := None;
          extra_data := [] |}.

(** Hashing and signing; the ID, and the room's ID where the event gives it. *)
Definition seal_event (room : string) (room_version : RoomVersionId) (version_rules : RoomVersionRules.t)
    (p : PduEvent) : Db (PduEvent * CanonicalJsonObject) :=
  pdu_json ← st_some (signed_form p version_rules) MatrixBadJson;
  pdu_json ← (match hash_and_sign_event (server_name conf) key_pair pdu_json
                      version_rules.(RoomVersionRules.redaction) with
              | Ok o => mret o
              | Err PduSize => st_fail MatrixTooLarge
              | Err _ => st_fail MatrixUnknown
              end);
  id ← of_res (gen_event_id pdu_json room_version);
  let p := set_base (with_event_id id p) p in
  p ← (if names_room version_rules (event_type p) then
         let new_room := "!" +:+ event_id_localpart id in
         _ ← of_res (map_err (fun _ => IdParse) (room_id_validate new_room));
         _ ← upd_forward (fun f => set_map (fun x => if x.1 =? room then (new_room, x.2) else x) f);
         mret (set_base (with_room_id new_room p) p)
       else mret p);
  let pdu_json := bt_insert "event_id" (CString id) pdu_json in
  if is_ok (validate_canonical_json pdu_json) then mret (p, pdu_json) else st_fail MatrixBadJson.

Definition hash_sign (b : PduBuilder) (sender_id room : string) (room_version : RoomVersionId) :
    Db (PduEvent * CanonicalJsonObject) :=
  extremities ← get_forward_extremities room;
  let prev_events := take 20 extremities in
  version_rules ← of_res (get_version_rules room_version);
  let auth_rules := version_rules.(RoomVersionRules.authorization) in
  evs ← get_auth_events room (pb_event_type b) sender_id (pb_state_key b) (pb_content b) auth_rules;
  p ← draft b sender_id room prev_events evs;
  _ ← run_auth_check auth_rules p (fun s => fetch_local s room auth_rules evs);
  seal_event room room_version version_rules p.

(** ** [PduBuilder::hash_sign_save] *)

Definition built_row (p : PduEvent) (sender_id : string) (n : Z) : EventRow :=
  {| er_sn := n; er_ty := event_type p; er_room_id := room_id p; er_depth := depth p;
     er_topological_ordering := depth p; er_stream_ordering := n;
     er_origin_server_ts := origin_server_ts p; er_sender_id := Some sender_id;
     er_contains_url := match content p with JObj m => bool_decide (is_Some (bt_get "url" (json_map m))) | _ => false end;
     er_state_key := state_key p; er_is_outlier := true; er_is_redacted := false;
     er_soft_failed := false; er_is_rejected := false; er_rejection_reason := false |}.
Definition hash_sign_save (b : PduBuilder) (sender_id room : string) (room_version : RoomVersionId) :
    Db (StoredPdu * CanonicalJsonObject) :=
  '(p, pdu_json) ← hash_sign b sender_id room room_version;
  event_sn ← ensure_event_sn room (event_id (base p));
  _ ← save_row (event_id (base p)) (built_row p sender_id event_sn);
  _ ← save_data (event_id (base p)) event_sn (room_id (base p)) (into_json (CObject pdu_json));
  mret ({| inner := p; sn := event_sn; is_outlier := true; soft_failed := false; is_backfill := false |},
        pdu_json).

(** ** [build_and_append_pdu] *)

(** [room::ensure_room] *)
Definition ensure_room (room : string) (room_version : RoomVersionId) : Db unit :=
  known ← room_exists room;
  if (known : bool) then mret tt
  else st_modify (fun s =>
    put_frames (set_rooms (<[room := None]> (rooms (frames s))) (frames s))
      (put_room_rows (<[room := {| rm_version := room_version_as_str room_version;
                                   rm_disabled := false |}]> (room_rows s)) s)).

(** [room::is_admin_room] *)
Definition is_admin_room (room : string) : Db bool :=
  admin ← st_try (call (ResolveLocalAlias ("#admins:" +:+ server_name conf)));
  match admin with
  | Ok admin_room => mret (admin_room =? room)
  | Err e => if is_not_found e then mret false else st_fail e
  end.

(** At least two other local admins stay. *)
Definition enough_admins_besides (room target : string) : Db bool :=
  users ← call (JoinedUsers room);
  let is_local m := match user_id_server_name m with Done n => n =? server_name conf | _ => false end in
  mret (Nat.leb 2 (length (List.filter (fun m => is_local m && negb (m =? target)) users))).

Definition check_pdu_for_admin_room (p : StoredPdu) (sender_id : string) : Db unit :=
  if event_type p =? "m.room.encryption" then st_fail MatrixForbidden
  else if event_type p =? "m.room.member" then
    let target := match state_key p with
                  | Some k => if str_starts_with "@" k then k else sender_id
                  | None => sender_id
                  end in
    membership ← st_some (ok (RoomMember.membership (content p))) AppInternal;
    let guard : Db unit :=
      if target =? server_user_id conf then st_fail MatrixForbidden
      else enough ← enough_admins_besides (room_id p) target;
           if (enough : bool) then mret tt else st_fail MatrixForbidden in
    _ ← (if bool_decide (membership = MLeave) then guard else mret tt);
    if bool_decide (membership = MBan) && bool_decide (is_Some (state_key p)) then guard else mret tt
  else mret tt.

(** The state event with the same content is already the current one. *)
Definition same_state (b : PduBuilder) (room : string) : Db (option StoredPdu) :=
  match pb_state_key b with
  | None => mret None
  | Some key =>
      curr ← st_try (get_room_state room (pb_event_type b) key);
      mret (match curr with
            | Ok curr => if raw_text (content (inner curr)) =? pb_raw b then Some curr else None
            | Err _ => None
            end)
  end.

(** A new event, in the timeline and on its way. *)
Definition append_built (sender_id : string) (room_version : RoomVersionId) (p : StoredPdu)
    (pdu_json : CanonicalJsonObject) : Db StoredPdu :=
  _ ← ensure_room (room_id p) room_version;
  admin ← is_admin_room (room_id p);
  _ ← (if (admin : bool) then check_pdu_for_admin_room p sender_id else mret tt);
  _ ← append_pdu conf p pdu_json;
  servers ← call (ParticipatingServers (room_id p));
  _ ← call (SendPduServers servers (event_id p));
  mret p.
Definition build_and_append_pdu (b : PduBuilder) (sender_id room : string) (room_version : RoomVersionId) :
    Db StoredPdu :=
  same ← same_state b room;
  match same with
  | Some curr => mret curr
  | None =>
      '(p, pdu_json) ← hash_sign_save b sender_id room room_version;
      append_built sender_id room_version p pdu_json
  end.

(** ** [convert_to_outgoing_federation_event] *)

(** [maybe_strip_event_id] *)
Definition maybe_strip_event_id (o : CanonicalJsonObject) (v : RoomVersionId) : CanonicalJsonObject :=
  match v with RV_V1 | RV_V2 => o | _ => bt_remove "event_id" o end.

(** The version of the room the event names, or of the room it is stored in. *)
Definition outgoing_version (o : CanonicalJsonObject) : Db (option RoomVersionId) :=
  v ← (match bt_get "room_id" o ≫= as_str with
       | Some r => if is_ok (room_id_validate r) then r ← st_try (get_version r); mret (ok r) else mret None
       | None => mret None
       end);
  match v with
  | Some v => mret (Some v)
  | None =>
      match bt_get "event_id" o ≫= as_str with
      | Some id =>
          if is_ok (event_id_validate id) then
            row ← st_gets (fun s => rows s !! id);
            match row with
            | Some row => r ← st_try (get_version (er_room_id row)); mret (ok r)
            | None => mret None
            end
          else mret None
      | None => mret None
      end
  end.
Definition convert_to_outgoing_federation_event (pdu_json : CanonicalJsonObject) : Db CanonicalJsonObject :=
  let o := match bt_get "unsigned" pdu_json with
           | Some (CObject u) => bt_insert "unsigned" (CObject (bt_remove "transaction_id" u)) pdu_json
           | _ => pdu_json
           end in
  v ← outgoing_version o;
  let o := match v with Some v => maybe_strip_event_id o v | None => o end in
  mret (bt_remove "event_sn" o).
End local.
