(* ===== verification/LocalSpec.v ===== *)
(** * What local events promise to other servers

    An event the server builds is authorized in the room it is built for, and in the form
    in which it is sent it has its event ID, its hash and its signature: the server that
    receives it derives the same ID and accepts it completely. *)
From S2P Require Import Prelude RustStr BTree Identifiers RoomVersion Json Canonical Redaction Signatures Events Membership EventAuth TopoSort StateRes Effects StateFrames AuthChain RoomPowerLevels EventStore AppendPdu Incoming LocalPdu StoreHistory Admission AppendSpec.
Open Scope string_scope.

(** ** [unsigned] is not covered *)

(** Two events that differ at most in [unsigned]. *)
Definition same_but_unsigned (o1 o2 : CanonicalJsonObject) : Prop :=
  forall k, k <> "unsigned" -> bt_get k o1 = bt_get k o2.

Section unsigned.
Context {C : Crypto}.

Lemma verify_event_unsigned pkm o1 o2 rules :
  bt_wf o1 -> bt_wf o2 -> same_but_unsigned o1 o2 -> verify_event pkm o1 rules = verify_event pkm o2 rules.
Proof.
  intros H1 H2 Hk. unfold verify_event, get_sha256, get_signature_map, content_hash.
  rewrite (Hk "hashes"), (Hk "signatures") by done.
  rewrite (servers_to_check_ext o1 o2) by (intros k Hin; apply Hk; set_solver).
  rewrite (signing_string_ext o1 o2 CONTENT_HASH_FIELDS_TO_REMOVE H1 H2)
    by (intros k Hin; apply Hk; intros ->; apply Hin; set_solver).
  pose proof (redact_agree o1 o2 rules.(RoomVersionRules.redaction) H1 H2) as Hag.
  specialize (Hag ltac:(intros k Hin; apply Hk; intros ->; apply Hin; set_solver)).
  destruct (redact o1 _ None) as [r1|], (redact o2 _ None) as [r2|]; try done; [|by subst].
  destruct Hag as (W1 & W2 & Hr).
  assert (to_canonical_json_string_for_signing r1 = to_canonical_json_string_for_signing r2) as E
    by exact (signing_string_ext r1 r2 CANONICAL_JSON_FIELDS_TO_REMOVE W1 W2 Hr).
  cbn. by rewrite E.
Qed.

Lemma reference_hash_unsigned o1 o2 rules :
  bt_wf o1 -> bt_wf o2 -> same_but_unsigned o1 o2 -> reference_hash o1 rules = reference_hash o2 rules.
Proof.
  intros H1 H2 Hk. unfold reference_hash.
  pose proof (redact_agree o1 o2 rules.(RoomVersionRules.redaction) H1 H2) as Hag.
  specialize (Hag ltac:(intros k Hin; apply Hk; intros ->; apply Hin; set_solver)).
  destruct (redact o1 _ None) as [r1|], (redact o2 _ None) as [r2|]; try done; [|by subst].
  destruct Hag as (W1 & W2 & Hr). cbn.
  by rewrite (signing_string_ext r1 r2 REFERENCE_HASH_FIELDS_TO_REMOVE W1 W2 Hr).
Qed.
Lemma gen_event_id_unsigned o1 o2 v :
  bt_wf o1 -> bt_wf o2 -> same_but_unsigned o1 o2 -> gen_event_id o1 v = gen_event_id o2 v.
Proof.
  intros H1 H2 Hk. unfold gen_event_id. destruct (get_version_rules v) as [rules|]; [|done]. cbn.
  by rewrite (reference_hash_unsigned o1 o2 rules H1 H2 Hk).
Qed.
End unsigned.

(** ** The JSON of a PDU *)

(** A canonical object has the members of the JSON object it is made from. *)
Lemma to_canonical_object_get m o :
  bt_wf m -> to_canonical_object (JObj m) = Some o ->
  bt_wf o /\ forall k, match bt_get k m with
                       | Some j => exists v, try_from j = Ok v /\ bt_get k o = Some v
                       | None => bt_get k o = None
                       end.
Proof.
  intros Hwf. unfold to_canonical_object. destruct (try_from (JObj m)) as [v|] eqn:E; [|done].
  pose proof (try_from_canonical _ _ E) as Hc. destruct v as [| | | | |o']; try done. intros [= ->].
  apply canonical_wf_object in Hc as [Hwo _]. split; [done|]. cbn [try_from] in E.
  destruct (sequence_map _) as [x|] eqn:Es; [|done]. cbn in E. injection E as ->.
  apply sequence_map_Ok in Es. rewrite bt_from_list_sorted in Es
    by (apply (bt_wf_keys m); [|done]; by rewrite <- list_fmap_compose).
  intros k. clear Hwf Hwo. revert m Es. induction o as [|[k' v] o IH]; intros [|[k2 j] m] Es; try done.
  rewrite fmap_cons in Es. cbn in Es. injection Es as <- Hj Es. cbn.
  destruct (String.eqb_spec k k2); [by exists v|]. by apply IH.
Qed.

Section built.
Context {U : Unicode} {C : Crypto} {HO : HashOrder} {WM : WildMatch} {RT : RawText}.
Context {LF : LruCache Z (list FrameInfo)} {LA : LruCache (list Z) (list Z)}.
Context {O : Type} {SV : Services O}.
Context {L : Base64Laws}.
Context (conf : Config) (key_pair : KeyPair).
#[local] Abbreviation Db := (St (Store (O := O))).
Implicit Types s : Store (O := O).

(** ** The form that is signed *)

Definition pdu_member (p : PduEvent) (k : string) : option json :=
  match pdu_to_value p with JObj m => bt_get k m | _ => None end.

(** The members of a PDU that has no signatures and nothing besides its fields. *)
Lemma pdu_members p :
  pdu_signatures p = None -> extra_data p = [] ->
  pdu_member p "signatures" = None /\ pdu_member p "event_sn" = None /\
  pdu_member p "room_id" = Some (JStr (room_id p)) /\ pdu_member p "sender" = Some (JStr (sender p)).
Proof.
  intros Hs He. unfold pdu_member, pdu_to_value. rewrite Hs, He. rewrite !bt_get_from_list.
  destruct (state_key p), (redacts p), (unsigned p) as [|x u]; repeat split; reflexivity.
Qed.

Lemma signed_form_members p rules o :
  pdu_signatures p = None -> extra_data p = [] -> signed_form conf p rules = Some o ->
  bt_wf o /\ bt_get "signatures" o = None /\ bt_get "event_id" o = None /\ bt_get "event_sn" o = None /\
  bt_get "room_id" o = if names_room rules (event_type p) then None else Some (CString (room_id p)).
Proof.
  intros Hs He H. destruct (pdu_members p Hs He) as (Hsig & Hsn & Hroom & _).
  unfold signed_form in H. apply bind_Some in H as (o1 & Ho1 & H). injection H as <-.
  assert (exists m, pdu_to_value p = JObj m /\ bt_wf m) as (m & Em & Hm) by (eexists; split; [done|apply bt_from_list_wf]).
  unfold pdu_member in Hsig, Hsn, Hroom. rewrite Em in *.
  destruct (to_canonical_object_get _ _ Hm Ho1) as [Hw1 Hg].
  set (o2 := if names_room _ _ then _ else _).
  assert (bt_wf o2 /\ forall k, bt_get k o2 = if (k =? "event_id") || names_room rules (event_type p) && (k =? "room_id")
    then None else bt_get k o1) as [Hw2 Hg2].
  { unfold o2. destruct (names_room _ _); (split; [by repeat apply bt_remove_wf|]); intros k;
      rewrite ?bt_get_remove by (try apply bt_remove_wf; done); cbn [andb];
      destruct (k =? "event_id"), (k =? "room_id"); done. }
  split; [by apply bt_insert_wf|]. rewrite !bt_get_insert by done. cbn [String.eqb Ascii.eqb Bool.eqb].
  rewrite !Hg2. pose proof (Hg "signatures") as G1. rewrite Hsig in G1. pose proof (Hg "event_sn") as G2.
  rewrite Hsn in G2. pose proof (Hg "room_id") as G3. rewrite Hroom in G3. destruct G3 as (v & [= <-] & G3).
  rewrite G1, G2, G3. cbn. rewrite !andb_false_r, andb_true_r. done.
Qed.
(** ** What a built event is *)

(** The draft [d] that is made from [b] in the store [s]: it names the events of the
    current state that authorize it, and passes the authorization rules against them. *)
Record drafted (b : PduBuilder) (sender_id room : string) (rules : RoomVersionRules.t) s (d : PduEvent) : Prop := {
  dr_sender : sender d = sender_id;
  dr_room : room_id d = room;
  dr_type : event_type d = pb_event_type b;
  dr_state_key : state_key d = pb_state_key b;
  dr_content : content d = pb_content b;
  dr_prev : (length (prev_events d) <= 20)%nat /\
            forall id, id ∈ prev_events d -> (room, id) ∈ forward_extremities s;
  dr_signatures : pdu_signatures d = None;
  dr_extra : extra_data d = [];
  dr_authorized : exists evs s1 s2,
    get_auth_events room (event_type d) (sender d) (state_key d) (content d)
      rules.(RoomVersionRules.authorization) s = (Done evs, s1) /\
    draft b sender_id room (prev_events d) evs s1 = (Done d, s2) /\
    (forall id, id ∈ auth_events d <-> exists k q, evs !! k = Some q /\ event_id (inner q) = id) /\
    auth_check rules.(RoomVersionRules.authorization) d (fetch_pdu s2)
      (fetch_local s2 room rules.(RoomVersionRules.authorization) evs) = Done tt
}.

(** The signed JSON, the event ID in it and the event that is returned. *)
Record sealed (rules : RoomVersionRules.t) (room_version : RoomVersionId) (d p : PduEvent)
    (json : CanonicalJsonObject) : Prop := {
  sl_json : exists o signed, signed_form conf d rules = Some o /\
    hash_and_sign_event (server_name conf) key_pair o rules.(RoomVersionRules.redaction) = Ok signed /\
    gen_event_id signed room_version = Ok (event_id p) /\
    json = bt_insert "event_id" (CString (event_id p)) signed;
  sl_base : base p = with_room_id (room_id p) (with_event_id (event_id p) d);
  sl_room : names_room rules (event_type d) = false -> room_id p = room_id d
}.

Lemma seal_event_inv room rv rules d s p json s' :
  seal_event conf key_pair room rv rules d s = (Done (p, json), s') -> sealed rules rv d p json.
Proof.
  unfold seal_event. intros H. apply bind_St in H as (o & s1 & H1 & H).
  destruct (signed_form conf d rules) as [o'|] eqn:Ho; [|discriminate]. injection H1 as -> <-.
  apply bind_St in H as (signed & s2 & H2 & H).
  destruct (hash_and_sign_event _ _ _ _) as [x|e] eqn:Hs; [|by destruct e]. injection H2 as -> <-.
  apply bind_St in H as (id & s3 & H3 & H). apply of_res_done in H3 as [Hid ->]. cbn zeta in H.
  apply bind_St in H as (p' & s4 & H4 & H).
  assert (p' = p /\ json = bt_insert "event_id" (CString id) signed) as [-> ->].
  { destruct (is_ok _); [|discriminate]. by injection H as -> <-. }
  assert (event_id p = id /\ base p = with_room_id (room_id p) (with_event_id id d) /\
    (names_room rules (event_type d) = false -> room_id p = room_id d)) as (<- & Hb & Hr).
  { change (event_type (set_base (with_event_id id d) d)) with (event_type d) in H4.
    destruct (names_room rules (event_type d)).
    - apply bind_St in H4 as ([] & s5 & _ & H4). apply bind_St in H4 as ([] & s6 & _ & H4).
      injection H4 as <- _. by repeat split.
    - injection H4 as <- _. by repeat split. }
  split; [|done|done]. exists o, signed. done.
Qed.

Lemma draft_inv b sender_id room prev evs s d s' :
  draft b sender_id room prev evs s = (Done d, s') ->
  d = {| base := {| event_id := event_id d; room_id := room; sender := sender_id;
                    origin_server_ts := origin_server_ts d; event_type := pb_event_type b;
                    content := pb_content b; state_key := pb_state_key b; prev_events := prev;
                    auth_events := (fun kv => event_id (inner kv.2)) <$> iter_map evs;
                    redacts := pb_redacts b; rejected := false |};
         depth := depth d; unsigned := unsigned d; hashes := "aaa"; pdu_signatures := None; extra_data := [] |}.
Proof.
  unfold draft. intros H. do 4 (apply bind_St in H as (? & ? & _ & H)). by injection H as <- _.
Qed.

Lemma hash_sign_inv b sender_id room rv s p json s' :
  hash_sign conf key_pair b sender_id room rv s = (Done (p, json), s') ->
  exists rules d, get_version_rules rv = Ok rules /\ drafted b sender_id room rules s d /\
    sealed rules rv d p json.
Proof.
  unfold hash_sign, get_forward_extremities. rewrite st_gets_bind. intros H.
  apply bind_St in H as (rules & s1 & H1 & H). apply of_res_done in H1 as [Hrules ->].
  apply bind_St in H as (evs & s2 & H2 & H). apply bind_St in H as (d & s3 & H3 & H).
  apply bind_St in H as ([] & s4 & H4 & H). pose proof H3 as Hdraft. apply draft_inv in H3.
  exists rules, d. split; [done|]. split; [|by apply seal_event_inv in H].
  unfold run_auth_check, of_core in H4.
  destruct (auth_check _ _ _ _) as [[]|?| |] eqn:Ha; try discriminate H4.
  assert (prev_events d = take 20 (snd <$> filter (fun '(r, _) => r = room) (iter_set (forward_extremities s))))
    as Hprev by (by rewrite H3).
  split; try (by rewrite H3).
  - rewrite Hprev. split; [rewrite length_take; lia|]. intros id Hid.
    apply elem_of_room_extremities. eapply elem_of_submseteq; [exact Hid|]. apply sublist_submseteq, sublist_take.
  - exists evs, s2, s3. split; [by rewrite H3|]. split; [by rewrite Hprev|]. split; [|done].
    intros id. rewrite H3. cbn. rewrite list_elem_of_fmap. split.
    + intros ([k q] & -> & Hq). exists k, q. split; [by apply elem_of_iter_map|done].
    + intros (k & q & Hq & <-). exists (k, q). split; [done|by apply elem_of_iter_map].
Qed.
(** The signed JSON and what [hash_and_sign_event] leaves of the draft. *)
Lemma sealed_members b sender_id room rules s rv d p json :
  drafted b sender_id room rules s d -> sealed rules rv d p json ->
  exists signed, json = bt_insert "event_id" (CString (event_id p)) signed /\ bt_wf signed /\
    gen_event_id signed rv = Ok (event_id p) /\
    bt_get "event_id" signed = None /\ bt_get "event_sn" signed = None /\
    bt_get "room_id" signed = (if names_room rules (event_type d) then None else Some (CString (room_id p))) /\
    forall kid pk pks keys servers, signs_with key_pair kid pk -> ed25519_key_id kid ->
      keys !! server_name conf = Some pks -> pks !! kid = Some pk ->
      servers_to_check_signatures signed rules.(RoomVersionRules.signatures) = Done servers ->
      (forall x, x ∈ servers -> x = server_name conf) -> verify_event keys signed rules = Done VerifiedAll.
Proof.
  intros [_ _ _ _ _ _ Hsig Hextra _] [(o & signed & Ho & Hs & Hid & ->) _ Hroom].
  destruct (signed_form_members _ _ _ Hsig Hextra Ho) as (Hwf & Hnone & Hev & Hsn & Hr).
  destruct (hash_and_sign_spec _ _ _ _ _ Hwf Hnone Hs) as (h & hashes & r & _ & _ & _ & Esigned).
  assert (forall k, k <> "signatures" -> k <> "hashes" -> bt_get k signed = bt_get k o) as Hget.
  { intros k H1 H2. rewrite Esigned, !bt_get_insert by (try apply bt_insert_wf; done).
    by destruct (String.eqb_spec k "signatures"), (String.eqb_spec k "hashes"). }
  exists signed. split; [done|]. split; [rewrite Esigned; by repeat apply bt_insert_wf|]. split; [done|].
  rewrite !Hget by done. split; [done|]. split; [done|]. split.
  - rewrite Hr. destruct (names_room rules (event_type d)); [done|]. by rewrite Hroom.
  - intros kid pk pks keys servers Hkp Hkid Hks Hpk Hsv Hall.
    apply (signed_event_verifies (server_name conf) key_pair kid pk pks keys o signed rules servers); try done.
    rewrite <- Hsv. apply servers_to_check_ext. intros k Hk. symmetry. apply Hget; set_solver.
Qed.

(** ** The form that is sent *)

Lemma outgoing_version_found o s rv room id row :
  bt_get "room_id" o = None \/ bt_get "room_id" o = Some (CString room) ->
  bt_get "event_id" o = Some (CString id) -> is_ok (event_id_validate id) = true ->
  get_version room s = (Done rv, s) -> rows s !! id = Some row -> er_room_id row = room ->
  outgoing_version o s = (Done (Some rv), s).
Proof.
  intros Hroom Hid Hok Hv Hrow Her. unfold outgoing_version.
  assert (forall k : option RoomVersionId -> Db (option RoomVersionId),
    (r ← st_try (get_version room); k (ok r)) s = k (Some rv) s) as Hrun.
  { intros k. by rewrite (bind_St_run _ _ _ _ _ (st_try_run _ _ _ _ Hv)). }
  assert ((match bt_get "event_id" o ≫= as_str with
      | Some id =>
          if is_ok (event_id_validate id) then
            row ← st_gets (fun s => rows s !! id);
            match row with
            | Some row => r ← st_try (get_version (er_room_id row)); mret (ok r)
            | None => mret None
            end
          else mret None
      | None => mret None
      end : Db (option RoomVersionId)) s = (Done (Some rv), s)) as Hfall.
  { rewrite Hid. cbn [mbind option_bind as_str]. rewrite Hok, st_gets_bind, Hrow, Her. apply Hrun. }
  destruct Hroom as [-> | ->]; cbn [mbind option_bind as_str].
  - rewrite st_ret_bind. exact Hfall.
  - destruct (is_ok (room_id_validate room)).
    + rewrite (bind_St_run _ _ _ (Some rv) s); [done|]. apply Hrun.
    + rewrite st_ret_bind. exact Hfall.
Qed.

(** What is sent differs from the signed JSON at most in [unsigned]. *)
Lemma outgoing_same signed id json s rv room row out s' :
  bt_wf signed -> bt_get "event_id" signed = None -> bt_get "event_sn" signed = None ->
  bt_get "room_id" signed = None \/ bt_get "room_id" signed = Some (CString room) ->
  same_signed (bt_insert "event_id" (CString id) signed) json ->
  is_ok (event_id_validate id) = true -> get_version room s = (Done rv, s) ->
  rows s !! id = Some row -> er_room_id row = room -> rv <> RV_V1 -> rv <> RV_V2 ->
  convert_to_outgoing_federation_event json s = (Done out, s') ->
  bt_wf out /\ same_but_unsigned out signed.
Proof.
  intros Hwf Hev Hsn Hroom [Hwj Hsame] Hok Hv Hrow Her H1 H2 H.
  unfold convert_to_outgoing_federation_event in H. set (o := match bt_get "unsigned" json with Some _ => _ | None => _ end) in H.
  assert (bt_wf o /\ forall k, k <> "unsigned" -> bt_get k o = bt_get k (bt_insert "event_id" (CString id) signed)) as [Hwo Ho].
  { unfold o. destruct (bt_get "unsigned" json) as [[| | | | |u]|]; try by (split; [done|exact Hsame]).
    destruct (same_signed_unsigned json (CObject (bt_remove "transaction_id" u)) Hwj) as [? Hk].
    split; [done|]. intros k Hne. rewrite Hk by done. by apply Hsame. }
  assert (outgoing_version o s = (Done (Some rv), s)) as Hov.
  { apply (outgoing_version_found o s rv room id row); try done.
    - rewrite Ho by done. rewrite bt_get_insert by done. exact Hroom.
    - rewrite Ho by done. apply bt_get_insert_eq. }
  rewrite (bind_St_run _ _ _ _ _ Hov) in H. cbn [mret St_ret] in H. injection H as <- _.
  assert (maybe_strip_event_id o rv = bt_remove "event_id" o) as -> by (by destruct rv).
  split; [by repeat apply bt_remove_wf|]. intros k Hk.
  rewrite !bt_get_remove by (repeat apply bt_remove_wf; done). destruct (String.eqb_spec k "event_sn") as [->|]; [done|].
  destruct (String.eqb_spec k "event_id") as [->|Hne]; [done|]. rewrite Ho by done. rewrite bt_get_insert by done.
  by destruct (String.eqb_spec k "event_id").
Qed.
Lemma gen_event_id_valid o v id : gen_event_id o v = Ok id -> is_ok (event_id_validate id) = true.
Proof.
  unfold gen_event_id. intros H. apply bind_Ok in H as (rules & _ & H). apply bind_Ok in H as (h & _ & H).
  destruct (is_ok (event_id_validate ("$" +:+ h))) eqn:E; [|done]. by injection H as <-.
Qed.

(** C14: in a room of version 3 or later, an event the server built, stored with any
    [unsigned] and sent to a server that has the sending server's key, is accepted there
    wherever the sending server's is the only signature the room version requires of it:
    from the JSON that is sent the receiver derives the event ID it was stored under, and
    its signatures and its content hash verify. *)
Theorem sent_event_accepted b sender_id room rv rules s p json s' stored s1 row out s2 kid pk pks keys servers :
  hash_sign conf key_pair b sender_id room rv s = (Done (p, json), s') ->
  get_version_rules rv = Ok rules -> rv <> RV_V1 -> rv <> RV_V2 ->
  same_signed json stored ->
  fst (get_version (room_id p) s1) = Done rv -> rows s1 !! event_id p = Some row -> er_room_id row = room_id p ->
  convert_to_outgoing_federation_event stored s1 = (Done out, s2) ->
  signs_with key_pair kid pk -> ed25519_key_id kid ->
  keys !! server_name conf = Some pks -> pks !! kid = Some pk ->
  servers_to_check_signatures out rules.(RoomVersionRules.signatures) = Done servers ->
  (forall x, x ∈ servers -> x = server_name conf) ->
  gen_event_id out rv = Ok (event_id p) /\
  verify_event keys (bt_remove "unsigned" out) rules = Done VerifiedAll.
Proof.
  intros H Hrules H1 H2 Hst Hv Hrow Her Hout Hkp Hkid Hks Hpk Hsv Hall.
  apply done_snd in Hv. rewrite (get_version_state _ _ _ _ Hv) in Hv.
  destruct (hash_sign_inv _ _ _ _ _ _ _ _ H) as (rules' & d & Hr' & Hd & Hse).
  assert (rules' = rules) as -> by congruence.
  destruct (sealed_members _ _ _ _ _ _ _ _ _ Hd Hse) as (signed & -> & Hwf & Hid & Hev & Hsn & Hroom & Hver).
  destruct (outgoing_same signed (event_id p) stored s1 rv (room_id p) row out s2) as [Hwo Hs]; try done.
  { rewrite Hroom. destruct (names_room _ _); auto. }
  { by apply gen_event_id_valid in Hid. }
  split; [by rewrite (gen_event_id_unsigned out signed rv Hwo Hwf Hs)|].
  rewrite (verify_event_unsigned keys (bt_remove "unsigned" out) signed rules);
    [|by apply bt_remove_wf|done|].
  - apply (Hver kid pk pks keys servers); try done. rewrite <- Hsv. apply servers_to_check_ext.
    intros k Hk. symmetry. apply Hs. set_solver.
  - intros k Hk. rewrite bt_get_remove by done. destruct (String.eqb_spec k "unsigned"); [done|]. by apply Hs.
Qed.
(** ** Into the timeline *)

Lemma aside_same_state b room : keeps (aside (O := O)) (same_state b room).
Proof. unfold same_state. keeps_auto. Qed.
Lemma aside_ensure_room room rv : keeps (aside (O := O)) (ensure_room room rv).
Proof. unfold ensure_room, room_exists. keeps_auto. apply keeps_modify. by intros s. Qed.
Lemma aside_admin_checks room (p : StoredPdu) sender_id :
  keeps (aside (O := O)) (admin ← is_admin_room conf room;
               if (admin : bool) then check_pdu_for_admin_room conf p sender_id else mret tt).
Proof. unfold is_admin_room, check_pdu_for_admin_room, enough_admins_besides. cbn zeta. keeps_auto. Qed.

Lemma same_state_inv b room s p s' :
  same_state b room s = (Done (Some p), s') ->
  exists key, pb_state_key b = Some key /\ get_room_state room (pb_event_type b) key s = (Done p, s') /\
    raw_text (content (inner p)) = pb_raw b.
Proof.
  unfold same_state. destruct (pb_state_key b) as [key|]; [|discriminate]. intros H.
  apply bind_St in H as (curr & s1 & H1 & H). exists key. split; [done|]. unfold st_try in H1.
  destruct (get_room_state _ _ _ s) as [[c|?| |] s2]; try discriminate H1; injection H1 as <- <-; [|discriminate].
  destruct (String.eqb_spec (raw_text (content (inner c))) (pb_raw b)); [|discriminate].
  by injection H as -> <-.
Qed.
(** The store a built event is saved in. *)
Lemma hash_sign_save_inv b sender_id room rv s p json s' :
  hash_sign_save conf key_pair b sender_id room rv s = (Done (p, json), s') ->
  is_Some (rows s' !! event_id p) /\
  exists s1, hash_sign conf key_pair b sender_id room rv s = (Done (inner p, json), s1).
Proof.
  unfold hash_sign_save. intros H. apply bind_St in H as ([q j] & s1 & H1 & H).
  apply bind_St in H as (n & s2 & _ & H). apply bind_St in H as ([] & s3 & H3 & H).
  apply bind_St in H as ([] & s4 & H4 & H). injection H as <- <- <-. cbn. split; [|by exists s1].
  injection H4 as <-. injection H3 as <-. cbn. rewrite lookup_insert_eq. by eexists.
Qed.

Lemma append_built_inv sender_id rv (p q : StoredPdu) json s s' :
  append_built conf sender_id rv p json s = (Done q, s') ->
  q = p /\ exists s1 s2, aside s s1 /\ append_pdu conf p json s1 = (Done tt, s2) /\ settled s2 s'.
Proof.
  unfold append_built. intros H. apply bind_St in H as ([] & s1 & H1 & H).
  apply bind_St in H as (admin & s2 & H2 & H). apply bind_St in H as ([] & s3 & H3 & H).
  apply bind_St in H as ([] & s4 & H4 & H). apply bind_St in H as (servers & s5 & H5 & H).
  apply bind_St in H as ([] & s6 & H6 & H). injection H as <- <-. split; [done|]. exists s3, s4.
  split; [|split; [done|]].
  - apply (keeps_run aside) in H1; [|apply aside_ensure_room]. transitivity s1; [done|].
    apply (keeps_run aside _ _ tt _ (aside_admin_checks (room_id p) p sender_id)).
    by rewrite (bind_St_run _ _ _ _ _ H2).
  - apply (keeps_run settled) in H5, H6; [|apply settled_call..]. by transitivity s5.
Qed.

(** No edge is written before the event is appended. *)
Record same_edges s s' : Prop := { sg_edges : event_edges s' = event_edges s }.
#[local] Instance same_edges_preorder : PreOrder same_edges.
Proof. split; [by intros s|]. intros s1 s2 s3 [H1] [H2]. split. by rewrite H2. Qed.
Lemma edges_of_aside {A} (m : Db A) : keeps aside m -> keeps same_edges m.
Proof. apply keeps_weaken. intros s s' H. split. apply H. Qed.
Lemma aside_draft b u r prev evs : keeps (aside (O := O)) (draft b u r prev evs).
Proof.
  unfold draft, prev_unsigned. keeps_auto.
  generalize 0%Z. induction prev; intros z; cbn [max_depth]; keeps_auto.
Qed.
Lemma aside_run_auth_check ar (p : PduEvent) f : keeps (aside (O := O)) (run_auth_check ar p f).
Proof. intros s. unfold run_auth_check, of_core. by destruct (auth_check _ _ _ _). Qed.
Lemma edges_hash_sign_save b u r rv : keeps same_edges (hash_sign_save conf key_pair b u r rv).
Proof.
  unfold hash_sign_save, hash_sign, get_forward_extremities, seal_event, ensure_event_sn.
  repeat (keeps_step || solve [eauto 2 with keeps typeclass_instances]
          || solve [apply edges_of_aside; first [apply aside_draft|apply aside_run_auth_check|eauto 2 with keeps typeclass_instances]]
          || (intros s; by split)).
Qed.

(** C17: when [build_and_append_pdu] succeeds it answers with the current state event,
    which has the very content, and leaves the timeline alone; or with a new event, made
    in the store [s0] after the current state was looked at, that names the events of the
    current state that authorize it and passes the authorization rules against them, was
    sealed with its ID, and is now in the timeline with its signed JSON, with edges to its
    predecessors, at most twenty extremities of the room, and a forward extremity unless
    something refers to it. *)
Theorem built_event_recorded b sender_id room rv s p s' :
  build_and_append_pdu conf key_pair b sender_id room rv s = (Done p, s') ->
  (exists key, pb_state_key b = Some key /\
     get_room_state room (pb_event_type b) key s = (Done p, s') /\ raw_text (content (inner p)) = pb_raw b) \/
  (exists s0 rules d json stored,
     same_state b room s = (Done None, s0) /\ forward_extremities s0 = forward_extremities s /\
     get_version_rules rv = Ok rules /\ drafted b sender_id room rules s0 d /\ sealed rules rv d (inner p) json /\
     in_timeline s' (event_id p) = true /\ same_signed json stored /\
     datas s' !! event_id p
       = Some {| ed_sn := sn p; ed_room_id := room_id p; ed_json := into_json (CObject stored) |} /\
     (forall prev, prev ∈ prev_events p -> is_Some (event_edges s' !! (event_id p, prev))) /\
     (referenced s (event_id p) = false -> (room_id p, event_id p) ∈ forward_extremities s')).
Proof.
  unfold build_and_append_pdu. intros H. apply bind_St in H as (same & s1 & H1 & H).
  destruct same as [curr|].
  { left. injection H as -> <-. by apply same_state_inv in H1. }
  right. apply bind_St in H as ([q json] & s2 & H2 & H).
  apply append_built_inv in H as (-> & s3 & s4 & A23 & H4 & [A4 D4]).
  pose proof (keeps_run same_edges _ _ _ _ (edges_hash_sign_save b sender_id room rv) H2) as [E12].
  pose proof (keeps_run aside _ _ _ _ (aside_same_state b room) H1) as A1.
  destruct (hash_sign_save_inv _ _ _ _ _ _ _ _ H2) as [Hrow (sx & Hs)].
  destruct (hash_sign_inv _ _ _ _ _ _ _ _ Hs) as (rules & d & Hrules & Hd & Hse).
  destruct (sealed_members _ _ _ _ _ _ _ _ _ Hd Hse) as (signed & Ej & Hwf & _).
  assert (is_Some (rows s3 !! event_id q)) as Hrow3.
  { pose proof (as_rows _ _ A23 (event_id q)) as R. destruct Hrow as [x Hx]. rewrite Hx in R.
    destruct (rows s3 !! event_id q) eqn:E; [by eexists|discriminate]. }
  destruct (append_pdu_effect conf q json s3 s4) as (Ht & (stored & Hst & Hdata) & Hed & Hf); [|done|done|].
  { rewrite Ej. by apply bt_insert_wf. }
  exists s1, rules, d, json, stored. split; [done|]. split; [apply A1|]. repeat (split; [done|]).
  split; [by rewrite (aside_timeline _ _ _ A4), Ht, String.eqb_refl|]. split; [done|].
  split; [by rewrite D4|]. split.
  - intros prev Hp. rewrite (as_edges _ _ A4), Hed. by apply edges_of_lookup.
  - intros Href. rewrite (as_forward _ _ A4), Hf. unfold next_extremities.
    replace (referenced s3 (event_id q)) with false; [set_solver|].
    rewrite <- Href. unfold referenced. by rewrite (as_edges _ _ A23), E12, (as_edges _ _ A1).
Qed.
End built.
