(* ===== verification/IncomingExamples.v ===== *)
(** * A room and what other servers send to it

    A room of version 10 with its create event and its creator's membership, on a server
    that takes part in it; the properties of the handlers at work there. *)
From S2P Require Import Prelude RustStr BTree Identifiers RoomVersion Json Canonical Redaction Signatures Events Membership EventAuth TopoSort StateRes Effects StateFrames AuthChain RoomPowerLevels EventStore Calls AppendPdu Incoming StoreHistory Admission Authenticity AppendSpec IncomingSpec.
Open Scope string_scope.

#[local] Existing Instances ascii_unicode toy_crypto forward_order.
#[local] Instance ex_frame_cache : LruCache Z (list FrameInfo) := unbounded_cache Z (list FrameInfo).
#[local] Instance ex_chain_cache : LruCache (list Z) (list Z) := unbounded_cache (list Z) (list Z).
#[local] Instance ex_wild : WildMatch := fun pattern host => pattern =? host.

(** Other servers answer nothing, the server is in the room, server [x]'s key is known. *)
#[local] Instance ex_services : Services unit := fun A c =>
  match c in Call A return St unit A with
  | MissingEvents _ _ _ _ _ _ => mret []
  | EventStore.EventAuth _ _ _ => mret []
  | StateIds _ _ _ => mret ([], [])
  | RoomState _ _ _ => mret ([], [])
  | GetEvent _ _ => st_fail HttpStatus
  | GetPubkeys _ => mret toy_keys
  | IsServerJoined _ _ => mret true
  | IsPeeked _ => mret false
  | UpdateMembership _ _ _ _ _ _ _ => mret tt
  | UpdateCurrents _ => mret tt
  | OurRealUsers _ => mret []
  | LocalUsers _ => mret []
  | AddEventRelation _ _ _ _ _ _ _ _ => mret tt
  | SetEventThreadId _ _ => mret tt
  | UpsertThread _ _ _ _ _ => mret tt
  | GetActions _ _ _ _ => mret []
  | UpsertPushAction _ _ _ _ _ => mret tt
  | GetPushKeys _ => mret []
  | SendPushPdu _ _ _ => mret tt
  | RefreshNotifySummary _ _ => mret tt
  | IncrementNotificationCounts _ _ _ => mret tt
  | ClearSpaceCache _ => mret tt
  | ClearAppserviceCache _ => mret tt
  | PingPresence _ => mret tt
  | ResolveLocalAlias _ => st_fail MatrixNotFound
  | AdminCommand _ _ => mret tt
  | CopyRoomTagsAndDirect _ _ _ => mret tt
  | CopyPushRules _ _ _ => mret tt
  | SaveSearch _ _ => mret tt
  | DeleteSearch _ => mret tt
  | LocalAliases _ => mret []
  | AllAppservices => mret []
  | AppserviceInRoom _ _ => mret false
  | SendPduAppservice _ _ => mret tt
  | ActivePeekingServers _ => mret []
  | ParticipatingServers _ => mret []
  | SendPduServers _ _ => mret tt
  | Now => mret 1%Z
  | FreshEventId => mret "$t"
  | JoinedUsers _ => mret []
  | IsJoined _ _ => mret false
  | IsInvited _ _ => mret false
  | IgnoredUsers _ => mret []
  | IgnoredUserList _ => mret None
  | JoinRow _ _ => mret true
  | LeaveRow _ _ => mret None
  | Backfill _ _ _ _ => mret None
  | CurrSn => mret 0%Z
  end.
Definition ex_conf : Config := {| server_name := "h"; server_user_id := "@palpo:h"; emergency_password := false |}.
#[local] Abbreviation ExStore := (Store (O := unit)).

(** ** The room *)

Definition ex_empty : ExStore := {|
  frames := {| room_state_fields := ∅; next_field_id := 1; room_state_frames := ∅; next_frame_id := 1;
               room_state_deltas := ∅; rooms := {[ "!r:x" := None ]}; event_points := ∅;
               state_info_cache := lru_new |};
  next_event_sn := 1; event_chains := ∅; chain_cache := lru_new; rows := ∅; datas := ∅;
  forward_extremities := ∅; backward_extremities := ∅; timeline_gaps := ∅; event_missings := ∅;
  event_edges := ∅; room_rows := {[ "!r:x" := {| rm_version := "10"; rm_disabled := false |} ]};
  others := tt |}.

(** An event of user [@a:x] before it is signed. *)
Definition ex_event (ty : string) (state_key : option string) (content : CanonicalJsonObject)
    (prev auth : list string) (depth : Z) : CanonicalJsonObject :=
  bt_from_list ([("type", CString ty); ("room_id", CString "!r:x"); ("sender", CString "@a:x");
    ("origin_server_ts", CInteger 1); ("content", CObject content); ("depth", CInteger depth);
    ("prev_events", CArray (CString <$> prev)); ("auth_events", CArray (CString <$> auth))]
    ++ match state_key with Some k => [("state_key", CString k)] | None => [] end)%list.
Definition ex_sign (o : CanonicalJsonObject) : CanonicalJsonObject :=
  match hash_and_sign_event "x" toy_key_pair o RedactionRules.V9 with Ok o => o | Err _ => [] end.

Definition ex_create : CanonicalJsonObject :=
  ex_sign (ex_event "m.room.create" (Some EmptyString)
             [("creator", CString "@a:x"); ("room_version", CString "10")] [] [] 1).
Definition ex_join : CanonicalJsonObject :=
  ex_sign (ex_event "m.room.member" (Some "@a:x") [("membership", CString "join")] ["$c"] ["$c"] 2).
Definition ex_message : CanonicalJsonObject :=
  ex_sign (ex_event "m.room.message" None [("body", CString "hello")] ["$j"] ["$c"; "$j"] 3).

Lemma ex_message_wf : bt_wf ex_message.
Proof.
  assert (bt_from_list ex_message = ex_message) as <- by (vm_compute; reflexivity). apply bt_from_list_wf.
Qed.

(** Storing an event of the timeline with the state before it. *)
Definition ex_store (id : string) (o : CanonicalJsonObject) (state : list (Z * string)) : St ExStore unit :=
  n ← ensure_event_sn "!r:x" id;
  row ← of_res (new_db_event id n (into_json (CObject o)) false None);
  _ ← save_row id row;
  _ ← save_data id n "!r:x" (into_json (CObject o));
  p ← get_pdu id;
  store_state_before p state.
Definition ex_setup : St ExStore unit :=
  _ ← ex_store "$c" ex_create [];
  fc ← on_frames (ensure_field_id "m.room.create" EmptyString);
  _ ← ex_store "$j" ex_join [(fc, "$c")];
  fj ← on_frames (ensure_field_id "m.room.member" "@a:x");
  nc ← ensure_event_sn "!r:x" "$c";
  nj ← ensure_event_sn "!r:x" "$j";
  delta ← on_frames (save_state "!r:x" {[ compress_event "!r:x" fc nc; compress_event "!r:x" fj nj ]});
  _ ← on_frames (set_room_state "!r:x" (di_frame_id delta));
  set_forward_extremities "!r:x" ["$j"].
Definition ex_room : ExStore := snd (ex_setup ex_empty).

(** The message, read and stored as an outlier. *)
Definition ex_pdu : PduEvent :=
  match pdu_from_json_value "!r:x" "$m" (into_json (CObject ex_message)) with
  | Some p => p
  | None => {| base := ex_topic; depth := 0; unsigned := []; hashes := EmptyString; pdu_signatures := None;
               extra_data := [] |}
  end.
Definition ex_stored : StoredPdu :=
  {| inner := ex_pdu; sn := 3; is_outlier := true; soft_failed := false; is_backfill := false |}.
Definition ex_known : ExStore := snd (ex_store "$m" ex_message [] ex_room).
(** The same with a reply to an event nobody has. *)
Definition ex_reply : StoredPdu :=
  {| inner := set_base (with_content (JObj [("m.relates_to",
       JObj [("m.in_reply_to", JObj [("event_id", JStr "$z")])])]) ex_pdu) ex_pdu;
     sn := 3; is_outlier := true; soft_failed := false; is_backfill := false |}.

(** ** The properties at work *)


Lemma newcomers_are_joined_witness :
  exists c s0,
    visits (enter ex_conf) (incoming_pdu ex_conf "x" "$m" "!r:x" RV_V10 ex_message true false) ex_room c s0 /\
    event_id (tc_pdu c) = "$m" /\ stored_as (tc_pdu c) s0.
Proof.
  destruct (newcomers_are_joined ex_conf "x" "$m" "!r:x" RV_V10 ex_message true false ex_room "$m")
    as (c & s0 & Hv & Hid & _ & Hst & _).
  - vm_compute. reflexivity.
  - vm_compute. reflexivity.
  - exists c, s0. split; [exact Hv|]. split; [exact Hid|exact Hst].
Defined.

(** The message as an outlier. *)
Definition ex_outlier := process_to_outlier_pdu ex_conf "x" "$m" "!r:x" RV_V10 ex_message ex_room.
Definition is_new_outlier (r : comp AppError (option OutlierPdu)) : bool :=
  match r with Done (Some o) => match op_event_sn o with None => true | Some _ => false end | _ => false end.

Lemma outlier_authentic_witness :
  exists keys v, keys_of (bt_remove "unsigned" ex_message) RoomVersionRules.V10 ex_room keys /\
    verify_event keys (bt_remove "unsigned" ex_message) RoomVersionRules.V10 = Done v.
Proof.
  assert (is_new_outlier (fst ex_outlier) = true) as Hnew by (vm_compute; reflexivity).
  destruct ex_outlier as [[[o|]|e| |] s'] eqn:E; cbn in Hnew; try discriminate Hnew.
  destruct (op_event_sn o) eqn:Hn; [discriminate Hnew|].
  unfold ex_outlier in E.
  destruct (outlier_authentic ex_conf "x" "$m" "!r:x" RV_V10 ex_message ex_room o s' ex_message_wf E Hn)
    as (rules & keys & v & json & Hr & Hk & Hv & _).
  injection Hr as <-. exists keys, v. split; [exact Hk|exact Hv].
Defined.

(** The state at the message is resolved within the budget. *)
Lemma resolve_state_bounded_witness :
  resolve_state_at_incoming ex_pdu RoomVersionRules.V10 ex_room
  = ('(r, _) ← resolve_inner st_panic 300 RoomVersionRules.V10 ex_pdu ∅ MAX_RESOLVED_EVENTS; mret r : St ExStore _) ex_room.
Proof. apply (resolve_state_bounded ex_pdu RoomVersionRules.V10 st_panic 300 ex_room). unfold MAX_RESOLVED_EVENTS. lia. Defined.

(** Taking the stored message in. *)
Lemma append_pdu_takes_in_witness :
  (forall id, in_timeline (snd (append_pdu ex_conf ex_stored ex_message ex_known)) id
              = (id =? "$m") || in_timeline ex_known id) /\
  forward_extremities (snd (append_pdu ex_conf ex_stored ex_message ex_known)) = next_extremities ex_stored ex_known.
Proof.
  destruct (append_pdu_takes_in ex_conf ex_stored ex_message ex_known
    (snd (append_pdu ex_conf ex_stored ex_message ex_known))) as (Ht & _ & _ & Hf & _).
  - exact ex_message_wf.
  - vm_compute. eexists. reflexivity.
  - apply done_snd. vm_compute. reflexivity.
  - split; [exact Ht|exact Hf].
Defined.

Lemma reply_to_unknown_dropped_witness :
  exists e s', append_pdu ex_conf ex_reply ex_message ex_known = (Fail e, s') /\
    (forall id, in_timeline s' id = in_timeline ex_known id) /\
    forward_extremities s' = next_extremities ex_reply ex_known.
Proof. apply (reply_to_unknown_dropped ex_conf ex_reply ex_message ex_known "$z"); vm_compute; reflexivity. Defined.
