(* ===== verification/LocalExamples.v ===== *)
(** * A message from a local user

    The room of [IncomingExamples] on the server of its creator, who sends a message. *)
From S2P Require Import Prelude RustStr BTree Identifiers RoomVersion Json Canonical Redaction Signatures Events Membership EventAuth TopoSort StateRes Effects StateFrames AuthChain RoomPowerLevels EventStore AppendPdu Incoming LocalPdu StoreHistory Admission AppendSpec LocalSpec IncomingExamples.
Open Scope string_scope.

#[local] Existing Instances ascii_unicode toy_crypto toy_laws forward_order ex_frame_cache ex_chain_cache ex_wild ex_services.
#[local] Instance ex_raw : RawText := fun _ => "raw".

Definition ex_home : Config := {| server_name := "x"; server_user_id := "@palpo:x"; emergency_password := false |}.
Definition ex_builder : PduBuilder :=
  {| pb_event_type := "m.room.message"; pb_content := JObj [("body", JStr "hello")]; pb_raw := "{}";
     pb_unsigned := []; pb_state_key := None; pb_redacts := None; pb_timestamp := None |}.

(** ** Built and recorded *)

Definition ex_recorded := build_and_append_pdu ex_home toy_key_pair ex_builder "@a:x" "!r:x" RV_V10 ex_room.
Definition ex_recorded_pdu : StoredPdu := match fst ex_recorded with Done p => p | _ => ex_stored end.

Lemma built_event_recorded_witness :
  in_timeline (snd ex_recorded) (event_id ex_recorded_pdu) = true /\
  exists s0 d, same_state ex_builder "!r:x" ex_room = (Done None, s0) /\
    drafted ex_builder "@a:x" "!r:x" RoomVersionRules.V10 s0 d.
Proof.
  destruct (built_event_recorded ex_home toy_key_pair ex_builder "@a:x" "!r:x" RV_V10 ex_room ex_recorded_pdu
              (snd ex_recorded)) as [(key & Hkey & _) | (s0 & rules & d & json & stored & H0 & _ & Hr & Hd & _ & Ht & _)].
  - apply done_snd. vm_compute. reflexivity.
  - exfalso. revert Hkey. cbn. discriminate.
  - injection Hr as <-. split; [exact Ht|]. exists s0, d. split; [exact H0|exact Hd].
Defined.

(** ** Sent *)

Definition ex_built := hash_sign ex_home toy_key_pair ex_builder "@a:x" "!r:x" RV_V10 ex_room.
Definition ex_built_pdu : PduEvent := match fst ex_built with Done (p, _) => p | _ => ex_pdu end.
Definition ex_built_json : CanonicalJsonObject := match fst ex_built with Done (_, o) => o | _ => [] end.
Definition ex_built_stored : CanonicalJsonObject :=
  bt_insert "unsigned" (CObject [("transaction_id", CString "1")]) ex_built_json.
Definition ex_sent := convert_to_outgoing_federation_event ex_built_stored (snd ex_recorded).
Definition ex_sent_json : CanonicalJsonObject := match fst ex_sent with Done o => o | _ => [] end.

Lemma ex_built_stored_same : same_signed ex_built_json ex_built_stored.
Proof.
  apply same_signed_unsigned.
  assert (bt_from_list ex_built_json = ex_built_json) as <- by (vm_compute; reflexivity). apply bt_from_list_wf.
Qed.

Lemma sent_event_accepted_witness :
  gen_event_id ex_sent_json RV_V10 = Ok (event_id ex_built_pdu) /\
  verify_event toy_keys (bt_remove "unsigned" ex_sent_json) RoomVersionRules.V10 = Done VerifiedAll.
Proof.
  apply (sent_event_accepted ex_home toy_key_pair ex_builder "@a:x" "!r:x" RV_V10 RoomVersionRules.V10 ex_room
           ex_built_pdu ex_built_json (snd ex_built) ex_built_stored (snd ex_recorded)
           (default (built_row ex_pdu "@a:x" 0) (rows (snd ex_recorded) !! event_id ex_built_pdu))
           ex_sent_json (snd ex_sent) "ed25519:1" "pk" {[ "ed25519:1" := "pk" ]} toy_keys {[ "x" ]}).
  - apply done_snd. vm_compute. reflexivity.
  - reflexivity.
  - discriminate.
  - discriminate.
  - exact ex_built_stored_same.
  - vm_compute. reflexivity.
  - vm_compute. reflexivity.
  - vm_compute. reflexivity.
  - apply done_snd. vm_compute. reflexivity.
  - exact toy_signs.
  - vm_compute. reflexivity.
  - reflexivity.
  - reflexivity.
  - vm_compute. reflexivity.
  - intros x Hx. apply elem_of_singleton in Hx. exact Hx.
Defined.
