(* ===== verification/Visibility.v ===== *)
(** * Who may see an event: [room/state.rs], [room/user.rs] and
      [SnPduEvent::user_can_see] of [event/pdu.rs]

    The visibility of an event is decided on the room state before it: the history
    visibility, the membership of the user or of the users of a server, and, under
    shared visibility, whether one of them joined later in the graph of events.  The
    recursive queries that look for such a join are computed by iteration over the edges
    of the room. *)
From S2P Require Import Prelude RustStr BTree Identifiers RoomVersion Json Canonical Redaction Signatures Events Membership EventAuth TopoSort StateRes Effects StateFrames AuthChain RoomPowerLevels EventStore AppendPdu Incoming.
From Stdlib Require Import Ascii.
Open Scope string_scope.

(** ** [RoomMemberEventContent]

    Members are read in the order in which they are written.  A signing key ID can make
    the reader panic. *)

(** The members of an object whose names are fields, with the reader of each. *)
Fixpoint visit_members (fields : list (string * (json -> comp unit unit)))
    (members : list (string * json)) (seen : list string) : comp unit (list string) :=
  match members with
  | [] => Done seen
  | (k, v) :: members =>
      match List.find (fun f => f.1 =? k) fields with
      | None => visit_members fields members seen
      | Some (_, de) =>
          if bool_decide (k ∈ seen) then Fail tt
          else _ ← de v; visit_members fields members (k :: seen)
      end
  end.
(** The elements of an array in the place of the members. *)
Fixpoint visit_elements (fields : list (string * (json -> comp unit unit))) (l : list json) : comp unit unit :=
  match fields, l with
  | [], [] => Done tt
  | (_, de) :: fields, v :: l => _ ← de v; visit_elements fields l
  | _, _ => Fail tt
  end.
(** A derived struct all of whose fields are required. *)
Definition visit_struct (fields : list (string * (json -> comp unit unit))) (j : json) : comp unit unit :=
  match j with
  | JObj members =>
      seen ← visit_members fields members [];
      if forallb (fun f => bool_decide (f.1 ∈ seen)) fields then Done tt else Fail tt
  | JArr l => visit_elements fields l
  | _ => Fail tt
  end.
Definition reads {A} (de : json -> option A) (j : json) : comp unit unit :=
  match de j with Some _ => Done tt | None => Fail tt end.
(** [Option<T>] *)
Definition reads_option (de : json -> comp unit unit) (j : json) : comp unit unit :=
  match j with JNull => Done tt | j => de j end.
(** The entries of a map, each by a reader of its key and one of its value. *)
Fixpoint visit_entries (de_key : string -> comp unit unit) (de : json -> comp unit unit)
    (members : list (string * json)) : comp unit unit :=
  match members with
  | [] => Done tt
  | (k, v) :: members => _ ← de_key k; _ ← de v; visit_entries de_key de members
  end.
Definition reads_map (de_key : string -> comp unit unit) (de : json -> comp unit unit) (j : json) : comp unit unit :=
  match j with JObj members => visit_entries de_key de members | _ => Fail tt end.

Section member_content.
Context {U : Unicode}.

(** [ServerSignatures] *)
Definition reads_signatures : json -> comp unit unit :=
  reads_map (fun k => if is_ok (server_name_validate k) then Done tt else Fail tt)
    (reads_map (fun k => match key_id_validate server_signing_key_version_validate k with
                         | Done _ => Done tt
                         | Fail _ => Fail tt
                         | Panic => Panic
                         | OutOfFuel => OutOfFuel
                         end) (reads de_str)).
(** [SignedContent], [ThirdPartyInvite] *)
Definition reads_signed : json -> comp unit unit :=
  visit_struct [("mxid", reads de_user_id); ("signatures", reads_signatures); ("token", reads de_str)].
Definition reads_third_party_invite : json -> comp unit unit :=
  visit_struct [("display_name", reads de_str); ("signed", reads_signed)].

Definition member_fields : list (string * (json -> comp unit unit)) :=
  [("avatar_url", reads_option (reads de_str)); ("displayname", reads_option (reads de_str));
   ("is_direct", reads_option (reads de_bool)); ("membership", reads de_str);
   ("third_party_invite", reads_option reads_third_party_invite);
   ("xyz.amorgan.blurhash", reads_option (reads de_str)); ("reason", reads_option (reads de_str));
   ("join_authorised_via_users_server", reads_option (reads de_str))].
(** [from_str::<RoomMemberEventContent>], of which the membership is used. *)
Definition member_content (content : json) : comp unit MembershipState :=
  match content with
  | JObj members =>
      _ ← visit_members member_fields members [];
      match occurrences "membership" members with
      | [JStr m] => Done (membership_of_string m)
      | _ => Fail tt
      end
  | _ => Fail tt
  end.

End member_content.

(** ** [history_visibility_allows] *)

Definition uses_shared_history_visibility (v : HistoryVisibility) : bool :=
  match v with WorldReadable | Invited | Joined => false | Shared | CustomVisibility _ => true end.
Definition history_visibility_allows (v : HistoryVisibility) (membership : option MembershipState)
    (joined_after : bool) : bool :=
  if bool_decide (v = WorldReadable) || bool_decide (membership = Some MJoin) then true
  else if uses_shared_history_visibility v then joined_after
  else bool_decide (v = Invited) && bool_decide (membership = Some MInvite).

(** [StateBefore] *)
Inductive StateBefore (T : Type) := Resolved (t : T) | Unavailable.
Arguments Resolved {T} _.
Arguments Unavailable {T}.

(** [u64_to_i64] *)
Definition u64_to_i64 (value : Z) : Z := if (value <=? I64_MAX)%Z then value else I64_MAX.

(** A user ID of the given server. *)
Definition user_on (server user_id : string) : bool :=
  is_ok (user_id_validate user_id)
  && match user_id_server_name user_id with Done n => n =? server | _ => false end.

Section visibility.
Context {U : Unicode} {C : Crypto} {HO : HashOrder} {WM : WildMatch}.
Context {LF : LruCache Z (list FrameInfo)} {LA : LruCache (list Z) (list Z)}.
Context {O : Type} {SV : Services O}.
#[local] Abbreviation Db := (St (Store (O := O))).

(** ** Later joins *)

(** [json_data -> 'content' ->> 'membership' = 'join'] *)
Definition is_join_data (data : EventData) : bool :=
  match ed_json data with
  | JObj m =>
      match bt_get "content" m with
      | Some (JObj content) => match bt_get "membership" content with Some (JStr m) => m =? "join" | _ => false end
      | _ => false
      end
  | _ => false
  end.
(** [candidate_joins]: joins in the room's timeline below the given depth. *)
Definition candidate_join (s : Store (O := O)) (who : string -> bool) (room_id : string) (depth : Z)
    (id : string) (row : EventRow) : bool :=
  (er_room_id row =? room_id) && (er_ty row =? "m.room.member")
  && match er_state_key row with Some k => who k | None => false end
  && (u64_to_i64 depth <? er_depth row)%Z && negb (er_is_outlier row) && negb (er_soft_failed row)
  && negb (er_is_rejected row)
  && match datas s !! id with Some data => is_join_data data | None => false end.
Definition candidate_joins (s : Store (O := O)) (who : string -> bool) (room_id : string) (depth : Z) : gset string :=
  dom (filter (fun '(id, row) => candidate_join s who room_id depth id row = true) (rows s)).

(** The predecessors of events along the edges of a room. *)
Definition prevs_of (s : Store (O := O)) (room_id : string) (ids : gset string) : gset string :=
  set_map snd (dom (filter (fun '((id, _), r) => r = room_id /\ id ∈ ids) (event_edges s))).
(** [ancestors]: the recursive query adds predecessors until there are no new ones. *)
Definition ancestors (s : Store (O := O)) (room_id : string) (ids : gset string) : gset string :=
  Nat.iter (size (event_edges s)) (fun acc => acc ∪ prevs_of s room_id acc) (prevs_of s room_id ids).

Definition joined_after (user_id room_id event_id : string) (event_depth : Z) : Db bool :=
  st_gets (fun s => bool_decide
    (event_id ∈ ancestors s room_id (candidate_joins s (String.eqb user_id) room_id event_depth))).
(** [substring(state_key from position(':' in state_key) + 1)] *)
Definition after_colon (state_key : string) : string :=
  match str_find ":"%char state_key with Some i => str_drop (i + 1) state_key | None => state_key end.
Definition server_user_joined_after (server_name room_id event_id : string) (event_depth : Z) : Db bool :=
  st_gets (fun s => bool_decide
    (event_id ∈ ancestors s room_id
       (candidate_joins s (fun k => after_colon k =? server_name) room_id event_depth))).

(** ** The state before an event *)

(** [None] for what is not found. *)
Definition found {A} (m : Db A) : Db (option A) :=
  r ← st_try m;
  match r with Ok a => mret (Some a) | Err e => if is_not_found e then mret None else st_fail e end.

Definition state_event_before (p : StoredPdu) (frame_id : Z) (event_ty state_key : string) :
    Db (StateBefore (option StoredPdu)) :=
  state_event ← found (get_frame_state frame_id event_ty state_key);
  if match state_event with Some q => negb (event_id (inner q) =? event_id (inner p)) | None => true end
  then mret (Resolved state_event)
  else
    room_version ← get_version (room_id (inner p));
    version_rules ← of_res (get_version_rules room_version);
    state_ids ← resolve_state_at_incoming (inner p) version_rules;
    match state_ids with
    | None => mret Unavailable
    | Some state_ids =>
        field_id ← found (on_frames (get_field_id event_ty state_key));
        match field_id ≫= (fun f => state_get f state_ids) with
        | None => mret (Resolved None)
        | Some id => q ← get_pdu id; mret (Resolved (Some q))
        end
    end.

Definition history_visibility_before (p : StoredPdu) (frame_id : Z) : Db (StateBefore HistoryVisibility) :=
  before ← state_event_before p frame_id "m.room.history_visibility" EmptyString;
  mret (match before with
        | Resolved q => Resolved (default Shared (q ≫= (fun q => de_history_visibility (content (inner q)))))
        | Unavailable => Unavailable
        end).

(** [get_content::<RoomMemberEventContent>()] *)
Definition get_member_content (p : PduEvent) : Db (result AppError MembershipState) := fun s =>
  match member_content (content p) with
  | Done m => (Done (Ok m), s)
  | Fail _ => (Done (Err SerdeJson), s)
  | Panic => (Panic, s)
  | OutOfFuel => (OutOfFuel, s)
  end.

Definition user_membership_before (p : StoredPdu) (frame_id : Z) (user_id : string) :
    Db (StateBefore (option MembershipState)) :=
  before ← state_event_before p frame_id "m.room.member" user_id;
  match before with
  | Unavailable => mret Unavailable
  | Resolved None => mret (Resolved None)
  | Resolved (Some q) =>
      m ← get_member_content (inner q);
      match m with Ok m => mret (Resolved (Some m)) | Err e => st_fail e end
  end.

(** The frame on which the visibility is decided. *)
Definition visibility_frame (p : StoredPdu) : Db (option Z) :=
  before ← st_try (on_frames (get_pdu_before_frame_id (event_id (inner p))));
  match before with
  | Ok frame_id => mret (Some frame_id)
  | Err e =>
      if negb (is_not_found e) then st_fail e
      else match state_key (inner p) with
           | None => found (on_frames (get_pdu_frame_id (event_id (inner p))))
           | Some _ => mret None
           end
  end.
(** The visibility an [m.room.history_visibility] event sets. *)
Definition visibility_after (p : PduEvent) : option HistoryVisibility :=
  if event_type p =? "m.room.history_visibility"
  then Some (default Shared (de_history_visibility (content p))) else None.

(** ** [SnPduEvent::user_can_see] *)

Definition user_can_see (p : StoredPdu) (user_id : string) : Db bool :=
  let own := (event_type (inner p) =? "m.room.member") && bool_decide (state_key (inner p) = Some user_id) in
  if own then mret true
  else
    frame ← visibility_frame p;
    match frame with
    | None => mret false
    | Some frame_id =>
        history_visibility ← history_visibility_before p frame_id;
        match history_visibility with
        | Unavailable => mret false
        | Resolved visibility =>
            let after := visibility_after (inner p) in
            if bool_decide (visibility = WorldReadable) || bool_decide (after = Some WorldReadable)
            then mret true
            else
              after_membership ← (if own : bool then m ← get_member_content (inner p); mret (ok m)
                                  else mret None);
              membership ← user_membership_before p frame_id user_id;
              match membership with
              | Unavailable => mret false
              | Resolved membership =>
                  if bool_decide (membership = Some MJoin) then mret true
                  else
                    let shared v := uses_shared_history_visibility v in
                    joined_after ←
                      (if shared visibility || match after with Some v => shared v | None => false end
                       then joined_after user_id (room_id (inner p)) (event_id (inner p)) (depth (inner p))
                       else mret false);
                    let allows v m := history_visibility_allows v m joined_after in
                    mret (allows visibility membership
                          || match after with Some v => allows v membership | None => false end
                          || match after_membership with Some m => allows visibility (Some m) | None => false end)
              end
        end
    end.

(** [user_can_see_event], [user_can_see_events] *)
Definition user_can_see_event (user_id event_id : string) : Db bool :=
  p ← get_pdu event_id; user_can_see p user_id.
Definition user_can_see_events (user_id room_id : string) : Db bool :=
  joined ← call (IsJoined user_id room_id);
  if (joined : bool) then mret true
  else
    visibility ← get_history_visibility room_id;
    match visibility with
    | Invited => call (IsInvited user_id room_id)
    | WorldReadable => mret true
    | _ => mret false
    end.

(** ** [server_can_see_event] *)

(** [MembershipEvent]: the membership in the JSON of an event. *)
Definition membership_of_data (data : EventData) : option MembershipState :=
  struct1 "content" false (field_required (fun c => ok (RoomMember.membership c))) (ed_json data).

(** The state of the frame without the event itself. *)
Definition state_ids_before (p : StoredPdu) (frame_id : Z) (server_name : string)
    (state_ids : FieldState) : Db (StateBefore FieldState) :=
  match state_key (inner p) with
  | Some key =>
      if (event_type (inner p) =? "m.room.member") && user_on server_name key then
        field_id ← found (on_frames (get_field_id "m.room.member" key));
        match field_id with
        | Some f =>
            if bool_decide (state_get f state_ids = Some (event_id (inner p))) then
              before ← state_event_before p frame_id "m.room.member" key;
              mret (match before with
                    | Resolved (Some q) => Resolved (index_insert f (event_id (inner q)) state_ids)
                    | Resolved None => Resolved (filter (fun kv => kv.1 <> f) state_ids)
                    | Unavailable => Unavailable
                    end)
            else mret (Resolved state_ids)
        | None => mret (Resolved state_ids)
        end
      else mret (Resolved state_ids)
  | None => mret (Resolved state_ids)
  end.

(** The membership events of the server's users in a state, and the memberships they
    hold. *)
Definition server_member_ids (s : Store (O := O)) (server_name : string) (state_ids : FieldState) : list string :=
  omap (fun '((ty, key), field_id) =>
          if (ty =? "m.room.member") && user_on server_name key then state_get field_id state_ids else None)
    (iter_map (room_state_fields (frames s))).
Definition memberships_of (s : Store (O := O)) (ids : list string) : list MembershipState :=
  omap (fun '(id, data) => if bool_decide (id ∈ ids) then membership_of_data data else None) (iter_map (datas s)).

Definition server_memberships_at (p : StoredPdu) (frame_id : Z) (server_name : string) :
    Db (StateBefore (list MembershipState)) :=
  state_ids ← on_frames (get_full_state_ids frame_id);
  before ← state_ids_before p frame_id server_name state_ids;
  match before with
  | Unavailable => mret Unavailable
  | Resolved state_ids =>
      st_gets (fun s => Resolved (memberships_of s (server_member_ids s server_name state_ids)))
  end.

(** The event is the membership of one of the server's users. *)
Definition own_membership (p : PduEvent) (origin : string) : Db (option MembershipState) :=
  match state_key p with
  | Some key =>
      if (event_type p =? "m.room.member") && user_on origin key
      then m ← get_member_content p; mret (ok m) else mret None
  | None => mret None
  end.

Definition server_can_see_event (origin room_id' event_id' : string) : Db bool :=
  p ← get_pdu event_id';
  if negb (room_id (inner p) =? room_id') then mret false
  else
    frame ← visibility_frame p;
    match frame with
    | None => mret false
    | Some frame_id =>
        history_visibility ← history_visibility_before p frame_id;
        match history_visibility with
        | Unavailable => mret false
        | Resolved visibility =>
            let after := visibility_after (inner p) in
            if bool_decide (visibility = WorldReadable) || bool_decide (after = Some WorldReadable)
            then mret true
            else
              let shared v := uses_shared_history_visibility v in
              memberships ← server_memberships_at p frame_id origin;
              match memberships with
              | Unavailable => mret false
              | Resolved memberships =>
                  if bool_decide (MJoin ∈ memberships) then mret true
                  else
                    joined_after ←
                      (if shared visibility || match after with Some v => shared v | None => false end
                       then server_user_joined_after origin room_id' (event_id (inner p)) (depth (inner p))
                       else mret false);
                    let allows v := history_visibility_allows v None joined_after
                      || existsb (fun m => history_visibility_allows v (Some m) joined_after) memberships in
                    own ← own_membership (inner p) origin;
                    mret (allows visibility || match after with Some v => allows v | None => false end
                          || match own with
                             | Some m => history_visibility_allows visibility (Some m) joined_after
                             | None => false
                             end)
              end
        end
    end.
End visibility.
