(* ===== verification/Disclosure.v ===== *)
(** * What other servers may read: [federation/access_check.rs],
      [routing/federation/event.rs] and [routing/federation/backfill.rs]

    The endpoints that hand stored events to another server: one event, its auth chain,
    the events between two points of the graph and the history before some events. *)
From S2P Require Import Prelude RustStr BTree Identifiers RoomVersion Json Canonical Redaction Signatures Events Membership EventAuth TopoSort StateRes Effects StateFrames AuthChain RoomPowerLevels EventStore AppendPdu Incoming LocalPdu Visibility.
Open Scope string_scope.

(** The keys of the queue of [get_backfill] in their order. *)
Definition queue_compare (x y : Z * string) : comparison :=
  match Z.compare x.1 y.1 with Eq => String.compare x.2 y.2 | c => c end.
(** [BTreeMap::pop_last] *)
Definition pop_last (queue : gset (Z * string)) : option ((Z * string) * gset (Z * string)) :=
  match rev (sort_by_key queue_compare id (elements queue)) with
  | x :: _ => Some (x, queue ∖ {[ x ]})
  | [] => None
  end.

Section disclosure.
Context {U : Unicode} {C : Crypto} {HO : HashOrder} {WM : WildMatch}.
Context {LF : LruCache Z (list FrameInfo)} {LA : LruCache (list Z) (list Z)}.
Context {O : Type} {SV : Services O}.
#[local] Abbreviation Db := (St (Store (O := O))).

Definition access_check (origin room_id : string) (event_id : option string) : Db unit :=
  joined ← call (IsServerJoined origin room_id);
  if negb joined then st_fail MatrixForbidden
  else
    _ ← acl_check origin room_id;
    match event_id with
    | None => mret tt
    | Some event_id =>
        visible ← server_can_see_event origin room_id event_id;
        if (visible : bool) then mret tt else st_fail MatrixForbidden
    end.

(** ** One event *)

Definition get_event (origin event_id : string) : Db CanonicalJsonObject :=
  row ← st_gets (fun s => rows s !! event_id);
  row ← st_some row DbNotFound;
  if er_rejection_reason row then st_fail MatrixNotFound
  else
    event_json ← get_pdu_json event_id;
    event_json ← st_some event_json MatrixNotFound;
    _ ← access_check origin (er_room_id row) (Some event_id);
    convert_to_outgoing_federation_event event_json.

(** ** The auth chain of an event *)

(** The room an event names, or the one it is stored in. *)
Definition room_of_event (event_id : string) (o : CanonicalJsonObject) : Db string :=
  match bt_get "room_id" o ≫= as_str with
  | Some r => if is_ok (room_id_validate r) then mret r else st_fail AppInternal
  | None =>
      row ← st_gets (fun s => rows s !! event_id);
      row ← st_some row DbNotFound;
      mret (er_room_id row)
  end.
Fixpoint outgoing_events (ids : list string) : Db (list CanonicalJsonObject) :=
  match ids with
  | [] => mret []
  | id :: ids =>
      o ← st_try (get_pdu_json id);
      match o with
      | Ok (Some o) =>
          out ← convert_to_outgoing_federation_event o;
          rest ← outgoing_events ids;
          mret (out :: rest)
      | _ => outgoing_events ids
      end
  end.
Definition auth_chain (origin room_id event_id : string) : Db (list CanonicalJsonObject) :=
  _ ← access_check origin room_id None;
  event ← get_pdu_json event_id;
  event ← st_some event MatrixNotFound;
  room ← room_of_event event_id event;
  ids ← on_chains (get_auth_chain_ids room [event_id]);
  outgoing_events ids.

(** ** Missing events *)

(** The predecessors an event's JSON names. *)
Definition json_prev_events (o : CanonicalJsonObject) : option (list string) :=
  v ← bt_get "prev_events" o; de_vec de_event_id (into_json v).
(** The walk from [latest_events], of which [walked] have been looked at and [queue]
    are still to be. *)
Fixpoint missing_loop (fuel : nat) (room_id : string) (earliest_events : list string) (latest limit : nat)
    (walked : nat) (queue : list string) (events : list (string * CanonicalJsonObject)) :
    Db (list (string * CanonicalJsonObject)) :=
  match fuel with
  | 0%nat => st_out_of_fuel
  | S fuel =>
      match queue with
      | [] => mret events
      | event_id :: queue =>
          if negb (Nat.ltb (length events) limit) then mret events
          else
            let continue := missing_loop fuel room_id earliest_events latest limit (S walked) in
            pdu ← get_pdu_json event_id;
            match pdu with
            | None => continue queue events
            | Some pdu =>
                event_room_id ← room_of_event event_id pdu;
                if negb (event_room_id =? room_id) then st_fail MatrixInvalidParam
                else if bool_decide (event_id ∈ earliest_events) then continue queue events
                else
                  prev_events ← st_some (json_prev_events pdu) AppInternal;
                  if Nat.leb latest walked then
                    out ← convert_to_outgoing_federation_event pdu;
                    continue (queue ++ prev_events)%list (events ++ [(event_id, out)])%list
                  else continue (queue ++ prev_events)%list events
            end
      end
  end.
(** Those of the events the server may see. *)
Fixpoint visible_events (origin room_id : string) (events : list (string * CanonicalJsonObject)) :
    Db (list (string * CanonicalJsonObject)) :=
  match events with
  | [] => mret []
  | (event_id, event) :: events =>
      visible ← st_try (server_can_see_event origin room_id event_id);
      rest ← visible_events origin room_id events;
      mret (match visible with Ok true => (event_id, event) :: rest | _ => rest end)
  end.
Definition missing_events (fuel : nat) (origin room_id : string) (earliest_events latest_events : list string)
    (limit : nat) : Db (list (string * CanonicalJsonObject)) :=
  _ ← access_check origin room_id None;
  events ← missing_loop fuel room_id earliest_events (length latest_events) limit 0 latest_events [];
  visible_events origin room_id (rev events).

(** ** Backfill *)

(** [event_edges] and [events] by ID. *)
Definition edge_prevs (s : Store (O := O)) (ids : gset string) : gset string :=
  set_map snd (filter (fun e => e.1 ∈ ids) (dom (event_edges s))).
Definition with_depths (s : Store (O := O)) (ids : gset string) : gset (Z * string) :=
  set_omap (fun id => (fun row => (er_depth row, id)) <$> rows s !! id) ids.

(** One event for the answer, if there is one. *)
Definition backfill_event (origin room_id event_id' : string) (events : list (string * CanonicalJsonObject)) :
    Db (list (string * CanonicalJsonObject)) :=
  if bool_decide (event_id' ∈ events.*1) then mret events
  else
    r ← st_try (get_pdu_and_data event_id');
    match r with
    | Err _ => mret events
    | Ok (p, data) =>
        visible ← server_can_see_event origin room_id (event_id (inner p));
        if (visible : bool) then
          out ← convert_to_outgoing_federation_event data;
          mret (events ++ [(event_id', out)])%list
        else mret events
    end.
(** [stuck] is what the loop does without fuel. *)
Fixpoint backfill_loop (stuck : Db (list (string * CanonicalJsonObject))) (fuel : nat) (origin room_id : string)
    (limit : nat) (queue : gset (Z * string)) (events : list (string * CanonicalJsonObject)) : Db (list (string * CanonicalJsonObject)) :=
  match fuel with
  | 0%nat => stuck
  | S fuel =>
      if negb (Nat.ltb (length events) limit) then mret events
      else match pop_last queue with
      | None => mret events
      | Some ((_, event_id), queue) =>
          prev_ids ← st_gets (fun s => edge_prevs s {[ event_id ]});
          let prev_ids := filter (fun p => p ∉ events.*1) prev_ids in
          events ← backfill_event origin room_id event_id events;
          prevs ← st_gets (fun s => with_depths s prev_ids);
          backfill_loop stuck fuel origin room_id limit (prevs ∪ queue) events
      end
  end.
Definition get_backfill (stuck : Db (list (string * CanonicalJsonObject))) (fuel : nat) (origin room_id : string) (v : list string) (limit : nat) :
    Db (list (string * CanonicalJsonObject)) :=
  seed_prev_ids ← st_gets (fun s => edge_prevs s (list_to_set v));
  seeds ← st_gets (fun s => with_depths s seed_prev_ids);
  backfill_loop stuck fuel origin room_id limit seeds [].
End disclosure.
