(* ===== verification/VisibilitySpec.v ===== *)
(** * Who sees what

    The queries for later joins compute the causal order of the room, and the decisions
    of [user_can_see] and [server_can_see_event] are those of the rules of history
    visibility on the state before the event. *)
From stdpp Require Import relations.
From S2P Require Import Prelude RustStr BTree Identifiers RoomVersion Json Canonical Redaction Signatures Events Membership EventAuth TopoSort StateRes Effects StateFrames AuthChain RoomPowerLevels EventStore AppendPdu Incoming LocalPdu StoreHistory Visibility.
Open Scope string_scope.

(** ** Iterating to a fixed point *)

Section closure.
Context (T : gset string) (f : gset string -> gset string).
Hypothesis f_grows : forall X, X ⊆ f X.
Hypothesis f_within : forall X, X ⊆ T -> f X ⊆ T.

Lemma iter_closed n X : X ⊆ T -> (size T <= size X + n)%nat -> f (Nat.iter n f X) = Nat.iter n f X.
Proof.
  revert X. induction n as [|n IH]; intros X HX Hs.
  - cbn. assert (X = T) as ->.
    { apply set_eq. intros x. split; [apply HX|]. intros Hx. destruct (decide (x ∈ X)) as [|Hn]; [done|].
      assert (X ⊂ T) as Hss by set_solver. apply subset_size in Hss. lia. }
    apply set_eq. intros x. specialize (f_grows T). specialize (f_within T). set_solver.
  - rewrite Nat.iter_succ_r. destruct (decide (f X = X)) as [E|E].
    + rewrite E. assert (forall k, Nat.iter k f X = X) as Hk by (induction k as [|k IHk]; [done|]; by rewrite Nat.iter_succ, IHk). by rewrite Hk.
    + apply IH; [by apply f_within|]. assert (X ⊂ f X) as Hss.
      { split; [apply f_grows|]. intros Hs'. apply E, set_eq. intros x. split; [apply Hs'|apply f_grows]. }
      apply subset_size in Hss. lia.
Qed.
Lemma iter_grows n X : X ⊆ Nat.iter n f X.
Proof. induction n as [|n IH]; [done|]. rewrite Nat.iter_succ. etrans; [exact IH|apply f_grows]. Qed.
End closure.

Lemma size_set_map_le {A B} `{Countable A, Countable B} (f : A -> B) (X : gset A) :
  (size (set_map f X : gset B) <= size X)%nat.
Proof.
  induction X as [|x X Hx IH] using set_ind_L; [done|].
  rewrite set_map_union_L, set_map_singleton_L, (size_union {[ x ]} X), size_singleton by set_solver.
  destruct (decide (f x ∈ (set_map f X : gset B))) as [Hin|Hout].
  - replace ({[ f x ]} ∪ (set_map f X : gset B)) with (set_map f X : gset B) by set_solver. lia.
  - rewrite size_union by set_solver. rewrite size_singleton. lia.
Qed.

Section seen.
Context {U : Unicode} {C : Crypto} {HO : HashOrder} {WM : WildMatch}.
Context {LF : LruCache Z (list FrameInfo)} {LA : LruCache (list Z) (list Z)}.
Context {O : Type} {SV : Services O}.
#[local] Abbreviation Db := (St (Store (O := O))).
Implicit Types (s : Store (O := O)) (p : StoredPdu).

(** ** The causal order *)

(** An event has another among its predecessors, in the room. *)
Definition edge s (room x y : string) : Prop := event_edges s !! (x, y) = Some room.

Lemma elem_of_prevs_of s room ids y : y ∈ prevs_of s room ids <-> exists x, x ∈ ids /\ edge s room x y.
Proof.
  unfold prevs_of, edge. rewrite elem_of_map. split.
  - intros ([x y'] & -> & Hd). apply elem_of_dom in Hd as [r Hr]. apply map_lookup_filter_Some in Hr as [Hr [-> Hx]].
    by exists x.
  - intros (x & Hx & He). exists (x, y). split; [done|]. apply elem_of_dom. exists room.
    apply map_lookup_filter_Some. by split.
Qed.

(** The recursive query finds the events before the given ones. *)
Lemma elem_of_ancestors s room ids y :
  y ∈ ancestors s room ids <-> exists x, x ∈ ids /\ tc (edge s room) x y.
Proof.
  unfold ancestors. set (f := fun acc => acc ∪ prevs_of s room acc). split.
  - enough (forall n, y ∈ Nat.iter n f (prevs_of s room ids) -> exists x, x ∈ ids /\ tc (edge s room) x y) by eauto.
    intros n. revert y. induction n as [|n IH]; intros y.
    + cbn. rewrite elem_of_prevs_of. intros (x & Hx & He). exists x. split; [done|by apply tc_once].
    + rewrite Nat.iter_succ. unfold f at 1. rewrite elem_of_union, elem_of_prevs_of. intros [Hy|(z & Hz & He)]; [by apply IH|].
      apply IH in Hz as (x & Hx & Ht). exists x. split; [done|]. by apply (tc_r x z y).
  - intros (x & Hx & Ht). set (T := set_map snd (dom (event_edges s)) : gset string).
    assert (forall X, prevs_of s room X ⊆ T) as HT.
    { intros X z. rewrite elem_of_prevs_of. intros (x' & _ & He). apply elem_of_map. exists (x', z).
      split; [done|]. apply elem_of_dom. by exists room. }
    assert (f (Nat.iter (size (event_edges s)) f (prevs_of s room ids))
            = Nat.iter (size (event_edges s)) f (prevs_of s room ids)) as Hfix.
    { apply (iter_closed T); [set_solver|set_solver|apply HT|].
      unfold T. etrans; [apply size_set_map_le|]. rewrite size_dom. lia. }
    set (R := Nat.iter _ f _) in *.
    assert (forall a b, a ∈ R -> edge s room a b -> b ∈ R) as Hcl.
    { intros a b Ha He. rewrite <- Hfix. apply elem_of_union_r, elem_of_prevs_of. by exists a. }
    assert (forall b, edge s room x b -> b ∈ R) as Hx1.
    { intros b He. apply (iter_grows f ltac:(set_solver)), elem_of_prevs_of. by exists x. }
    assert (forall a b, tc (edge s room) a b -> a ∈ R -> b ∈ R) as Htc.
    { induction 1 as [a b He|a c b He _ IH]; eauto. }
    destruct Ht as [x y He|x z y He Ht]; [by apply Hx1|]. apply (Htc z); [done|by apply Hx1].
Qed.

(** A user, of the ones described by [who], joined the room after an event: an accepted
    join that is not an outlier has the event among the ones before it. *)
Definition joined_later s (who : string -> bool) (p : PduEvent) : Prop :=
  exists id row, rows s !! id = Some row /\ candidate_join s who (room_id p) (depth p) id row = true /\
    tc (edge s (room_id p)) id (event_id p).

Lemma joined_later_iff s who (p : PduEvent) :
  event_id p ∈ ancestors s (room_id p) (candidate_joins s who (room_id p) (depth p)) <-> joined_later s who p.
Proof.
  rewrite elem_of_ancestors. unfold candidate_joins, joined_later. split.
  - intros (id & Hd & Ht). apply elem_of_dom in Hd as [row Hr]. apply map_lookup_filter_Some in Hr as [Hr Hc]. eauto.
  - intros (id & row & Hr & Hc & Ht). exists id. split; [|done]. apply elem_of_dom. exists row.
    by apply map_lookup_filter_Some.
Qed.

(** ** Reading leaves events, edges and rooms alone *)

Record browse s s' : Prop := {
  br_rows : rows s' = rows s;
  br_datas : datas s' = datas s;
  br_edges : event_edges s' = event_edges s;
  br_rooms : room_rows s' = room_rows s
}.
#[global] Instance browse_preorder : PreOrder browse.
Proof. split; [by intros s|]. intros s1 s2 s3 [] []. split; congruence. Qed.

Lemma browse_on_frames {A} (m : St FramesDb A) : keeps browse (on_frames m).
Proof. intros s. unfold on_frames. by destruct (m (frames s)). Qed.
Lemma browse_on_chains {A} (m : St _ A) : keeps browse (on_chains m).
Proof. intros s. unfold on_chains. by destruct (m _). Qed.
Lemma browse_call {A} (c : Call A) : keeps browse (call c).
Proof. intros s. unfold call. by destruct (call_on c (others s)). Qed.
Lemma browse_of_res {A} (r : result AppError A) : keeps browse (of_res r).
Proof. intros s. by unfold of_res. Qed.
Lemma browse_get_pdu id : keeps browse (get_pdu id).
Proof. intros s. by unfold get_pdu. Qed.
Lemma browse_get_pdu_json id : keeps browse (get_pdu_json id).
Proof. intros s. unfold get_pdu_json. by repeat case_match. Qed.
Lemma browse_get_pdu_and_data id : keeps browse (get_pdu_and_data id).
Proof. intros s. unfold get_pdu_and_data. by repeat case_match. Qed.
Lemma browse_run_resolve vr f fs acs : keeps browse (run_resolve vr f fs acs).
Proof. intros s. unfold run_resolve. by case_match. Qed.
Lemma browse_get_member_content q : keeps browse (get_member_content q).
Proof. intros s. unfold get_member_content. by case_match. Qed.
#[local] Hint Resolve @browse_on_frames @browse_on_chains @browse_call @browse_of_res browse_get_pdu
  browse_get_pdu_json browse_get_pdu_and_data browse_run_resolve browse_get_member_content : keeps.
Lemma browse_to_state_map st acc : keeps browse (to_state_map st acc).
Proof. revert acc. induction st as [|[] ?]; intros; cbn; keeps_auto. Qed.
#[local] Hint Resolve browse_to_state_map : keeps.
Lemma browse_fork_of_leaves r ls : keeps browse (fork_of_leaves r ls).
Proof. induction ls; cbn; keeps_auto. Qed.
Lemma browse_leaf_states (rec : PduEvent -> nat -> Db (option FieldState * nat)) ids n ls h :
  (forall p n, keeps browse (rec p n)) -> keeps browse (leaf_states rec ids n ls h).
Proof. intros Hrec. revert n ls h. induction ids; intros; cbn; keeps_auto. Qed.
#[local] Hint Resolve browse_fork_of_leaves browse_leaf_states : keeps.
Lemma browse_resolve_inner fuel vr q rs n : keeps browse (resolve_inner st_out_of_fuel fuel vr q rs n).
Proof. revert q rs n. induction fuel; intros; cbn [resolve_inner]; unfold resolve_leaves; keeps_auto. Qed.
#[local] Hint Resolve browse_resolve_inner : keeps.
Lemma browse_state_event_before p f ty k : keeps browse (state_event_before p f ty k).
Proof. unfold state_event_before, found, get_frame_state, get_version, resolve_state_at_incoming. keeps_auto. Qed.
#[local] Hint Resolve browse_state_event_before : keeps.
Lemma browse_visibility_frame p : keeps browse (visibility_frame p).
Proof. unfold visibility_frame, found. keeps_auto. Qed.
Lemma browse_history_visibility_before p f : keeps browse (history_visibility_before p f).
Proof. unfold history_visibility_before. keeps_auto. Qed.
Lemma browse_user_membership_before p f u : keeps browse (user_membership_before p f u).
Proof. unfold user_membership_before. keeps_auto. Qed.
Lemma browse_state_ids_before p f sv st : keeps browse (state_ids_before p f sv st).
Proof. unfold state_ids_before, found. keeps_auto. Qed.
#[local] Hint Resolve browse_visibility_frame browse_history_visibility_before browse_user_membership_before
  browse_state_ids_before : keeps.
Lemma browse_server_memberships_at p f sv : keeps browse (server_memberships_at p f sv).
Proof. unfold server_memberships_at. keeps_auto. Qed.
#[local] Hint Resolve browse_server_memberships_at : keeps.
Lemma browse_server_can_see_event o r id : keeps browse (server_can_see_event o r id).
Proof. unfold server_can_see_event, server_user_joined_after, own_membership. cbn zeta. keeps_auto. Qed.

(** Later joins are a matter of the stored events. *)
Lemma joined_later_browse s s' who (q : PduEvent) : browse s s' -> joined_later s' who q <-> joined_later s who q.
Proof.
  intros [Hr Hd He _]. unfold joined_later, candidate_join. rewrite Hr, Hd.
  assert (edge s' = edge s) as -> by (unfold edge; by rewrite He). done.
Qed.

(** ** The rules of history visibility *)

(** Why an event may be seen, by its visibility before and, for an event that sets it,
    after; by a membership; and by later joins. *)
Inductive may_see (later : Prop) (visibility : HistoryVisibility) (after : option HistoryVisibility)
    (membership : option MembershipState) : Prop :=
| see_world : visibility = WorldReadable \/ after = Some WorldReadable -> may_see later visibility after membership
| see_joined : membership = Some MJoin -> may_see later visibility after membership
| see_invited : visibility = Invited \/ after = Some Invited -> membership = Some MInvite ->
    may_see later visibility after membership
| see_shared v : visibility = v \/ after = Some v -> uses_shared_history_visibility v = true -> later ->
    may_see later visibility after membership.

Lemma allows_iff v m later :
  history_visibility_allows v m later = true <->
  v = WorldReadable \/ m = Some MJoin \/ (uses_shared_history_visibility v = true /\ later = true)
  \/ (v = Invited /\ m = Some MInvite).
Proof.
  unfold history_visibility_allows. destruct (bool_decide (v = WorldReadable)) eqn:H1; cbn [orb].
  { apply bool_decide_eq_true in H1. tauto. }
  destruct (bool_decide (m = Some MJoin)) eqn:H2; [apply bool_decide_eq_true in H2; tauto|].
  apply bool_decide_eq_false in H1, H2.
  destruct (uses_shared_history_visibility v) eqn:H3; [|rewrite andb_true_iff, !bool_decide_eq_true; naive_solver].
  split; [tauto|]. intros [?|[?|[[_ ?]|[-> _]]]]; done.
Qed.
(** The decision on a membership is that of the rules. *)
Lemma may_see_iff (later : Prop) (b : bool) v after m :
  (b = true <-> (uses_shared_history_visibility v = true
                 \/ exists w, after = Some w /\ uses_shared_history_visibility w = true) /\ later) ->
  history_visibility_allows v m b
  || match after with Some w => history_visibility_allows w m b | None => false end = true
  <-> may_see later v after m.
Proof.
  intros Hb. rewrite orb_true_iff, allows_iff. split.
  - intros [H|H].
    + destruct H as [->|[->|[[Hs ->]|[-> ->]]]];
        [apply see_world|apply see_joined|apply (see_shared _ _ _ _ v)|apply see_invited]; tauto.
    + destruct after as [w|]; [|done]. apply allows_iff in H. destruct H as [->|[->|[[Hs ->]|[-> ->]]]];
        [apply see_world|apply see_joined|apply (see_shared _ _ _ _ w)|apply see_invited]; tauto.
  - intros [[-> | ->] | -> | [-> | ->] -> |w [<-| ->] Hs Hl]; cbv iota; rewrite ?allows_iff; try tauto.
    right. right. right. left. split; [done|]. apply Hb. naive_solver.
Qed.
Lemma shared_or after v :
  uses_shared_history_visibility v || match after with Some w => uses_shared_history_visibility w | None => false end
  = true <-> uses_shared_history_visibility v = true
             \/ exists w, after = Some w /\ uses_shared_history_visibility w = true.
Proof. rewrite orb_true_iff. destruct after; naive_solver. Qed.

(** ** [user_can_see] *)

(** The membership event of the user. *)
Definition own_event p (user_id : string) : Prop :=
  event_type (inner p) = "m.room.member" /\ state_key (inner p) = Some user_id.
(** The visibility before an event, as it is read from the state before it. *)
Definition visibility_read p s (frame_id : Z) (v : HistoryVisibility) s' : Prop :=
  exists s1, visibility_frame p s = (Done (Some frame_id), s1) /\
    history_visibility_before p frame_id s1 = (Done (Resolved v), s').
(** The state before an event cannot be told. *)
Inductive unknown_before p (user_id : string) s : Prop :=
| no_frame s1 : visibility_frame p s = (Done None, s1) -> unknown_before p user_id s
| no_visibility f s1 s2 : visibility_frame p s = (Done (Some f), s1) ->
    history_visibility_before p f s1 = (Done Unavailable, s2) -> unknown_before p user_id s
| no_membership f v s1 s2 : visibility_read p s f v s1 ->
    user_membership_before p f user_id s1 = (Done Unavailable, s2) -> unknown_before p user_id s.

(** C10: whether a user may see an event is decided by the rules of history visibility:
    their own membership event they see; an event whose previous state is not known they
    do not; any other exactly when its visibility was or becomes world-readable, they
    were joined before it, they were invited under [invited] visibility, or under shared
    visibility they joined later, at an accepted join that has the event among its
    ancestors in the room. *)
Theorem user_can_see_iff p user_id s b s' :
  user_can_see p user_id s = (Done b, s') ->
  (own_event p user_id /\ b = true) \/
  (~ own_event p user_id /\ unknown_before p user_id s /\ b = false) \/
  (~ own_event p user_id /\ exists f v s1, visibility_read p s f v s1 /\
     ((v = WorldReadable \/ visibility_after (inner p) = Some WorldReadable) /\ b = true \/
      exists m s2, user_membership_before p f user_id s1 = (Done (Resolved m), s2) /\
        (b = true <->
         may_see (joined_later s (String.eqb user_id) (inner p)) v (visibility_after (inner p)) m))).
Proof.
  unfold user_can_see. intros H.
  destruct ((event_type (inner p) =? "m.room.member") && bool_decide (state_key (inner p) = Some user_id)) eqn:Ho.
  { apply andb_true_iff in Ho as [H1%String.eqb_eq H2%bool_decide_eq_true]. left. injection H as <- _. done. }
  assert (~ own_event p user_id) as Hno.
  { intros [H1 H2]. rewrite H1, H2, bool_decide_true in Ho by done. done. }
  right. apply bind_St in H as (frame & s1 & H1 & H). destruct frame as [f|].
  2: { left. injection H as <- _. split; [done|]. split; [by apply (no_frame _ _ _ s1)|done]. }
  apply bind_St in H as (hv & s2 & H2 & H). destruct hv as [v|].
  2: { left. injection H as <- _. split; [done|]. split; [by apply (no_visibility _ _ _ f s1 s2)|done]. }
  assert (visibility_read p s f v s2) as Hread by (by exists s1). cbn zeta in H.
  destruct (bool_decide (v = WorldReadable) || bool_decide (visibility_after (inner p) = Some WorldReadable)) eqn:Hw.
  { right. split; [done|]. exists f, v, s2. split; [done|]. left. injection H as <- _. split; [|done].
    apply orb_true_iff in Hw as [Hw|Hw]; apply bool_decide_eq_true in Hw; auto. }
  rewrite st_ret_bind in H. apply bind_St in H as (hm & s3 & H3 & H). destruct hm as [m|].
  2: { left. injection H as <- _. split; [done|]. split; [by apply (no_membership _ _ _ f v s2 s3)|done]. }
  right. split; [done|]. exists f, v, s2. split; [done|]. right. exists m, s3. split; [done|].
  assert (browse s s3) as Hbr.
  { pose proof (keeps_run browse _ _ _ _ (browse_visibility_frame p) H1).
    pose proof (keeps_run browse _ _ _ _ (browse_history_visibility_before p f) H2).
    pose proof (keeps_run browse _ _ _ _ (browse_user_membership_before p f user_id) H3).
    transitivity s1; [done|]. by transitivity s2. }
  destruct (bool_decide (m = Some MJoin)) eqn:Hm.
  { apply bool_decide_eq_true in Hm as ->. injection H as <- _. split; [|done]. intros _. by apply see_joined. }
  apply bind_St in H as (later & s4 & H4 & H). injection H as <- _. rewrite orb_false_r. apply may_see_iff.
  rewrite <- (joined_later_browse _ _ _ _ Hbr), <- shared_or.
  destruct (uses_shared_history_visibility v || _); [|injection H4 as <- _; naive_solver].
  unfold joined_after in H4. injection H4 as <- _. rewrite bool_decide_eq_true, joined_later_iff. naive_solver.
Qed.

(** ** [server_can_see_event] *)

(** A user of the server. *)
Definition at_server (origin state_key : string) : bool := after_colon state_key =? origin.
(** The event is the membership [m] of a user of the server. *)
Definition membership_of_server (p : PduEvent) (origin : string) (m : MembershipState) : Prop :=
  exists key, event_type p = "m.room.member" /\ state_key p = Some key /\ user_on origin key = true /\
    member_content (content p) = Done m.
(** The server may have the event: by the visibility of the event, by a membership of
    one of its users in the state before the event, or by one the event itself makes. *)
Inductive grounds p (origin : string) s (f : Z) (v : HistoryVisibility) s1 : Prop :=
| by_world : v = WorldReadable \/ visibility_after (inner p) = Some WorldReadable -> grounds p origin s f v s1
| by_members ms s2 m : server_memberships_at p f origin s1 = (Done (Resolved ms), s2) ->
    m = None \/ (exists x, x ∈ ms /\ m = Some x) ->
    may_see (joined_later s (at_server origin) (inner p)) v (visibility_after (inner p)) m ->
    grounds p origin s f v s1
| by_event ms s2 m : server_memberships_at p f origin s1 = (Done (Resolved ms), s2) ->
    membership_of_server (inner p) origin m ->
    may_see (joined_later s (at_server origin) (inner p)) v None (Some m) -> grounds p origin s f v s1.
Definition entitled s (origin room id : string) : Prop :=
  exists p f v s1, load_pdu s id = Ok p /\ room_id (inner p) = room /\ visibility_read p s f v s1 /\
    grounds p origin s f v s1.

Lemma own_membership_run (q : PduEvent) origin s o s' :
  own_membership q origin s = (Done o, s') -> s' = s /\ forall m, o = Some m <-> membership_of_server q origin m.
Proof.
  unfold own_membership, membership_of_server. intros H. destruct (state_key q) as [key|] eqn:Hk.
  2: { injection H as <- <-. split; [done|]. intros m. split; [done|]. intros (k & _ & [=] & _). }
  destruct ((event_type q =? "m.room.member") && user_on origin key) eqn:E.
  - apply andb_true_iff in E as [E1%String.eqb_eq E2]. apply bind_St in H as (r & s1 & H1 & H).
    unfold get_member_content in H1. injection H as <- <-.
    destruct (member_content (content q)) as [m|e| |] eqn:Em; try discriminate H1; injection H1 as <- <-;
      (split; [done|]); intros m'; cbn; split.
    + intros [= ->]. by exists key.
    + by intros (? & _ & _ & _ & [= ->]).
    + done.
    + by intros (? & _ & _ & _ & [=]).
  - injection H as <- <-. split; [done|]. intros m. split; [done|]. intros (k & E1 & [= <-] & E2 & _).
    by rewrite E1, E2 in E.
Qed.

(** The disjunction over the memberships of the users of a server. *)
Lemma members_see_iff (later : Prop) (b : bool) v after (ms : list MembershipState) :
  (b = true <-> (uses_shared_history_visibility v = true
                 \/ exists w, after = Some w /\ uses_shared_history_visibility w = true) /\ later) ->
  let allows v := history_visibility_allows v None b
                  || existsb (fun m => history_visibility_allows v (Some m) b) ms in
  allows v || match after with Some w => allows w | None => false end = true
  <-> exists m, (m = None \/ exists x, x ∈ ms /\ m = Some x) /\ may_see later v after m.
Proof.
  intros Hb allows.
  assert (forall w, allows w = true <->
    exists m, (m = None \/ exists x, x ∈ ms /\ m = Some x) /\ history_visibility_allows w m b = true) as Ha.
  { intros w. unfold allows. rewrite orb_true_iff, existsb_exists. setoid_rewrite <- list_elem_of_In. naive_solver. }
  setoid_rewrite <- (may_see_iff later b v after _ Hb). rewrite orb_true_iff. setoid_rewrite orb_true_iff.
  clear Hb. destruct after as [w|]; rewrite ?Ha; split.
  - intros [(m & Hm & H)|(m & Hm & H)]; exists m; auto.
  - intros (m & Hm & [H|H]); [left|right]; by exists m.
  - intros [(m & Hm & H)|H]; [exists m; auto|done].
  - intros (m & Hm & [H|H]); [left; by exists m|done].
Qed.

(** The decision once the memberships are known. *)
Lemma server_decision p origin s s1 f v ms s2 (later : bool) own :
  server_memberships_at p f origin s1 = (Done (Resolved ms), s2) ->
  (later = true <-> (uses_shared_history_visibility v = true
     \/ exists w, visibility_after (inner p) = Some w /\ uses_shared_history_visibility w = true)
     /\ joined_later s (at_server origin) (inner p)) ->
  (forall m, own = Some m <-> membership_of_server (inner p) origin m) ->
  ~ (v = WorldReadable \/ visibility_after (inner p) = Some WorldReadable) ->
  let allows v := history_visibility_allows v None later
                  || existsb (fun m => history_visibility_allows v (Some m) later) ms in
  allows v || match visibility_after (inner p) with Some w => allows w | None => false end
  || match own with Some m => history_visibility_allows v (Some m) later | None => false end = true
  <-> grounds p origin s f v s1.
Proof.
  intros Hms Hl Hown Hw allows. pose proof (members_see_iff _ later v _ ms Hl) as Hall.
  cbv zeta beta in Hall. unfold allows. cbv beta. rewrite orb_true_iff, Hall. clear allows Hall.
  assert (forall m, membership_of_server (inner p) origin m -> history_visibility_allows v (Some m) later = true <->
    may_see (joined_later s (at_server origin) (inner p)) v None (Some m)) as Hev.
  { intros m (key & Hty & _). rewrite <- (orb_false_r (history_visibility_allows _ _ _)).
    apply (may_see_iff _ later v None (Some m)). rewrite Hl. unfold visibility_after. rewrite Hty.
    change ("m.room.member" =? "m.room.history_visibility") with false. naive_solver. }
  split.
  - intros [(m & Hm & Hs)|Ho]; [by apply (by_members _ _ _ _ _ _ ms s2 m)|]. destruct own as [m|]; [|done].
    assert (membership_of_server (inner p) origin m) as Hm by (by apply Hown).
    apply (by_event _ _ _ _ _ _ ms s2 m); [done..|]. by apply Hev.
  - intros [?|ms' s2' m H' Hm Hs|ms' s2' m H' Hm Hs]; [done| |].
    + rewrite Hms in H'. injection H' as <- <-. left. by exists m.
    + right. rewrite (proj2 (Hown m) Hm). by apply Hev.
Qed.

Lemma server_sees_iff origin room id s b s' :
  server_can_see_event origin room id s = (Done b, s') -> b = true <-> entitled s origin room id.
Proof.
  unfold server_can_see_event. intros H. apply bind_St in H as (p & s0 & H0 & H).
  unfold get_pdu in H0. destruct (load_pdu s id) as [p'|] eqn:Hp; [|discriminate]. injection H0 as -> <-.
  assert (entitled s origin room id <-> room_id (inner p) = room /\ exists f v s1, visibility_read p s f v s1 /\
    grounds p origin s f v s1) as ->.
  { unfold entitled. rewrite Hp. split; [|naive_solver]. intros (p' & f & v & s1 & [= <-] & ?). naive_solver. }
  destruct (String.eqb_spec (room_id (inner p)) room) as [<-|Hne]; cbn [negb] in H;
    [|injection H as <- _; naive_solver].
  apply bind_St in H as (frame & s1 & H1 & H). destruct frame as [f|].
  2: { injection H as <- _. split; [done|]. intros (_ & f & v & s2 & (s3 & Hf & _) & _). congruence. }
  apply bind_St in H as (hv & s2 & H2 & H). destruct hv as [v|].
  2: { injection H as <- _. split; [done|]. intros (_ & f' & v & s3 & (s4 & Hf & Hv) & _).
       rewrite H1 in Hf. injection Hf as <- <-. congruence. }
  assert (forall f' v' s3, visibility_read p s f' v' s3 <-> f' = f /\ v' = v /\ s3 = s2) as Hread.
  { intros f' v' s3. split; [|intros (-> & -> & ->); by exists s1]. intros (s4 & Hf & Hv).
    rewrite H1 in Hf. injection Hf as <- <-. rewrite H2 in Hv. by injection Hv as <- <-. }
  trans (grounds p origin s f v s2); [|split; [intros ?; split; [done|]; exists f, v, s2; by rewrite Hread|]].
  2: { intros (_ & f' & v' & s3 & Hr & Hg). by apply Hread in Hr as (-> & -> & ->). }
  clear Hread. cbn zeta in H.
  destruct (decide (v = WorldReadable \/ visibility_after (inner p) = Some WorldReadable)) as [Hw|Hw].
  { rewrite (proj2 (orb_true_iff _ _)) in H by (rewrite !bool_decide_eq_true; done). injection H as <- _.
    split; [|done]. intros _. by apply by_world. }
  rewrite (proj2 (orb_false_iff _ _)) in H by (rewrite !bool_decide_eq_false; tauto).
  apply bind_St in H as (hm & s3 & H3 & H). destruct hm as [ms|].
  2: { injection H as <- _. split; [done|]. intros [?|? ? ? H' _ _|? ? ? H' _ _]; [done|congruence..]. }
  destruct (bool_decide (MJoin ∈ ms)) eqn:Hj.
  { apply bool_decide_eq_true in Hj. injection H as <- _. split; [|done]. intros _.
    apply (by_members _ _ _ _ _ _ ms s3 (Some MJoin)); [done| |by apply see_joined]. right. by exists MJoin. }
  apply bind_St in H as (later & s4 & H4 & H). apply bind_St in H as (own & s5 & H5 & H). injection H as <- _.
  apply own_membership_run in H5 as [_ Hown]. apply (server_decision p origin s s2 f v ms s3 later own); try done.
  assert (browse s s3) as Hbr.
  { pose proof (keeps_run browse _ _ _ _ (browse_visibility_frame p) H1).
    pose proof (keeps_run browse _ _ _ _ (browse_history_visibility_before p f) H2).
    pose proof (keeps_run browse _ _ _ _ (browse_server_memberships_at p f origin) H3).
    transitivity s1; [done|]. by transitivity s2. }
  rewrite <- (joined_later_browse _ _ _ _ Hbr), <- shared_or.
  destruct (uses_shared_history_visibility v || _); [|injection H4 as <- _; naive_solver].
  unfold server_user_joined_after in H4. injection H4 as <- _. rewrite bool_decide_eq_true.
  fold (at_server origin). rewrite joined_later_iff. naive_solver.
Qed.
(** C9: another server is let see an event exactly when the event is in the room it asked
    about, the state before the event is known, and the rules of history visibility
    admit it: the event is or becomes world-readable; a user of the server was joined
    before it, was invited under [invited] visibility, or joined later under shared
    visibility, at an accepted join that has the event among its ancestors; or the event
    is itself such a membership of a user of the server. *)
Theorem server_can_see_iff origin room id s b s' :
  server_can_see_event origin room id s = (Done b, s') -> b = true <-> entitled s origin room id.
Proof. apply server_sees_iff. Qed.
End seen.
