(* ===== verification/DisclosureSpec.v ===== *)
(** * What the federation endpoints give away

    Every event they answer with is one the asking server is entitled to; the walks over
    the graph of events end. *)
From stdpp Require Import relations.
From S2P Require Import Prelude RustStr BTree Identifiers RoomVersion Json Canonical Redaction Signatures Events Membership EventAuth TopoSort StateRes Effects StateFrames AuthChain RoomPowerLevels EventStore AppendPdu Incoming LocalPdu StoreHistory IncomingSpec Visibility VisibilitySpec Disclosure.
Open Scope string_scope.

Lemma pop_last_Some q x q' : pop_last q = Some (x, q') -> x ∈ q /\ q' = q ∖ {[ x ]}.
Proof.
  unfold pop_last. destruct (rev _) as [|y l] eqn:E; [done|]. intros [= -> <-]. split; [|done].
  apply elem_of_elements. rewrite <- (sort_by_key_Permutation queue_compare id (elements q)).
  apply list_elem_of_In, in_rev. rewrite E. by left.
Qed.

(** ** Sums over the queue *)

Section weight.
Context (w : string -> nat).
Implicit Types q : gset (Z * string).
Definition weight q : nat := sum_list_with (fun x => w x.2) (elements q).

Lemma weight_disjoint X Y : X ## Y -> weight (X ∪ Y) = (weight X + weight Y)%nat.
Proof. intros H. unfold weight. rewrite <- sum_list_with_app. apply sum_list_with_Permutation_proper. by apply elements_disj_union. Qed.
Lemma weight_union X Y : (weight (X ∪ Y) <= weight X + weight Y)%nat.
Proof.
  replace (X ∪ Y) with (X ∪ (Y ∖ X)) by (apply set_eq; intros z; destruct (decide (z ∈ X)); set_solver).
  rewrite weight_disjoint by set_solver.
  assert (weight Y = weight (Y ∖ X) + weight (Y ∩ X))%nat as ->; [|lia].
  rewrite <- weight_disjoint by set_solver. f_equal. apply set_eq. intros z. destruct (decide (z ∈ X)); set_solver.
Qed.
Lemma weight_singleton x : weight {[ x ]} = w x.2.
Proof. unfold weight. rewrite elements_singleton. cbn. lia. Qed.
Lemma weight_remove q x : x ∈ q -> weight q = (w x.2 + weight (q ∖ {[ x ]}))%nat.
Proof.
  intros Hx. rewrite (union_difference_singleton_L x q Hx) at 1.
  rewrite weight_disjoint by set_solver. by rewrite weight_singleton.
Qed.
Lemma weight_at_most q n : (forall x, x ∈ q -> w x.2 <= n)%nat -> (weight q <= size q * n)%nat.
Proof.
  induction q as [|x q Hx IH] using set_ind_L; intros H; [done|].
  rewrite weight_disjoint, weight_singleton, size_union, size_singleton by set_solver.
  pose proof (H x ltac:(set_solver)). specialize (IH ltac:(set_solver)). lia.
Qed.
End weight.

Section disclosed.
Context {U : Unicode} {C : Crypto} {HO : HashOrder} {WM : WildMatch}.
Context {LF : LruCache Z (list FrameInfo)} {LA : LruCache (list Z) (list Z)}.
Context {O : Type} {SV : Services O}.
#[local] Abbreviation Db := (St (Store (O := O))).
Implicit Types (s : Store (O := O)).

(** ** Reading *)

#[local] Hint Resolve @browse_on_frames @browse_on_chains @browse_call @browse_of_res browse_get_pdu
  browse_get_pdu_json browse_get_pdu_and_data browse_server_can_see_event : keeps.
Lemma browse_convert o : keeps (browse (O := O)) (convert_to_outgoing_federation_event o).
Proof. unfold convert_to_outgoing_federation_event, outgoing_version, get_version. keeps_auto. Qed.
Lemma browse_acl_check o r : keeps (browse (O := O)) (acl_check o r).
Proof. unfold acl_check, get_room_state_content, get_room_state, get_frame_state. keeps_auto. Qed.
#[local] Hint Resolve browse_convert browse_acl_check : keeps.
Lemma browse_access_check o r e : keeps (browse (O := O)) (access_check o r e).
Proof. unfold access_check. keeps_auto. Qed.
Lemma browse_room_of_event id o : keeps (browse (O := O)) (room_of_event id o).
Proof. unfold room_of_event. keeps_auto. Qed.
Lemma browse_backfill_event o r id es : keeps (browse (O := O)) (backfill_event o r id es).
Proof. unfold backfill_event. keeps_auto. Qed.
#[local] Hint Resolve browse_access_check browse_room_of_event browse_backfill_event : keeps.
Lemma browse_missing_loop fuel r earliest latest limit walked q es :
  keeps (browse (O := O)) (missing_loop fuel r earliest latest limit walked q es).
Proof. revert walked q es. induction fuel; intros; cbn [missing_loop]; cbn zeta; keeps_auto. Qed.

(** ** One event *)

(** [get_event] answers only with an accepted event, to a server that is in the
    event's room, that the room's ACL does not exclude and that is then entitled to the
    event. *)
Theorem get_event_entitled origin id s out s' :
  get_event origin id s = (Done out, s') ->
  exists row s1 s2, rows s !! id = Some row /\ er_rejection_reason row = false /\
    call (IsServerJoined origin (er_room_id row)) s = (Done true, s1) /\
    acl_check origin (er_room_id row) s1 = (Done tt, s2) /\ entitled s2 origin (er_room_id row) id.
Proof.
  unfold get_event. rewrite st_gets_bind. intros H. apply bind_St in H as (row & s1 & H1 & H).
  destruct (rows s !! id) as [r|] eqn:Hr; [|discriminate]. injection H1 as -> <-.
  destruct (er_rejection_reason row) eqn:Hrej; [discriminate|].
  apply bind_St in H as (o & s1 & H1 & H).
  assert (s1 = s) as -> by (unfold get_pdu_json in H1; repeat case_match; by injection H1).
  apply bind_St in H as (o' & s2 & H2 & H). assert (s2 = s) as -> by (destruct o; by injection H2).
  apply bind_St in H as ([] & s3 & H3 & _).
  unfold access_check in H3. apply bind_St in H3 as (joined & s4 & H4 & H3).
  destruct joined; cbn [negb] in H3; [|discriminate]. apply bind_St in H3 as ([] & s5 & H5 & H3).
  apply bind_St in H3 as (visible & s6 & H6 & H3). destruct visible; [|discriminate].
  exists row, s4, s5. repeat (split; [done|]). by apply (server_sees_iff _ _ _ _ _ _ H6).
Qed.

(** ** Missing events *)

(** Of the events those are kept, one after the other, that the server is entitled to in
    the store in which it is their turn. *)
Inductive sifted (origin room : string) : Store -> list (string * CanonicalJsonObject) ->
    list (string * CanonicalJsonObject) -> Store -> Prop :=
| sifted_nil s : sifted origin room s [] [] s
| sifted_keep s id o s1 evs out s' :
    server_can_see_event origin room id s = (Done true, s1) -> entitled s origin room id ->
    sifted origin room s1 evs out s' -> sifted origin room s ((id, o) :: evs) ((id, o) :: out) s'
| sifted_drop s id o s1 evs out s' :
    snd (server_can_see_event origin room id s) = s1 -> fst (server_can_see_event origin room id s) <> Done true ->
    sifted origin room s1 evs out s' -> sifted origin room s ((id, o) :: evs) out s'.
Lemma visible_events_sifted origin room evs s out s' :
  visible_events origin room evs s = (Done out, s') -> sifted origin room s evs out s'.
Proof.
  revert s out. induction evs as [|[id o] evs IH]; intros s out H; cbn [visible_events] in H.
  { injection H as <- <-. constructor. }
  apply bind_St in H as (v & s1 & H1 & H). apply bind_St in H as (rest & s2 & H2 & H). injection H as <- <-.
  apply IH in H2. unfold st_try in H1.
  destruct (server_can_see_event origin room id s) as [[b|e| |] sx] eqn:E; try discriminate H1; injection H1 as <- <-.
  - destruct b.
    + apply (sifted_keep _ _ _ _ _ sx); [done| |done]. by apply (server_sees_iff _ _ _ _ _ _ E).
    + apply (sifted_drop _ _ _ _ _ sx); [by rewrite E|by rewrite E|done].
  - apply (sifted_drop _ _ _ _ _ sx); [by rewrite E|by rewrite E|done].
Qed.
Lemma sifted_sublist origin room s evs out s' : sifted origin room s evs out s' -> sublist out evs.
Proof. induction 1; [done|by apply sublist_skip|by apply sublist_cons]. Qed.
Lemma missing_loop_length fuel room earliest latest limit walked q evs s out s' :
  missing_loop fuel room earliest latest limit walked q evs s = (Done out, s') ->
  (length evs <= limit)%nat -> (length out <= limit)%nat.
Proof.
  revert walked q evs s. induction fuel as [|fuel IH]; intros walked q evs s H Hl; cbn [missing_loop] in H; [discriminate|].
  destruct q as [|id q]; [by injection H as <- _|]. destruct (Nat.ltb_spec (length evs) limit); cbn [negb] in H;
    [|by injection H as <- _]. cbn zeta in H. apply bind_St in H as (o & s1 & _ & H).
  destruct o as [o|]; [|exact (IH _ _ _ _ H Hl)]. apply bind_St in H as (r & s2 & _ & H).
  destruct (negb _); [discriminate|]. destruct (bool_decide _); [exact (IH _ _ _ _ H Hl)|].
  apply bind_St in H as (prev & s3 & _ & H). destruct (Nat.leb latest walked); [|exact (IH _ _ _ _ H Hl)].
  apply bind_St in H as (x & s4 & _ & H). apply (IH _ _ _ _ H). rewrite length_app. cbn. lia.
Qed.

(** The walk asks at most [walk_bound] times when no stored event names more than
    [most] predecessors. *)
Definition walk_bound (most latest limit walked : nat) (queue : list string) (events : list (string * CanonicalJsonObject)) : nat :=
  length queue + most * (latest - walked) + most * (limit - length events).
Definition few_prevs s (most : nat) : Prop :=
  forall id d o l, datas s !! id = Some d -> de_canonical_object (ed_json d) = Some o ->
    json_prev_events o = Some l -> (length l <= most)%nat.

Lemma browse_few_prevs s s' most : browse s s' -> few_prevs s most -> few_prevs s' most.
Proof. intros B H id d o l Hd. rewrite (br_datas _ _ B) in Hd. by apply (H id d). Qed.

Lemma no_fuel_bind {A B} (m : Db A) (k : A -> Db B) s :
  fst (m s) <> OutOfFuel -> (forall a s', m s = (Done a, s') -> fst (k a s') <> OutOfFuel) -> fst ((m ≫= k) s) <> OutOfFuel.
Proof. unfold mbind, St_bind. destruct (m s) as [[a|e| |] s'] eqn:E; cbn; intros H1 H2; [by apply (H2 a)|done..]. Qed.
Lemma convert_no_fuel o s : fst (convert_to_outgoing_federation_event o s) <> OutOfFuel.
Proof.
  assert (forall r s, fst ((r ← st_try (get_version r); mret (ok r) : Db (option RoomVersionId)) s) <> OutOfFuel) as Hv.
  { intros r s0. unfold get_version, mbind, St_bind, st_try, st_gets, of_res. cbn.
    destruct (room_rows s0 !! r); [|done]. by destruct (map_err _ _). }
  unfold convert_to_outgoing_federation_event. apply no_fuel_bind; [|done]. unfold outgoing_version.
  apply no_fuel_bind.
  - destruct (bt_get _ _ ≫= as_str); [|done]. destruct (is_ok _); [apply Hv|done].
  - intros [v|] s1 _; [done|]. destruct (bt_get _ _ ≫= as_str); [|done]. destruct (is_ok _); [|done].
    apply no_fuel_bind; [done|]. intros [row|] s2 _; [apply Hv|done].
Qed.
Lemma room_of_event_no_fuel id o s : fst (room_of_event id o s) <> OutOfFuel.
Proof.
  unfold room_of_event. destruct (_ ≫= as_str); [by destruct (is_ok _)|]. unfold mbind, St_bind, st_gets. cbn.
  by destruct (rows s !! id).
Qed.

(** The walk of [missing_events] over the graph ends, even if the graph has cycles:
    when no stored event names more than [most] predecessors, it looks at no more than
    as many events as were asked for and [most] for each of these and for each event of
    the answer. *)
Theorem missing_walk_ends fuel room earliest latest limit walked q evs most s :
  few_prevs s most -> (walk_bound most latest limit walked q evs < fuel)%nat ->
  fst (missing_loop fuel room earliest latest limit walked q evs s) <> OutOfFuel.
Proof.
  revert walked q evs s. induction fuel as [|fuel IH]; intros walked q evs s Hf Hb; [lia|]. cbn [missing_loop].
  destruct q as [|id q]; [done|]. destruct (Nat.ltb_spec (length evs) limit) as [Hl|]; cbn [negb]; [|done]. cbn zeta.
  unfold walk_bound in *. cbn [length] in Hb.
  assert (most * (latest - S walked) <= most * (latest - walked))%nat as Hm by nia.
  apply no_fuel_bind; [unfold get_pdu_json; by repeat case_match|]. intros [o|] s1 H1.
  2: { apply IH; [|lia]. apply (browse_few_prevs s); [|done]. by apply (keeps_run browse) in H1; [|apply browse_get_pdu_json]. }
  assert (s1 = s /\ exists d, datas s !! id = Some d /\ de_canonical_object (ed_json d) = Some o) as (-> & d & Hd & Ho).
  { unfold get_pdu_json in H1. destruct (datas s !! id) as [d|]; [|discriminate].
    destruct (de_canonical_object (ed_json d)) eqn:E; [|discriminate]. injection H1 as -> <-. eauto. }
  apply no_fuel_bind; [apply room_of_event_no_fuel|]. intros r s2 H2.
  apply (keeps_run browse) in H2; [|apply browse_room_of_event].
  destruct (negb _); [done|]. destruct (bool_decide _); [apply IH; [by apply (browse_few_prevs s)|lia]|].
  destruct (json_prev_events o) as [l|] eqn:Hl'; [|done]. pose proof (Hf _ _ _ _ Hd Ho Hl') as Hlen.
  apply no_fuel_bind; [done|]. intros l' s3 H3. injection H3 as <- <-.
  destruct (Nat.leb_spec latest walked) as [Hw|Hw].
  - apply no_fuel_bind; [apply convert_no_fuel|]. intros out s4 H4.
    apply (keeps_run browse) in H4; [|apply browse_convert].
    apply IH; [apply (browse_few_prevs s); [by transitivity s2|done]|]. rewrite !length_app. cbn [length].
    replace (limit - length evs)%nat with (S (limit - (length evs + 1)))%nat in Hb by lia. nia.
  - apply IH; [by apply (browse_few_prevs s)|]. rewrite length_app.
    replace (latest - walked)%nat with (S (latest - S walked))%nat in Hb by lia. nia.
Qed.

(** [missing_events] answers only to a server that is in the room and that its ACL
    does not exclude, with no more events than were asked for: those of the walk that the
    server is entitled to see in the room. *)
Theorem missing_events_entitled fuel origin room earliest latest limit s out s' :
  missing_events fuel origin room earliest latest limit s = (Done out, s') ->
  exists s1 s2 evs s3,
    call (IsServerJoined origin room) s = (Done true, s1) /\ acl_check origin room s1 = (Done tt, s2) /\
    missing_loop fuel room earliest (length latest) limit 0 latest [] s2 = (Done evs, s3) /\
    sifted origin room s3 (rev evs) out s' /\ (length out <= limit)%nat.
Proof.
  unfold missing_events. intros H. apply bind_St in H as ([] & s1 & H1 & H). apply bind_St in H as (evs & s2 & H2 & H).
  apply visible_events_sifted in H. unfold access_check in H1. apply bind_St in H1 as (joined & s3 & H3 & H1).
  destruct joined; cbn [negb] in H1; [|discriminate]. apply bind_St in H1 as ([] & s4 & H4 & H1). injection H1 as <-.
  exists s3, s4, evs, s2. repeat (split; [done|]).
  apply missing_loop_length in H2; [|cbn; lia]. apply sifted_sublist, sublist_length in H. rewrite length_rev in H. lia.
Qed.

(** ** Backfill *)

(** An event has another among its predecessors. *)
Definition any_edge s (x y : string) : Prop := is_Some (event_edges s !! (x, y)).
Lemma elem_of_edge_prevs s ids y : y ∈ edge_prevs s ids <-> exists x, x ∈ ids /\ any_edge s x y.
Proof.
  unfold edge_prevs, any_edge. rewrite elem_of_map. split.
  - intros ([x y'] & -> & H). apply elem_of_filter in H as [Hx Hd]. exists x. split; [done|]. by apply elem_of_dom.
  - intros (x & Hx & He). exists (x, y). split; [done|]. apply elem_of_filter. split; [done|]. by apply elem_of_dom.
Qed.
Lemma elem_of_with_depths s ids d id :
  (d, id) ∈ with_depths s ids <-> id ∈ ids /\ er_depth <$> rows s !! id = Some d.
Proof.
  unfold with_depths. rewrite elem_of_set_omap. split.
  - intros (x & Hx & H). destruct (rows s !! x) as [row|] eqn:Hr; [|done]. injection H as <- <-. by rewrite Hr.
  - intros [Hx H]. exists id. split; [done|]. destruct (rows s !! id); [|done]. by injection H as <-.
Qed.

(** One turn of the walk, for the event [id] in the store [s]: the answer after it and the
    store it leaves.  An event that is new to the answer and that can be read is given, in
    the form in which stored events are sent, if and only if the server is entitled to
    it. *)
Inductive backfill_turn (origin room id : string) (evs : list (string * CanonicalJsonObject)) s :
    list (string * CanonicalJsonObject) -> Store -> Prop :=
| turn_known : id ∈ evs.*1 -> backfill_turn origin room id evs s evs s
| turn_unreadable e : fst (get_pdu_and_data id s) = Fail e -> backfill_turn origin room id evs s evs s
| turn_hidden s' : id ∉ evs.*1 -> ~ entitled s origin room id ->
    server_can_see_event origin room id s = (Done false, s') -> backfill_turn origin room id evs s evs s'
| turn_given d o s1 out s' : id ∉ evs.*1 -> entitled s origin room id ->
    server_can_see_event origin room id s = (Done true, s1) ->
    datas s !! id = Some d -> de_canonical_object (ed_json d) = Some o ->
    convert_to_outgoing_federation_event o s1 = (Done out, s') ->
    backfill_turn origin room id evs s (evs ++ [(id, out)])%list s'.
(** The walk: while the answer is short, the event of the queue that is highest by depth
    has its turn, and its predecessors that are not part of the answer join the queue. *)
Inductive backfill_walk (origin room : string) (limit : nat) : gset (Z * string) -> list (string * CanonicalJsonObject) ->
    Store -> list (string * CanonicalJsonObject) -> Store -> Prop :=
| walk_full q evs s : (limit <= length evs)%nat -> backfill_walk origin room limit q evs s evs s
| walk_end q evs s : pop_last q = None -> backfill_walk origin room limit q evs s evs s
| walk_turn q d id q' evs s evs1 s1 out s' :
    (length evs < limit)%nat -> pop_last q = Some ((d, id), q') -> backfill_turn origin room id evs s evs1 s1 ->
    backfill_walk origin room limit (with_depths s1 (filter (fun p => p ∉ evs.*1) (edge_prevs s {[ id ]})) ∪ q') evs1 s1 out s' ->
    backfill_walk origin room limit q evs s out s'.

Lemma backfill_event_turn origin room id evs s evs' s' :
  backfill_event origin room id evs s = (Done evs', s') -> backfill_turn origin room id evs s evs' s'.
Proof.
  unfold backfill_event. destruct (bool_decide (id ∈ evs.*1)) eqn:Hin; intros H.
  { injection H as <- <-. apply turn_known. by apply bool_decide_eq_true in Hin. }
  apply bool_decide_eq_false in Hin. apply bind_St in H as (r & s1 & H1 & H). unfold st_try in H1.
  destruct (get_pdu_and_data id s) as [[[p data]|e| |] sx] eqn:E; try discriminate H1; injection H1 as <- <-.
  - unfold get_pdu_and_data in E. destruct (load_pdu s id) as [q|] eqn:Hl; [|discriminate].
    destruct (datas s !! id) as [d|] eqn:Hd; cbn in E; [|discriminate].
    destruct (de_canonical_object (ed_json d)) eqn:Ho; [|discriminate]. injection E as -> -> <-.
    apply bind_St in H as (visible & s2 & H2 & H). rewrite (load_pdu_id _ _ _ Hl) in H2.
    pose proof (server_sees_iff _ _ _ _ _ _ H2) as Hiff. destruct visible.
    + apply bind_St in H as (out & s3 & H3 & H). injection H as <- <-.
      apply (turn_given _ _ _ _ _ d data s2); try done. by apply Hiff.
    + injection H as <- <-. apply turn_hidden; [done| |done]. intros Hent. by apply Hiff in Hent.
  - injection H as <- <-. assert (sx = s) as -> by (unfold get_pdu_and_data in E; repeat case_match; by injection E).
    apply (turn_unreadable _ _ _ _ _ e). by rewrite E.
Qed.
Lemma backfill_loop_walk fuel origin room limit q evs s out s' :
  backfill_loop st_out_of_fuel fuel origin room limit q evs s = (Done out, s') -> backfill_walk origin room limit q evs s out s'.
Proof.
  revert q evs s. induction fuel as [|fuel IH]; intros q evs s H; cbn [backfill_loop] in H; [discriminate|].
  destruct (Nat.ltb_spec (length evs) limit) as [Hl|Hl]; cbn [negb] in H; [|injection H as <- <-; by apply walk_full].
  destruct (pop_last q) as [[[d id] q']|] eqn:Hpop; [|injection H as <- <-; by apply walk_end].
  rewrite st_gets_bind in H. apply bind_St in H as (evs' & s1 & H1 & H). rewrite st_gets_bind in H.
  apply backfill_event_turn in H1. by apply (walk_turn _ _ _ _ d id q' _ _ evs' s1); [..|apply IH].
Qed.

(** What an answer consists of: different events, no more than [limit], all of them before
    the given ones in the graph. *)
Definition answer_ok s (v : list string) (limit : nat) (evs : list (string * CanonicalJsonObject)) : Prop :=
  NoDup evs.*1 /\ (length evs <= limit)%nat /\ Forall (fun e => exists x, x ∈ v /\ tc (any_edge s) x e.1) evs.
Lemma turn_browse origin room id evs s evs' s' : backfill_turn origin room id evs s evs' s' -> browse s s'.
Proof.
  intros []; [done..|by eapply keeps_run; [apply browse_server_can_see_event|]|].
  etrans; [by eapply keeps_run; [apply browse_server_can_see_event|]|by eapply keeps_run; [apply browse_convert|]].
Qed.
Lemma turn_ok s0 v limit origin room id evs s evs' s' :
  (exists x, x ∈ v /\ tc (any_edge s0) x id) -> (length evs < limit)%nat ->
  answer_ok s0 v limit evs -> backfill_turn origin room id evs s evs' s' -> answer_ok s0 v limit evs'.
Proof.
  intros Hanc Hlen Hok. destruct Hok as (Hnd & Hle & Hall). destruct 1 as [| | |d o s1 out s' Hin]; [done..|].
  split; [|split].
  - rewrite fmap_app. apply NoDup_app. split; [done|]. cbn. split; [set_solver|apply NoDup_singleton].
  - rewrite length_app. cbn. lia.
  - apply Forall_app. split; [done|]. by constructor.
Qed.
Lemma walk_ok s0 v origin room limit q evs s out s' :
  browse s0 s -> (forall d id, (d, id) ∈ q -> exists x, x ∈ v /\ tc (any_edge s0) x id) ->
  answer_ok s0 v limit evs -> backfill_walk origin room limit q evs s out s' -> answer_ok s0 v limit out.
Proof.
  intros B0 Hq Hok H. revert B0 Hq Hok.
  induction H as [|q evs s|q d id q' evs s evs1 s1 out s' Hlen Hpop Ht _ IH]; intros B0 Hq Hok; [done..|].
  apply pop_last_Some in Hpop as [Hx ->]. pose proof (Hq _ _ Hx) as (x & Hv & Hanc). apply IH.
  - transitivity s; [done|]. by apply turn_browse in Ht.
  - intros d' id' Hin. apply elem_of_union in Hin as [Hin|Hin]; [|apply (Hq d'); set_solver].
    apply elem_of_with_depths in Hin as [Hin _]. apply elem_of_filter in Hin as [_ Hin].
    apply elem_of_edge_prevs in Hin as (y & Hy & He). apply elem_of_singleton in Hy as ->.
    exists x. split; [done|]. apply (tc_r x id id'); [done|]. unfold any_edge in *. by rewrite (br_edges _ _ B0) in He.
  - by eapply turn_ok; eauto.
Qed.

(** C5: the answer of [get_backfill] is that of the walk back from the given events, the
    highest by depth first: an event that has its turn, is new to the answer and can be
    read is given if and only if the asking server is entitled to it, by the rules of
    history visibility in the store of that turn, and it is given in the form in which
    stored events are sent.  The answer has different events, no more than were asked
    for, all of them before the given events in the graph. *)
Theorem backfill_entitled fuel origin room v limit s out s' :
  get_backfill st_out_of_fuel fuel origin room v limit s = (Done out, s') ->
  backfill_walk origin room limit (with_depths s (edge_prevs s (list_to_set v))) [] s out s' /\ answer_ok s v limit out.
Proof.
  unfold get_backfill. rewrite !st_gets_bind. intros H. apply backfill_loop_walk in H. split; [done|].
  eapply walk_ok; [reflexivity| | |exact H].
  - intros d id Hin. apply elem_of_with_depths in Hin as [Hin _]. apply elem_of_edge_prevs in Hin as (x & Hx & He).
    exists x. rewrite elem_of_list_to_set in Hx. split; [done|by apply tc_once].
  - split; [apply NoDup_nil_2|]. split; [cbn; lia|done].
Qed.

Lemma size_with_depths s ids : (size (with_depths s ids) <= size ids)%nat.
Proof.
  assert (with_depths s ids ⊆ set_map (fun id => (default 0%Z (er_depth <$> rows s !! id), id)) ids) as Hs.
  { intros [d id] Hin. apply elem_of_with_depths in Hin as [Hin Hd]. apply elem_of_map. exists id. by rewrite Hd. }
  etrans; [apply subseteq_size, Hs|apply size_set_map_le].
Qed.
Lemma size_edge_prevs s ids : (size (edge_prevs s ids) <= size (event_edges s))%nat.
Proof.
  unfold edge_prevs. etrans; [apply size_set_map_le|]. rewrite <- size_dom. apply subseteq_size. set_solver.
Qed.

(** The graph has no cycles: predecessors have a smaller rank. *)
Definition graded s (rank : string -> nat) : Prop := forall x y, any_edge s x y -> (rank y < rank x)%nat.
(** The turns of the loop on a queue: an event may be expanded once for each path to it. *)
Definition turns s (rank : string -> nat) (q : gset (Z * string)) : nat :=
  weight (fun id => (size (event_edges s) + 2) ^ rank id)%nat q.

Lemma turns_decrease s s' rank q d id ids :
  graded s rank -> (d, id) ∈ q -> (forall y, y ∈ ids -> any_edge s id y) -> (size ids <= size (event_edges s))%nat ->
  (turns s rank (with_depths s' ids ∪ (q ∖ {[ (d, id) ]})) < turns s rank q)%nat.
Proof.
  intros Hg Hx Hids Hsz. unfold turns. set (B := size (event_edges s)) in *. set (w := fun id => ((B + 2) ^ rank id)%nat).
  rewrite (weight_remove w q (d, id) Hx). pose proof (weight_union w (with_depths s' ids) (q ∖ {[ (d, id) ]})) as Hu.
  enough (weight w (with_depths s' ids) < w id)%nat by (cbn [snd]; lia).
  assert (0 < (B + 2) ^ rank id)%nat as Hpos by (apply Nat.neq_0_lt_0, Nat.pow_nonzero; lia).
  pose proof (size_with_depths s' ids) as Hsd.
  destruct (decide (ids = ∅)) as [->|Hne].
  { assert (with_depths s' ∅ = ∅) as -> by (apply set_eq; intros [a b]; rewrite elem_of_with_depths; set_solver).
    exact Hpos. }
  destruct (rank id) as [|r] eqn:Hr.
  { apply set_choose_L in Hne as [y Hy]. specialize (Hg _ _ (Hids y Hy)). lia. }
  assert (weight w (with_depths s' ids) <= size (with_depths s' ids) * (B + 2) ^ r)%nat as Hw.
  { apply weight_at_most. intros [d' y] Hin. apply elem_of_with_depths in Hin as [Hin _]. unfold w. cbn [snd].
    apply Nat.pow_le_mono_r; [lia|]. specialize (Hg _ _ (Hids y Hin)). lia. }
  unfold w at 2. rewrite Hr. cbn [Nat.pow]. cbn [Nat.pow] in Hpos. nia.
Qed.

Lemma backfill_loop_stuck stuck stuck' rank s0 fuel fuel' origin room limit q evs s :
  browse s0 s -> graded s0 rank -> (turns s0 rank q < fuel)%nat -> (turns s0 rank q < fuel')%nat ->
  backfill_loop stuck fuel origin room limit q evs s = backfill_loop stuck' fuel' origin room limit q evs s.
Proof.
  intros B Hg. revert fuel' q evs s B. induction fuel as [|fuel IH]; intros [|fuel'] q evs s B Hf Hf'; try lia.
  cbn [backfill_loop]. destruct (negb _); [done|]. destruct (pop_last q) as [[[d id] q']|] eqn:Hpop; [|done].
  apply pop_last_Some in Hpop as [Hx ->]. rewrite !st_gets_bind. apply st_bind_ext; [done|]. intros evs' s1 H1.
  rewrite !st_gets_bind. apply (keeps_run browse) in H1; [|apply browse_backfill_event].
  assert (browse s0 s1) as B1 by (by transitivity s).
  set (ids := filter _ (edge_prevs s {[ id ]})).
  enough (turns s0 rank (with_depths s1 ids ∪ (q ∖ {[ (d, id) ]})) < turns s0 rank q)%nat by (apply IH; [done|lia..]).
  apply turns_decrease; [done|done| |].
  - intros y Hy. apply elem_of_filter in Hy as [_ Hy]. apply elem_of_edge_prevs in Hy as (x & Hx' & He).
    apply elem_of_singleton in Hx' as ->. unfold any_edge in *. by rewrite (br_edges _ _ B) in He.
  - etrans; [apply subseteq_size; intros y Hy; by apply elem_of_filter in Hy as [_ Hy]|].
    rewrite <- (br_edges _ _ B). apply size_edge_prevs.
Qed.

(** C31: on a graph without cycles the loop of [get_backfill] ends: with more turns than
    there are paths from the requested events, its fuel does not run out, whatever it
    would do then. *)
Theorem backfill_ends stuck rank fuel origin room v limit s :
  graded s rank -> (turns s rank (with_depths s (edge_prevs s (list_to_set v))) < fuel)%nat ->
  get_backfill stuck fuel origin room v limit s = get_backfill st_out_of_fuel fuel origin room v limit s.
Proof.
  intros Hg Hf. unfold get_backfill. rewrite !st_gets_bind. by apply (backfill_loop_stuck _ _ rank s).
Qed.
End disclosed.
