(* ===== verification/DisclosureExamples.v ===== *)
(** * Reading the room

    The room of [LocalExamples] once its creator has sent a message: who sees what. *)
From S2P Require Import Prelude RustStr BTree Identifiers RoomVersion Json Canonical Redaction Signatures Events Membership EventAuth TopoSort StateRes Effects StateFrames AuthChain RoomPowerLevels EventStore AppendPdu Incoming LocalPdu StoreHistory Visibility VisibilitySpec Disclosure DisclosureSpec IncomingExamples LocalExamples.
Open Scope string_scope.

#[local] Existing Instances ascii_unicode toy_crypto forward_order ex_frame_cache ex_chain_cache ex_wild ex_services.

Definition ex_now : Store (O := unit) := snd ex_recorded.
Definition ex_said : string := event_id (inner ex_recorded_pdu).

(** ** Who sees the message *)

Lemma user_can_see_iff_witness : exists f v s1, visibility_read ex_recorded_pdu ex_now f v s1.
Proof.
  destruct (user_can_see_iff ex_recorded_pdu "@a:x" ex_now true (snd (user_can_see ex_recorded_pdu "@a:x" ex_now)))
    as [[[Hty _] _]|[(_ & _ & Hb)|(_ & f & v & s1 & Hr & _)]].
  - apply done_snd. vm_compute. reflexivity.
  - exfalso. revert Hty. vm_compute. discriminate.
  - discriminate Hb.
  - exists f, v, s1. exact Hr.
Defined.

Lemma server_can_see_iff_witness : entitled ex_now "x" "!r:x" ex_said /\ ~ entitled ex_now "y" "!r:x" ex_said.
Proof.
  split.
  - apply (server_can_see_iff "x" "!r:x" ex_said ex_now true (snd (server_can_see_event "x" "!r:x" ex_said ex_now)));
      [|reflexivity]. apply done_snd. vm_compute. reflexivity.
  - intros H. enough (false = true) by discriminate.
    apply (server_can_see_iff "y" "!r:x" ex_said ex_now false (snd (server_can_see_event "y" "!r:x" ex_said ex_now)));
      [|exact H]. apply done_snd. vm_compute. reflexivity.
Defined.

(** ** What another server gets *)

Definition ex_backfill := get_backfill st_out_of_fuel 10 "x" "!r:x" [ex_said] 5 ex_now.
Definition ex_answer : list (string * CanonicalJsonObject) := match fst ex_backfill with Done l => l | _ => [] end.

Lemma backfill_entitled_witness :
  ex_answer.*1 = ["$j"] /\
  backfill_walk "x" "!r:x" 5 (with_depths ex_now (edge_prevs ex_now (list_to_set [ex_said]))) [] ex_now ex_answer (snd ex_backfill).
Proof.
  split; [vm_compute; reflexivity|].
  apply (backfill_entitled 10 "x" "!r:x" [ex_said] 5 ex_now ex_answer (snd ex_backfill)).
  apply done_snd. vm_compute. reflexivity.
Defined.

Definition ex_rank (id : string) : nat := if id =? ex_said then 1 else 0.
Lemma ex_graded : graded ex_now ex_rank.
Proof.
  assert (map_Forall (fun e _ => Nat.ltb (ex_rank e.2) (ex_rank e.1) = true) (event_edges ex_now)) as H.
  { apply (bool_decide_unpack _). vm_compute. exact I. }
  intros x y [r Hr]. apply Nat.ltb_lt. exact (H (x, y) r Hr).
Qed.
Lemma backfill_ends_witness : get_backfill st_panic 10 "x" "!r:x" [ex_said] 5 ex_now = ex_backfill.
Proof.
  unfold ex_backfill. apply (backfill_ends st_panic ex_rank 10 "x" "!r:x" [ex_said] 5 ex_now ex_graded).
  apply Nat.ltb_lt. vm_compute. reflexivity.
Defined.

Definition names_one (d : EventData) : bool :=
  match de_canonical_object (ed_json d) ≫= json_prev_events with Some l => Nat.leb (length l) 1 | None => true end.
Lemma ex_few_prevs : few_prevs ex_now 1.
Proof.
  assert (map_Forall (fun _ d => names_one d = true) (datas ex_now)) as H.
  { apply (bool_decide_unpack _). vm_compute. exact I. }
  intros id d o l Hd Ho Hl. specialize (H id d Hd). unfold names_one in H. cbn beta in H.
  rewrite Ho in H. cbn [mbind option_bind] in H. rewrite Hl in H. by apply Nat.leb_le.
Qed.
Lemma missing_walk_ends_witness :
  fst (missing_loop 10 "!r:x" [] 1 5 0 [ex_said] [] ex_now) <> OutOfFuel.
Proof.
  apply (missing_walk_ends 10 "!r:x" [] 1 5 0 [ex_said] [] 1 ex_now ex_few_prevs).
  apply Nat.ltb_lt. vm_compute. reflexivity.
Defined.
