(* ===== verification/Timeline.v ===== *)
(** * Listing a timeline: [event/batch_token.rs], [room/timeline/topolo.rs] and
      [room/timeline/stream.rs]

    Clients read a room page by page.  A page is a query with an offset and a limit,
    repeated until enough of the events it gives may be shown to the user; a token says
    where the next page starts. *)
From S2P Require Import Prelude RustStr BTree Identifiers RoomVersion Json Canonical Redaction Signatures Events Membership EventAuth TopoSort StateRes Effects StateFrames AuthChain Decimal RoomPowerLevels EventStore AppendPdu Incoming Visibility.
From Stdlib Require Import Ascii.
Open Scope string_scope.

(** ** [BatchToken] *)

Inductive BatchToken :=
| Live (stream_ordering : Z)
| Historic (stream_ordering topological_ordering : Z).
(** [i64::abs], which wraps at the least number *)
Definition token_event_sn (tk : BatchToken) : Z := match tk with Live n | Historic n _ => as_i64 (Z.abs n) end.
Definition token_stream_ordering (tk : BatchToken) : Z := match tk with Live n | Historic n _ => n end.
Definition token_topological_ordering (tk : BatchToken) : option Z :=
  match tk with Live _ => None | Historic _ t => Some t end.
Definition LIVE_MIN : BatchToken := Live 0.
Definition LIVE_MAX : BatchToken := Live I64_MAX.

(** [i64::to_string] *)
Definition i64_to_string (n : Z) : string :=
  if (n <? 0)%Z then "-" +:+ u64_to_string (- n) else u64_to_string n.
Definition token_to_string (tk : BatchToken) : string :=
  match tk with
  | Live n => "s" +:+ i64_to_string n
  | Historic n t => "t" +:+ i64_to_string t +:+ "-" +:+ i64_to_string n
  end.
Definition token_from_str (input : string) : result AppError BatchToken :=
  match str_strip_prefix "s" input with
  | Some stripped => n ← ok_or (parse_i64 stripped) MatrixInvalidParam; Ok (Live n)
  | None =>
      match str_strip_prefix "t" input with
      | Some stripped =>
          (* [splitn(2, '-')] *)
          match str_find "-"%char stripped with
          | None => Err MatrixInvalidParam
          | Some i =>
              t ← ok_or (parse_i64 (str_take i stripped)) MatrixInvalidParam;
              n ← ok_or (parse_i64 (str_drop (i + 1) stripped)) MatrixInvalidParam;
              Ok (Historic n t)
          end
      | None => n ← ok_or (parse_i64 input) MatrixInvalidParam; Ok (Live n)
      end
  end.

(** [SnPduEvent::live_token], [prev_historic_token]; [self.depth as i64] wraps. *)
Definition live_token (p : StoredPdu) : BatchToken := Live (sn p).
Definition prev_historic_token (p : StoredPdu) : BatchToken :=
  Historic (if is_backfill p then - sn p - 1 else sn p - 1)%Z (as_i64 (depth (inner p))).

(** ** What a query asks for *)

Inductive Direction := Forward | Backward.
Inductive UrlFilter := EventsWithUrl | EventsWithoutUrl.
(** The fields of [RoomEventFilter] the queries use. *)
Record RoomEventFilter := {
  rf_not_types : list string;
  rf_not_rooms : list string;
  rf_rooms : option (list string);
  rf_senders : option (list string);
  rf_types : option (list string);
  rf_url_filter : option UrlFilter
}.

(** An absent or empty list asks for nothing. *)
Definition any_of (l : option (list string)) (x : option string) : bool :=
  match l with
  | None | Some [] => true
  | Some l => match x with Some x => bool_decide (x ∈ l) | None => false end
  end.
Definition filter_admits (f : RoomEventFilter) (row : EventRow) : bool :=
  match rf_url_filter f with
  | Some EventsWithUrl => er_contains_url row
  | Some EventsWithoutUrl => negb (er_contains_url row)
  | None => true
  end
  && negb (bool_decide (er_ty row ∈ rf_not_types f)) && negb (bool_decide (er_room_id row ∈ rf_not_rooms f))
  && any_of (rf_rooms f) (Some (er_room_id row)) && any_of (rf_senders f) (er_sender_id row)
  && any_of (rf_types f) (Some (er_ty row)).

(** Tokens as bounds of the topological order. *)
Definition at_or_after (tk : BatchToken) (row : EventRow) : bool :=
  match tk with
  | Live n => n <=? er_stream_ordering row
  | Historic n t => (t <? er_topological_ordering row)
                    || (er_topological_ordering row =? t) && (n <=? er_stream_ordering row)
  end%Z.
Definition at_or_before (tk : BatchToken) (row : EventRow) : bool :=
  match tk with
  | Live n => er_stream_ordering row <=? n
  | Historic n t => (er_topological_ordering row <? t)
                    || (er_topological_ordering row =? t) && (er_stream_ordering row <=? n)
  end%Z.
Definition opt_bound (bound : BatchToken -> EventRow -> bool) (tk : option BatchToken) (row : EventRow) : bool :=
  match tk with Some tk => bound tk row | None => true end.
Definition in_window (dir : Direction) (since until : option BatchToken) (row : EventRow) : bool :=
  match dir with
  | Forward => opt_bound at_or_after since row && opt_bound at_or_before until row
  | Backward => opt_bound at_or_before since row && opt_bound at_or_after until row
  end.

(** [topological_ordering], then [origin_server_ts], then [stream_ordering]. *)
Definition topo_key (row : EventRow) : Z * (Z * Z) :=
  (er_topological_ordering row, (er_origin_server_ts row, er_stream_ordering row)).
Definition topo_compare : Z * (Z * Z) -> Z * (Z * Z) -> comparison :=
  pair_cmp Z.compare (pair_cmp Z.compare Z.compare).

Section timeline.
Context {U : Unicode} {C : Crypto} {HO : HashOrder} {WM : WildMatch}.
Context {LF : LruCache Z (list FrameInfo)} {LA : LruCache (list Z) (list Z)}.
Context {O : Type} {SV : Services O}.
#[local] Abbreviation Db := (St (Store (O := O))).

(** The rows a query is about, in no particular order. *)
Definition matching_rows (s : Store (O := O)) (room_id : string) (keep : EventRow -> bool) : list (string * EventRow) :=
  List.filter (fun r => (er_room_id r.2 =? room_id) && keep r.2) (iter_map (rows s)).
Definition opt_filter (f : option RoomEventFilter) (row : EventRow) : bool :=
  match f with Some f => filter_admits f row | None => true end.
(** The whole answer of the query of [topolo], without offset and limit. *)
Definition topo_rows (s : Store (O := O)) (room_id : string) (dir : Direction) (since until : option BatchToken)
    (filter : option RoomEventFilter) : list (string * EventRow) :=
  sort_by_key (match dir with Forward => topo_compare | Backward => rev_cmp topo_compare end)
    (fun r => topo_key r.2)
    (matching_rows s room_id (fun row => in_window dir since until row && opt_filter filter row)).

(** ** What is shown of an event *)

Definition set_unsigned (u : list (string * json)) (p : StoredPdu) : StoredPdu :=
  {| inner := {| base := base (inner p); depth := depth (inner p); unsigned := u; hashes := hashes (inner p);
                 pdu_signatures := pdu_signatures (inner p); extra_data := extra_data (inner p) |};
     sn := sn p; is_outlier := is_outlier p; soft_failed := soft_failed p; is_backfill := is_backfill p |}.
Definition remove_transaction_id (p : StoredPdu) : StoredPdu :=
  set_unsigned (bt_remove "transaction_id" (unsigned (inner p))) p.
(** [event::get_frame_id] *)
Definition get_frame_id_at (room_id : string) (event_sn : Z) : Db Z := fun s =>
  match List.filter (fun p => (ep_room_id p =? room_id) && (ep_event_sn p =? event_sn)%Z)
          (snd <$> iter_map (event_points (frames s))) with
  | [] => (Fail DbNotFound, s)
  | p :: _ => match ep_frame_id p with Some f => (Done f, s) | None => (Fail MatrixNotFound, s) end
  end.
(** [state::user_membership] *)
Definition user_membership (frame_id : Z) (user_id : string) : Db MembershipState :=
  p ← get_frame_state frame_id "m.room.member" user_id;
  m ← get_member_content (inner p);
  match m with Ok m => mret m | Err e => st_fail e end.
Definition add_unsigned_membership (user_id : string) (p : StoredPdu) : Db StoredPdu :=
  membership ←
    (if (event_type (inner p) =? "m.room.member") && bool_decide (state_key (inner p) = Some user_id)
     then mret (struct1 "membership" false (field_required de_str) (content (inner p)))
     else
       frame ← st_try (get_frame_id_at (room_id (inner p)) (sn p));
       match frame with
       | Err _ => mret None
       | Ok frame_id => m ← st_try (user_membership frame_id user_id); mret (membership_as_str <$> ok m)
       end);
  mret (set_unsigned (bt_insert "membership" (JStr (default "leave" membership)) (unsigned (inner p))) p).
Definition add_age (p : StoredPdu) : Db StoredPdu :=
  now ← call Now;
  mret (set_unsigned (bt_insert "age" (JNum (NumInt (now - origin_server_ts (inner p)))) (unsigned (inner p))) p).

(** [is_ignored_pdu_by_ignored_users] *)
Definition is_ignored_pdu (p : PduEvent) (ignored_users : list string) : bool :=
  (event_type p =? "org.matrix.dummy_event")
  || bool_decide (state_key p = None) && bool_decide (sender p ∈ ignored_users).

(** [user::ignored_users] *)
Definition ignored_users (recipient_id : string) : Db (list string) :=
  ids ← st_try (call (IgnoredUsers recipient_id));
  match default [] (ok ids) with
  | [] => r ← st_try (call (IgnoredUserList recipient_id)); mret (default [] (mjoin (ok r)))
  | ids => mret ids
  end.
(** Those of the user a list is for. *)
Definition ignored_by (user_id : option string) : Db (list string) :=
  match user_id with Some user_id => ignored_users user_id | None => mret [] end.

(** An event as the user gets it; [None] when it is not shown. *)
Definition show_pdu (can_see : StoredPdu -> string -> Db bool) (user_id : option string)
    (ignored : list string) (p : StoredPdu) : Db (option StoredPdu) :=
  match user_id with
  | None => p ← add_age p; mret (Some p)
  | Some user_id =>
      visible ← can_see p user_id;
      if negb visible then mret None
      else if is_ignored_pdu (inner p) ignored then mret None
      else
        let p := if sender (inner p) =? user_id then p else remove_transaction_id p in
        p ← add_unsigned_membership user_id p;
        p ← add_age p;
        mret (Some p)
  end.
(** The events of a page go into the list until it has [limit] of them. *)
Fixpoint list_page (show : StoredPdu -> Db (option StoredPdu)) (limit : nat) (page : list (string * EventRow))
    (pdus : list (Z * StoredPdu)) : Db (list (Z * StoredPdu)) :=
  match page with
  | [] => mret pdus
  | (event_id, row) :: page =>
      pdu ← st_try (get_pdu event_id);
      match pdu with
      | Err _ => list_page show limit page pdus
      | Ok pdu =>
          shown ← show pdu;
          match shown with
          | None => list_page show limit page pdus
          | Some pdu =>
              let pdus := index_insert (er_sn row) pdu pdus in
              if Nat.leb limit (length pdus) then mret pdus else list_page show limit page pdus
          end
      end
  end.

(** ** [topolo::load_pdus]

    [stuck] is what the loop does without fuel. *)

Fixpoint topo_loop (stuck : Db (list (Z * StoredPdu))) (fuel : nat) (user_id : option string)
    (ignored : list string) (room_id : string) (since until : option BatchToken) (limit : nat)
    (filter : option RoomEventFilter) (dir : Direction) (offset : nat) (pdus : list (Z * StoredPdu)) :
    Db (list (Z * StoredPdu)) :=
  match fuel with
  | 0%nat => stuck
  | S fuel =>
      if negb (Nat.ltb (length pdus) limit) then mret pdus
      else
        page ← st_gets (fun s => take limit (drop offset (topo_rows s room_id dir since until filter)));
        match page with
        | [] => mret pdus
        | _ =>
            pdus ← list_page (show_pdu user_can_see user_id ignored) limit
                     (match dir with Forward => rev page | Backward => page end) pdus;
            if Nat.ltb (length page) limit then mret pdus
            else topo_loop stuck fuel user_id ignored room_id since until limit filter dir
                   (offset + length page) pdus
        end
  end.
Definition topo_load_pdus (stuck : Db (list (Z * StoredPdu))) (fuel : nat) (user_id : option string)
    (room_id : string) (since until : option BatchToken) (limit : nat) (filter : option RoomEventFilter)
    (dir : Direction) : Db (list (Z * StoredPdu)) :=
  ignored ← ignored_by user_id;
  topo_loop stuck fuel user_id ignored room_id since until limit filter dir 0 [].

(** ** [stream::load_pdus] *)

Definition in_stream_window (dir : Direction) (since until : option BatchToken) (row : EventRow) : bool :=
  let from tk := opt_bound (fun tk row => token_stream_ordering tk <=? er_stream_ordering row)%Z tk row in
  let below tk := opt_bound (fun tk row => er_stream_ordering row <? token_stream_ordering tk)%Z tk row in
  match dir with Forward => from since && below until | Backward => below since && from until end.
Definition stream_rows (s : Store (O := O)) (room_id : string) (dir : Direction) (since until : option BatchToken)
    (filter : option RoomEventFilter) (start_sn : Z) : list (string * EventRow) :=
  sort_by_key (rev_cmp Z.compare)
    (fun r => match dir with Forward => er_stream_ordering r.2 | Backward => er_sn r.2 end)
    (matching_rows s room_id (fun row =>
       in_stream_window dir since until row && opt_filter filter row
       && match dir with Forward => start_sn <? er_sn row | Backward => er_sn row <? start_sn end%Z
       && negb (er_is_rejected row))).
(** [user_can_see(user_id).await.unwrap_or(false)] *)
Definition seems_visible (p : StoredPdu) (user_id : string) : Db bool :=
  r ← st_try (user_can_see p user_id); mret (default false (ok r)).
Definition min_sn (page : list (string * EventRow)) (start_sn : Z) : Z :=
  foldr (fun r m => Z.min (er_sn r.2) m) start_sn page.

Fixpoint stream_loop (stuck : Db (list (Z * StoredPdu))) (fuel : nat) (user_id : option string)
    (ignored : list string) (room_id : string) (since until : option BatchToken) (limit : nat)
    (filter : option RoomEventFilter) (dir : Direction) (start_sn : Z) (offset : nat)
    (pdus : list (Z * StoredPdu)) : Db (list (Z * StoredPdu)) :=
  match fuel with
  | 0%nat => stuck
  | S fuel =>
      if negb (Nat.ltb (length pdus) limit) then mret pdus
      else
        page ← st_gets (fun s => take limit (drop offset (stream_rows s room_id dir since until filter start_sn)));
        match page with
        | [] => mret pdus
        | _ =>
            pdus ← list_page (show_pdu seems_visible user_id ignored) limit
                     (match dir with Forward => rev page | Backward => page end) pdus;
            let continue := stream_loop stuck fuel user_id ignored room_id since until limit filter dir in
            match dir with
            | Forward => if Nat.ltb (length page) limit then mret pdus
                         else continue start_sn (offset + length page)%nat pdus
            | Backward => continue (min_sn page start_sn) offset pdus
            end
        end
  end.
(** Where a backward page starts: above every number of the room. *)
Definition start_of (room_id : string) : Db Z :=
  sns ← st_gets (fun s => er_sn ∘ snd <$> matching_rows s room_id (fun _ => true));
  match sns with
  | [] => n ← st_try (call CurrSn); mret (default 0 (ok n) + 1)%Z
  | n :: sns => mret (foldr Z.max n sns + 1)%Z
  end.
Definition stream_load_pdus (stuck : Db (list (Z * StoredPdu))) (fuel : nat) (user_id : option string)
    (room_id : string) (since until : option BatchToken) (limit : nat) (filter : option RoomEventFilter)
    (dir : Direction) : Db (list (Z * StoredPdu)) :=
  ignored ← ignored_by user_id;
  start_sn ← (match dir with Forward => mret 0%Z | Backward => start_of room_id end);
  stream_loop stuck fuel user_id ignored room_id since until limit filter dir start_sn 0 [].
End timeline.
