(* ===== verification/Backfill.v ===== *)
(** * Reading back: [room/timeline/backfill.rs] and [get_messages] of
      [routing/client/room/message.rs]

    Where the history of a page is not complete, servers of the room are asked for what
    came before; what they give is processed like other events from other servers and
    the page is read again.  What can lead to a call of [process_to_timeline_pdu] is a
    call tree. *)
From S2P Require Import Prelude RustStr BTree Identifiers RoomVersion Json Canonical Redaction Signatures Events Membership EventAuth TopoSort StateRes Effects Calls StateFrames AuthChain Decimal RoomPowerLevels EventStore AppendPdu Incoming Visibility Timeline.
Open Scope string_scope.

(** [JsonValue::as_i64] *)
Definition json_as_i64 (j : json) : option Z :=
  match j with JNum (NumInt z) => in_range I64_MIN I64_MAX (Some z) | _ => None end.

Section backfill.
Context {U : Unicode} {C : Crypto} {HO : HashOrder} {WM : WildMatch}.
Context {LF : LruCache Z (list FrameInfo)} {LA : LruCache (list Z) (list Z)}.
Context {O : Type} {SV : Services O}.
Context (conf : Config).
#[local] Abbreviation Db := (St (Store (O := O))).
#[local] Abbreviation Tree := (tree (Store (O := O)) TimelineCall).

(** ** Asking for history *)

(** [room::admin_servers], without the own server *)
Fixpoint servers_of (users : list (string * Z)) (users_default : Z) : Db (gset string) :=
  match users with
  | [] => mret ∅
  | (user_id, level) :: users =>
      rest ← servers_of users users_default;
      if (users_default <? level)%Z then server ← server_of user_id; mret ({[ server ]} ∪ rest) else mret rest
  end.
Definition admin_servers (room_id : string) : Db (list string) :=
  power_levels ← get_room_state_content de_power_levels_content room_id "m.room.power_levels" EmptyString;
  servers ← servers_of (map_to_list (c_users power_levels)) (c_users_default power_levels);
  mret (iter_set (servers ∖ {[ server_name conf ]})).

(** An event of the answer: the stored one, or a new outlier. *)
Definition backfill_pdu (remote_server room_id : string) (room_version : RoomVersionId) (pdu : json) :
    Db (StoredPdu * CanonicalJsonObject) :=
  '(event_id, value) ← of_res (parse_fetched_pdu room_id room_version pdu);
  known ← st_try (get_pdu event_id);
  match known with
  | Ok p =>
      value ← get_pdu_json event_id;
      value ← st_some value AppPublic;
      mret (p, value)
  | Err _ =>
      o ← process_to_outlier_pdu conf remote_server event_id room_id room_version value;
      match o with
      | None => st_fail AppInternal
      | Some o =>
          '(p, value) ← save_to_database o true;
          if event_type (inner p) =? "m.room.message" then
            _ ← st_some (struct1 "body" false (field_option de_str) (content (inner p))) AppInternal;
            mret (p, value)
          else mret (p, value)
      end
  end.

(** The events of an answer that name a depth, the lowest first. *)
Definition by_depth (pdus : list json) : list json :=
  fst <$> sort_by_key Z.compare snd (omap (fun pdu =>
    match pdu with
    | JObj m => depth ← bt_get "depth" (json_map m) ≫= json_as_i64; Some (pdu, depth)
    | _ => None
    end) pdus).
(** The events are all stored first. *)
Fixpoint save_pdus (remote_server room_id : string) (room_version : RoomVersionId) (pdus : list json) :
    Db (list (StoredPdu * CanonicalJsonObject)) :=
  match pdus with
  | [] => mret []
  | pdu :: pdus =>
      saved ← st_try (backfill_pdu remote_server room_id room_version pdu);
      rest ← save_pdus remote_server room_id room_version pdus;
      mret (match saved with Ok p => p :: rest | Err _ => rest end)
  end.
Fixpoint fill_pdus (remote_server : string) (saved : list (StoredPdu * CanonicalJsonObject)) :
    Tree (list StoredPdu) :=
  match saved with
  | [] => mret []
  | (p, content) :: saved =>
      r ← try_timeline p content remote_server;
      filled ← (match r with Ok _ => r ← Act (st_try (get_pdu (event_id (inner p)))); mret (ok r) | Err _ => mret None end);
      rest ← fill_pdus remote_server saved;
      mret (match filled with Some q => q :: rest | None => rest end)
  end.
Fixpoint backfill_from_servers (servers : list string) (room_id : string) (room_version : RoomVersionId)
    (extremities : list string) : Tree (list StoredPdu) :=
  match servers with
  | [] => mret []
  | backfill_server :: servers =>
      response ← Act (call (Backfill backfill_server room_id extremities 100));
      match response with
      | Some pdus =>
          saved ← Act (save_pdus backfill_server room_id room_version (by_depth pdus));
          fill_pdus backfill_server saved
      | None => backfill_from_servers servers room_id room_version extremities
      end
  end.
Definition backfill_from_extremities (room_id : string) (extremities : list string) : Tree (list StoredPdu) :=
  servers ← Act (admin_servers room_id);
  room_version ← Act (get_version room_id);
  backfill_from_servers servers room_id room_version extremities.

(** A predecessor of the event is not in the table of events. *)
Definition has_missing_prev (s : Store (O := O)) (p : PduEvent) : bool :=
  existsb (fun id => bool_decide (rows s !! id = None)) (prev_events p).
(** The extremity is an unknown event or one with missing predecessors. *)
Definition is_frontier (s : Store (O := O)) (ext_id : string) : bool :=
  match load_pdu s ext_id with Ok p => has_missing_prev s (inner p) | Err _ => true end.
Definition backfill_if_required (room_id : string) (pdus : list (Z * StoredPdu)) (limit : nat) :
    Tree (list StoredPdu) :=
  let sorted := sort_by_key Z.compare (fun p => depth (inner p)) pdus.*2 in
  gap ← Act (st_gets (fun s => List.find (fun p => has_missing_prev s (inner p)) sorted));
  match gap with
  | Some p => backfill_from_extremities room_id [event_id (inner p)]
  | None =>
      if Nat.ltb (length pdus) limit then
        fill_from ← Act (st_gets (fun s =>
          List.filter (is_frontier s) (snd <$> List.filter (fun x => x.1 =? room_id) (iter_set (backward_extremities s)))));
        match fill_from with
        | [] => mret []
        | _ => backfill_from_extremities room_id fill_from
        end
      else mret []
  end.

(** A predecessor of the event is not in the timeline. *)
Definition gap_below (s : Store (O := O)) (p : PduEvent) : bool :=
  existsb (fun id => match rows s !! id with Some row => er_is_outlier row | None => true end) (prev_events p).
Fixpoint trim_page (s : Store (O := O)) (pdus : list (Z * StoredPdu)) : list (Z * StoredPdu) :=
  match pdus with
  | [] => []
  | (event_sn, p) :: pdus => (event_sn, p) :: if gap_below s (inner p) then [] else trim_page s pdus
  end.
Definition trim_pdus_until_backfill_gap (pdus : list (Z * StoredPdu)) : Db (list (Z * StoredPdu)) :=
  st_gets (fun s => trim_page s pdus).

(** ** [get_messages] *)

(** [to_room_event], [to_state_event_value] *)
Definition room_event_value (p : PduEvent) (age : Z) : json :=
  JObj (bt_from_list (
    [("content", content p); ("type", JStr (event_type p)); ("event_id", JStr (event_id p));
     ("sender", JStr (sender p)); ("origin_server_ts", JNum (NumInt (origin_server_ts p)));
     ("room_id", JStr (room_id p)); ("unsigned", JObj (bt_insert "age" (JNum (NumInt age)) (unsigned p)))]
    ++ opt_member "state_key" JStr (state_key p) ++ opt_member "redacts" JStr (redacts p))%list).
Definition to_room_event (p : PduEvent) : Db json :=
  now ← call Now; mret (room_event_value p (Z.max 0 (now - origin_server_ts p))).
Definition to_state_event (p : PduEvent) : json :=
  let data := bt_from_list (
    [("content", content p); ("type", JStr (event_type p)); ("event_id", JStr (event_id p));
     ("sender", JStr (sender p)); ("origin_server_ts", JNum (NumInt (origin_server_ts p)));
     ("room_id", JStr (room_id p)); ("state_key", match state_key p with Some k => JStr k | None => JNull end)]
    ++ match unsigned p with [] => [] | u => [("unsigned", JObj u)] end)%list in
  JObj (foldl (fun data '(k, v) => match bt_get k data with Some _ => data | None => bt_insert k v data end)
          data (extra_data p)).

Record MessagesReqArgs := {
  ma_room_id : string;
  ma_from : option string;
  ma_to : option string;
  ma_dir : Direction;
  ma_limit : nat;
  ma_filter : RoomEventFilter
}.
Record MessagesResBody := {
  mr_start : string;
  mr_end : option string;
  mr_chunk : list json;
  mr_state : list json
}.

(** The user is, or was and has not forgotten that they were, in the room. *)
Definition messages_allowed (sender_id room_id : string) : Db unit :=
  is_joined ← call (JoinRow sender_id room_id);
  if (is_joined : bool) then mret tt
  else
    forgotten ← call (LeaveRow sender_id room_id);
    match forgotten with Some false => mret tt | _ => st_fail MatrixForbidden end.
(** The events of the page and the token after it. *)
Definition messages_page (stuck : Db (list (Z * StoredPdu))) (fuel : nat) (sender_id room_id : string)
    (from_tk : BatchToken) (until_tk : option BatchToken) (limit : nat) (filter : RoomEventFilter)
    (dir : Direction) : Tree (list (Z * StoredPdu) * option BatchToken) :=
  let load := topo_load_pdus stuck fuel (Some sender_id) room_id (Some from_tk) until_tk limit (Some filter) dir in
  match dir with
  | Forward => events ← Act load; mret (events, (fun e => live_token e.2) <$> last events)
  | Backward =>
      events ← Act load;
      filled_events ← backfill_if_required room_id events limit;
      events ← (match filled_events with
                | [] => mret events
                | _ => events ← Act load; Act (trim_pdus_until_backfill_gap events)
                end);
      mret (events, (fun e => prev_historic_token e.2) <$> last events)
  end.
(** The membership events of the senders. *)
Definition lazy_state (room_id : string) (senders : gset string) : Db (list json) :=
  states ← st_map (fun ll_id => st_try (get_room_state room_id "m.room.member" ll_id)) (iter_set senders);
  mret (omap (fun r => (fun p => to_state_event (inner p)) <$> ok r) states).
Definition parse_token (tk : option string) : Db (option BatchToken) :=
  match tk with Some tk => tk ← of_res (token_from_str tk); mret (Some tk) | None => mret None end.

(** [lazy_loading::lazy_load_confirm_delivery] has nothing to do. *)
Definition lazy_load_confirm_delivery (user_id device_id room_id : string) (occur_sn : Z) : Db unit := mret tt.

Definition messages (stuck : Db (list (Z * StoredPdu))) (fuel : nat) (sender_id device_id : string)
    (args : MessagesReqArgs) : Tree MessagesResBody :=
  let room_id := ma_room_id args in
  _ ← Act (messages_allowed sender_id room_id);
  until_tk ← Act (parse_token (ma_to args));
  from ← Act (parse_token (ma_from args));
  let from_tk := default (match ma_dir args with Forward => LIVE_MIN | Backward => LIVE_MAX end) from in
  _ ← Act (lazy_load_confirm_delivery sender_id device_id room_id (token_event_sn from_tk));
  '(events, next_token) ← messages_page stuck fuel sender_id room_id from_tk until_tk
      (Nat.min (ma_limit args) 1000) (ma_filter args) (ma_dir args);
  chunk ← Act (st_map (fun e => to_room_event (inner e.2)) events);
  state ← Act (lazy_state room_id (list_to_set ((fun e => sender (inner e.2)) <$> events)));
  mret {| mr_start := token_to_string from_tk; mr_end := token_to_string <$> next_token;
          mr_chunk := chunk; mr_state := state |}.
Definition get_messages (stuck : Db (list (Z * StoredPdu))) (fuel : nat) (sender_id device_id : string)
    (args : MessagesReqArgs) : Db MessagesResBody :=
  run (enter conf) (messages stuck fuel sender_id device_id args).
End backfill.
