(* ===== verification/TimelineSpec.v ===== *)
(** * What a page of the timeline lists

    Tokens can be read back; a backward page lists, in order, the first events of the
    query that may be shown, and the token after it leads to the events after the last
    one listed; the loops of the queries end. *)
From stdpp Require Import relations.
From S2P Require Import Prelude RustStr BTree Identifiers RoomVersion Json Canonical Redaction Signatures Events Membership EventAuth TopoSort StateRes Effects StateFrames AuthChain Decimal RoomPowerLevels EventStore AppendPdu Incoming LocalPdu StoreHistory IncomingSpec Visibility VisibilitySpec Timeline.
From Stdlib Require Import Ascii.
Open Scope string_scope.

(** ** Tokens *)

Lemma parse_u64_digits n : (0 <= n <= U64_MAX)%Z -> parse_digits (u64_to_string n) = Some n.
Proof.
  intros Hn. pose proof (parse_u64_to_string n Hn) as H. unfold parse_u64, parse_unsigned, in_range in H.
  destruct (u64_to_string_digit n) as (c & r & E & Hc). rewrite E in *.
  replace (match String c r with String "+" r0 => parse_digits r0 | _ => parse_digits (String c r) end)
    with (parse_digits (String c r)) in H.
  - destruct (parse_digits (String c r)); cbn in H; repeat case_match; congruence.
  - by destruct c as [[] [] [] [] [] [] [] []].
Qed.
Lemma parse_i64_to_string n : (I64_MIN <= n <= I64_MAX)%Z -> parse_i64 (i64_to_string n) = Some n.
Proof.
  intros Hn. pose proof Hn as Hr. unfold I64_MIN, I64_MAX in Hr. unfold i64_to_string. destruct (Z.ltb_spec n 0).
  - change (in_range I64_MIN I64_MAX (Z.opp <$> parse_digits (u64_to_string (- n))) = Some n).
    rewrite parse_u64_digits by (unfold U64_MAX; lia). cbn [fmap option_fmap option_map].
    rewrite Z.opp_involutive. by apply in_range_Some.
  - pose proof (parse_u64_digits n ltac:(unfold U64_MAX; lia)) as H1. unfold parse_i64.
    destruct (u64_to_string_digit n) as (c & r & E & Hc). rewrite E in *.
    replace (match String c r with String "+" r0 => parse_digits r0 | String "-" r0 => Z.opp <$> parse_digits r0
             | _ => parse_digits (String c r) end) with (parse_digits (String c r)).
    + rewrite H1. by apply in_range_Some.
    + by destruct c as [[] [] [] [] [] [] [] []].
Qed.
Lemma digits_no_dash n : (0 <= n <= U64_MAX)%Z -> str_contains "-"%char (u64_to_string n) = false.
Proof.
  intros Hn. pose proof (parse_u64_digits n Hn) as H. unfold parse_digits in H.
  destruct (str_is_empty _); [discriminate|]. apply parse_digits_acc_all in H.
  induction (u64_to_string n) as [|c s IH]; [done|]. cbn in H. apply andb_true_iff in H as [Hc Hs].
  rewrite str_contains_cons. destruct (ascii_dec "-"%char c) as [<-|]; [discriminate|]. by apply IH.
Qed.

(** The tokens the server hands out: depths are not negative. *)
Definition token_ok (tk : BatchToken) : Prop :=
  (I64_MIN <= token_stream_ordering tk <= I64_MAX)%Z /\
  match token_topological_ordering tk with Some t => (0 <= t <= I64_MAX)%Z | None => True end.

(** A token a client sends back is read as the one it was given. *)
Theorem token_roundtrip tk : token_ok tk -> token_from_str (token_to_string tk) = Ok tk.
Proof.
  destruct tk as [n|n t]; intros [Hn Ht]; cbn [token_stream_ordering token_topological_ordering] in *.
  - unfold token_from_str. cbn [token_to_string]. rewrite str_strip_prefix_app, parse_i64_to_string by done. done.
  - unfold token_from_str. cbn [token_to_string].
    replace (str_strip_prefix "s" ("t" +:+ i64_to_string t +:+ "-" +:+ i64_to_string n)) with (@None string) by done.
    rewrite str_strip_prefix_app. change ("-" +:+ i64_to_string n) with (String "-" (i64_to_string n)).
    assert (i64_to_string t = u64_to_string t) as Et by (unfold i64_to_string; destruct (Z.ltb_spec t 0); [lia|done]).
    rewrite str_find_app_fresh by (rewrite Et; apply digits_no_dash; unfold I64_MAX, U64_MAX in *; lia).
    rewrite str_take_app, parse_i64_to_string by (unfold I64_MIN in *; lia). cbn [ok_or mbind result_bind].
    replace (str_drop (str_len (i64_to_string t) + 1) (i64_to_string t +:+ String "-" (i64_to_string n)))
      with (i64_to_string n).
    + by rewrite parse_i64_to_string.
    + generalize (i64_to_string t), (i64_to_string n). intros a b. induction a as [|c a IH]; [done|exact IH].
Qed.

(** ** The list *)

Lemma index_insert_fresh {V} k (v : V) l : k ∉ l.*1 -> index_insert k v l = (l ++ [(k, v)])%list.
Proof.
  induction l as [|[k' v'] l IH]; intros Hk; [done|]. cbn in Hk. apply not_elem_of_cons in Hk as [Hne Hk]. cbn.
  destruct (Z.eqb_spec k k'); [done|]. by rewrite IH.
Qed.

(** ** Parts of a sorted list *)

Section sorted.
Context {A K : Type} (cmp : K -> K -> comparison) `{!TotalCmp cmp} (key : A -> K).
Abbreviation le := (fun x y => cmp_le cmp (key x) (key y)).

Lemma list_filter_Permutation (P : A -> bool) l1 l2 : l1 ≡ₚ l2 -> List.filter P l1 ≡ₚ List.filter P l2.
Proof.
  induction 1 as [|x l1 l2 _ IH|x y l|l1 l2 l3 _ IH1 _ IH2]; cbn; [done| | |by transitivity (List.filter P l2)].
  - destruct (P x); [by constructor|done].
  - destruct (P x), (P y); done || constructor.
Qed.
Lemma filter_sorted (P : A -> bool) l : StronglySorted le l -> StronglySorted le (List.filter P l).
Proof.
  induction 1 as [|x l _ IH Hx]; cbn; [constructor|]. destruct (P x); [|done]. constructor; [done|].
  rewrite Forall_forall in Hx |- *. intros y Hy. apply Hx. apply list_elem_of_In, filter_In in Hy as [Hy _].
  by apply list_elem_of_In.
Qed.
Lemma sort_filter (P : A -> bool) l :
  (forall x y, x ∈ l -> y ∈ l -> key x = key y -> x = y) ->
  sort_by_key cmp key (List.filter P l) = List.filter P (sort_by_key cmp key l).
Proof.
  intros Hinj. apply (StronglySorted_unique_strong le).
  - intros x y Hx Hy H1 H2. rewrite (sort_by_key_Permutation cmp key) in Hx.
    apply list_elem_of_In, filter_In in Hx as [Hx%list_elem_of_In _], Hy as [Hy%list_elem_of_In _].
    rewrite (sort_by_key_Permutation cmp key) in Hy. apply Hinj; [done..|]. by apply (cmp_le_antisymm cmp).
  - by apply sort_by_key_sorted.
  - by apply filter_sorted, sort_by_key_sorted.
  - rewrite (sort_by_key_Permutation cmp key). apply list_filter_Permutation. by rewrite sort_by_key_Permutation.
Qed.
Lemma list_filter_none (P : A -> bool) l : (forall x, x ∈ l -> P x = false) -> List.filter P l = [].
Proof. induction l as [|x l IH]; intros H; [done|]. cbn. rewrite H by (by left). apply IH. set_solver. Qed.
Lemma list_filter_all (P : A -> bool) l : (forall x, x ∈ l -> P x = true) -> List.filter P l = l.
Proof. induction l as [|x l IH]; intros H; [done|]. cbn. rewrite H by (by left). f_equal. apply IH. set_solver. Qed.
(** The elements strictly after one of a sorted list. *)
Lemma sorted_after (P : A -> bool) before r after :
  StronglySorted le (before ++ r :: after) ->
  (forall x, x ∈ (before ++ r :: after)%list -> P x = true <-> cmp (key r) (key x) = Lt) ->
  (forall x, x ∈ after -> key x <> key r) -> List.filter P (before ++ r :: after) = after.
Proof.
  intros Hs HP Hne. apply StronglySorted_app in Hs as (Hbr & _ & Hr). apply StronglySorted_inv in Hr as [_ Hr].
  rewrite List.filter_app. cbn. replace (P r) with false.
  2: { symmetry. apply not_true_iff_false. rewrite HP by set_solver. by rewrite (cmp_refl cmp). }
  rewrite (list_filter_none P before), (list_filter_all P after); [done| |].
  - intros x Hx. apply HP; [set_solver|]. rewrite Forall_forall in Hr. specialize (Hr x Hx). unfold cmp_le in Hr.
    destruct (cmp (key r) (key x)) eqn:E; [|done..]. apply (cmp_eq cmp) in E. by destruct (Hne x Hx).
  - intros x Hx. apply not_true_iff_false. rewrite HP by set_solver. intros Hlt.
    apply (Hbr x r Hx ltac:(by left)). by apply (cmp_gt_lt cmp).
Qed.
End sorted.

(** The last of the results that are there. *)
Lemma last_taken {B} (os : list (option B)) e :
  last (omap id os) = Some e -> exists before n, os = (before ++ Some e :: replicate n None)%list.
Proof.
  induction os as [|o os IH]; intros He; [done|]. destruct (last (omap id os)) as [e'|] eqn:Hlast.
  - assert (e' = e) as -> by (destruct o; cbn in He; [rewrite last_cons, Hlast in He|]; congruence).
    destruct (IH eq_refl) as (before & n & ->). by exists (o :: before), n.
  - apply last_None in Hlast. destruct o as [e'|]; cbn in He; rewrite Hlast in He; [|done]. injection He as ->.
    exists [], (length os). cbn. f_equal. clear -Hlast. induction os as [|[]]; cbn in *; [done..|]. f_equal. auto.
Qed.

Section timeline_spec.
Context {U : Unicode} {C : Crypto} {HO : HashOrder} {WM : WildMatch}.
Context {LF : LruCache Z (list FrameInfo)} {LA : LruCache (list Z) (list Z)}.
Context {O : Type} {SV : Services O}.
#[local] Abbreviation Db := (St (Store (O := O))).
Implicit Types (s : Store (O := O)) (p : StoredPdu) (r : string * EventRow).

Lemma load_pdu_browse s s' id : browse s s' -> load_pdu s' id = load_pdu s id.
Proof. intros [Hr Hd _ _]. unfold load_pdu. by rewrite Hr, Hd. Qed.

#[local] Hint Resolve @browse_on_frames @browse_call @browse_get_pdu browse_get_member_content
  browse_state_event_before browse_visibility_frame browse_history_visibility_before
  browse_user_membership_before : keeps.
Lemma browse_user_can_see p u : keeps (browse (O := O)) (user_can_see p u).
Proof. unfold user_can_see, joined_after. cbn zeta. keeps_auto. Qed.
#[local] Hint Resolve browse_user_can_see : keeps.
Lemma browse_seems_visible p u : keeps (browse (O := O)) (seems_visible p u).
Proof. unfold seems_visible. keeps_auto. Qed.
Lemma browse_get_frame_id_at room n : keeps (browse (O := O)) (get_frame_id_at room n).
Proof. intros s. unfold get_frame_id_at. by repeat case_match. Qed.
#[local] Hint Resolve browse_seems_visible browse_get_frame_id_at : keeps.
Lemma browse_show_pdu can_see u ign p :
  (forall p u, keeps (browse (O := O)) (can_see p u)) -> keeps (browse (O := O)) (show_pdu can_see u ign p).
Proof.
  intros Hc. unfold show_pdu, add_age, add_unsigned_membership, user_membership, get_frame_state. cbn zeta. keeps_auto.
Qed.
Lemma browse_ignored_by u : keeps (browse (O := O)) (ignored_by u).
Proof. unfold ignored_by, ignored_users. keeps_auto. Qed.

(** What becomes of a row whose turn comes in the store [s]: nothing, or an entry of the
    list. *)
Definition takes (show : StoredPdu -> Db (option StoredPdu)) r s (o : option (Z * StoredPdu)) s' : Prop :=
  match load_pdu s r.1 with
  | Err _ => o = None /\ s' = s
  | Ok p => exists q, show p s = (Done q, s') /\ o = (fun q => (er_sn r.2, q)) <$> q
  end.
(** One row after the other, each in the store the one before has left. *)
Inductive in_turn (step : string * EventRow -> Store -> option (Z * StoredPdu) -> Store -> Prop) :
    Store -> list (string * EventRow) -> list (option (Z * StoredPdu)) -> Store -> Prop :=
| in_turn_nil s : in_turn step s [] [] s
| in_turn_cons s r o s1 rows os s' :
    step r s o s1 -> in_turn step s1 rows os s' -> in_turn step s (r :: rows) (o :: os) s'.
Lemma in_turn_app step s rows os s1 rows' os' s' :
  in_turn step s rows os s1 -> in_turn step s1 rows' os' s' -> in_turn step s (rows ++ rows') (os ++ os') s'.
Proof. induction 1; cbn; [done|]. intros. econstructor; eauto. Qed.
Lemma in_turn_mono (P Q : string * EventRow -> Store -> option (Z * StoredPdu) -> Store -> Prop) s rows os s' :
  (forall r s o s', P r s o s' -> Q r s o s') -> in_turn P s rows os s' -> in_turn Q s rows os s'.
Proof. intros H. induction 1; econstructor; eauto. Qed.
Lemma in_turn_split step s rows os1 o os2 s' :
  in_turn step s rows (os1 ++ o :: os2) s' ->
  exists rows1 r rows2 s1 s2, rows = (rows1 ++ r :: rows2)%list /\ length rows1 = length os1 /\
    in_turn step s rows1 os1 s1 /\ step r s1 o s2 /\ in_turn step s2 rows2 os2 s'.
Proof.
  revert s rows. induction os1 as [|o1 os1 IH]; intros s rows H; inversion H; simplify_eq/=.
  - eexists [], _, _, _, _. repeat split; [constructor|done..].
  - match goal with H : in_turn _ _ _ (_ ++ _) _ |- _ => apply IH in H as (rows1 & x & rows2 & sa & sb & -> & <- & ? & ? & ?) end.
    eexists (_ :: rows1), x, rows2, sa, sb. repeat (split; [done|]). split; [by econstructor|done].
Qed.
Lemma in_turn_length step s rows os s' : in_turn step s rows os s' -> length rows = length os.
Proof. induction 1; cbn; congruence. Qed.

(** The list with the entries in it; an entry replaces one of the same number. *)
Definition collect (pdus : list (Z * StoredPdu)) (os : list (option (Z * StoredPdu))) : list (Z * StoredPdu) :=
  foldl (fun pdus o => match o with Some e => index_insert e.1 e.2 pdus | None => pdus end) pdus os.
Lemma length_index_insert {V} k (v : V) l : (length (index_insert k v l) <= S (length l))%nat.
Proof. induction l as [|[k' v'] l IH]; cbn; [done|]. destruct (Z.eqb k k'); cbn; lia. Qed.

(** The rows looked at, in order, with what became of each: all the rows, or those up to
    the one that filled the list. *)
Definition lists (show : StoredPdu -> Db (option StoredPdu)) (limit : nat) (rows : list (string * EventRow))
    (pdus : list (Z * StoredPdu)) s (out : list (Z * StoredPdu)) s' : Prop :=
  exists read after os, rows = (read ++ after)%list /\ in_turn (takes show) s read os s' /\
    out = collect pdus os /\ (length out <= limit)%nat /\ (after = [] \/ length out = limit).

Lemma lists_nil show limit pdus s : (length pdus <= limit)%nat -> lists show limit [] pdus s pdus s.
Proof. intros. exists [], [], []. repeat split; [constructor|done|by left]. Qed.
Lemma lists_full show limit rows pdus s : length pdus = limit -> lists show limit rows pdus s pdus s.
Proof. intros H. exists [], rows, []. repeat split; [constructor|cbn; lia|by right]. Qed.
Lemma lists_step show limit r rows pdus s o s1 out s' :
  takes show r s o s1 -> lists show limit rows (collect pdus [o]) s1 out s' -> lists show limit (r :: rows) pdus s out s'.
Proof.
  intros Hr (read & after & os & -> & H & -> & Hl). exists (r :: read), after, (o :: os).
  split; [done|]. split; [by econstructor|done].
Qed.

Lemma list_page_lists show limit rows pdus s out s' :
  (length pdus < limit)%nat -> list_page show limit rows pdus s = (Done out, s') -> lists show limit rows pdus s out s'.
Proof.
  revert pdus s. induction rows as [|[id row] rows IH]; intros pdus s Hlt H; cbn [list_page] in H.
  { injection H as <- <-. apply lists_nil. lia. }
  unfold get_pdu, mbind at 1, St_bind at 1, st_try in H. cbn in H.
  destruct (load_pdu s id) as [p|e] eqn:Hl; cbn in H.
  2: { apply (lists_step _ _ _ _ _ _ None s); [unfold takes; cbn; by rewrite Hl|]. by apply IH. }
  apply bind_St in H as (shown & s1 & H1 & H).
  assert (takes show (id, row) s ((fun q => (er_sn row, q)) <$> shown) s1) as Ht.
  { unfold takes. cbn. rewrite Hl. by exists shown. }
  eapply lists_step; [exact Ht|]. destruct shown as [q|]; [|by apply IH]. cbn [collect foldl fmap option_fmap option_map fst snd].
  cbn zeta in H. pose proof (length_index_insert (er_sn row) q pdus). destruct (Nat.leb_spec limit (length (index_insert (er_sn row) q pdus))).
  - injection H as <- <-. apply lists_full. lia.
  - by apply IH.
Qed.

(** Pages one after the other. *)
Lemma lists_more show limit rows more pdus s mid s1 out s' :
  lists show limit rows pdus s mid s1 ->
  (if Nat.ltb (length mid) limit then lists show limit more mid s1 out s' else out = mid /\ s' = s1) ->
  lists show limit (rows ++ more) pdus s out s'.
Proof.
  intros (read & after & os & -> & H & -> & Hle & Hl). destruct (Nat.ltb_spec (length (collect pdus os)) limit) as [Hlt|Hge].
  - destruct Hl as [->|?]; [|lia]. intros (read' & after' & os' & -> & H' & -> & Hl'). rewrite app_nil_r.
    exists (read ++ read')%list, after', (os ++ os')%list. split; [by rewrite <- app_assoc|].
    split; [by apply (in_turn_app _ _ _ _ s1)|]. unfold collect in *. by rewrite foldl_app.
  - intros [-> ->]. exists read, (after ++ more)%list, os. rewrite <- app_assoc.
    repeat (split; [done|]). right. lia.
Qed.

(** Where no two rows share a number, the list has the entries in order. *)
Definition sns (rows : list (string * EventRow)) : list Z := (fun r => er_sn r.2) <$> rows.
Lemma collect_fresh step s rows os s' pdus :
  (forall r s e s', step r s (Some e) s' -> e.1 = er_sn r.2) ->
  in_turn step s rows os s' -> NoDup (pdus.*1 ++ sns rows) -> collect pdus os = (pdus ++ omap id os)%list.
Proof.
  intros Hstep H. revert pdus. induction H as [s|s r o s1 rows os s' Hr _ IH]; intros pdus Hnd; [cbn; by rewrite app_nil_r|].
  destruct o as [e|].
  - change (collect pdus (Some e :: os)) with (collect (index_insert e.1 e.2 pdus) os).
    pose proof (Hstep _ _ _ _ Hr) as He. cbn in Hnd. rewrite <- He in Hnd.
    assert (e.1 ∉ pdus.*1) as Hf by (intros Hx; apply NoDup_app in Hnd as (_ & Hd & _); apply (Hd _ Hx); by left).
    rewrite index_insert_fresh by done.
    rewrite IH; [rewrite <- app_assoc; by destruct e|]. rewrite fmap_app, <- app_assoc. done.
  - change (collect pdus (None :: os)) with (collect pdus os). apply IH. cbn in Hnd. apply NoDup_app in Hnd as (H1 & H2 & H3). apply NoDup_cons in H3 as [_ H3].
    apply NoDup_app. split; [done|]. split; [|done]. intros x Hx Hx'. apply (H2 _ Hx). by right.
Qed.

(** ** The loops *)

Lemma matching_rows_browse s s' room keep : browse s s' -> matching_rows s' room keep = matching_rows s room keep.
Proof. intros [Hr _ _ _]. unfold matching_rows. by rewrite Hr. Qed.
Lemma topo_rows_browse s s' room dir since until f :
  browse s s' -> topo_rows s' room dir since until f = topo_rows s room dir since until f.
Proof. intros B. unfold topo_rows. by rewrite (matching_rows_browse s s'). Qed.
Lemma browse_list_page show limit rows pdus :
  (forall p, keeps (browse (O := O)) (show p)) -> keeps (browse (O := O)) (list_page show limit rows pdus).
Proof.
  intros Hs. revert pdus. induction rows as [|[id row] rows IH]; intros pdus; cbn [list_page]; cbn zeta; keeps_auto.
Qed.
Lemma browse_topo_loop fuel u ign room since until limit f dir offset pdus :
  keeps (browse (O := O)) (topo_loop st_out_of_fuel fuel u ign room since until limit f dir offset pdus).
Proof.
  revert offset pdus. induction fuel as [|fuel IH]; intros; cbn [topo_loop]; [intros s; done|].
  assert (forall rows pdus, keeps (browse (O := O)) (list_page (show_pdu user_can_see u ign) limit rows pdus)) as Hl.
  { intros. apply browse_list_page. intros p. apply browse_show_pdu. apply browse_user_can_see. }
  keeps_auto.
Qed.

Abbreviation sees u ign := (show_pdu user_can_see u ign).
Lemma browse_sees u ign p : keeps (browse (O := O)) (sees u ign p).
Proof. apply browse_show_pdu, browse_user_can_see. Qed.

(** The order in which the rows of a query are looked at: forwards, each page is turned
    round. *)
Fixpoint turned (fuel limit : nat) (rows : list (string * EventRow)) : list (string * EventRow) :=
  match fuel, rows with
  | S fuel, _ :: _ => rev (take limit rows) ++ turned fuel limit (drop limit rows)
  | _, _ => []
  end%list.
Definition reading (dir : Direction) (limit : nat) (rows : list (string * EventRow)) : list (string * EventRow) :=
  match dir with Forward => turned (length rows) limit rows | Backward => rows end.
Lemma turned_fuel fuel fuel' limit rows :
  (0 < limit)%nat -> (length rows <= fuel)%nat -> (length rows <= fuel')%nat -> turned fuel limit rows = turned fuel' limit rows.
Proof.
  intros Hlim. revert fuel' rows. induction fuel as [|fuel IH]; intros [|fuel'] [|r rows] H H'; cbn in H, H'; try lia; try done.
  cbn [turned]. f_equal. apply IH; rewrite length_drop; cbn; lia.
Qed.
Lemma reading_page dir limit rows :
  (0 < limit)%nat -> reading dir limit rows
  = (match dir with Forward => rev (take limit rows) | Backward => take limit rows end
     ++ reading dir limit (drop limit rows))%list.
Proof.
  intros Hlim. destruct dir; cbn [reading]; [|by rewrite take_drop].
  destruct rows as [|r rows]; [by rewrite take_nil, drop_nil|]. cbn [length turned]. f_equal.
  apply turned_fuel; [done| |]; rewrite length_drop; cbn; lia.
Qed.
Lemma reading_nil dir limit : reading dir limit [] = [].
Proof. by destruct dir. Qed.
Lemma reading_sub dir limit rows : reading dir limit rows ⊆ rows.
Proof.
  destruct dir; cbn [reading]; [|done]. generalize (length rows). intros fuel. revert rows.
  induction fuel as [|fuel IH]; intros [|r rows]; cbn [turned]; try set_solver.
  intros x [Hx|Hx]%elem_of_app.
  - apply list_elem_of_In, in_rev, list_elem_of_In in Hx. rewrite <- (take_drop limit (r :: rows)). set_solver.
  - apply IH in Hx. rewrite <- (take_drop limit (r :: rows)). set_solver.
Qed.

Lemma topo_loop_lists s0 fuel u ign room since until limit f dir offset pdus s out s' :
  browse s0 s -> let all := topo_rows s0 room dir since until f in
  (0 < limit)%nat -> (length pdus <= limit)%nat ->
  topo_loop st_out_of_fuel fuel u ign room since until limit f dir offset pdus s = (Done out, s') ->
  lists (sees u ign) limit (reading dir limit (drop offset all)) pdus s out s'.
Proof.
  intros B all Hlim. revert offset pdus s B. induction fuel as [|fuel IH]; intros offset pdus s B Hle H;
    cbn [topo_loop] in H; [discriminate|].
  destruct (Nat.ltb_spec (length pdus) limit) as [Hlt|Hge]; cbn [negb] in H.
  2: { injection H as <- <-. apply lists_full. lia. }
  rewrite st_gets_bind, (topo_rows_browse s0 s) in H by done.
  fold all in H. set (rest := drop offset all) in *. destruct (take limit rest) as [|r0 page0] eqn:Hpage.
  { injection H as <- <-. destruct rest; [|destruct limit; [lia|discriminate]]. rewrite reading_nil. by apply lists_nil. }
  rewrite <- Hpage in H. apply bind_St in H as (mid & s1 & H1 & H).
  pose proof (keeps_run browse _ _ _ _ (browse_list_page _ limit _ pdus (browse_sees u ign)) H1) as B1.
  apply list_page_lists in H1; [|done]. rewrite reading_page by done. eapply lists_more; [exact H1|].
  assert (length mid <= limit)%nat as Hmid by (destruct H1 as (? & ? & ? & _ & _ & _ & ? & _); done).
  destruct (Nat.ltb_spec (length (take limit rest)) limit) as [Hs|Hs].
  - injection H as <- <-. rewrite length_take in Hs. rewrite drop_ge, reading_nil by lia.
    destruct (Nat.ltb_spec (length mid) limit); [by apply lists_nil|done].
  - rewrite length_take in H, Hs. replace (limit `min` length rest)%nat with limit in H by lia.
    destruct (Nat.ltb_spec (length mid) limit) as [Hm|Hm].
    + unfold rest. rewrite drop_drop. apply (IH _ _ s1); [by transitivity s|done..].
    + destruct fuel; cbn [topo_loop] in H; [discriminate|].
      rewrite (proj2 (Nat.ltb_ge _ _) Hm) in H. by injection H as <- <-.
Qed.

(** The loop ends: whatever it would do without fuel. *)
Lemma topo_loop_stuck stuck stuck' s0 fuel fuel' u ign room since until limit f dir offset pdus s :
  browse s0 s -> let rest := length (drop offset (topo_rows s0 room dir since until f)) in
  (rest < fuel)%nat -> (rest < fuel')%nat ->
  topo_loop stuck fuel u ign room since until limit f dir offset pdus s
  = topo_loop stuck' fuel' u ign room since until limit f dir offset pdus s.
Proof.
  intros B. revert fuel' offset pdus s B. induction fuel as [|fuel IH]; intros [|fuel'] offset pdus s B rest Hf Hf'; try lia.
  cbn [topo_loop]. destruct (Nat.ltb_spec (length pdus) limit) as [Hlt|]; cbn [negb]; [|done].
  rewrite !st_gets_bind, (topo_rows_browse s0 s) by done. set (page := take limit _).
  destruct page as [|r0 page0] eqn:Hpage; [done|]. rewrite <- Hpage.
  apply st_bind_ext; [done|]. intros mid s1 H1.
  pose proof (keeps_run browse _ _ _ _ (browse_list_page _ limit _ pdus (browse_sees u ign)) H1) as B1.
  destruct (Nat.ltb_spec (length page) limit); [done|]. apply IH; [by transitivity s| |];
    unfold rest in *; rewrite !length_drop in *; assert (length page <> 0)%nat by (rewrite Hpage; done);
    unfold page in *; rewrite length_take, length_drop in *; lia.
Qed.

(** ** What is shown *)

(** An event as a user gets it: but for [age], [membership] and the transaction ID, which
    is for its sender only, it is the stored one. *)
Record presented (user_id : string) p (q : StoredPdu) : Prop := {
  pr_same : exists u, q = set_unsigned u p;
  pr_transaction : sender (inner p) <> user_id -> bt_get "transaction_id" (unsigned (inner q)) = None;
  pr_unsigned k : k <> "age" -> k <> "membership" -> k <> "transaction_id" ->
    bt_get k (unsigned (inner q)) = bt_get k (unsigned (inner p))
}.
(** What a user gets of a row whose turn comes in the store [s], where [can_see] decides
    what they may see, and the store after it. *)
Inductive verdict (can_see : StoredPdu -> string -> Db bool) (user_id : string) (ignored : list string) r s :
    option (Z * StoredPdu) -> Store -> Prop :=
| unreadable e : load_pdu s r.1 = Err e -> verdict can_see user_id ignored r s None s
| unseen p s' : load_pdu s r.1 = Ok p -> can_see p user_id s = (Done false, s') ->
    verdict can_see user_id ignored r s None s'
| unwanted p s' : load_pdu s r.1 = Ok p -> can_see p user_id s = (Done true, s') ->
    is_ignored_pdu (inner p) ignored = true -> verdict can_see user_id ignored r s None s'
| shown p p1 q s1 s2 s' : load_pdu s r.1 = Ok p -> can_see p user_id s = (Done true, s1) ->
    is_ignored_pdu (inner p) ignored = false ->
    add_unsigned_membership user_id (if sender (inner p) =? user_id then p else remove_transaction_id p) s1 = (Done p1, s2) ->
    add_age p1 s2 = (Done q, s') -> presented user_id p q ->
    verdict can_see user_id ignored r s (Some (er_sn r.2, q)) s'.
(** The verdicts on the rows, one after the other. *)
Definition verdicts can_see (user_id : string) (ignored : list string) :=
  in_turn (verdict can_see user_id ignored).

Lemma load_pdu_unsigned s id p : load_pdu s id = Ok p -> bt_wf (unsigned (inner p)).
Proof.
  unfold load_pdu. destruct (rows s !! id); [|discriminate]. destruct (datas s !! id) as [d|]; [|discriminate].
  destruct (pdu_from_json_value _ _ _) as [q|] eqn:Hq; [|discriminate]. intros [= <-]. cbn.
  unfold pdu_from_json_value in Hq. destruct (ed_json d) as [| | | | |m]; try discriminate. unfold de_pdu in Hq.
  do 11 (apply bind_Some in Hq as (? & _ & Hq)). apply bind_Some in Hq as (u & Hu & Hq).
  do 2 (apply bind_Some in Hq as (? & _ & Hq)). injection Hq as <-. cbn. unfold field_default in Hu.
  destruct (bt_get "unsigned" _) as [j|]; [|injection Hu as <-; constructor].
  destruct j; cbn in Hu; try discriminate; injection Hu as <-; apply bt_from_list_wf.
Qed.
Lemma add_age_run p s q s' : add_age p s = (Done q, s') -> exists v, q = set_unsigned (bt_insert "age" v (unsigned (inner p))) p.
Proof. unfold add_age. intros H. apply bind_St in H as (now & s1 & _ & H). injection H as <- _. eauto. Qed.
Lemma add_membership_run u p s q s' :
  add_unsigned_membership u p s = (Done q, s') ->
  exists v, q = set_unsigned (bt_insert "membership" v (unsigned (inner p))) p.
Proof. unfold add_unsigned_membership. intros H. apply bind_St in H as (m & s1 & _ & H). injection H as <- _. eauto. Qed.

Lemma show_verdict can_see u ign r s o s' : takes (show_pdu can_see (Some u) ign) r s o s' -> verdict can_see u ign r s o s'.
Proof.
  unfold takes. destruct (load_pdu s r.1) as [p|e] eqn:Hl; [|intros [-> ->]; by apply (unreadable _ _ _ _ _ e)].
  intros (q & H & ->). unfold show_pdu in H. apply bind_St in H as (visible & s3 & H1 & H).
  destruct visible; cbn [negb] in H; [|injection H as <- <-; by apply (unseen _ _ _ _ _ p)].
  destruct (is_ignored_pdu (inner p) ign) eqn:Hi; [injection H as <- <-; by apply (unwanted _ _ _ _ _ p)|].
  cbn zeta in H. apply bind_St in H as (p1 & s4 & H2 & H). apply bind_St in H as (p2 & s5 & H3 & H).
  injection H as <- <-. apply (shown _ _ _ _ _ p p1 p2 s3 s4); try done.
  apply add_membership_run in H2 as [m ->]. apply add_age_run in H3 as [a ->]. apply load_pdu_unsigned in Hl.
  destruct (String.eqb_spec (sender (inner p)) u) as [Hs|Hs]; split; cbn.
  - by eexists.
  - done.
  - intros k H1' H2' H3'. rewrite !bt_get_insert by auto using bt_insert_wf.
    by rewrite (proj2 (String.eqb_neq _ _) H1'), (proj2 (String.eqb_neq _ _) H2').
  - by eexists.
  - intros _. rewrite !bt_get_insert, bt_get_remove by auto using bt_insert_wf, bt_remove_wf. done.
  - intros k H1' H2' H3'. rewrite !bt_get_insert, bt_get_remove by auto using bt_insert_wf, bt_remove_wf.
    by rewrite (proj2 (String.eqb_neq _ _) H1'), (proj2 (String.eqb_neq _ _) H2'), (proj2 (String.eqb_neq _ _) H3').
Qed.

(** ** The rows of a room *)

(** The rows of a room agree with the stored events; no two share a number or a place in
    the stream; and among those of equal depth the times do not go against the stream. *)
Record orderly s (room : string) : Prop := {
  od_row : map_Forall (fun id row => er_room_id row = room -> match load_pdu s id with
      | Ok p => sn p = er_sn row /\ er_topological_ordering row = as_i64 (depth (inner p)) /\
                er_stream_ordering row = (if is_backfill p then - sn p else sn p)%Z
      | Err _ => True end) (rows s);
  od_distinct : map_Forall (fun id x => map_Forall (fun id' y =>
      er_room_id x = room -> er_room_id y = room ->
      er_sn x = er_sn y \/ er_stream_ordering x = er_stream_ordering y -> id = id') (rows s)) (rows s);
  od_times : map_Forall (fun _ x => map_Forall (fun _ y =>
      er_room_id x = room -> er_room_id y = room -> er_topological_ordering x = er_topological_ordering y ->
      (er_origin_server_ts x < er_origin_server_ts y -> er_stream_ordering x < er_stream_ordering y)%Z)
      (rows s)) (rows s)
}.

Lemma orderly_browse s s' room : browse s s' -> orderly s room -> orderly s' room.
Proof.
  intros B [H1 H2 H3]. pose proof (br_rows _ _ B) as Hr. split; rewrite Hr; [|done..].
  intros id row Hrow Hroom. rewrite (load_pdu_browse s s') by done. by apply H1.
Qed.
Lemma elem_of_matching s room keep id row :
  (id, row) ∈ matching_rows s room keep <-> rows s !! id = Some row /\ er_room_id row = room /\ keep row = true.
Proof.
  unfold matching_rows. rewrite list_elem_of_In, filter_In, <- list_elem_of_In, elem_of_iter_map. cbn.
  by rewrite andb_true_iff, String.eqb_eq.
Qed.
Lemma matching_and s room k1 k2 :
  matching_rows s room (fun row => k1 row && k2 row) = List.filter (fun r => k1 r.2) (matching_rows s room k2).
Proof.
  unfold matching_rows. induction (iter_map (rows s)) as [|x l IH]; [done|]. cbn. rewrite IH.
  destruct (er_room_id x.2 =? room); [|done]. cbn. destruct (k2 x.2); cbn; [|by rewrite andb_false_r].
  by destruct (k1 x.2).
Qed.
Lemma matching_ext s room k1 k2 :
  (forall id row, rows s !! id = Some row -> er_room_id row = room -> k1 row = k2 row) ->
  matching_rows s room k1 = matching_rows s room k2.
Proof.
  intros H. unfold matching_rows. apply filter_ext_in. intros [id row] Hin%list_elem_of_In%elem_of_iter_map. cbn.
  destruct (String.eqb_spec (er_room_id row) room); [|done]. by rewrite (H id row).
Qed.

Lemma NoDup_matching s room keep : NoDup (matching_rows s room keep).
Proof.
  unfold matching_rows. assert (NoDup (iter_map (rows s))) as H.
  { apply (NoDup_fmap_1 fst). exact (NoDup_iter_keys (rows s)). }
  induction H as [|x l Hx _ IH]; cbn; [constructor|]. destruct (_ && _); [|done]. constructor; [|done].
  intros Hin%list_elem_of_In%filter_In. apply Hx, list_elem_of_In. tauto.
Qed.
Lemma matching_distinct s room keep x y :
  orderly s room -> x ∈ matching_rows s room keep -> y ∈ matching_rows s room keep ->
  er_sn x.2 = er_sn y.2 \/ er_stream_ordering x.2 = er_stream_ordering y.2 -> x = y.
Proof.
  intros Ho. destruct x as [i x], y as [j y]. rewrite !elem_of_matching. intros (Hx & Rx & _) (Hy & Ry & _) H.
  assert (i = j) as -> by exact (od_distinct _ _ Ho i x Hx j y Hy Rx Ry H). congruence.
Qed.
Lemma NoDup_topo_sns s room dir since until f : orderly s room -> NoDup (sns (topo_rows s room dir since until f)).
Proof.
  intros Ho. unfold sns, topo_rows. rewrite sort_by_key_Permutation by (destruct dir; apply _).
  apply NoDup_fmap_2_strong; [|apply NoDup_matching]. intros x y Hx Hy H. eapply matching_distinct; eauto.
Qed.

Lemma topo_lt_iff (x y : EventRow) :
  topo_compare (topo_key x) (topo_key y) = Lt <->
  (er_topological_ordering x < er_topological_ordering y \/
   er_topological_ordering x = er_topological_ordering y /\
   (er_origin_server_ts x < er_origin_server_ts y \/
    er_origin_server_ts x = er_origin_server_ts y /\ er_stream_ordering x < er_stream_ordering y))%Z.
Proof.
  unfold topo_compare, pair_cmp, then_cmp, topo_key. cbn.
  destruct (Z.compare_spec (er_topological_ordering x) (er_topological_ordering y)); [|naive_solver lia..].
  destruct (Z.compare_spec (er_origin_server_ts x) (er_origin_server_ts y)); [|naive_solver lia..].
  destruct (Z.compare_spec (er_stream_ordering x) (er_stream_ordering y)); naive_solver lia.
Qed.
#[global] Instance topo_total_cmp : TotalCmp topo_compare.
Proof. unfold topo_compare. apply _. Qed.

(** A token that does not cut the room by its stream. *)
Definition from_topology s (room : string) (since : BatchToken) : Prop :=
  match since with
  | Live n => map_Forall (fun _ row => er_room_id row = room -> (er_stream_ordering row <= n)%Z) (rows s)
  | Historic _ _ => True
  end.

(** The token of an event leads to the rows before it. *)
Lemma token_before s room id row p x :
  orderly s room -> rows s !! id = Some row -> er_room_id row = room -> load_pdu s id = Ok p ->
  at_or_before (prev_historic_token p) x = true <->
  (er_topological_ordering x < er_topological_ordering row \/
   er_topological_ordering x = er_topological_ordering row /\ er_stream_ordering x < er_stream_ordering row)%Z.
Proof.
  intros Ho Hr Rr Hl. pose proof (od_row _ _ Ho _ _ Hr Rr) as H. cbn in H. rewrite Hl in H. destruct H as (H1 & H2 & H3).
  unfold prev_historic_token, at_or_before. rewrite <- H2, orb_true_iff, andb_true_iff, Z.ltb_lt, Z.eqb_eq, Z.leb_le.
  destruct (is_backfill p); rewrite H3; intuition lia.
Qed.
Lemma topo_before s room i x j y :
  orderly s room -> rows s !! i = Some x -> er_room_id x = room -> rows s !! j = Some y -> er_room_id y = room ->
  (er_topological_ordering x < er_topological_ordering y \/
   er_topological_ordering x = er_topological_ordering y /\ er_stream_ordering x < er_stream_ordering y)%Z
  <-> topo_compare (topo_key x) (topo_key y) = Lt.
Proof.
  intros Ho Hx Rx Hy Ry. rewrite topo_lt_iff. pose proof (od_times _ _ Ho _ _ Hy _ _ Hx Ry Rx).
  pose proof (od_times _ _ Ho _ _ Hx _ _ Hy Rx Ry). intuition lia.
Qed.
Lemma next_rows s room since until f before r after p :
  orderly s room -> from_topology s room since -> load_pdu s r.1 = Ok p ->
  topo_rows s room Backward (Some since) until f = (before ++ r :: after)%list ->
  topo_rows s room Backward (Some (prev_historic_token p)) until f = after.
Proof.
  intros Ho Hs Hl Hall. set (keep := fun row => in_window Backward (Some since) until row && opt_filter f row).
  assert (forall x, x ∈ (before ++ r :: after)%list -> x ∈ matching_rows s room keep) as Hin.
  { intros x. rewrite <- Hall. unfold topo_rows. by rewrite sort_by_key_Permutation by apply _. }
  pose proof (Hin r ltac:(set_solver)) as Hr. destruct r as [id row].
  apply elem_of_matching in Hr as (Hr & Rr & Kr).
  assert (forall x, x ∈ matching_rows s room keep ->
    at_or_before (prev_historic_token p) x.2 = true <-> rev_cmp topo_compare (topo_key row) (topo_key x.2) = Lt) as HP.
  { intros [i x] (Hx & Rx & _)%elem_of_matching. rewrite (token_before s room id row p) by done.
    by apply (topo_before s room i x id row). }
  transitivity (List.filter (fun r => at_or_before (prev_historic_token p) r.2) (before ++ (id, row) :: after)).
  - rewrite <- Hall. unfold topo_rows. rewrite <- sort_filter by (try apply _; intros x y Hx Hy [= _ _ E]; eapply matching_distinct; eauto).
    rewrite <- matching_and. f_equal. apply matching_ext. intros i x Hx Rx. cbn [in_window opt_bound].
    destruct (at_or_before (prev_historic_token p) x) eqn:Hb; [|done]. cbn.
    replace (at_or_before since x) with true; [done|]. symmetry.
    apply (token_before s room id row p) in Hb; [|done..].
    unfold keep, in_window in Kr. apply andb_true_iff in Kr as [[Kr _]%andb_true_iff _]. cbn [opt_bound] in Kr.
    destruct since as [n|n tp]; cbn in Hs, Kr |- *; [apply Z.leb_le; by apply (Hs i x)|].
    rewrite orb_true_iff, andb_true_iff, Z.ltb_lt, Z.eqb_eq, Z.leb_le in Kr |- *. intuition lia.
  - apply (sorted_after (rev_cmp topo_compare) (fun r => topo_key r.2)).
    + rewrite <- Hall. apply sort_by_key_sorted. apply _.
    + intros x Hx. by apply HP, Hin.
    + intros x Hx [= _ _ E]. assert (x = (id, row)) as -> by (eapply matching_distinct; eauto; apply Hin; set_solver).
      assert (NoDup (before ++ (id, row) :: after)) as Hnd.
      { rewrite <- Hall. unfold topo_rows. rewrite sort_by_key_Permutation by apply _. apply NoDup_matching. }
      apply NoDup_app in Hnd as (_ & _ & Hnd). by apply NoDup_cons in Hnd as [? _].
Qed.

(** A page for a user: the rows of the query are looked at in order, from the store after
    the ignored users were asked for, and those that are shown go into the list, all of
    them or [limit]. *)
Definition page_shown (user_id room : string) since until (limit : nat) f dir s (pdus : list (Z * StoredPdu)) s' : Prop :=
  exists ignored s1 read after os,
    ignored_users user_id s = (Done ignored, s1) /\
    reading dir limit (topo_rows s room dir since until f) = (read ++ after)%list /\
    verdicts user_can_see user_id ignored s1 read os s' /\ pdus = collect [] os /\
    (length pdus <= limit)%nat /\ (after = [] \/ length pdus = limit).
Lemma load_page_shown fuel user_id room since until limit f dir s pdus s' :
  topo_load_pdus st_out_of_fuel fuel (Some user_id) room since until limit f dir s = (Done pdus, s') ->
  page_shown user_id room since until limit f dir s pdus s' /\ browse s s'.
Proof.
  unfold topo_load_pdus. intros H. apply bind_St in H as (ign & s1 & H1 & H). cbn [ignored_by] in H1.
  pose proof (keeps_run browse _ _ _ _ (browse_ignored_by (Some user_id)) H1) as B1.
  pose proof (keeps_run browse _ _ _ _ (browse_topo_loop _ _ _ _ _ _ _ _ _ _ _) H) as B2.
  split; [|by transitivity s1]. destruct (Nat.eq_dec limit 0) as [->|Hlim].
  { destruct fuel; [discriminate|]. cbn in H. injection H as <- <-.
    eexists ign, s1, [], _, []. repeat (split; [done || constructor|]). by right. }
  apply (topo_loop_lists s1) in H as (read & after & os & Hall & Hos & -> & Hl); [|done|lia|cbn; lia].
  rewrite drop_0, (topo_rows_browse s s1) in Hall by done.
  exists ign, s1, read, after, os. repeat (split; [done|]). split; [|done].
  eapply in_turn_mono; [|exact Hos]. intros. by apply show_verdict.
Qed.
Lemma verdict_sn can_see u ign r s e s' : verdict can_see u ign r s (Some e) s' -> e.1 = er_sn r.2.
Proof. by inversion 1. Qed.
Lemma verdicts_fresh can_see u ign s rows os s' :
  verdicts can_see u ign s rows os s' -> NoDup (sns rows) -> collect [] os = omap id os.
Proof. intros H Hnd. apply (collect_fresh _ _ _ _ _ [] (verdict_sn can_see u ign) H Hnd). Qed.
Lemma browse_add_membership u p : keeps (browse (O := O)) (add_unsigned_membership u p).
Proof. unfold add_unsigned_membership, user_membership, get_frame_state. keeps_auto. Qed.
Lemma browse_add_age p : keeps (browse (O := O)) (add_age p).
Proof. unfold add_age. keeps_auto. Qed.
Lemma verdicts_browse can_see u ign s rows os s' :
  (forall p u, keeps (browse (O := O)) (can_see p u)) -> verdicts can_see u ign s rows os s' -> browse s s'.
Proof.
  intros Hc. induction 1 as [s|s r o s1 rows os s' Hv _ IH]; [done|]. transitivity s1; [|done]. destruct Hv.
  - done.
  - by eapply keeps_run; [apply Hc|].
  - by eapply keeps_run; [apply Hc|].
  - etrans; [by eapply keeps_run; [apply Hc|]|]. etrans; [by eapply keeps_run; [apply browse_add_membership|]|].
    by eapply keeps_run; [apply browse_add_age|].
Qed.
(** The entries of a page are rows that were shown. *)
Lemma elem_of_index_insert k (v : StoredPdu) l e : e ∈ index_insert k v l -> e = (k, v) \/ e ∈ l.
Proof. induction l as [|[k' v'] l IH]; cbn; [set_solver|]. destruct (Z.eqb k k'); set_solver. Qed.
Lemma elem_of_collect pdus os e : e ∈ collect pdus os -> e ∈ pdus \/ Some e ∈ os.
Proof.
  revert pdus. induction os as [|[o|] os IH]; intros pdus; cbn; [by left| |].
  - intros [[->|?]%elem_of_index_insert|?]%IH; [right; destruct o; by left|by left|right; by right].
  - intros [?|?]%IH; [by left|right; by right].
Qed.


(** C32: The loop of a page ends, in either direction: with more turns than there are rows its
    fuel does not run out, whatever it would do then. *)
Theorem page_ends stuck fuel user_id room since until limit f dir s :
  (size (rows s) < fuel)%nat ->
  topo_load_pdus stuck fuel user_id room since until limit f dir s
  = topo_load_pdus st_out_of_fuel fuel user_id room since until limit f dir s.
Proof.
  intros Hf. unfold topo_load_pdus. apply st_bind_ext; [done|]. intros ign s1 H1.
  pose proof (keeps_run browse _ _ _ _ (browse_ignored_by user_id) H1) as B1.
  assert (length (topo_rows s1 room dir since until f) <= size (rows s))%nat as Hlen.
  { unfold topo_rows. rewrite sort_by_key_Permutation, (matching_rows_browse s s1) by done. unfold matching_rows.
    etrans; [apply filter_length_le|]. unfold iter_map. by rewrite hash_perm_ok, length_map_to_list. }
  apply (topo_loop_stuck _ _ s1); [done|rewrite drop_0; lia..].
Qed.

(** ** Reading forwards *)

(** Every event in a page, whichever the direction, is of the window. *)
Lemma page_listed fuel user_id room since until limit f dir s pdus s' :
  topo_load_pdus st_out_of_fuel fuel (Some user_id) room since until limit f dir s = (Done pdus, s') ->
  browse s s' /\
  forall e, e ∈ pdus -> exists r p, r ∈ topo_rows s room dir since until f /\ load_pdu s r.1 = Ok p /\
    e.1 = er_sn r.2 /\ exists u, e.2 = set_unsigned u p.
Proof.
  intros H. apply load_page_shown in H as [(ign & s1 & read & after & os & H1 & Hall & Hv & -> & Hlen & _) B].
  split; [done|]. intros e [He|He]%elem_of_collect; [by apply not_elem_of_nil in He|].
  pose proof (keeps_run browse _ _ _ _ (browse_ignored_by (Some user_id)) H1) as B1.
  apply list_elem_of_split in He as (os1 & os2 & ->). apply in_turn_split in Hv as (rows1 & r & rows2 & sa & sb & -> & _ & Hb & Hr & _).
  inversion Hr as [| | |p p1 q sc sd se Hl _ _ _ _ [[un Hq] _ _] He' Hs']; subst e. exists r, p. split.
  { apply (reading_sub dir limit). rewrite Hall. set_solver. }
  split; [|by eauto]. rewrite <- Hl. symmetry. apply load_pdu_browse. transitivity s1; [done|].
  apply (verdicts_browse _ _ _ _ _ _ _ browse_user_can_see Hb).
Qed.

(** A room without backfilled events whose topological order is that of the stream. *)
Record linear s (room : string) : Prop := {
  ln_stream : map_Forall (fun _ x => er_room_id x = room -> er_stream_ordering x = er_sn x) (rows s);
  ln_order : map_Forall (fun _ x => map_Forall (fun _ y => er_room_id x = room -> er_room_id y = room ->
    topo_compare (topo_key x) (topo_key y) = Lt -> (er_stream_ordering x < er_stream_ordering y)%Z) (rows s)) (rows s)
}.
Lemma linear_iff s room i x j y :
  orderly s room -> linear s room -> rows s !! i = Some x -> er_room_id x = room -> rows s !! j = Some y ->
  er_room_id y = room -> (er_stream_ordering x <= er_stream_ordering y)%Z <-> cmp_le topo_compare (topo_key x) (topo_key y).
Proof.
  intros Ho Hl Hx Rx Hy Ry. unfold cmp_le. rewrite (cmp_gt_lt topo_compare).
  pose proof (ln_order _ _ Hl _ _ Hy _ _ Hx Ry Rx) as H1. pose proof (ln_order _ _ Hl _ _ Hx _ _ Hy Rx Ry) as H2.
  split; [intros H3 H4; specialize (H1 H4); lia|]. intros Hn.
  destruct (topo_compare (topo_key x) (topo_key y)) eqn:E.
  - apply (cmp_eq topo_compare) in E as [= _ _ ->]. done.
  - specialize (H2 eq_refl). lia.
  - apply (cmp_gt_lt topo_compare) in E. done.
Qed.

Lemma topo_rows_head s room since until f r rest x :
  topo_rows s room Forward since until f = r :: rest -> x ∈ topo_rows s room Forward since until f ->
  cmp_le topo_compare (topo_key r.2) (topo_key x.2).
Proof.
  intros Hall. pose proof (sort_by_key_sorted topo_compare (fun r => topo_key r.2) (matching_rows s room
    (fun row => in_window Forward since until row && opt_filter f row))) as Hsort.
  change (StronglySorted (fun x y => cmp_le topo_compare (topo_key x.2) (topo_key y.2))
            (topo_rows s room Forward since until f)) in Hsort.
  rewrite Hall in Hsort |- *. apply StronglySorted_inv in Hsort as [_ Hsort]. intros Hx.
  apply elem_of_cons in Hx as [->|Hx]; [apply (cmp_le_refl topo_compare)|]. rewrite Forall_forall in Hsort. exact (Hsort _ Hx).
Qed.

(** Where the whole first page of the query is shown, the token of the last event in the
    list, the oldest one, gives the same query. *)
Lemma forward_rows_repeat fuel user_id room since until limit f s pdus s' :
  orderly s room -> linear s room ->
  topo_load_pdus st_out_of_fuel fuel (Some user_id) room (Some since) until limit f Forward s = (Done pdus, s') ->
  let all := topo_rows s room Forward (Some since) until f in
  pdus.*1 = rev (sns (take limit all)) -> pdus <> [] ->
  exists e, last pdus = Some e /\ topo_rows s' room Forward (Some (live_token e.2)) until f = all.
Proof.
  intros Ho Hlin H all Hk Hne. apply page_listed in H as (B2 & Hlisted). fold all in Hlisted.
  destruct (last pdus) as [e|] eqn:He; [|by apply last_None in He]. exists e. split; [done|].
  rewrite (topo_rows_browse s s') by done.
  assert (exists r0 rest, all = r0 :: rest /\ e.1 = er_sn r0.2) as ([id0 row0] & rest & Hall & Hsn).
  { apply (f_equal last) in Hk. rewrite rev_alt in Hk. change (rev_append ?l []) with (reverse l) in Hk.
    rewrite fmap_last, He, last_reverse in Hk. cbn in Hk.
    destruct all as [|r0 rest]; [by destruct limit|]. destruct limit; [done|]. cbn in Hk. injection Hk as ->. eauto. }
  cbn [snd] in Hsn.
  assert (forall x, x ∈ all -> x ∈ matching_rows s room (fun row => in_window Forward (Some since) until row && opt_filter f row)) as Hin.
  { intros x. unfold all, topo_rows. by rewrite sort_by_key_Permutation by apply _. }
  pose proof (Hin (id0, row0) ltac:(rewrite Hall; by left)) as (H0 & R0 & K0)%elem_of_matching.
  apply andb_true_iff in K0 as [[K0 _]%andb_true_iff _]. cbn [opt_bound] in K0.
  assert (live_token e.2 = Live (er_stream_ordering row0)) as ->.
  { destruct (Hlisted e) as (r & p & Hr & Hl & He1 & un & Hq); [by apply last_Some_elem_of|]. destruct r as [i row].
    cbn in Hl, He1. rewrite He1 in Hsn. apply Hin, elem_of_matching in Hr as (Hr & Rr & _).
    pose proof (od_row _ _ Ho _ _ Hr Rr) as Hrow. cbn in Hrow. rewrite Hl in Hrow. destruct Hrow as (H1 & _ & _).
    rewrite (ln_stream _ _ Hlin _ _ H0 R0), <- Hsn, <- H1, Hq. done. }
  unfold all at 1, topo_rows. f_equal. apply matching_ext. intros i x Hx Rx. cbn [in_window opt_bound at_or_after].
  assert ((er_stream_ordering row0 <=? er_stream_ordering x)%Z = true -> at_or_after since x = true) as Hup.
  { rewrite Z.leb_le. intros Hle. destruct since as [n|n tp]; cbn in K0 |- *; [rewrite Z.leb_le in *; lia|].
    pose proof Hle as Hc. apply (linear_iff s room id0 row0 i x) in Hc; [|done..].
    rewrite orb_true_iff, andb_true_iff, Z.ltb_lt, Z.eqb_eq, Z.leb_le in K0 |- *.
    unfold cmp_le in Hc. rewrite (cmp_gt_lt topo_compare), topo_lt_iff in Hc. lia. }
  destruct (er_stream_ordering row0 <=? er_stream_ordering x)%Z eqn:Hle; [by rewrite Hup|]. cbn.
  destruct (at_or_after since x && _ && opt_filter f x) eqn:Hw; [|done]. exfalso.
  assert ((i, x) ∈ all) as Hxin.
  { unfold all, topo_rows. rewrite sort_by_key_Permutation by apply _. by apply elem_of_matching. }
  pose proof (topo_rows_head s room (Some since) until f (id0, row0) rest (i, x) Hall Hxin) as Hc.
  apply (linear_iff s room id0 row0 i x) in Hc; [|done..]. apply Z.leb_gt in Hle. lia.
Qed.
End timeline_spec.
