(* ===== verification/StreamSpec.v ===== *)
(** * Reading a room by its stream

    The events of a backward page of [stream::load_pdus] are the newest ones that may be
    shown; the loop, which starts each page below the last, ends. *)
From stdpp Require Import relations.
From S2P Require Import Prelude RustStr BTree Identifiers RoomVersion Json Canonical Redaction Signatures Events Membership EventAuth TopoSort StateRes Effects StateFrames AuthChain Decimal RoomPowerLevels EventStore AppendPdu Incoming LocalPdu StoreHistory IncomingSpec Visibility VisibilitySpec Timeline TimelineSpec.
Open Scope string_scope.

Lemma list_filter_shorter {A} (P : A -> bool) l x :
  x ∈ l -> P x = false -> (length (List.filter P l) < length l)%nat.
Proof.
  intros Hx HP. induction Hx as [x l|x y l _ IH]; cbn.
  - rewrite HP. pose proof (filter_length_le P l). lia.
  - specialize (IH HP). destruct (P y); cbn; lia.
Qed.

Section stream_spec.
Context {U : Unicode} {C : Crypto} {HO : HashOrder} {WM : WildMatch}.
Context {LF : LruCache Z (list FrameInfo)} {LA : LruCache (list Z) (list Z)}.
Context {O : Type} {SV : Services O}.
#[local] Abbreviation Db := (St (Store (O := O))).
Implicit Types (s : Store (O := O)) (p : StoredPdu) (r : string * EventRow).
Abbreviation seems u ign := (show_pdu seems_visible u ign).

(** ** The pages *)

Lemma stream_rows_browse s s' room dir since until f n :
  browse s s' -> stream_rows s' room dir since until f n = stream_rows s room dir since until f n.
Proof. intros B. unfold stream_rows. by rewrite (matching_rows_browse s s'). Qed.
Lemma browse_seems u ign p : keeps (browse (O := O)) (seems u ign p).
Proof. apply browse_show_pdu, browse_seems_visible. Qed.

Lemma min_sn_cons r page start : min_sn (r :: page) start = Z.min (er_sn r.2) (min_sn page start).
Proof. done. Qed.
Lemma min_sn_le page start : (min_sn page start <= start)%Z.
Proof. induction page as [|r page IH]; [done|]. rewrite min_sn_cons. lia. Qed.
Lemma min_sn_lower page start r : r ∈ page -> (min_sn page start <= er_sn r.2)%Z.
Proof. induction 1; rewrite min_sn_cons; lia. Qed.
Lemma min_sn_attained page start :
  page <> [] -> (forall r, r ∈ page -> (er_sn r.2 < start)%Z) -> exists r, r ∈ page /\ er_sn r.2 = min_sn page start.
Proof.
  induction page as [|r page IH]; intros Hne Hlt; [done|]. rewrite min_sn_cons. destruct page as [|r' page].
  - exists r. split; [by left|]. specialize (Hlt r ltac:(by left)). cbn. lia.
  - destruct IH as (x & Hx & Ex); [done|intros y Hy; apply Hlt; by right|].
    destruct (Z.le_gt_cases (er_sn r.2) (min_sn (r' :: page) start)).
    + exists r. split; [by left|lia].
    + exists x. split; [by right|lia].
Qed.

(** What is matched below a lower bound. *)
Lemma stream_matching s room since until f n m :
  (m <= n)%Z ->
  matching_rows s room (fun row => in_stream_window Backward since until row && opt_filter f row
    && (er_sn row <? m)%Z && negb (er_is_rejected row))
  = List.filter (fun r => er_sn r.2 <? m)%Z
      (matching_rows s room (fun row => in_stream_window Backward since until row && opt_filter f row
         && (er_sn row <? n)%Z && negb (er_is_rejected row))).
Proof.
  intros Hmn. rewrite <- (matching_and s room (fun row => er_sn row <? m)%Z). apply matching_ext. intros id row _ _.
  destruct (Z.ltb_spec (er_sn row) m), (Z.ltb_spec (er_sn row) n); try lia; rewrite ?andb_true_r, ?andb_false_r; done.
Qed.
Lemma elem_of_stream s room since until f n r :
  r ∈ stream_rows s room Backward since until f n -> (er_sn r.2 < n)%Z.
Proof.
  unfold stream_rows. rewrite sort_by_key_Permutation by apply _. destruct r as [id row].
  intros (_ & _ & H)%elem_of_matching. rewrite !andb_true_iff, Z.ltb_lt in H. tauto.
Qed.
Lemma stream_shorter s room since until f n page :
  page <> [] -> page ⊆ stream_rows s room Backward since until f n ->
  (length (stream_rows s room Backward since until f (min_sn page n))
   < length (stream_rows s room Backward since until f n))%nat.
Proof.
  intros Hne Hin. destruct (min_sn_attained page n Hne) as (r & Hr & Er).
  { intros r Hr. by eapply elem_of_stream, Hin. }
  apply Hin in Hr. unfold stream_rows in *. rewrite !sort_by_key_Permutation in * by apply _.
  rewrite (stream_matching s room since until f n) by apply min_sn_le.
  apply (list_filter_shorter _ _ r); [done|]. apply Z.ltb_ge. lia.
Qed.
(** The query below a page gives what comes after it. *)
Lemma stream_next s room since until f n page rest :
  orderly s room -> page <> [] -> stream_rows s room Backward since until f n = (page ++ rest)%list ->
  stream_rows s room Backward since until f (min_sn page n) = rest.
Proof.
  intros Ho Hne Hall. set (m := min_sn page n).
  set (M := matching_rows s room (fun row => in_stream_window Backward since until row && opt_filter f row
              && (er_sn row <? n)%Z && negb (er_is_rejected row))).
  assert (forall x y, x ∈ M -> y ∈ M -> er_sn x.2 = er_sn y.2 -> x = y) as Hinj.
  { intros x y Hx Hy H. eapply matching_distinct; eauto. }
  assert (forall x, x ∈ (page ++ rest)%list -> x ∈ M) as HM.
  { intros x. rewrite <- Hall. unfold stream_rows. by rewrite sort_by_key_Permutation by apply _. }
  transitivity (List.filter (fun r => er_sn r.2 <? m)%Z (page ++ rest)).
  { rewrite <- Hall. unfold stream_rows. rewrite <- sort_filter by (try apply _; exact Hinj).
    f_equal. apply stream_matching, min_sn_le. }
  destruct (exists_last Hne) as (before & r & ->). rewrite <- app_assoc in *. cbn [app] in *.
  pose proof (sort_by_key_sorted (rev_cmp Z.compare) (fun r => er_sn r.2) M) as Hsort.
  change (StronglySorted (fun x y => cmp_le (rev_cmp Z.compare) (er_sn x.2) (er_sn y.2))
            (stream_rows s room Backward since until f n)) in Hsort. rewrite Hall in Hsort.
  assert (m = er_sn r.2) as Hm.
  { unfold m. apply Z.le_antisymm; [apply min_sn_lower; set_solver|].
    destruct (min_sn_attained (before ++ [r]) n) as (x & Hx & <-); [by destruct before| |].
    - intros x Hx. eapply elem_of_stream. rewrite Hall. set_solver.
    - apply elem_of_app in Hx as [Hx|Hx]; [|apply list_elem_of_singleton in Hx; by subst].
      apply StronglySorted_app in Hsort as (Hb & _ & _). specialize (Hb x r Hx ltac:(by left)).
      unfold cmp_le, rev_cmp in Hb. rewrite Z.compare_gt_iff in Hb. lia. }
  apply (sorted_after (rev_cmp Z.compare) (fun r => er_sn r.2)); [done| |].
  - intros x _. rewrite Z.ltb_lt, Hm. unfold rev_cmp. by rewrite Z.compare_lt_iff.
  - intros x Hx E. assert (x = r) as -> by (apply Hinj; [apply HM; set_solver..|done]).
    assert (NoDup (before ++ r :: rest)) as Hnd.
    { rewrite <- Hall. unfold stream_rows. rewrite sort_by_key_Permutation by apply _. apply NoDup_matching. }
    apply NoDup_app in Hnd as (_ & _ & Hnd). by apply NoDup_cons in Hnd as [? _].
Qed.

(** ** The loop *)

Lemma browse_stream_loop fuel u ign room since until limit f dir n offset pdus :
  keeps (browse (O := O)) (stream_loop st_out_of_fuel fuel u ign room since until limit f dir n offset pdus).
Proof.
  revert n offset pdus. induction fuel as [|fuel IH]; intros; cbn [stream_loop]; [intros s; done|].
  assert (forall rows pdus, keeps (browse (O := O)) (list_page (seems u ign) limit rows pdus)) as Hl.
  { intros. apply browse_list_page, browse_seems. }
  cbn zeta. keeps_auto.
Qed.

(** The turns left: the rows not looked at yet. *)
Definition stream_left s room since until f dir (n : Z) (offset : nat) : nat :=
  length (drop offset (stream_rows s room dir since until f n)).
Lemma stream_loop_stuck stuck stuck' s0 fuel fuel' u ign room since until limit f dir n offset pdus s :
  browse s0 s -> (dir = Backward -> offset = 0%nat) -> let left := stream_left s0 room since until f dir n offset in
  (left < fuel)%nat -> (left < fuel')%nat ->
  stream_loop stuck fuel u ign room since until limit f dir n offset pdus s
  = stream_loop stuck' fuel' u ign room since until limit f dir n offset pdus s.
Proof.
  intros B. revert fuel' n offset pdus s B.
  induction fuel as [|fuel IH]; intros [|fuel'] n offset pdus s B Hoff left Hf Hf'; try lia.
  cbn [stream_loop]. destruct (Nat.ltb_spec (length pdus) limit) as [Hlt|]; cbn [negb]; [|done].
  rewrite !st_gets_bind, (stream_rows_browse s0 s) by done. set (page := take limit _).
  destruct page as [|r0 page0] eqn:Hpage; [done|]. rewrite <- Hpage.
  apply st_bind_ext; [done|]. intros mid s1 H1. cbn zeta.
  pose proof (keeps_run browse _ _ _ _ (browse_list_page _ limit _ pdus (browse_seems u ign)) H1) as B1.
  assert (browse s0 s1) as B01 by (by transitivity s). assert (page <> []) as Hne by (by rewrite Hpage).
  unfold left, stream_left in *. destruct dir.
  - destruct (Nat.ltb_spec (length page) limit); [done|]. assert (length page <> 0)%nat by (rewrite Hpage; done).
    apply IH; [done|done| |]; unfold stream_left; unfold page in *; rewrite !length_drop in *;
      rewrite length_take, length_drop in *; lia.
  - rewrite (Hoff eq_refl), drop_0 in *.
    pose proof (stream_shorter s0 room since until f n page Hne) as Hs.
    assert (page ⊆ stream_rows s0 room Backward since until f n) as Hin.
    { intros x Hx. unfold page in Hx. apply elem_of_take in Hx as (i & Hx & _). rewrite lookup_drop in Hx.
      by apply list_elem_of_lookup_2 in Hx. }
    specialize (Hs Hin). apply IH; [done|done| |]; unfold stream_left; rewrite drop_0; lia.
Qed.

(** The loop of [stream::load_pdus] ends, in either direction. *)
Theorem stream_ends stuck fuel user_id room since until limit f dir s :
  (size (rows s) < fuel)%nat ->
  stream_load_pdus stuck fuel user_id room since until limit f dir s
  = stream_load_pdus st_out_of_fuel fuel user_id room since until limit f dir s.
Proof.
  intros Hf. unfold stream_load_pdus. apply st_bind_ext; [done|]. intros ign s1 H1.
  pose proof (keeps_run browse _ _ _ _ (browse_ignored_by user_id) H1) as B1.
  apply st_bind_ext; [done|]. intros n s2 H2.
  assert (browse s1 s2) as B2.
  { eapply keeps_run; [|exact H2]. destruct dir; [apply keeps_ret, _|]. pose proof @browse_call. unfold start_of. keeps_auto. }
  assert (stream_left s2 room since until f dir n 0 <= size (rows s))%nat as Hlen.
  { unfold stream_left. rewrite drop_0. unfold stream_rows. rewrite sort_by_key_Permutation by apply _.
    rewrite (matching_rows_browse s s2) by (by transitivity s1). unfold matching_rows.
    etrans; [apply filter_length_le|]. unfold iter_map. by rewrite hash_perm_ok, length_map_to_list. }
  apply (stream_loop_stuck _ _ s2); [done|done|lia..].
Qed.

Lemma stream_loop_lists s0 fuel u ign room since until limit f n pdus s out s' :
  orderly s0 room -> browse s0 s -> (0 < limit)%nat -> (length pdus <= limit)%nat ->
  stream_loop st_out_of_fuel fuel u ign room since until limit f Backward n 0 pdus s = (Done out, s') ->
  lists (seems u ign) limit (stream_rows s0 room Backward since until f n) pdus s out s'.
Proof.
  intros Ho B Hlim. revert n pdus s B. induction fuel as [|fuel IH]; intros n pdus s B Hle H;
    cbn [stream_loop] in H; [discriminate|].
  destruct (Nat.ltb_spec (length pdus) limit) as [Hlt|Hge]; cbn [negb] in H.
  2: { injection H as <- <-. apply lists_full. lia. }
  rewrite st_gets_bind, (stream_rows_browse s0 s), drop_0 in H by done.
  set (rest := stream_rows s0 room Backward since until f n) in *. destruct (take limit rest) as [|r0 page0] eqn:Hpage.
  { injection H as <- <-. destruct rest; [|destruct limit; [lia|discriminate]]. by apply lists_nil. }
  rewrite <- Hpage in H. apply bind_St in H as (mid & s1 & H1 & H). cbn zeta in H.
  assert (stream_rows s0 room Backward since until f (min_sn (take limit rest) n) = drop limit rest) as Hnext.
  { apply stream_next; [done|by rewrite Hpage|]. by rewrite take_drop. }
  pose proof (keeps_run browse _ _ _ _ (browse_list_page _ limit (take limit rest) pdus (browse_seems u ign)) H1) as B1.
  apply list_page_lists in H1; [|done]. rewrite <- (take_drop limit rest). eapply lists_more; [exact H1|].
  assert (length mid <= limit)%nat as Hmid by (destruct H1 as (? & ? & ? & _ & _ & _ & ? & _); done).
  destruct (Nat.ltb_spec (length mid) limit) as [Hm|Hm].
  - rewrite <- Hnext. apply (IH _ mid s1); [by transitivity s|done..].
  - destruct fuel; cbn [stream_loop] in H; [discriminate|].
    rewrite (proj2 (Nat.ltb_ge _ _) Hm) in H. by injection H as <- <-.
Qed.

(** The rows of the window that were not rejected, the newest first. *)
Definition newest_rows s room since until f : list (string * EventRow) :=
  sort_by_key (rev_cmp Z.compare) (fun r => er_sn r.2) (matching_rows s room (fun row =>
    in_stream_window Backward since until row && opt_filter f row && negb (er_is_rejected row))).
Lemma foldr_max_le n l x : x ∈ n :: l -> (x <= foldr Z.max n l)%Z.
Proof.
  induction l as [|y l IH]; cbn; intros Hx; [set_solver by lia|]. apply elem_of_cons in Hx as [->|Hx].
  - specialize (IH ltac:(by left)). lia.
  - apply elem_of_cons in Hx as [->|Hx]; [lia|]. specialize (IH ltac:(by right)). lia.
Qed.
Lemma stream_rows_newest s room since until f n :
  (forall id row, rows s !! id = Some row -> er_room_id row = room -> (er_sn row < n)%Z) ->
  stream_rows s room Backward since until f n = newest_rows s room since until f.
Proof.
  intros Hn. unfold stream_rows, newest_rows. f_equal. apply matching_ext. intros id row Hr Rr.
  rewrite (proj2 (Z.ltb_lt _ _) (Hn _ _ Hr Rr)), andb_true_r. done.
Qed.

Lemma start_of_above room s n s' :
  start_of room s = (Done n, s') ->
  browse s s' /\ forall id row, rows s !! id = Some row -> er_room_id row = room -> (er_sn row < n)%Z.
Proof.
  unfold start_of. rewrite st_gets_bind. destruct (_ <$> _) as [|m sns] eqn:Hsns; intros H2.
  - split; [eapply keeps_run; [|exact H2]; pose proof @browse_call; keeps_auto|]. intros id row Hr Rr.
    apply fmap_nil_inv in Hsns. assert ((id, row) ∈ matching_rows s room (fun _ => true)) as Hin by (by apply elem_of_matching).
    rewrite Hsns in Hin. set_solver.
  - injection H2 as <- <-. split; [done|]. intros id row Hr Rr. apply Z.lt_succ_r, foldr_max_le. rewrite <- Hsns.
    apply list_elem_of_fmap. exists (id, row). split; [done|by apply elem_of_matching].
Qed.

End stream_spec.
