(* ===== verification/BackfillSpec.v ===== *)
(** * What reading back lets into the timeline

    [/messages] may fetch history from other servers.  Whatever they answer, an event
    enters the timeline only after the checks that any event from another server passes;
    of the page that is answered, only events the user may see are part. *)
From stdpp Require Import relations.
From S2P Require Import Prelude RustStr BTree Identifiers RoomVersion Json Canonical Redaction Signatures Events Membership EventAuth TopoSort StateRes Effects Calls StateFrames AuthChain Decimal RoomPowerLevels EventStore AppendPdu Incoming LocalPdu StoreHistory Admission IncomingSpec Visibility VisibilitySpec Timeline TimelineSpec Backfill.
Open Scope string_scope.

Section backfill_spec.
Context {U : Unicode} {C : Crypto} {HO : HashOrder} {WM : WildMatch}.
Context {LF : LruCache Z (list FrameInfo)} {LA : LruCache (list Z) (list Z)}.
Context {O : Type} {SV : Services O}.
Context (conf : Config).
#[local] Abbreviation Db := (St (Store (O := O))).
Implicit Types (s : Store (O := O)) (p : StoredPdu).

(** ** Reading *)

Lemma quiet_state_event_before p f ty k : keeps (quiet (O := O)) (state_event_before p f ty k).
Proof. unfold state_event_before, found. keeps_auto. Qed.
Lemma quiet_get_member_content q : keeps (quiet (O := O)) (get_member_content q).
Proof. intros s. unfold get_member_content. by case_match. Qed.
#[local] Hint Resolve quiet_state_event_before quiet_get_member_content : keeps.
Lemma quiet_user_can_see p u : keeps (quiet (O := O)) (user_can_see p u).
Proof.
  unfold user_can_see, joined_after, visibility_frame, history_visibility_before, user_membership_before, found.
  cbn zeta. keeps_auto.
Qed.
Lemma quiet_get_frame_id_at room n : keeps (quiet (O := O)) (get_frame_id_at room n).
Proof. intros s. unfold get_frame_id_at. by repeat case_match. Qed.
#[local] Hint Resolve quiet_user_can_see quiet_get_frame_id_at : keeps.
Lemma quiet_sees u ign p : keeps (quiet (O := O)) (show_pdu user_can_see u ign p).
Proof. unfold show_pdu, add_age, add_unsigned_membership, user_membership. cbn zeta. keeps_auto. Qed.
#[local] Hint Resolve quiet_sees : keeps.
Lemma quiet_list_page u ign limit rows pdus : keeps (quiet (O := O)) (list_page (show_pdu user_can_see u ign) limit rows pdus).
Proof. revert pdus. induction rows as [|[id row] rows IH]; intros pdus; cbn [list_page]; cbn zeta; keeps_auto. Qed.
#[local] Hint Resolve quiet_list_page : keeps.
Lemma quiet_topo_load fuel u room since until limit f dir :
  keeps (quiet (O := O)) (topo_load_pdus st_out_of_fuel fuel u room since until limit f dir).
Proof.
  unfold topo_load_pdus, ignored_by, ignored_users. apply keeps_bind; [apply _|keeps_auto|]. intros ign.
  generalize 0%nat, (@nil (Z * StoredPdu)). induction fuel as [|fuel IH]; intros offset pdus; cbn [topo_loop]; keeps_auto.
Qed.
#[local] Hint Resolve quiet_topo_load : keeps.

(** ** Storing what was sent *)

Lemma quiet_backfill_pdu rs room rv j : keeps (quiet (O := O)) (backfill_pdu conf rs room rv j).
Proof. unfold backfill_pdu. keeps_auto. Qed.
#[local] Hint Resolve quiet_backfill_pdu : keeps.

Lemma quiet_save_pdus rs room rv pdus : keeps (quiet (O := O)) (save_pdus conf rs room rv pdus).
Proof. induction pdus; cbn [save_pdus]; keeps_auto. Qed.
#[local] Hint Resolve quiet_save_pdus : keeps.

(** ** Taking in what was stored *)

#[local] Abbreviation quiet_tree t := (acts_keep (V := TimelineCall) (quiet (O := O)) t).
#[local] Hint Resolve quiet_try_timeline : keeps.
Lemma quiet_fill_pdus rs saved : quiet_tree (fill_pdus rs saved).
Proof. induction saved as [|[p c] saved IH]; cbn [fill_pdus]; acts_auto. Qed.
#[local] Hint Resolve quiet_fill_pdus : keeps.
Lemma quiet_backfill_from_servers servers room rv exts : quiet_tree (backfill_from_servers conf servers room rv exts).
Proof. induction servers as [|server servers IH]; cbn [backfill_from_servers]; acts_auto. Qed.
#[local] Hint Resolve quiet_backfill_from_servers : keeps.
Lemma quiet_admin_servers room : keeps (quiet (O := O)) (admin_servers conf room).
Proof.
  unfold admin_servers. apply keeps_bind; [apply _|keeps_auto|]. intros pl.
  apply keeps_bind; [apply _| |intros ?; apply keeps_ret, _].
  induction (map_to_list (c_users pl)) as [|[u l] us IH]; cbn [servers_of]; keeps_auto.
Qed.
#[local] Hint Resolve quiet_admin_servers : keeps.
Lemma quiet_backfill_if_required room pdus limit : quiet_tree (backfill_if_required conf room pdus limit).
Proof. unfold backfill_if_required, backfill_from_extremities. cbn zeta. acts_auto. Qed.
#[local] Hint Resolve quiet_backfill_if_required : keeps.
Lemma quiet_messages_page fuel u room from until limit f dir :
  quiet_tree (messages_page conf st_out_of_fuel fuel u room from until limit f dir).
Proof. unfold messages_page, trim_pdus_until_backfill_gap. cbn zeta. acts_auto. Qed.
#[local] Hint Resolve quiet_messages_page : keeps.
Lemma quiet_messages fuel u d args : quiet_tree (messages conf st_out_of_fuel fuel u d args).
Proof.
  unfold messages, messages_allowed, parse_token, lazy_load_confirm_delivery, to_room_event, lazy_state. cbn zeta. acts_auto.
Qed.


(** ** What is disclosed *)

(** The page of a request and the store after it.  Forwards it is the page of the query in
    the store [s].  Backwards, other servers are asked if the page calls for it; where they
    gave something, it is the page of the query in the store after that, up to the first
    event with a gap below it. *)
Inductive answers (user_id room : string) from until (limit : nat) f s : Direction -> list (Z * StoredPdu) -> Store -> Prop :=
| answers_forward events s' :
    page_shown user_id room (Some from) until limit (Some f) Forward s events s' ->
    answers user_id room from until limit f s Forward events s'
| answers_known events s1 s' :
    page_shown user_id room (Some from) until limit (Some f) Backward s events s1 ->
    run (enter conf) (backfill_if_required conf room events limit) s1 = (Done [], s') ->
    answers user_id room from until limit f s Backward events s'
| answers_filled first s1 filled s2 events s' :
    page_shown user_id room (Some from) until limit (Some f) Backward s first s1 ->
    run (enter conf) (backfill_if_required conf room first limit) s1 = (Done filled, s2) -> filled <> [] ->
    page_shown user_id room (Some from) until limit (Some f) Backward s2 events s' ->
    answers user_id room from until limit f s Backward (trim_page s' events) s'.
Lemma messages_page_answers fuel u room from until limit f dir s events next s' :
  run (enter conf) (messages_page conf st_out_of_fuel fuel u room from until limit f dir) s = (Done (events, next), s') ->
  answers u room from until limit f s dir events s'.
Proof.
  unfold messages_page. cbn zeta. intros H. destruct dir.
  { apply bind_St in H as (pdus & s1 & H1 & H). injection H as <- _ <-.
    apply answers_forward. by apply load_page_shown in H1 as [? _]. }
  apply bind_St in H as (pdus & s1 & H1 & H). apply load_page_shown in H1 as [H1 _].
  apply bind_St in H as (fl & s2 & H2 & H). apply bind_St in H as (pdus' & s3 & H3 & H). injection H as <- _ <-.
  destruct fl as [|x fl]; [injection H3 as <- <-; by apply (answers_known _ _ _ _ _ _ _ _ s1)|].
  apply bind_St in H3 as (pdus2 & s4 & H4 & H3). injection H3 as <- <-. apply load_page_shown in H4 as [H4 _].
  by apply (answers_filled _ _ _ _ _ _ _ pdus s1 (x :: fl) s2).
Qed.
Lemma room_events_values (events : list (Z * StoredPdu)) s chunk s' :
  st_map (fun e => to_room_event (inner e.2)) events s = (Done chunk, s') ->
  Forall2 (fun e j => exists age, (0 <= age)%Z /\ j = room_event_value (inner e.2) age) events chunk.
Proof.
  revert s chunk. induction events as [|e events IH]; intros s chunk H; cbn in H; [injection H as <- _; constructor|].
  apply bind_St in H as (j & s1 & H1 & H). apply bind_St in H as (bs & s2 & H2 & H). injection H as <- <-.
  constructor; [|by apply (IH s1)]. unfold to_room_event in H1. apply bind_St in H1 as (now & s3 & _ & H1).
  injection H1 as <- _. eexists. split; [|done]. lia.
Qed.

(** The token a client sent. *)
Definition reads_as (sent : option string) (tk : option BatchToken) : Prop :=
  match sent with Some t => exists k, tk = Some k /\ token_from_str t = Ok k | None => tk = None end.
Lemma parse_token_reads sent s tk s' : parse_token sent s = (Done tk, s') -> s' = s /\ reads_as sent tk.
Proof.
  destruct sent as [t|]; cbn; intros H; [|by injection H]. apply bind_St in H as (k & s1 & H1 & H).
  apply of_res_done in H1 as [H1 ->]. injection H as <- <-. split; [done|]. by exists k.
Qed.

(** C6: [get_messages] answers only to a user that is in the room, or that left it and has not
    forgotten it.  The answer has, in order, the events of the page of the query: the rows of
    the room in the window asked for and with the properties asked for are looked at one
    after the other, each judged in the store that judging the one before it has left, and
    those that can be read, that the user may see and does not ignore are part of the page,
    all of them or as many as asked for.  Where other servers gave history, the page is that
    of the store after it was taken in, cut at the first gap.  But for [age], [membership]
    and the transaction ID, which is for its sender only, each event is as it is stored. *)
Theorem messages_disclosed fuel user_id device_id args s res s' :
  get_messages conf st_out_of_fuel fuel user_id device_id args s = (Done res, s') ->
  exists s1 from until events s2,
    messages_allowed user_id (ma_room_id args) s = (Done tt, s1) /\
    (exists b sj, call (JoinRow user_id (ma_room_id args)) s = (Done b, sj) /\
       (b = true \/ exists sl, call (LeaveRow user_id (ma_room_id args)) sj = (Done (Some false), sl))) /\
    reads_as (ma_from args) from /\ reads_as (ma_to args) until /\
    answers user_id (ma_room_id args)
      (default (match ma_dir args with Forward => LIVE_MIN | Backward => LIVE_MAX end) from) until
      (Nat.min (ma_limit args) 1000) (ma_filter args) s1 (ma_dir args) events s2 /\
    Forall2 (fun e j => exists age, (0 <= age)%Z /\ j = room_event_value (inner e.2) age) events (mr_chunk res).
Proof.
  intros H. apply bind_St in H as ([] & s1 & H1 & H). cbn [run] in H1.
  apply bind_St in H as (until & s2 & H2 & H). apply parse_token_reads in H2 as [-> H2].
  apply bind_St in H as (from & s3 & H3 & H). apply parse_token_reads in H3 as [-> H3].
  apply bind_St in H as (u & s3 & H4 & H). injection H4 as _ <-.
  apply bind_St in H as ([events next] & s4 & H4 & H). apply bind_St in H as (chunk & s5 & H5 & H).
  apply bind_St in H as (state & s6 & _ & H). injection H as <- _. cbn [mr_chunk].
  apply messages_page_answers in H4. apply room_events_values in H5.
  exists s1, from, until, events, s4. repeat (split; [done|]). split; [|done].
  unfold messages_allowed in H1. apply bind_St in H1 as (b & s7 & H7 & H1). exists b, s7. split; [done|].
  destruct b; [by left|]. right. apply bind_St in H1 as (fg & s8 & H8 & H1). exists s8. by destruct fg as [[]|].
Qed.

(** ** Paging forwards *)

(** C34: In a room whose rows agree with the stored events ([orderly]), without backfilled
    events and whose topological order is that of the stream ([linear]): where the whole
    first page of the query is shown, the token after a forward page is that of its oldest
    event, the last one in the list, and asking again with it gives the query that was just
    answered. *)
Theorem forward_page_repeats fuel user_id room since until limit f s events next s' :
  orderly s room -> linear s room ->
  run (enter conf) (messages_page conf st_out_of_fuel fuel user_id room since until limit f Forward) s
  = (Done (events, next), s') ->
  let all := topo_rows s room Forward (Some since) until (Some f) in
  events.*1 = rev (sns (take limit all)) -> events <> [] ->
  exists tk, next = Some tk /\ topo_rows s' room Forward (Some tk) until (Some f) = all.
Proof.
  intros Ho Hlin H all Hk Hne. unfold messages_page in H. cbn zeta in H.
  apply bind_St in H as (pdus & s1 & H1 & H). injection H as <- <- <-.
  destruct (forward_rows_repeat _ _ _ _ _ _ _ _ _ _ Ho Hlin H1 Hk Hne) as (e & -> & He). by exists (live_token e.2).
Qed.
End backfill_spec.
