(* ===== verification/TimelineExamples.v ===== *)
(** * Paging through the room

    The room of [DisclosureExamples], read by its creator page by page. *)
From S2P Require Import Prelude RustStr BTree Identifiers RoomVersion Json Canonical Redaction Signatures Events Membership EventAuth TopoSort StateRes Effects StateFrames AuthChain Decimal RoomPowerLevels EventStore Calls AppendPdu Incoming LocalPdu StoreHistory Admission IncomingSpec Visibility VisibilitySpec Timeline TimelineSpec StreamSpec Backfill BackfillSpec IncomingExamples LocalExamples DisclosureExamples.
Open Scope string_scope.

#[local] Existing Instances ascii_unicode toy_crypto forward_order ex_frame_cache ex_chain_cache ex_wild ex_services.

(** ** The rows of the room *)

Definition row_agrees (id : string) (row : EventRow) : bool :=
  match load_pdu ex_now id with
  | Ok p => (sn p =? er_sn row)%Z && (er_topological_ordering row =? as_i64 (depth (inner p)))%Z
            && (er_stream_ordering row =? (if is_backfill p then - sn p else sn p))%Z
  | Err _ => true
  end.
Lemma ex_orderly : orderly ex_now "!r:x".
Proof.
  split.
  - assert (map_Forall (fun id row => row_agrees id row = true) (rows ex_now)) as H.
    { apply (bool_decide_unpack _). vm_compute. exact I. }
    intros id row Hr _. specialize (H id row Hr). unfold row_agrees in H. cbn beta in H |- *.
    destruct (load_pdu ex_now id) as [p|]; [|exact I]. rewrite !andb_true_iff, !Z.eqb_eq in H. tauto.
  - apply (bool_decide_unpack _). vm_compute. exact I.
  - apply (bool_decide_unpack _). vm_compute. exact I.
Qed.
Lemma ex_linear : linear ex_now "!r:x".
Proof. split; apply (bool_decide_unpack _); vm_compute; exact I. Qed.

(** ** Pages *)

Definition ex_page (dir : Direction) (since : BatchToken) (limit : nat) :=
  topo_load_pdus st_out_of_fuel 10 (Some "@a:x") "!r:x" (Some since) None limit None dir.
Definition page_of {S} (r : comp AppError (list (Z * StoredPdu)) * S) : list (Z * StoredPdu) :=
  match fst r with Done l => l | _ => [] end.
Definition is_done {A S} (r : comp AppError A * S) : bool := match fst r with Done _ => true | _ => false end.
Lemma page_of_run {S} (m : St S (list (Z * StoredPdu))) s :
  is_done (m s) = true -> m s = (Done (page_of (m s)), snd (m s)).
Proof. unfold is_done, page_of. by destruct (m s) as [[] ?]. Qed.
Lemma ex_page_run dir since limit s :
  is_done (ex_page dir since limit s) = true ->
  topo_load_pdus st_out_of_fuel 10 (Some "@a:x") "!r:x" (Some since) None limit None dir s
  = (Done (page_of (ex_page dir since limit s)), snd (ex_page dir since limit s)).
Proof. apply page_of_run. Qed.


Lemma page_ends_witness :
  topo_load_pdus st_panic 10 (Some "@a:x") "!r:x" (Some LIVE_MAX) None 1 None Backward ex_now
  = ex_page Backward LIVE_MAX 1 ex_now.
Proof.
  unfold ex_page. apply (page_ends st_panic 10 (Some "@a:x") "!r:x" (Some LIVE_MAX) None 1 None Backward ex_now).
  apply Nat.ltb_lt. vm_compute. reflexivity.
Defined.

Lemma token_roundtrip_witness : token_from_str (token_to_string (Historic (-7) 12)) = Ok (Historic (-7) 12).
Proof. apply (token_roundtrip (Historic (-7) 12)). unfold token_ok, I64_MIN, I64_MAX. cbn. lia. Defined.

(** ** The stream *)

Definition ex_stream (limit : nat) :=
  stream_load_pdus st_out_of_fuel 10 (Some "@a:x") "!r:x" None None limit None Backward.
Lemma ex_stream_run limit s :
  is_done (ex_stream limit s) = true ->
  stream_load_pdus st_out_of_fuel 10 (Some "@a:x") "!r:x" None None limit None Backward s
  = (Done (page_of (ex_stream limit s)), snd (ex_stream limit s)).
Proof. apply page_of_run. Qed.
Lemma stream_ends_witness :
  stream_load_pdus st_panic 10 (Some "@a:x") "!r:x" None None 2 None Backward ex_now = ex_stream 2 ex_now.
Proof.
  unfold ex_stream. apply (stream_ends st_panic 10 (Some "@a:x") "!r:x" None None 2 None Backward ex_now).
  apply Nat.ltb_lt. vm_compute. reflexivity.
Defined.

(** ** [/messages] *)

Definition ex_filter : RoomEventFilter :=
  {| rf_not_types := []; rf_not_rooms := []; rf_rooms := None; rf_senders := None; rf_types := None;
     rf_url_filter := None |}.
Definition ex_args : MessagesReqArgs :=
  {| ma_room_id := "!r:x"; ma_from := None; ma_to := None; ma_dir := Backward; ma_limit := 1;
     ma_filter := ex_filter |}.
Definition ex_messages := get_messages ex_conf st_out_of_fuel 10 "@a:x" "D" ex_args.
Definition response_of {S} (r : comp AppError MessagesResBody * S) : MessagesResBody :=
  match fst r with
  | Done r => r
  | _ => {| mr_start := EmptyString; mr_end := None; mr_chunk := []; mr_state := [] |}
  end.
Lemma ex_messages_run s :
  is_done (ex_messages s) = true ->
  get_messages ex_conf st_out_of_fuel 10 "@a:x" "D" ex_args s = (Done (response_of (ex_messages s)), snd (ex_messages s)).
Proof. fold ex_messages. unfold is_done, response_of. by destruct (ex_messages s) as [[] ?]. Qed.
Lemma messages_disclosed_witness :
  mr_end (response_of (ex_messages ex_now)) = Some "t3-2" /\ length (mr_chunk (response_of (ex_messages ex_now))) = 1%nat /\
  exists s1 events s2,
    answers ex_conf "@a:x" "!r:x" LIVE_MAX None 1 ex_filter s1 Backward events s2 /\
    Forall2 (fun e j => exists age, (0 <= age)%Z /\ j = room_event_value (inner e.2) age) events
      (mr_chunk (response_of (ex_messages ex_now))).
Proof.
  split; [vm_compute; reflexivity|]. split; [vm_compute; reflexivity|].
  destruct (messages_disclosed ex_conf 10 "@a:x" "D" ex_args ex_now (response_of (ex_messages ex_now)) (snd (ex_messages ex_now)))
    as (s1 & from & until & events & s2 & _ & _ & Hf & Hu & Ha & He).
  - apply ex_messages_run. vm_compute. reflexivity.
  - cbn in Hf, Hu. subst from until. exists s1, events, s2. split; [exact Ha|exact He].
Defined.

Definition ex_forward :=
  run (enter ex_conf) (messages_page ex_conf st_out_of_fuel 10 "@a:x" "!r:x" (Live 2) None 2 ex_filter Forward).
Definition events_of {S} (r : comp AppError (list (Z * StoredPdu) * option BatchToken) * S) :=
  match fst r with Done l => l | _ => ([], None) end.
Lemma ex_forward_run s :
  is_done (ex_forward s) = true ->
  run (enter ex_conf) (messages_page ex_conf st_out_of_fuel 10 "@a:x" "!r:x" (Live 2) None 2 ex_filter Forward) s
  = (Done ((events_of (ex_forward s)).1, (events_of (ex_forward s)).2), snd (ex_forward s)).
Proof. fold ex_forward. unfold is_done, events_of. by destruct (ex_forward s) as [[[] | | |] ?]. Qed.
Lemma forward_page_repeats_witness :
  exists tk, (events_of (ex_forward ex_now)).2 = Some tk /\
    topo_rows (snd (ex_forward ex_now)) "!r:x" Forward (Some tk) None (Some ex_filter)
    = topo_rows ex_now "!r:x" Forward (Some (Live 2)) None (Some ex_filter).
Proof.
  apply (forward_page_repeats ex_conf 10 "@a:x" "!r:x" (Live 2) None 2 ex_filter ex_now
           (events_of (ex_forward ex_now)).1 (events_of (ex_forward ex_now)).2 (snd (ex_forward ex_now))
           ex_orderly ex_linear).
  - apply ex_forward_run. vm_compute. reflexivity.
  - vm_compute. reflexivity.
  - intros H. apply (f_equal length) in H. vm_compute in H. discriminate H.
Defined.
