(* ===== verification/BackfillExamples.v ===== *)
(** * A room with a gap

    The room of [IncomingExamples] with power levels and an event before those it has;
    another server gives its history when a client reads the room. *)
From S2P Require Import Prelude RustStr BTree Identifiers RoomVersion Json Canonical Redaction Signatures Events Membership EventAuth TopoSort StateRes Effects StateFrames AuthChain Decimal RoomPowerLevels EventStore Calls AppendPdu Incoming StoreHistory Admission Timeline Backfill BackfillSpec IncomingExamples TimelineExamples.
Open Scope string_scope.

#[local] Existing Instances ascii_unicode toy_crypto forward_order ex_frame_cache ex_chain_cache ex_wild.

(** Server [x] answers with the message. *)
#[local] Instance giving_services : Services unit := fun A c =>
  match c in Call A return St unit A with
  | EventStore.Backfill _ _ _ _ => mret (Some [into_json (CObject ex_message)])
  | c => ex_services _ c
  end.

Definition ex_levels : CanonicalJsonObject :=
  ex_sign (ex_event "m.room.power_levels" (Some EmptyString)
             [("users", CObject [("@a:x", CInteger 100)])] ["$j"] ["$c"; "$j"] 3).

(** The room, and an extremity nobody has. *)
Definition ex_gap_setup : St (Store (O := unit)) unit :=
  fc ← on_frames (ensure_field_id "m.room.create" EmptyString);
  fj ← on_frames (ensure_field_id "m.room.member" "@a:x");
  nc ← ensure_event_sn "!r:x" "$c";
  nj ← ensure_event_sn "!r:x" "$j";
  _ ← ex_store "$p" ex_levels [(fc, "$c"); (fj, "$j")];
  fp ← on_frames (ensure_field_id "m.room.power_levels" EmptyString);
  np ← ensure_event_sn "!r:x" "$p";
  delta ← on_frames (save_state "!r:x" {[ compress_event "!r:x" fc nc; compress_event "!r:x" fj nj; compress_event "!r:x" fp np ]});
  _ ← on_frames (set_room_state "!r:x" (di_frame_id delta));
  st_modify (fun s => put_backward_extremities {[ ("!r:x", "$u") ]} s).
Definition ex_gap : Store (O := unit) := snd (ex_gap_setup ex_room).

(** ** The history given enters the timeline *)

Definition ex_ask : MessagesReqArgs :=
  {| ma_room_id := "!r:x"; ma_from := None; ma_to := None; ma_dir := Backward; ma_limit := 10;
     ma_filter := ex_filter |}.
(** The ID of the message given. *)
Definition ex_given : string :=
  match parse_fetched_pdu "!r:x" RV_V10 (into_json (CObject ex_message)) with Ok (id, _) => id | Err _ => EmptyString end.

